(** * TOON codec (src/toon-lib.ts): a shallow embedding and its properties

    The development follows the TypeScript source function by function:
    the quoting policy, the LineWriter-based encoder, the Scanner and the
    Parser of the decoder.

    - Strings are lists of code units below 256 ([list ascii]); white space
      is what [trim] and [\s] take for it in that range, and the line
      terminators are LF and CR (U+2028 and U+2029 are outside it).
    - Numbers are binary64 values ([spec_float] of the Standard Library,
      precision 53, emax 1024); [Number(text)] and [String(number)] follow
      ECMA-262.
    - An object is the list of its own properties in enumeration order, each
      key once; assignment [o[key] = v] is [Obj.set].  Prototypes are not
      modelled: an object inherits nothing, and [noProtoKey] tells the inputs
      on which the source sets none.
    - Arrays have no empty slots; [Sparse] follows the encoder on an array
      of primitives that has some.
    - The encoder threads the LineWriter through its functions; the decoder
      returns [Ok], [Throw] with the error raised, or [OutOfFuel] where the
      recursion of the parser is cut short (a bound of the model, which the
      source does not have).
    - The loops [for (const key of Object.keys(value))] run over the
      properties themselves, [value[key]] being the value next to [key]. *)

From Stdlib Require Import String Ascii Bool Arith ZArith Lia List.
From Stdlib Require Import Floats.SpecFloat DecimalPos DecimalNat.
Import ListNotations.

Set Implicit Arguments.
Local Open Scope list_scope.

(* ================================================================== *)
(** ** JavaScript strings *)
(* ================================================================== *)

Abbreviation str := (list ascii).

(** String literals of the source are written [lit "..."]. *)
Definition lit (s : string) : str := list_ascii_of_string s.

Definition LF : ascii := ascii_of_nat 10.
Definition CR : ascii := ascii_of_nat 13.
Definition TAB : ascii := ascii_of_nat 9.
Definition SPACE : ascii := " "%char.
Definition BACKSLASH : ascii := "\"%char.
Definition DOUBLE_QUOTE : ascii := ascii_of_nat 34.

Definition LIST_ITEM_MARKER : str := lit "-".
Definition LIST_ITEM_PREFIX : str := lit "- ".
Definition COMMA : ascii := ","%char.
Definition DEFAULT_DELIMITER : ascii := ","%char.
Definition NULL_LITERAL : str := lit "null".
Definition TRUE_LITERAL : str := lit "true".
Definition FALSE_LITERAL : str := lit "false".

Module Js.

Definition ch_eqb (a b : ascii) : bool := Ascii.eqb a b.

Fixpoint str_eqb (a b : str) : bool :=
  match a, b with
  | [], [] => true
  | x :: a', y :: b' => ch_eqb x y && str_eqb a' b'
  | _, _ => false
  end.

Definition code (c : ascii) : nat := nat_of_ascii c.

Definition inRange (lo hi c : ascii) : bool :=
  (code lo <=? code c) && (code c <=? code hi).

(** [\d], [\w] and [\s] of a JavaScript regular expression without the
    unicode flag; [\s] is WhiteSpace or LineTerminator, restricted here to
    code units below 256: TAB, LF, VT, FF, CR, SP and NBSP. *)
Definition isDigit (c : ascii) : bool := inRange "0" "9" c.
Definition isUpper (c : ascii) : bool := inRange "A" "Z" c.
Definition isLower (c : ascii) : bool := inRange "a" "z" c.
Definition isWord (c : ascii) : bool :=
  isUpper c || isLower c || isDigit c || ch_eqb c "_".
Definition isWhiteSpace (c : ascii) : bool :=
  let n := code c in
  (9 <=? n) && (n <=? 13) || (n =? 32) || (n =? 160).
(** [.] matches everything but a line terminator: LF and CR among the code
    units below 256 (U+2028 and U+2029, which [.] refuses as well, are not
    among them). *)
Definition isLineTerminator (c : ascii) : bool := ch_eqb c LF || ch_eqb c CR.

Fixpoint dropWhile (p : ascii -> bool) (s : str) : str :=
  match s with
  | [] => []
  | c :: s' => if p c then dropWhile p s' else s
  end.

Fixpoint takeWhile (p : ascii -> bool) (s : str) : str :=
  match s with
  | [] => []
  | c :: s' => if p c then c :: takeWhile p s' else []
  end.

(** String.prototype.trim *)
Definition trimStart (s : str) : str := dropWhile isWhiteSpace s.
Definition trimEnd (s : str) : str := rev (dropWhile isWhiteSpace (rev s)).
Definition trim (s : str) : str := trimEnd (trimStart s).

Fixpoint startsWith (s prefix : str) : bool :=
  match prefix, s with
  | [], _ => true
  | p :: prefix', c :: s' => ch_eqb p c && startsWith s' prefix'
  | _ :: _, [] => false
  end.

Definition endsWith (s suffix : str) : bool := startsWith (rev s) (rev suffix).

(** [s.includes(c)] for a one-character needle. *)
Definition includes (s : str) (c : ascii) : bool := existsb (ch_eqb c) s.

(** String.prototype.substring: both bounds are clamped to the length and
    swapped when the first exceeds the second. *)
Definition substring (s : str) (a b : Z) : str :=
  let n := Z.of_nat (length s) in
  let a' := Z.min (Z.max a 0) n in
  let b' := Z.min (Z.max b 0) n in
  let lo := Z.to_nat (Z.min a' b') in
  let hi := Z.to_nat (Z.max a' b') in
  firstn (hi - lo) (skipn lo s).

Definition substringFrom (s : str) (a : Z) : str :=
  substring s a (Z.of_nat (length s)).

(** [s.split(sep)] for a one-character separator: always at least one piece. *)
Fixpoint split (sep : ascii) (s : str) : list str :=
  match s with
  | [] => [[]]
  | c :: s' =>
      if ch_eqb c sep then [] :: split sep s'
      else match split sep s' with
           | piece :: rest => (c :: piece) :: rest
           | [] => [[c]]
           end
  end.

(** Array.prototype.join *)
Fixpoint join (sep : str) (pieces : list str) : str :=
  match pieces with
  | [] => []
  | [p] => p
  | p :: rest => p ++ sep ++ join sep rest
  end.

(** [' '.repeat(n)] and the like. *)
Fixpoint repeatStr (s : str) (n : nat) : str :=
  match n with
  | O => []
  | S n' => s ++ repeatStr s n'
  end.

(** [s.replace(/c/g, by)] for a one-character pattern. *)
Definition replaceAll (c : ascii) (by_ : str) (s : str) : str :=
  flat_map (fun x => if ch_eqb x c then by_ else [x]) s.

(** Decimal rendering of non-negative integers, as [String(n)] gives it. *)
Fixpoint uintToStr (u : Decimal.uint) : str :=
  match u with
  | Decimal.Nil => []
  | Decimal.D0 u' => "0"%char :: uintToStr u'
  | Decimal.D1 u' => "1"%char :: uintToStr u'
  | Decimal.D2 u' => "2"%char :: uintToStr u'
  | Decimal.D3 u' => "3"%char :: uintToStr u'
  | Decimal.D4 u' => "4"%char :: uintToStr u'
  | Decimal.D5 u' => "5"%char :: uintToStr u'
  | Decimal.D6 u' => "6"%char :: uintToStr u'
  | Decimal.D7 u' => "7"%char :: uintToStr u'
  | Decimal.D8 u' => "8"%char :: uintToStr u'
  | Decimal.D9 u' => "9"%char :: uintToStr u'
  end.

Definition natToString (n : nat) : str := uintToStr (Nat.to_uint n).
Definition posToString (p : positive) : str := uintToStr (Pos.to_uint p).
Definition NToString (n : N) : str := uintToStr (N.to_uint n).

Definition digitVal (c : ascii) : Z := Z.of_nat (code c) - 48.

(** Value of a run of decimal digits. *)
Definition digitsToZ (ds : str) : Z :=
  fold_left (fun acc c => 10 * acc + digitVal c)%Z ds 0%Z.

End Js.

(* ================================================================== *)
(** ** Regular expressions *)
(* ================================================================== *)

(** The anchored patterns [/^...$/] that the source only uses through
    [test] are transcribed as terms of [re] and matched with derivatives. *)
Module Regex.

Inductive re : Type :=
| Nul : re
| Eps : re
| Cls : (ascii -> bool) -> re
| Seq : re -> re -> re
| Alt : re -> re -> re
| Star : re -> re.

Definition Chr (c : ascii) : re := Cls (Js.ch_eqb c).
Definition Opt (r : re) : re := Alt r Eps.
Definition Plus (r : re) : re := Seq r (Star r).
Fixpoint Rep (n : nat) (r : re) : re :=
  match n with
  | O => Eps
  | S n' => Seq r (Rep n' r)
  end.
Definition digit : re := Cls Js.isDigit.

Fixpoint nullable (r : re) : bool :=
  match r with
  | Nul => false
  | Eps => true
  | Cls _ => false
  | Seq a b => nullable a && nullable b
  | Alt a b => nullable a || nullable b
  | Star _ => true
  end.

Fixpoint deriv (c : ascii) (r : re) : re :=
  match r with
  | Nul => Nul
  | Eps => Nul
  | Cls p => if p c then Eps else Nul
  | Seq a b =>
      if nullable a then Alt (Seq (deriv c a) b) (deriv c b)
      else Seq (deriv c a) b
  | Alt a b => Alt (deriv c a) (deriv c b)
  | Star a => Seq (deriv c a) (Star a)
  end.

(** [/^r$/.test(s)] *)
Fixpoint test (r : re) (s : str) : bool :=
  match s with
  | [] => nullable r
  | c :: s' => test (deriv c r) s'
  end.

(** A regular expression that certainly matches nothing. *)
Fixpoint void (r : re) : bool :=
  match r with
  | Nul => true
  | Eps => false
  | Cls _ => false
  | Seq a b => void a || void b
  | Alt a b => void a && void b
  | Star _ => false
  end.

(** The characters that occur in some class of the expression. *)
Fixpoint alphabet (r : re) (c : ascii) : bool :=
  match r with
  | Nul => false
  | Eps => false
  | Cls p => p c
  | Seq a b => alphabet a c || alphabet b c
  | Alt a b => alphabet a c || alphabet b c
  | Star a => alphabet a c
  end.

End Regex.

(* ================================================================== *)
(** ** JavaScript numbers *)
(* ================================================================== *)

(** Numbers are binary64 values.  [Number(text)] and [String(number)] are
    built-ins of the runtime; they are modelled after ECMA-262
    (StringToNumber with round-to-nearest-even, Number::toString with the
    shortest digit string that reads back as the same value). *)
Module JsNumber.

Local Open Scope Z_scope.

Definition prec : Z := 53.
Definition emax : Z := 1024.

Definition sf_eqb (x y : spec_float) : bool :=
  match x, y with
  | S754_zero a, S754_zero b => Bool.eqb a b
  | S754_infinity a, S754_infinity b => Bool.eqb a b
  | S754_nan, S754_nan => true
  | S754_finite a m e, S754_finite b m' e' =>
      Bool.eqb a b && Pos.eqb m m' && Z.eqb e e'
  | _, _ => false
  end.

(** Number.isFinite, Number.isNaN, Object.is(x, -0) *)
Definition isFinite (x : spec_float) : bool :=
  match x with
  | S754_zero _ | S754_finite _ _ _ => true
  | _ => false
  end.
Definition isNaN (x : spec_float) : bool :=
  match x with S754_nan => true | _ => false end.
Definition isNegativeZero (x : spec_float) : bool :=
  match x with S754_zero true => true | _ => false end.

(** The binary64 value nearest to the rational [num / den]. *)
Definition ofRatio (neg : bool) (num den : positive) : spec_float :=
  let '(q, e, l) := SFdiv_core_binary prec emax (Zpos num) 0 (Zpos den) 0 in
  binary_round_aux prec emax neg q e l.

(** The binary64 value nearest to [n * 10 ^ e10]. *)
Definition ofDecimal (neg : bool) (n : Z) (e10 : Z) : spec_float :=
  match n with
  | Zpos p =>
      match e10 with
      | Zneg k => ofRatio neg p (Pos.pow 10 k)
      | Zpos k => ofRatio neg (p * Pos.pow 10 k) 1
      | Z0 => ofRatio neg p 1
      end
  | _ => S754_zero neg
  end.

(** The Number value of an integer ([Number(bigint)], integer literals). *)
Definition ofZ (z : Z) : spec_float :=
  match z with
  | Zneg p => ofDecimal true (Zpos p) 0
  | _ => ofDecimal false z 0
  end.

(** The decimal literals [-?digits(.digits)?([eE][+-]?digits)?] read as
    sign, integer mantissa and decimal exponent. *)
Definition readSign (s : str) : bool * str :=
  match s with
  | c :: s' => if Js.ch_eqb c "-" then (true, s') else (false, s)
  | [] => (false, s)
  end.

Definition readExpSign (s : str) : bool * str :=
  match s with
  | c :: s' =>
      if Js.ch_eqb c "-" then (true, s')
      else if Js.ch_eqb c "+" then (false, s')
      else (false, s)
  | [] => (false, s)
  end.

Definition readExponent (s : str) : option Z :=
  match s with
  | [] => Some 0
  | c :: s' =>
      if Js.ch_eqb c "e" || Js.ch_eqb c "E" then
        let '(eneg, ds) := readExpSign s' in
        match ds with
        | [] => None
        | _ => if forallb Js.isDigit ds
               then Some (if eneg then - Js.digitsToZ ds else Js.digitsToZ ds)
               else None
        end
      else None
  end.

Definition readDecimal (s : str) : option (bool * Z * Z) :=
  let '(neg, s1) := readSign s in
  let ip := Js.takeWhile Js.isDigit s1 in
  let s2 := Js.dropWhile Js.isDigit s1 in
  match ip with
  | [] => None
  | _ =>
      let '(fp, s3) :=
        match s2 with
        | c :: s2' =>
            if Js.ch_eqb c "." then
              (Js.takeWhile Js.isDigit s2', Js.dropWhile Js.isDigit s2')
            else ([], s2)
        | [] => ([], s2)
        end in
      match readExponent s3 with
      | Some e => Some (neg, Js.digitsToZ (ip ++ fp), e - Z.of_nat (length fp))
      | None => None
      end
  end.

(** [Number(text)] on decimal literals; any other text reads as NaN (the
    source only calls it behind the numeric pattern of parsePrimitive). *)
Definition Number (s : str) : spec_float :=
  match readDecimal s with
  | Some (neg, n, e) => ofDecimal neg n e
  | None => S754_nan
  end.

(** *** Number::toString *)

(** [x = num / den] for a positive finite [x = m * 2 ^ e]. *)
Definition ratioOf (m : positive) (e : Z) : positive * positive :=
  match e with
  | Z0 => (m, 1%positive)
  | Zpos k => ((m * Pos.pow 2 k)%positive, 1%positive)
  | Zneg k => (m, Pos.pow 2 k)
  end.

(** [num / den < 10 ^ n] *)
Definition belowPow10 (num den : positive) (n : Z) : bool :=
  match n with
  | Z0 => (num <? den)%positive
  | Zpos k => (num <? den * Pos.pow 10 k)%positive
  | Zneg k => (num * Pos.pow 10 k <? den)%positive
  end.

(** The least [n] with [num / den < 10 ^ n], searched from a first guess:
    down while [num / den < 10 ^ (n - 1)], then up while
    [10 ^ n <= num / den]. *)
Fixpoint searchDown (fuel : nat) (num den : positive) (n : Z) : Z :=
  match fuel with
  | O => n
  | S fuel' =>
      if belowPow10 num den (n - 1) then searchDown fuel' num den (n - 1)
      else n
  end.

Fixpoint searchUp (fuel : nat) (num den : positive) (n : Z) : Z :=
  match fuel with
  | O => n
  | S fuel' =>
      if belowPow10 num den n then n
      else searchUp fuel' num den (n + 1)
  end.

Definition decimalExponent (num den : positive) : Z :=
  let guess :=
    (Zpos (digits2_pos num) - Zpos (digits2_pos den)) * 3 / 10 in
  searchUp 700 num den (searchDown 700 num den guess).

(** [num / den / 10 ^ p] as a fraction. *)
Definition scale10 (num den : positive) (p : Z) : positive * positive :=
  match p with
  | Z0 => (num, den)
  | Zpos k => (num, (den * Pos.pow 10 k)%positive)
  | Zneg k => ((num * Pos.pow 10 k)%positive, den)
  end.

(** Search for the least number [k] of digits: [s] is one of the two
    [k]-digit integers around [x / 10 ^ (n - k)] such that [s * 10 ^ (n - k)]
    reads back as [x]; the closer one is taken, the even one on a tie. *)
Fixpoint shortest (fuel : nat) (k : Z) (x : spec_float)
    (num den : positive) (n : Z) : Z * Z :=
  let p := n - k in
  let '(a, b) := scale10 num den p in
  let lo := Zpos a / Zpos b in
  let hi := lo + 1 in
  let okLo := sf_eqb (ofDecimal false lo p) x in
  let okHi := sf_eqb (ofDecimal false hi p) x in
  (* 2 * (x / 10^p - lo) compared with 1 *)
  let twiceRem := 2 * (Zpos a - lo * Zpos b) in
  let preferHi :=
    match twiceRem ?= Zpos b with
    | Gt => true
    | Lt => false
    | Eq => Z.odd lo
    end in
  let pickHi := if Z.eqb hi (10 ^ k) then (1, n + 1) else (hi, n) in
  match fuel with
  | O => (lo, n)
  | S fuel' =>
      if okLo && okHi then (if preferHi then pickHi else (lo, n))
      else if okLo then (lo, n)
      else if okHi then pickHi
      else shortest fuel' (k + 1) x num den n
  end.

Definition zeros (n : Z) : str := Js.repeatStr (lit "0") (Z.to_nat n).

Definition digitsOfZ (z : Z) : str :=
  match z with
  | Zpos p => Js.posToString p
  | _ => lit "0"
  end.

(** The textual layout of steps 6 to 10 of Number::toString: [ds] are the
    [k] digits of [s], [n] the decimal exponent. *)
Definition layout (ds : str) (n : Z) : str :=
  let k := Z.of_nat (length ds) in
  if (k <=? n) && (n <=? 21) then ds ++ zeros (n - k)
  else if (0 <? n) && (n <=? 21) then
    firstn (Z.to_nat n) ds ++ lit "." ++ skipn (Z.to_nat n) ds
  else if (-6 <? n) && (n <=? 0) then lit "0." ++ zeros (- n) ++ ds
  else
    let e := n - 1 in
    let sign := if e <? 0 then lit "-" else lit "+" in
    let mant :=
      match ds with
      | d :: rest =>
          match rest with
          | [] => ds
          | _ => [d] ++ lit "." ++ rest
          end
      | [] => ds
      end in
    mant ++ lit "e" ++ sign ++ digitsOfZ (Z.abs e).

Definition positiveToString (m : positive) (e : Z) : str :=
  match binary_round prec emax false m e with
  | S754_finite _ m' e' =>
      let x := S754_finite false m' e' in
      let '(num, den) := ratioOf m' e' in
      let n0 := decimalExponent num den in
      let '(s, n) := shortest 17 1 x num den n0 in
      layout (digitsOfZ s) n
  | S754_infinity _ => lit "Infinity"
  | _ => lit "0"
  end.

(** [String(x)] for a number [x]. *)
Definition toString (x : spec_float) : str :=
  match x with
  | S754_nan => lit "NaN"
  | S754_zero _ => lit "0"
  | S754_infinity false => lit "Infinity"
  | S754_infinity true => lit "-Infinity"
  | S754_finite false m e => positiveToString m e
  | S754_finite true m e => lit "-" ++ positiveToString m e
  end.

End JsNumber.

(* ================================================================== *)
(** ** Values *)
(* ================================================================== *)

(** type JsonPrimitive = string | number | boolean | null *)
Inductive JsonPrimitive : Type :=
| PString (s : str)
| PNumber (x : spec_float)
| PBoolean (b : bool)
| PNull.

(** type JsonValue = JsonPrimitive | JsonObject | JsonArray.  An object is
    the list of its own properties in the order Object.keys gives them. *)
#[local] Unset Elimination Schemes.
Inductive JsonValue : Type :=
| JPrim (p : JsonPrimitive)
| JObject (entries : list (str * JsonValue))
| JArray (items : list JsonValue).

Abbreviation JsonObject := (list (str * JsonValue)).
Abbreviation JsonArray := (list JsonValue).

Definition JNull : JsonValue := JPrim PNull.
Definition JBool (b : bool) : JsonValue := JPrim (PBoolean b).
Definition JNumber (x : spec_float) : JsonValue := JPrim (PNumber x).
Definition JString (s : str) : JsonValue := JPrim (PString s).

(** The values [encode] accepts ([unknown] in the source), as far as
    normalizeValue tells them apart.  Date and Map inputs are not modelled;
    [UOther] stands for undefined, functions, symbols and objects with an
    exotic prototype.  An array has no empty slots (see [Sparse] for those),
    and a plain object is the list of its own enumerable properties. *)
Inductive Unknown : Type :=
| UNull
| UString (s : str)
| UBoolean (b : bool)
| UNumber (x : spec_float)
| UBigInt (z : Z)
| UArray (items : list Unknown)
| USet (items : list Unknown)
| UPlainObject (entries : list (str * Unknown))
| UOther.
#[local] Set Elimination Schemes.

Module Obj.

(** Object.keys(o) *)
Definition keys (A : Type) (o : list (str * A)) : list str := map fst o.

(** [o[key]] on own properties: nothing is inherited *)
Fixpoint get (A : Type) (o : list (str * A)) (key : str) : option A :=
  match o with
  | [] => None
  | (k, v) :: o' => if Js.str_eqb k key then Some v else get o' key
  end.

(** [key in o] on own properties: nothing is inherited *)
Definition has (A : Type) (o : list (str * A)) (key : str) : bool :=
  match get o key with Some _ => true | None => false end.

(** An array index is a canonical decimal numeral below 2^32 - 1; such
    keys are enumerated first, in ascending order. *)
Definition arrayIndex (key : str) : option Z :=
  match key with
  | [] => None
  | c :: rest =>
      if forallb Js.isDigit key
         && (negb (Js.ch_eqb c "0") || match rest with [] => true | _ => false end)
         && (length key <=? 10)%nat
         && (Js.digitsToZ key <? 4294967295)%Z
      then Some (Js.digitsToZ key)
      else None
  end.

Fixpoint replace (A : Type) (o : list (str * A)) (key : str) (v : A) : list (str * A) :=
  match o with
  | [] => []
  | (k, x) :: o' =>
      if Js.str_eqb k key then (k, v) :: o' else (k, x) :: replace o' key v
  end.

Fixpoint insertIndex (A : Type) (o : list (str * A)) (i : Z) (key : str) (v : A)
  : list (str * A) :=
  match o with
  | [] => [(key, v)]
  | (k, x) :: o' =>
      match arrayIndex k with
      | Some j => if (j <? i)%Z then (k, x) :: insertIndex o' i key v
                  else (key, v) :: o
      | None => (key, v) :: o
      end
  end.

(** [o[key] = v] on an object created by a literal: an existing property
    keeps its place, an array index goes among the indices, any other key
    goes last.  Assigning to [__proto__] creates no own property: the source
    sets the prototype of [o] there when [v] is an object, and what [o] then
    inherits is not modelled. *)
Definition set (A : Type) (o : list (str * A)) (key : str) (v : A) : list (str * A) :=
  if Js.str_eqb key (lit "__proto__") then o
  else if has o key then replace o key v
  else match arrayIndex key with
       | Some i => insertIndex o i key v
       | None => o ++ [(key, v)]
       end.

(** Object.assign(target, source) *)
Definition assign (A : Type) (target source : list (str * A)) : list (str * A) :=
  fold_left (fun acc kv => set acc (fst kv) (snd kv)) source target.

End Obj.

(* ================================================================== *)
(** ** Normalization *)
(* ================================================================== *)

Definition MAX_SAFE_INTEGER : Z := 9007199254740991.
Definition MIN_SAFE_INTEGER : Z := -9007199254740991.

(** BigInt.prototype.toString *)
Definition bigintToString (z : Z) : str :=
  match z with
  | Z0 => lit "0"
  | Zpos p => Js.posToString p
  | Zneg p => lit "-" ++ Js.posToString p
  end.

Fixpoint normalizeValue (value : Unknown) : JsonValue :=
  match value with
  | UNull => JNull
  | UString s => JString s
  | UBoolean b => JBool b
  | UNumber x =>
      if JsNumber.isNegativeZero x then JNumber (S754_zero false)
      else if negb (JsNumber.isFinite x) then JNull
      else JNumber x
  | UBigInt z =>
      if (MIN_SAFE_INTEGER <=? z)%Z && (z <=? MAX_SAFE_INTEGER)%Z
      then JNumber (JsNumber.ofZ z)
      else JString (bigintToString z)
  | UArray items => JArray (map normalizeValue items)
  | USet items => JArray (map normalizeValue items)
  | UPlainObject entries =>
      JObject (fold_left
                 (fun result kv => Obj.set result (fst kv) (normalizeValue (snd kv)))
                 entries [])
  | UOther => JNull
  end.

Definition isJsonPrimitive (value : JsonValue) : bool :=
  match value with JPrim _ => true | _ => false end.

Definition isJsonArray (value : JsonValue) : bool :=
  match value with JArray _ => true | _ => false end.

Definition isJsonObject (value : JsonValue) : bool :=
  match value with JObject _ => true | _ => false end.

Definition isArrayOfPrimitives (value : JsonArray) : bool :=
  forallb isJsonPrimitive value.

Definition isArrayOfArrays (value : JsonArray) : bool :=
  forallb isJsonArray value.

Definition isArrayOfObjects (value : JsonArray) : bool :=
  forallb isJsonObject value.

(** The casts [as JsonPrimitive], [as JsonPrimitive[]] and [as JsonObject]
    of the source; it applies them to values it has checked. *)
Definition asPrimitive (value : JsonValue) : JsonPrimitive :=
  match value with JPrim p => p | _ => PNull end.
Definition asPrimitives (value : JsonArray) : list JsonPrimitive :=
  map asPrimitive value.
Definition asObject (value : JsonValue) : JsonObject :=
  match value with JObject o => o | _ => [] end.

(* ================================================================== *)
(** ** Quoting and escaping *)
(* ================================================================== *)

Definition escapeString (value : str) : str :=
  Js.replaceAll TAB [BACKSLASH; "t"%char]
    (Js.replaceAll CR [BACKSLASH; "r"%char]
       (Js.replaceAll LF [BACKSLASH; "n"%char]
          (Js.replaceAll DOUBLE_QUOTE [BACKSLASH; DOUBLE_QUOTE]
             (Js.replaceAll BACKSLASH [BACKSLASH; BACKSLASH] value)))).

Definition isBooleanOrNullLiteral (token : str) : bool :=
  Js.str_eqb token TRUE_LITERAL || Js.str_eqb token FALSE_LITERAL
  || Js.str_eqb token NULL_LITERAL.

Module Pattern.
Import Regex.

(** [/^-?\d+(?:\.\d+)?(?:e[+-]?\d+)?$/i] *)
Definition numericLike : re :=
  Seq (Opt (Chr "-"))
    (Seq (Plus digit)
       (Seq (Opt (Seq (Chr ".") (Plus digit)))
          (Opt (Seq (Cls (fun c => Js.ch_eqb c "e" || Js.ch_eqb c "E"))
                  (Seq (Opt (Cls (fun c => Js.ch_eqb c "+" || Js.ch_eqb c "-")))
                     (Plus digit)))))).

(** [/^0\d+$/] *)
Definition leadingZero : re := Seq (Chr "0") (Plus digit).

(** [/^\d{4}-\d{2}-\d{2}T\d{2}:\d{2}:\d{2}(\.\d{3})?Z?$/] *)
Definition isoTimestamp : re :=
  Seq (Rep 4 digit) (Seq (Chr "-") (Seq (Rep 2 digit) (Seq (Chr "-")
    (Seq (Rep 2 digit) (Seq (Chr "T") (Seq (Rep 2 digit) (Seq (Chr ":")
      (Seq (Rep 2 digit) (Seq (Chr ":") (Seq (Rep 2 digit)
        (Seq (Opt (Seq (Chr ".") (Rep 3 digit))) (Opt (Chr "Z"))))))))))))).

(** [/^[A-Z_][\w.]*$/i] *)
Definition unquotedKey : re :=
  Seq (Cls (fun c => Js.isUpper c || Js.isLower c || Js.ch_eqb c "_"))
    (Star (Cls (fun c => Js.isWord c || Js.ch_eqb c "."))).

(** [/^-?(0|[1-9]\d* )(\.\d+)?([eE][+-]?\d+)?$/], printed here with a
    blank after the star *)
Definition strictNumber : re :=
  Seq (Opt (Chr "-"))
    (Seq (Alt (Chr "0") (Seq (Cls (Js.inRange "1" "9")) (Star digit)))
       (Seq (Opt (Seq (Chr ".") (Plus digit)))
          (Opt (Seq (Cls (fun c => Js.ch_eqb c "e" || Js.ch_eqb c "E"))
                  (Seq (Opt (Cls (fun c => Js.ch_eqb c "+" || Js.ch_eqb c "-")))
                     (Plus digit)))))).

(** [/^[\d,\s]+$/] *)
Definition digitsCommasSpaces : re :=
  Plus (Cls (fun c => Js.isDigit c || Js.ch_eqb c "," || Js.isWhiteSpace c)).

End Pattern.

Definition isNumericLike (value : str) : bool :=
  Regex.test Pattern.numericLike value || Regex.test Pattern.leadingZero value.

Definition isISOTimestamp (value : str) : bool :=
  Regex.test Pattern.isoTimestamp value.

(** [/[[\]{}]/.test(value)] and [/[\n\r\t]/.test(value)] *)
Definition hasBracketOrBrace (value : str) : bool :=
  existsb (fun c => Js.ch_eqb c "[" || Js.ch_eqb c "]"
                    || Js.ch_eqb c "{" || Js.ch_eqb c "}") value.
Definition hasControlChar (value : str) : bool :=
  existsb (fun c => Js.ch_eqb c LF || Js.ch_eqb c CR || Js.ch_eqb c TAB) value.

Definition isSafeUnquoted (value : str) (delimiter : ascii) : bool :=
  match value with
  | [] => false
  | _ =>
      if negb (Js.str_eqb value (Js.trim value)) then false
      else if isBooleanOrNullLiteral value || isNumericLike value then false
      else if Js.includes value ":" && negb (isISOTimestamp value) then false
      else if Js.includes value DOUBLE_QUOTE || Js.includes value BACKSLASH then false
      else if hasBracketOrBrace value then false
      else if hasControlChar value then false
      else if Js.includes value delimiter then false
      else if Js.startsWith value LIST_ITEM_MARKER then false
      else true
  end.

Definition encodeStringLiteral (value : str) (delimiter : ascii) : str :=
  if isSafeUnquoted value delimiter then value
  else [DOUBLE_QUOTE] ++ escapeString value ++ [DOUBLE_QUOTE].

Definition encodePrimitive (value : JsonPrimitive) (delimiter : ascii) : str :=
  match value with
  | PNull => NULL_LITERAL
  | PBoolean b => if b then lit "true" else lit "false"
  | PNumber x => JsNumber.toString x
  | PString s => encodeStringLiteral s delimiter
  end.

Definition isValidUnquotedKey (key : str) : bool :=
  Regex.test Pattern.unquotedKey key.

Definition encodeKey (key : str) : str :=
  if isValidUnquotedKey key then key
  else [DOUBLE_QUOTE] ++ escapeString key ++ [DOUBLE_QUOTE].

Definition encodeAndJoinPrimitives (values : list JsonPrimitive) (delimiter : ascii) : str :=
  Js.join [delimiter] (map (fun v => encodePrimitive v delimiter) values).

(* ================================================================== *)
(** ** Encoder *)
(* ================================================================== *)

(** The delimiters the option type admits: [','], ['\t'] and ['|']. *)
Inductive Delimiter : Type := DComma | DTab | DPipe.

Definition delimiterChar (d : Delimiter) : ascii :=
  match d with
  | DComma => ","%char
  | DTab => TAB
  | DPipe => "|"%char
  end.

(** interface EncodeOptions; [lengthMarker] is [Some true] for ['#'] and
    [Some false] for [false]. *)
Module EncodeOptions.
Record t : Type := {
  indent : option nat;
  delimiter : option Delimiter;
  lengthMarker : option bool
}.
End EncodeOptions.

Module ResolvedOptions.
Record t : Type := {
  indent : nat;
  delimiter : ascii;
  lengthMarker : bool
}.
End ResolvedOptions.

Definition formatHeader (length : nat) (key : option str)
    (fields : option (list str)) (delimiter : ascii) (lengthMarker : bool) : str :=
  let header0 :=
    match key with
    | Some (c :: k) => encodeKey (c :: k)
    | _ => []
    end in
  let header1 :=
    header0 ++ lit "[" ++ (if lengthMarker then lit "#" else [])
      ++ Js.natToString length
      ++ (if negb (Js.ch_eqb delimiter DEFAULT_DELIMITER) then [delimiter] else [])
      ++ lit "]" in
  let header2 :=
    match fields with
    | Some fs =>
        let quotedFields := map encodeKey fs in
        header1 ++ lit "{" ++ Js.join [delimiter] quotedFields ++ lit "}"
    | None => header1
    end in
  header2 ++ lit ":".

Module LineWriter.

Record t : Type := {
  lines : list str;
  indentationString : str
}.

Definition new (indentSize : nat) : t :=
  {| lines := []; indentationString := Js.repeatStr [SPACE] indentSize |}.

Definition push (writer : t) (depth : nat) (content : str) : t :=
  let indent := Js.repeatStr (indentationString writer) depth in
  {| lines := lines writer ++ [indent ++ content];
     indentationString := indentationString writer |}.

Definition pushListItem (writer : t) (depth : nat) (content : str) : t :=
  push writer depth (LIST_ITEM_PREFIX ++ content).

Definition toString (writer : t) : str := Js.join [LF] (lines writer).

End LineWriter.

Definition encodeInlineArrayLine (values : list JsonPrimitive) (delimiter : ascii)
    (prefix : option str) (lengthMarker : bool) : str :=
  let header := formatHeader (length values) prefix None delimiter lengthMarker in
  let joinedValue := encodeAndJoinPrimitives values delimiter in
  match values with
  | [] => header
  | _ => header ++ [SPACE] ++ joinedValue
  end.

(** [key in row] and [row[key]] are read on the own properties of the row. *)
Definition isTabularArray (rows : list JsonObject) (header : list str) : bool :=
  forallb
    (fun row =>
       (length (Obj.keys row) =? length header)
       && forallb
            (fun key =>
               match Obj.get row key with
               | Some v => isJsonPrimitive v
               | None => false
               end)
            header)
    rows.

Definition extractTabularHeader (rows : list JsonValue) : option (list str) :=
  match rows with
  | [] => None
  | firstRow :: _ =>
      if negb (isJsonObject firstRow) then None
      else
        let firstKeys := Obj.keys (asObject firstRow) in
        match firstKeys with
        | [] => None
        | _ => if isTabularArray (map asObject rows) firstKeys
               then Some firstKeys else None
        end
  end.

(** [row[key]] is read on the own properties of the row; a key that is
    not there gives undefined, which is never the case after
    isTabularArray. *)
Definition writeTabularRows (rows : list JsonObject) (header : list str)
    (writer : LineWriter.t) (depth : nat) (options : ResolvedOptions.t) : LineWriter.t :=
  fold_left
    (fun w row =>
       let values :=
         map (fun key => match Obj.get row key with
                         | Some v => asPrimitive v
                         | None => PNull
                         end) header in
       let joinedValue :=
         encodeAndJoinPrimitives values (ResolvedOptions.delimiter options) in
       LineWriter.push w depth joinedValue)
    rows writer.

Definition encodeArrayOfObjectsAsTabular (prefix : option str) (rows : list JsonObject)
    (header : list str) (writer : LineWriter.t) (depth : nat)
    (options : ResolvedOptions.t) : LineWriter.t :=
  let headerStr :=
    formatHeader (length rows) prefix (Some header)
      (ResolvedOptions.delimiter options) (ResolvedOptions.lengthMarker options) in
  writeTabularRows rows header (LineWriter.push writer depth headerStr) (depth + 1) options.

Definition encodeArrayOfArraysAsListItems (prefix : option str) (values : list JsonValue)
    (writer : LineWriter.t) (depth : nat) (options : ResolvedOptions.t) : LineWriter.t :=
  let header :=
    formatHeader (length values) prefix None
      (ResolvedOptions.delimiter options) (ResolvedOptions.lengthMarker options) in
  fold_left
    (fun w arr =>
       match arr with
       | JArray a =>
           if isArrayOfPrimitives a then
             LineWriter.pushListItem w (depth + 1)
               (encodeInlineArrayLine (asPrimitives a) (ResolvedOptions.delimiter options)
                  None (ResolvedOptions.lengthMarker options))
           else w
       | _ => w
       end)
    values (LineWriter.push writer depth header).

(** The recursive functions of the encoder call each other through the
    elements of arrays and the properties of objects.  Each is first written
    over the functions it calls ([...With]); the two that recursion goes
    through are then tied together, and the source names are instances. *)
Section OpenEncoder.

Variable encodeKeyValuePair :
  str -> JsonValue -> LineWriter.t -> nat -> ResolvedOptions.t -> LineWriter.t.
Variable encodeListItemValue :
  JsonValue -> LineWriter.t -> nat -> ResolvedOptions.t -> LineWriter.t.

Definition encodeObjectWith (value : JsonObject) (writer : LineWriter.t)
    (depth : nat) (options : ResolvedOptions.t) : LineWriter.t :=
  fold_left
    (fun w kv => encodeKeyValuePair (fst kv) (snd kv) w depth options)
    value writer.

Definition encodeMixedArrayAsListItemsWith (prefix : option str) (items : list JsonValue)
    (writer : LineWriter.t) (depth : nat) (options : ResolvedOptions.t) : LineWriter.t :=
  let header :=
    formatHeader (length items) prefix None
      (ResolvedOptions.delimiter options) (ResolvedOptions.lengthMarker options) in
  fold_left
    (fun w item => encodeListItemValue item w (depth + 1) options)
    items (LineWriter.push writer depth header).

Definition encodeArrayWith (key : option str) (value : JsonArray)
    (writer : LineWriter.t) (depth : nat) (options : ResolvedOptions.t) : LineWriter.t :=
  match value with
  | [] =>
      let header :=
        formatHeader 0 key None
          (ResolvedOptions.delimiter options) (ResolvedOptions.lengthMarker options) in
      LineWriter.push writer depth header
  | _ =>
      if isArrayOfPrimitives value then
        let formatted :=
          encodeInlineArrayLine (asPrimitives value) (ResolvedOptions.delimiter options)
            key (ResolvedOptions.lengthMarker options) in
        LineWriter.push writer depth formatted
      else if isArrayOfArrays value
              && forallb (fun arr => match arr with
                                     | JArray a => isArrayOfPrimitives a
                                     | _ => false
                                     end) value
      then encodeArrayOfArraysAsListItems key value writer depth options
      else if isArrayOfObjects value then
        match extractTabularHeader value with
        | Some header =>
            encodeArrayOfObjectsAsTabular key (map asObject value) header writer depth options
        | None => encodeMixedArrayAsListItemsWith key value writer depth options
        end
      else encodeMixedArrayAsListItemsWith key value writer depth options
  end.

(** In the source the loop over a non-uniform array of objects calls
    encodeObjectAsListItem on each element that is an object; here it goes
    through [encodeListItemValue], which does exactly that on an object. *)
Definition encodeObjectAsListItemWith (obj : JsonObject) (writer : LineWriter.t)
    (depth : nat) (options : ResolvedOptions.t) : LineWriter.t :=
  match obj with
  | [] => LineWriter.push writer depth LIST_ITEM_MARKER
  | (firstKey, firstValue) :: rest =>
      let encodedKey := encodeKey firstKey in
      let delimiter := ResolvedOptions.delimiter options in
      let w1 :=
        match firstValue with
        | JPrim p =>
            LineWriter.pushListItem writer depth
              (encodedKey ++ lit ": " ++ encodePrimitive p delimiter)
        | JArray fv =>
            if isArrayOfPrimitives fv then
              let formatted :=
                encodeInlineArrayLine (asPrimitives fv) delimiter (Some firstKey)
                  (ResolvedOptions.lengthMarker options) in
              LineWriter.pushListItem writer depth formatted
            else if isArrayOfObjects fv then
              match extractTabularHeader fv with
              | Some header =>
                  let headerStr :=
                    formatHeader (length fv) (Some firstKey) (Some header) delimiter
                      (ResolvedOptions.lengthMarker options) in
                  writeTabularRows (map asObject fv) header
                    (LineWriter.pushListItem writer depth headerStr) (depth + 1) options
              | None =>
                  fold_left
                    (fun w item =>
                       if isJsonObject item
                       then encodeListItemValue item w (depth + 1) options
                       else w)
                    fv
                    (LineWriter.pushListItem writer depth
                       (encodedKey ++ lit "[" ++ Js.natToString (length fv) ++ lit "]:"))
              end
            else
              fold_left
                (fun w item => encodeListItemValue item w (depth + 1) options)
                fv
                (LineWriter.pushListItem writer depth
                   (encodedKey ++ lit "[" ++ Js.natToString (length fv) ++ lit "]:"))
        | JObject nested =>
            match nested with
            | [] => LineWriter.pushListItem writer depth (encodedKey ++ lit ":")
            | _ =>
                encodeObjectWith nested
                  (LineWriter.pushListItem writer depth (encodedKey ++ lit ":"))
                  (depth + 2) options
            end
        end in
      fold_left
        (fun w kv => encodeKeyValuePair (fst kv) (snd kv) w (depth + 1) options)
        rest w1
  end.

End OpenEncoder.

Fixpoint encodeKeyValuePair (key : str) (value : JsonValue) (writer : LineWriter.t)
    (depth : nat) (options : ResolvedOptions.t) {struct value} : LineWriter.t :=
  let encodedKey := encodeKey key in
  match value with
  | JPrim p =>
      LineWriter.push writer depth
        (encodedKey ++ lit ": " ++ encodePrimitive p (ResolvedOptions.delimiter options))
  | JArray arr => encodeArrayWith encodeListItemValue (Some key) arr writer depth options
  | JObject obj =>
      match obj with
      | [] => LineWriter.push writer depth (encodedKey ++ lit ":")
      | _ =>
          encodeObjectWith encodeKeyValuePair obj
            (LineWriter.push writer depth (encodedKey ++ lit ":")) (depth + 1) options
      end
  end
with encodeListItemValue (value : JsonValue) (writer : LineWriter.t)
    (depth : nat) (options : ResolvedOptions.t) {struct value} : LineWriter.t :=
  match value with
  | JPrim p =>
      LineWriter.pushListItem writer depth
        (encodePrimitive p (ResolvedOptions.delimiter options))
  | JArray arr =>
      if isArrayOfPrimitives arr then
        let inline :=
          encodeInlineArrayLine (asPrimitives arr) (ResolvedOptions.delimiter options)
            None (ResolvedOptions.lengthMarker options) in
        LineWriter.pushListItem writer depth inline
      else writer
  | JObject obj =>
      encodeObjectAsListItemWith encodeKeyValuePair encodeListItemValue
        obj writer depth options
  end.

Definition encodeObject : JsonObject -> LineWriter.t -> nat -> ResolvedOptions.t -> LineWriter.t :=
  encodeObjectWith encodeKeyValuePair.

Definition encodeMixedArrayAsListItems :
  option str -> list JsonValue -> LineWriter.t -> nat -> ResolvedOptions.t -> LineWriter.t :=
  encodeMixedArrayAsListItemsWith encodeListItemValue.

Definition encodeArray :
  option str -> JsonArray -> LineWriter.t -> nat -> ResolvedOptions.t -> LineWriter.t :=
  encodeArrayWith encodeListItemValue.

Definition encodeObjectAsListItem :
  JsonObject -> LineWriter.t -> nat -> ResolvedOptions.t -> LineWriter.t :=
  encodeObjectAsListItemWith encodeKeyValuePair encodeListItemValue.

Definition encodeValue (value : JsonValue) (options : ResolvedOptions.t) : str :=
  match value with
  | JPrim p => encodePrimitive p (ResolvedOptions.delimiter options)
  | JArray arr =>
      LineWriter.toString
        (encodeArray None arr (LineWriter.new (ResolvedOptions.indent options)) 0 options)
  | JObject obj =>
      LineWriter.toString
        (encodeObject obj (LineWriter.new (ResolvedOptions.indent options)) 0 options)
  end.

Definition resolveEncodeOptions (options : option EncodeOptions.t) : ResolvedOptions.t :=
  {| ResolvedOptions.indent :=
       match options with
       | Some o => match EncodeOptions.indent o with Some n => n | None => 2 end
       | None => 2
       end;
     ResolvedOptions.delimiter :=
       match options with
       | Some o => match EncodeOptions.delimiter o with
                   | Some d => delimiterChar d
                   | None => ","%char
                   end
       | None => ","%char
       end;
     ResolvedOptions.lengthMarker :=
       match options with
       | Some o => match EncodeOptions.lengthMarker o with Some m => m | None => false end
       | None => false
       end |}.

Definition encode (input : Unknown) (options : option EncodeOptions.t) : str :=
  encodeValue (normalizeValue input) (resolveEncodeOptions options).

(* ================================================================== *)
(** ** Arrays with empty slots *)
(* ================================================================== *)

(** The arrays of [Unknown] and [JsonValue] have no empty slots.  An array
    of JavaScript can have some ([[1, , 2]], [new Array(3)]): [length]
    counts them, [map] leaves them empty, [every] passes over them and
    [join] prints the empty string for them.  [Sparse] follows [encode] on
    an array with empty slots whose elements are strings, numbers, booleans
    or null: such an array passes isArrayOfPrimitives, and
    encodeInlineArrayLine writes it. *)
Module Sparse.

(** An array of primitives; [None] is an empty slot. *)
Definition t : Type := list (option JsonPrimitive).

(** The primitive as an input of [encode]. *)
Definition ofPrimitive (p : JsonPrimitive) : Unknown :=
  match p with
  | PString s => UString s
  | PNumber x => UNumber x
  | PBoolean b => UBoolean b
  | PNull => UNull
  end.

(** [value.map(normalizeValue)]: an empty slot stays empty. *)
Definition normalizeValue (value : t) : t :=
  map (option_map (fun p => asPrimitive (normalizeValue (ofPrimitive p)))) value.

(** [values.map((v) => encodePrimitive(v, delimiter)).join(delimiter)]:
    [map] leaves the empty slots empty and [join] prints nothing for them. *)
Definition encodeAndJoinPrimitives (values : t) (delimiter : ascii) : str :=
  Js.join [delimiter]
    (map (fun v => match v with
                   | Some p => encodePrimitive p delimiter
                   | None => []
                   end) values).

Definition encodeInlineArrayLine (values : t) (delimiter : ascii)
    (prefix : option str) (lengthMarker : bool) : str :=
  let header := formatHeader (length values) prefix None delimiter lengthMarker in
  let joinedValue := encodeAndJoinPrimitives values delimiter in
  match values with
  | [] => header
  | _ => header ++ [SPACE] ++ joinedValue
  end.

(** encodeArray: the array is empty, or [value.every(isJsonPrimitive)]
    holds, every element that is there being a primitive. *)
Definition encodeArray (key : option str) (value : t) (writer : LineWriter.t)
    (depth : nat) (options : ResolvedOptions.t) : LineWriter.t :=
  match value with
  | [] =>
      let header :=
        formatHeader 0 key None
          (ResolvedOptions.delimiter options) (ResolvedOptions.lengthMarker options) in
      LineWriter.push writer depth header
  | _ =>
      let formatted :=
        encodeInlineArrayLine value (ResolvedOptions.delimiter options)
          key (ResolvedOptions.lengthMarker options) in
      LineWriter.push writer depth formatted
  end.

Definition encodeValue (value : t) (options : ResolvedOptions.t) : str :=
  LineWriter.toString
    (encodeArray None value (LineWriter.new (ResolvedOptions.indent options)) 0 options).

Definition encode (input : t) (options : option EncodeOptions.t) : str :=
  encodeValue (normalizeValue input) (resolveEncodeOptions options).

End Sparse.

(* ================================================================== *)
(** ** Decoder: errors and tokens *)
(* ================================================================== *)

(** The exceptions the decoder throws, one constructor per message, and
    the TypeError of a property read on undefined.  The RangeError with
    which an engine refuses a call with too many arguments is not among
    them: [shortText] bounds the texts on which [result.push(...values)]
    stays clear of it. *)
Inductive Error : Type :=
| TabInIndentation (lineNum : nat)
| IndentationNotMultiple (lineNum : nat) (indent : Z) (count : Z)
| BlankLineInsideArray (listArray : bool)
| EscapeAtEndOfString
| InvalidEscapeSequence (nextChar : ascii)
| MissingColonAfterKey (key : str)
| MissingColonNestedValue (value : str)
| ArrayLengthMismatch (expected : N) (found : nat)
| TabularRowCountMismatch (expected : N) (found : nat)
| TabularRowValueCountMismatch (expected : nat) (found : nat)
| ListArrayLengthMismatch (expected : N) (found : nat)
| UnterminatedQuotedString
| TypeError.

(** A call returns, throws, or (in the model only) exhausts its fuel. *)
Inductive result (A : Type) : Type :=
| Ok (a : A)
| Throw (e : Error)
| OutOfFuel.
Arguments Ok {A} a.
Arguments Throw {A} e.
Arguments OutOfFuel {A}.

Definition rbind (A B : Type) (r : result A) (k : A -> result B) : result B :=
  match r with
  | Ok a => k a
  | Throw e => Throw e
  | OutOfFuel => OutOfFuel
  end.

Fixpoint rmap (A B : Type) (f : A -> result B) (l : list A) : result (list B) :=
  match l with
  | [] => Ok []
  | a :: l' =>
      rbind (f a) (fun b => rbind (rmap f l') (fun bs => Ok (b :: bs)))
  end.

Module DecodeOptions.
Record t : Type := {
  strict : option bool;
  indent : option Z
}.
End DecodeOptions.

Inductive TokenType : Type :=
| KEY | VALUE | COLON | ARRAY_HEADER | LIST_ITEM | NEWLINE | EOF.

Definition TokenType_eqb (a b : TokenType) : bool :=
  match a, b with
  | KEY, KEY | VALUE, VALUE | COLON, COLON | ARRAY_HEADER, ARRAY_HEADER
  | LIST_ITEM, LIST_ITEM | NEWLINE, NEWLINE | EOF, EOF => true
  | _, _ => false
  end.

(** Token['arrayInfo'].  [length] is the integer parseInt reads. *)
Module ArrayInfo.
Record t : Type := {
  key : option str;
  length : N;
  fields : option (list str);
  delimiter : ascii;
  inlineValues : option str
}.
End ArrayInfo.

Module Token.
Record t : Type := {
  type : TokenType;
  value : str;
  indent : Z;
  line : nat;
  arrayInfo : option ArrayInfo.t;
  hadTabIndent : bool
}.
End Token.

Module IndentInfo.
Record t : Type := {
  count : Z;
  hadTabIndent : bool
}.
End IndentInfo.

(* ================================================================== *)
(** ** Decoder: helpers shared by Scanner and Parser *)
(* ================================================================== *)

(** Scanner and Parser each carry a copy of findMainColon, splitByDelimiter,
    unescapeKey and unescapeString, and of the array header pattern; the
    copies are identical, so each is modelled once. *)

Fixpoint findMainColonFrom (s : str) (i : nat) (inQuotes escapeNext : bool) : option nat :=
  match s with
  | [] => None
  | char :: s' =>
      if escapeNext then findMainColonFrom s' (S i) inQuotes false
      else if Js.ch_eqb char BACKSLASH then findMainColonFrom s' (S i) inQuotes true
      else if Js.ch_eqb char DOUBLE_QUOTE then findMainColonFrom s' (S i) (negb inQuotes) false
      else if negb inQuotes && Js.ch_eqb char ":" then Some i
      else findMainColonFrom s' (S i) inQuotes false
  end.

(** Returns the index of the first colon outside quotes, [None] for -1. *)
Definition findMainColon (s : str) : option nat := findMainColonFrom s 0 false false.

Fixpoint splitByDelimiterFrom (s : str) (delimiter : ascii)
    (result : list str) (current : str) (inQuotes escapeNext : bool) : list str :=
  match s with
  | [] => match current with [] => result | _ => result ++ [current] end
  | char :: s' =>
      if escapeNext then
        splitByDelimiterFrom s' delimiter result (current ++ [char]) inQuotes false
      else if Js.ch_eqb char BACKSLASH then
        splitByDelimiterFrom s' delimiter result (current ++ [char]) inQuotes true
      else if Js.ch_eqb char DOUBLE_QUOTE then
        splitByDelimiterFrom s' delimiter result (current ++ [char]) (negb inQuotes) false
      else if negb inQuotes && Js.ch_eqb char delimiter then
        splitByDelimiterFrom s' delimiter (result ++ [current]) [] inQuotes false
      else
        splitByDelimiterFrom s' delimiter result (current ++ [char]) inQuotes false
  end.

Definition splitByDelimiter (s : str) (delimiter : ascii) : list str :=
  splitByDelimiterFrom s delimiter [] [] false false.

Fixpoint unescapeString (s : str) : result str :=
  match s with
  | [] => Ok []
  | c :: s' =>
      if Js.ch_eqb c BACKSLASH then
        match s' with
        | [] => Throw EscapeAtEndOfString
        | nextChar :: s'' =>
            if Js.ch_eqb nextChar "n" then rbind (unescapeString s'') (fun r => Ok (LF :: r))
            else if Js.ch_eqb nextChar "r" then rbind (unescapeString s'') (fun r => Ok (CR :: r))
            else if Js.ch_eqb nextChar "t" then rbind (unescapeString s'') (fun r => Ok (TAB :: r))
            else if Js.ch_eqb nextChar DOUBLE_QUOTE then
              rbind (unescapeString s'') (fun r => Ok (DOUBLE_QUOTE :: r))
            else if Js.ch_eqb nextChar BACKSLASH then
              rbind (unescapeString s'') (fun r => Ok (BACKSLASH :: r))
            else Throw (InvalidEscapeSequence nextChar)
        end
      else rbind (unescapeString s') (fun r => Ok (c :: r))
  end.

Definition unescapeKey (key : str) : result str :=
  if Js.startsWith key [DOUBLE_QUOTE] && Js.endsWith key [DOUBLE_QUOTE]
  then unescapeString (Js.substring key 1 (Z.of_nat (length key) - 1))
  else Ok key.

(** The groups of the array header pattern, in its order: an optional key
    (one or more characters other than square brackets), an opening bracket,
    an optional hash sign, the length digits, an optional delimiter (comma,
    tab or bar), a closing bracket, an optional field list in braces (one or
    more characters other than a closing brace), a colon, white space, and
    the rest of the line, which holds no line terminator.
    Every repetition of the pattern is followed by a character outside its
    class, so matching needs no backtracking. *)
Module HeaderMatch.
Record t : Type := {
  key : option str;
  lengthStr : str;
  delimiterInHeader : option ascii;
  fieldsStr : option str;
  valueAfter : str
}.
End HeaderMatch.

Definition notBracket (c : ascii) : bool :=
  negb (Js.ch_eqb c "[" || Js.ch_eqb c "]").

Definition isHeaderDelimiter (c : ascii) : bool :=
  Js.ch_eqb c "," || Js.ch_eqb c TAB || Js.ch_eqb c "|".

Definition matchArrayPattern (s : str) : option HeaderMatch.t :=
  let key := Js.takeWhile notBracket s in
  match Js.dropWhile notBracket s with
  | open :: r2 =>
      if negb (Js.ch_eqb open "[") then None else
      let r3 := match r2 with
                | c :: r => if Js.ch_eqb c "#" then r else r2
                | [] => r2
                end in
      let digits := Js.takeWhile Js.isDigit r3 in
      let r4 := Js.dropWhile Js.isDigit r3 in
      match digits with
      | [] => None
      | _ =>
          let '(delim, r5) :=
            match r4 with
            | c :: r => if isHeaderDelimiter c then (Some c, r) else (None, r4)
            | [] => (None, r4)
            end in
          match r5 with
          | close :: r6 =>
              if negb (Js.ch_eqb close "]") then None else
              let afterFields :=
                match r6 with
                | c :: r =>
                    if Js.ch_eqb c "{" then
                      let fs := Js.takeWhile (fun x => negb (Js.ch_eqb x "}")) r in
                      match fs, Js.dropWhile (fun x => negb (Js.ch_eqb x "}")) r with
                      | _ :: _, _ :: r7 => Some (Some fs, r7)
                      | _, _ => None
                      end
                    else Some (None, r6)
                | [] => Some (None, r6)
                end in
              match afterFields with
              | Some (fieldsStr, colon :: r8) =>
                  if negb (Js.ch_eqb colon ":") then None else
                  let v := Js.dropWhile Js.isWhiteSpace r8 in
                  if existsb Js.isLineTerminator v then None
                  else Some {| HeaderMatch.key := match key with [] => None | _ => Some key end;
                               HeaderMatch.lengthStr := digits;
                               HeaderMatch.delimiterInHeader := delim;
                               HeaderMatch.fieldsStr := fieldsStr;
                               HeaderMatch.valueAfter := v |}
              | _ => None
              end
          | [] => None
          end
      end
  | [] => None
  end.

(** [key?.trim() || undefined] *)
Definition trimmedKey (key : option str) : option str :=
  match key with
  | Some k => match Js.trim k with [] => None | t => Some t end
  | None => None
  end.

Definition headerDelimiter (m : HeaderMatch.t) : ascii :=
  match HeaderMatch.delimiterInHeader m with
  | Some d => d
  | None => ","%char
  end.

(** [parseInt(lengthStr, 10)] on a run of digits: the integer itself,
    where parseInt rounds a numeral above 2^53 to the nearest double. *)
Definition headerLength (m : HeaderMatch.t) : N :=
  Z.to_N (Js.digitsToZ (HeaderMatch.lengthStr m)).

Definition headerFields (m : HeaderMatch.t) : result (option (list str)) :=
  match HeaderMatch.fieldsStr m with
  | Some fieldsStr =>
      rbind (rmap (fun f => unescapeKey (Js.trim f))
               (splitByDelimiter fieldsStr (headerDelimiter m)))
            (fun fs => Ok (Some fs))
  | None => Ok None
  end.

(* ================================================================== *)
(** ** Decoder: Scanner *)
(* ================================================================== *)

Module Scanner.

(** The options as the constructor resolves them:
    [strict: options.strict ?? true, indent: options.indent ?? 2]. *)
Record Options : Type := {
  strict : bool;
  indent : Z
}.

Definition resolve (options : option DecodeOptions.t) : Options :=
  match options with
  | Some o =>
      {| strict := match DecodeOptions.strict o with Some b => b | None => true end;
         indent := match DecodeOptions.indent o with Some n => n | None => 2%Z end |}
  | None => {| strict := true; indent := 2%Z |}
  end.

Section WithOptions.

Variable options : Options.

Fixpoint getIndentFrom (line : str) (lineNum : nat) (count : Z) (hadTabIndent : bool)
  : result IndentInfo.t :=
  match line with
  | [] => Ok {| IndentInfo.count := count; IndentInfo.hadTabIndent := hadTabIndent |}
  | char :: line' =>
      if Js.ch_eqb char SPACE then getIndentFrom line' lineNum (count + 1) hadTabIndent
      else if Js.ch_eqb char TAB then
        if strict options then Throw (TabInIndentation lineNum)
        else getIndentFrom line' lineNum count true
      else Ok {| IndentInfo.count := count; IndentInfo.hadTabIndent := hadTabIndent |}
  end.

Definition getIndent (line : str) (lineNum : nat) : result IndentInfo.t :=
  rbind (getIndentFrom line lineNum 0 false)
    (fun info =>
       let count := IndentInfo.count info in
       if strict options && (0 <? count)%Z
          && negb (Z.eqb (Z.rem count (indent options)) 0)
       then Throw (IndentationNotMultiple lineNum (indent options) count)
       else Ok info).

Definition parseArrayHeader (s : str) : result (option ArrayInfo.t) :=
  match matchArrayPattern s with
  | None => Ok None
  | Some m =>
      rbind (headerFields m)
        (fun fields =>
           Ok (Some {| ArrayInfo.key := trimmedKey (HeaderMatch.key m);
                       ArrayInfo.length := headerLength m;
                       ArrayInfo.fields := fields;
                       ArrayInfo.delimiter := headerDelimiter m;
                       ArrayInfo.inlineValues :=
                         match Js.trim (HeaderMatch.valueAfter m) with
                         | [] => None
                         | v => Some v
                         end |}))
  end.

Definition isBlank (line : str) : bool :=
  match Js.trim line with [] => true | _ => false end.

(** The first line that is not blank, with its index. *)
Fixpoint nextNonBlank (lines : list str) (index : nat) : option (str * nat) :=
  match lines with
  | [] => None
  | line :: lines' =>
      if isBlank line then nextNonBlank lines' (S index) else Some (line, index)
  end.

Definition mkToken (type : TokenType) (value : str) (indent : Z) (line : nat)
    (arrayInfo : option ArrayInfo.t) (hadTabIndent : bool) : Token.t :=
  {| Token.type := type; Token.value := value; Token.indent := indent;
     Token.line := line; Token.arrayInfo := arrayInfo;
     Token.hadTabIndent := hadTabIndent |}.

Definition lastIsListItem (tokens : list Token.t) : bool :=
  match rev tokens with
  | t :: _ => TokenType_eqb (Token.type t) LIST_ITEM
  | [] => false
  end.

(** The tokens of one line that is not blank. *)
Definition scanLine (trimmed : str) (indent : Z) (i : nat) (hadTabIndent : bool)
  : result (list Token.t) :=
  if Js.startsWith trimmed (lit "- ") then
    Ok [mkToken LIST_ITEM (Js.substringFrom trimmed 2) indent i None hadTabIndent]
  else
    rbind (parseArrayHeader trimmed) (fun arrayHeaderMatch =>
    match arrayHeaderMatch with
    | Some info => Ok [mkToken ARRAY_HEADER trimmed indent i (Some info) hadTabIndent]
    | None =>
        let plain := Ok [mkToken VALUE trimmed indent i None hadTabIndent] in
        if Js.includes trimmed ":" then
          match findMainColon trimmed with
          | Some colonIndex =>
              let key := Js.trim (Js.substring trimmed 0 (Z.of_nat colonIndex)) in
              let value := Js.trim (Js.substringFrom trimmed (Z.of_nat colonIndex + 1)) in
              let isQuotedKey :=
                Js.startsWith key [DOUBLE_QUOTE] && Js.endsWith key [DOUBLE_QUOTE] in
              let looksLikeKeyValue :=
                isQuotedKey
                || (negb (Js.includes key ",") && (length key <? 100)
                    && negb (Regex.test Pattern.digitsCommasSpaces key)) in
              if looksLikeKeyValue then
                rbind (unescapeKey key) (fun k =>
                  Ok ([mkToken KEY k indent i None hadTabIndent;
                       mkToken COLON (lit ":") indent i None hadTabIndent]
                      ++ match value with
                         | [] => []
                         | _ => [mkToken VALUE value indent i None hadTabIndent]
                         end))
              else plain
          | None => plain
          end
        else plain
    end).

(** The loop of [scan] over the lines from index [i] on. *)
Fixpoint scanFrom (lines : list str) (i : nat) (tokens : list Token.t)
    (insideArray : bool) (arrayIndent : Z) : result (list Token.t) :=
  match lines with
  | [] => Ok tokens
  | line :: lines' =>
      if isBlank line then
        rbind
          (if strict options && insideArray then
             match nextNonBlank lines' (i + 1) with
             | Some (nextLine, nextLineIndex) =>
                 rbind (getIndent nextLine (nextLineIndex + 1)) (fun nextIndent =>
                   if (arrayIndent <? IndentInfo.count nextIndent)%Z
                   then Throw (BlankLineInsideArray (lastIsListItem tokens))
                   else Ok tt)
             | None => Ok tt
             end
           else Ok tt)
          (fun _ => scanFrom lines' (S i) tokens insideArray arrayIndent)
      else
        rbind (getIndent line (i + 1)) (fun indentInfo =>
        let indent := IndentInfo.count indentInfo in
        let hadTabIndent := IndentInfo.hadTabIndent indentInfo in
        let trimmed := Js.trim line in
        rbind (parseArrayHeader trimmed) (fun arrayCheck =>
        let '(insideArray', arrayIndent') :=
          match arrayCheck with
          | Some _ => (true, indent)
          | None =>
              if insideArray && (indent <=? arrayIndent)%Z then (false, (-1)%Z)
              else (insideArray, arrayIndent)
          end in
        rbind (scanLine trimmed indent i hadTabIndent) (fun ts =>
        scanFrom lines' (S i) (tokens ++ ts) insideArray' arrayIndent')))
  end.

Definition scan (input : str) : result (list Token.t) :=
  let lines := Js.split LF input in
  rbind (scanFrom lines 0 [] false (-1)%Z) (fun tokens =>
    Ok (tokens ++ [mkToken EOF [] 0%Z (length lines) None false])).

End WithOptions.

End Scanner.

(* ================================================================== *)
(** ** Decoder: Parser *)
(* ================================================================== *)

Module Parser.

(** The fields of the class: the token array and the position in it. *)
Record State : Type := {
  tokens : list Token.t;
  position : nat
}.

(** A method reads and updates the fields and may throw. *)
Definition M (A : Type) : Type := State -> result (A * State).

Definition ret (A : Type) (a : A) : M A := fun st => Ok (a, st).

Definition bind (A B : Type) (m : M A) (k : A -> M B) : M B :=
  fun st =>
    match m st with
    | Ok (a, st') => k a st'
    | Throw e => Throw e
    | OutOfFuel => OutOfFuel
    end.

Definition throw (A : Type) (e : Error) : M A := fun _ => Throw e.
Definition outOfFuel (A : Type) : M A := fun _ => OutOfFuel.
Arguments throw {A} e.
Arguments outOfFuel {A}.

Definition lift (A : Type) (r : result A) : M A :=
  fun st =>
    match r with
    | Ok a => Ok (a, st)
    | Throw e => Throw e
    | OutOfFuel => OutOfFuel
    end.

Declare Scope parser_scope.
Delimit Scope parser_scope with parser.
Notation "x <- c ;; k" := (bind c (fun x => k))
  (at level 61, c at next level, right associativity) : parser_scope.
Notation "c ;;; k" := (bind c (fun _ => k))
  (at level 61, right associativity) : parser_scope.
Local Open Scope parser_scope.

(** [this.tokens[this.position]], [None] for undefined *)
Definition current : M (option Token.t) :=
  fun st => Ok (nth_error (tokens st) (position st), st).

(** [this.position++] *)
Definition advance : M unit :=
  fun st => Ok (tt, {| tokens := tokens st; position := S (position st) |}).

(** [this.position < this.tokens.length] *)
Definition inBounds : M bool :=
  fun st => Ok ((position st <? length (tokens st))%nat, st).

(** [tokens[tempPos]] for the look-ahead of parseArray *)
Definition tokensFrom : M (list Token.t) :=
  fun st => Ok (skipn (position st) (tokens st), st).

Fixpoint setNth (A : Type) (l : list A) (n : nat) (x : A) : list A :=
  match l, n with
  | [], _ => []
  | _ :: l', O => x :: l'
  | y :: l', S n' => y :: setNth l' n' x
  end.

(** [this.position--; this.tokens[this.position] = token] *)
Definition inject (token : Token.t) : M unit :=
  fun st =>
    let p := Nat.pred (position st) in
    Ok (tt, {| tokens := setNth (tokens st) p token; position := p |}).

Definition typeIs (t : option Token.t) (ty : TokenType) : bool :=
  match t with
  | Some tok => TokenType_eqb (Token.type tok) ty
  | None => false
  end.

(** The copies of the helpers *)
Definition findMainColon := findMainColon.
Definition splitByDelimiter := splitByDelimiter.
Definition unescapeKey := unescapeKey.
Definition unescapeString := unescapeString.

Definition parsePrimitive (value : str) : result JsonPrimitive :=
  let trimmed := Js.trim value in
  if Js.str_eqb trimmed (lit "null") then Ok PNull
  else if Js.str_eqb trimmed (lit "true") then Ok (PBoolean true)
  else if Js.str_eqb trimmed (lit "false") then Ok (PBoolean false)
  else if Regex.test Pattern.strictNumber trimmed
          && negb (JsNumber.isNaN (JsNumber.Number trimmed))
          && JsNumber.isFinite (JsNumber.Number trimmed)
  then Ok (PNumber (JsNumber.Number trimmed))
  else if Js.startsWith trimmed [DOUBLE_QUOTE] then
    if negb (Js.endsWith trimmed [DOUBLE_QUOTE]) || (length trimmed <? 2)%nat
    then Throw UnterminatedQuotedString
    else rbind (unescapeString (Js.substring trimmed 1 (Z.of_nat (length trimmed) - 1)))
           (fun s => Ok (PString s))
  else Ok (PString trimmed).

(** The result of parseArrayHeaderString *)
Module HeaderInfo.
Record t : Type := {
  key : option str;
  length : N;
  fields : option (list str);
  delimiter : ascii;
  valuesStr : str
}.
End HeaderInfo.

Definition parseArrayHeaderString (s : str) : result (option HeaderInfo.t) :=
  match matchArrayPattern s with
  | None => Ok None
  | Some m =>
      rbind (headerFields m)
        (fun fields =>
           Ok (Some {| HeaderInfo.key := trimmedKey (HeaderMatch.key m);
                       HeaderInfo.length := headerLength m;
                       HeaderInfo.fields := fields;
                       HeaderInfo.delimiter := headerDelimiter m;
                       HeaderInfo.valuesStr := HeaderMatch.valueAfter m |}))
  end.

Definition nonEmptyFields (fields : option (list str)) : bool :=
  match fields with
  | Some (_ :: _) => true
  | _ => false
  end.

Definition parsePrimitives (values : list str) : result JsonArray :=
  rmap (fun v => rbind (parsePrimitive (Js.trim v)) (fun p => Ok (JPrim p))) values.

Definition parseInlineArray (info : HeaderInfo.t) : result JsonArray :=
  let values := splitByDelimiter (HeaderInfo.valuesStr info) (HeaderInfo.delimiter info) in
  if nonEmptyFields (HeaderInfo.fields info) then Ok []
  else parsePrimitives values.

(** The look-ahead of parseArray: the VALUE tokens deeper than the header
    that follow each other from the current position. *)
Fixpoint countRows (ts : list Token.t) (arrayIndent : Z) : nat :=
  match ts with
  | [] => 0
  | token :: ts' =>
      if TokenType_eqb (Token.type token) EOF then 0
      else if (Token.indent token <=? arrayIndent)%Z then 0
      else if TokenType_eqb (Token.type token) VALUE then S (countRows ts' arrayIndent)
      else 0
  end.

(** [values[j]?.trim() || ''] *)
Definition cellAt (values : list str) (j : nat) : str :=
  match nth_error values j with
  | Some v => Js.trim v
  | None => []
  end.

Fixpoint parseCells (fields : list str) (values : list str) (j : nat) (obj : JsonObject)
  : result JsonObject :=
  match fields with
  | [] => Ok obj
  | field :: fields' =>
      rbind (parsePrimitive (cellAt values j)) (fun p =>
        parseCells fields' values (S j) (Obj.set obj field (JPrim p)))
  end.

(** The loop [for (let i = 0; i < length; i++)] over the rows of a tabular
    array; [n] is the number of iterations left. *)
Fixpoint parseRows (n : nat) (fields : list str) (delimiter : ascii) (arrayIndent : Z)
    (result : JsonArray) : M JsonArray :=
  match n with
  | O => ret result
  | S n' =>
      rowToken <- current ;;
      match rowToken with
      | None => ret result
      | Some tok =>
          if TokenType_eqb (Token.type tok) EOF then ret result
          else if (Token.indent tok <=? arrayIndent)%Z then ret result
          else if TokenType_eqb (Token.type tok) VALUE then
            let values := splitByDelimiter (Token.value tok) delimiter in
            if negb (length values =? length fields)%nat then
              throw (TabularRowValueCountMismatch (length fields) (length values))
            else
              obj <- lift (parseCells fields values 0 []) ;;
              advance ;;;
              parseRows n' fields delimiter arrayIndent (result ++ [JObject obj])
          else ret result
      end
  end.

(** [items.some(item => isJsonObject(item) &&
     Object.values(item).some(v => isJsonArray(v)))] *)
Definition hasComplexNesting (items : JsonArray) : bool :=
  existsb (fun item =>
             match item with
             | JObject o => existsb (fun kv => isJsonArray (snd kv)) o
             | _ => false
             end) items.

Definition indentOf (t : option Token.t) : option Z :=
  match t with
  | Some tok => Some (Token.indent tok)
  | None => None
  end.

Definition deeperThan (t : option Token.t) (indent : Z) : bool :=
  match t with
  | Some tok => (indent <? Token.indent tok)%Z
  | None => false
  end.

(** [nextToken?.type === 'KEY' && nextToken?.hadTabIndent === true &&
     nextToken?.indent === token.indent] *)
Definition isTabSibling (nextToken : option Token.t) (token : Token.t) : bool :=
  match nextToken with
  | Some n =>
      TokenType_eqb (Token.type n) KEY && Token.hadTabIndent n
      && Z.eqb (Token.indent n) (Token.indent token)
  | None => false
  end.

(** [base === 0 && nextToken?.indent === 0 && nextToken?.type === 'KEY' &&
     nextToken?.hadTabIndent !== true] *)
Definition isCompactNested (base : Z) (nextToken : option Token.t) : bool :=
  match nextToken with
  | Some n =>
      Z.eqb base 0 && Z.eqb (Token.indent n) 0
      && TokenType_eqb (Token.type n) KEY && negb (Token.hadTabIndent n)
  | None => false
  end.

(** [!nextToken || nextToken.type === 'EOF' || nextToken.indent > token.indent] *)
Definition opensBlock (nextToken : option Token.t) (token : Token.t) : bool :=
  match nextToken with
  | None => true
  | Some n =>
      TokenType_eqb (Token.type n) EOF || (Token.indent token <? Token.indent n)%Z
  end.

(** [nextToken?.indent ?? token.indent + 1] *)
Definition nextIndentOf (nextToken : option Token.t) (token : Token.t) : Z :=
  match nextToken with
  | Some n => Token.indent n
  | None => (Token.indent token + 1)%Z
  end.

Definition syntheticHeader (value : str) (indent : Z) (line : nat)
    (key : option str) (info : HeaderInfo.t) : Token.t :=
  {| Token.type := ARRAY_HEADER;
     Token.value := value;
     Token.indent := indent;
     Token.line := line;
     Token.arrayInfo :=
       Some {| ArrayInfo.key := key;
               ArrayInfo.length := HeaderInfo.length info;
               ArrayInfo.fields := HeaderInfo.fields info;
               ArrayInfo.delimiter := HeaderInfo.delimiter info;
               ArrayInfo.inlineValues := None |};
     Token.hadTabIndent := false |}.

(** [nextToken && nextToken.indent > itemIndent &&
     (nextToken.type === 'KEY' || nextToken.type === 'ARRAY_HEADER')] *)
Definition hasMoreProperties (nextToken : option Token.t) (itemIndent : Z) : bool :=
  deeperThan nextToken itemIndent
  && (typeIs nextToken KEY || typeIs nextToken ARRAY_HEADER).

Definition nonEmpty (s : str) : bool :=
  match s with [] => false | _ => true end.

(** [token.arrayInfo?.key] when it is truthy *)
Definition headerKey (token : Token.t) : option str :=
  match Token.arrayInfo token with
  | Some ai =>
      match ArrayInfo.key ai with
      | Some (c :: k) => Some (c :: k)
      | _ => None
      end
  | None => None
  end.

(** [match && match.key] and [match && !match.key] on a header string *)
Definition keyOfMatch (m : option HeaderInfo.t) : option str :=
  match m with
  | Some i =>
      match HeaderInfo.key i with
      | Some (c :: k) => Some (c :: k)
      | _ => None
      end
  | None => None
  end.

Definition unkeyedMatch (m : option HeaderInfo.t) : option HeaderInfo.t :=
  match m, keyOfMatch m with
  | Some i, None => Some i
  | _, _ => None
  end.

Definition valueOf (t : option Token.t) : str :=
  match t with
  | Some tok => Token.value tok
  | None => []
  end.

Definition indentOr0 (t : option Token.t) : Z :=
  match t with
  | Some tok => Token.indent tok
  | None => 0%Z
  end.

(** parseObject, parseArray and parseListItems call each other; the loops
    of parseObject and parseListItems carry their [result].  [fuel] bounds
    the nesting of calls and iterations. *)
Fixpoint parseObjectLoop (fuel : nat) (baseIndent : Z) (result : JsonObject)
    {struct fuel} : M JsonObject :=
  match fuel with
  | O => outOfFuel
  | S fuel' =>
      more <- inBounds ;;
      token <- current ;;
      match token with
      | None => ret result
      | Some token =>
          if negb more then ret result
          else if TokenType_eqb (Token.type token) EOF then ret result
          else if (Token.indent token <? baseIndent)%Z then ret result
          else if (baseIndent <? Token.indent token)%Z && (0 <? baseIndent)%Z then ret result
          else if TokenType_eqb (Token.type token) KEY then
            let key := Token.value token in
            advance ;;;
            colonToken <- current ;;
            if negb (typeIs colonToken COLON) then throw (MissingColonAfterKey key)
            else
              advance ;;;
              nextToken <- current ;;
              if typeIs nextToken VALUE && deeperThan nextToken (Token.indent token) then
                throw (MissingColonNestedValue (valueOf nextToken))
              else if isTabSibling nextToken token then
                parseObjectLoop fuel' baseIndent (Obj.set result key (JObject []))
              else if opensBlock nextToken token || isCompactNested baseIndent nextToken then
                let nextIndent := nextIndentOf nextToken token in
                if typeIs nextToken ARRAY_HEADER then
                  a <- parseArray fuel' ;;
                  parseObjectLoop fuel' baseIndent (Obj.set result key (JArray a))
                else if typeIs nextToken LIST_ITEM then
                  a <- parseListItemsLoop fuel' nextIndent [] ;;
                  parseObjectLoop fuel' baseIndent (Obj.set result key (JArray a))
                else if typeIs nextToken KEY then
                  o <- parseObjectLoop fuel' nextIndent [] ;;
                  parseObjectLoop fuel' baseIndent (Obj.set result key (JObject o))
                else
                  parseObjectLoop fuel' baseIndent (Obj.set result key (JObject []))
              else if typeIs nextToken VALUE then
                p <- lift (parsePrimitive (valueOf nextToken)) ;;
                advance ;;;
                parseObjectLoop fuel' baseIndent (Obj.set result key (JPrim p))
              else if typeIs nextToken ARRAY_HEADER then
                a <- parseArray fuel' ;;
                parseObjectLoop fuel' baseIndent (Obj.set result key (JArray a))
              else parseObjectLoop fuel' baseIndent result
          else
            match (if TokenType_eqb (Token.type token) ARRAY_HEADER
                   then headerKey token else None) with
            | Some key =>
                a <- parseArray fuel' ;;
                parseObjectLoop fuel' baseIndent (Obj.set result key (JArray a))
            | None => ret result
            end
      end
  end

with parseArray (fuel : nat) {struct fuel} : M JsonArray :=
  match fuel with
  | O => outOfFuel
  | S fuel' =>
      headerToken <- current ;;
      match headerToken with
      | None => throw TypeError
      | Some headerToken =>
          match Token.arrayInfo headerToken with
          | None => advance ;;; ret []
          | Some info =>
              let length := ArrayInfo.length info in
              let fields := ArrayInfo.fields info in
              let delimiter := ArrayInfo.delimiter info in
              let arrayIndent := Token.indent headerToken in
              advance ;;;
              if N.eqb length 0 then ret []
              else
                match ArrayInfo.inlineValues info with
                | Some (c :: v) =>
                    let values := splitByDelimiter (c :: v) delimiter in
                    if negb (N.eqb (N.of_nat (List.length values)) length) then
                      throw (ArrayLengthMismatch length (List.length values))
                    else lift (parsePrimitives values)
                | _ =>
                    match fields with
                    | Some (f :: fs) =>
                        ts <- tokensFrom ;;
                        let rowCount := countRows ts arrayIndent in
                        if negb (N.eqb (N.of_nat rowCount) length) then
                          throw (TabularRowCountMismatch length rowCount)
                        else parseRows (N.to_nat length) (f :: fs) delimiter arrayIndent []
                    | _ =>
                        cur <- current ;;
                        if typeIs cur LIST_ITEM then
                          items <- parseListItemsLoop fuel' (arrayIndent + 1)%Z [] ;;
                          if negb (hasComplexNesting items)
                             && negb (N.eqb (N.of_nat (List.length items)) length)
                          then throw (ListArrayLengthMismatch length (List.length items))
                          else ret items
                        else if typeIs cur VALUE then
                          if deeperThan cur arrayIndent then
                            let values := splitByDelimiter (valueOf cur) delimiter in
                            if negb (N.eqb (N.of_nat (List.length values)) length) then
                              throw (ArrayLengthMismatch length (List.length values))
                            else
                              r <- lift (parsePrimitives values) ;;
                              advance ;;;
                              ret r
                          else ret []
                        else ret []
                    end
                end
          end
      end
  end

with parseListItemsLoop (fuel : nat) (baseIndent : Z) (result : JsonArray)
    {struct fuel} : M JsonArray :=
  match fuel with
  | O => outOfFuel
  | S fuel' =>
      more <- inBounds ;;
      token <- current ;;
      match token with
      | None => ret result
      | Some token =>
          if negb more then ret result
          else if TokenType_eqb (Token.type token) EOF then ret result
          else if negb (TokenType_eqb (Token.type token) LIST_ITEM) then ret result
          else if (Token.indent token <? baseIndent)%Z then ret result
          else
            let content := Token.value token in
            let itemIndent := Token.indent token in
            (* additional properties on the following lines *)
            let mergeFollowing (obj : JsonObject) : M JsonObject :=
              nextToken <- current ;;
              if hasMoreProperties nextToken itemIndent then
                nestedObj <- parseObjectLoop fuel' (indentOr0 nextToken) [] ;;
                ret (Obj.assign obj nestedObj)
              else ret obj in
            advance ;;;
            fullArrayMatch <- lift (parseArrayHeaderString content) ;;
            match unkeyedMatch fullArrayMatch with
            | Some fm =>
                arrayResult <- lift (parseInlineArray fm) ;;
                parseListItemsLoop fuel' baseIndent (result ++ [JArray arrayResult])
            | None =>
                match findMainColon content with
                | Some colonIndex =>
                    let key := Js.trim (Js.substring content 0 (Z.of_nat colonIndex)) in
                    let value := Js.trim (Js.substringFrom content (Z.of_nat colonIndex + 1)) in
                    keyArrayMatch <- lift (parseArrayHeaderString (key ++ lit ":")) ;;
                    match keyArrayMatch, keyOfMatch keyArrayMatch with
                    | Some info, Some actualKey =>
                        nextToken <- current ;;
                        obj <-
                          (if nonEmpty value then
                             inlineMatch <- lift (parseArrayHeaderString
                                                    (key ++ lit ": " ++ value)) ;;
                             match inlineMatch with
                             | Some im =>
                                 a <- lift (parseInlineArray im) ;;
                                 ret (Obj.set [] actualKey (JArray a))
                             | None => ret []
                             end
                           else if deeperThan nextToken itemIndent then
                             inject (syntheticHeader (key ++ lit ":") itemIndent
                                       (Token.line token) (Some actualKey) info) ;;;
                             a <- parseArray fuel' ;;
                             ret (Obj.set [] actualKey (JArray a))
                           else ret (Obj.set [] actualKey (JArray []))) ;;
                        obj' <- mergeFollowing obj ;;
                        parseListItemsLoop fuel' baseIndent (result ++ [JObject obj'])
                    | _, _ =>
                        arrayMatch <- lift (parseArrayHeaderString value) ;;
                        obj <-
                          match arrayMatch with
                          | Some am =>
                              obj <-
                                (if N.eqb (HeaderInfo.length am) 0 then
                                   k <- lift (unescapeKey key) ;;
                                   ret (Obj.set [] k (JArray []))
                                 else if nonEmpty (HeaderInfo.valuesStr am) then
                                   arrayResult <- lift (parseInlineArray am) ;;
                                   k <- lift (unescapeKey key) ;;
                                   ret (Obj.set [] k (JArray arrayResult))
                                 else
                                   nextToken <- current ;;
                                   if deeperThan nextToken itemIndent then
                                     inject (syntheticHeader (key ++ lit ": " ++ value)
                                               itemIndent (Token.line token) None am) ;;;
                                     k <- lift (unescapeKey key) ;;
                                     a <- parseArray fuel' ;;
                                     ret (Obj.set [] k (JArray a))
                                   else
                                     k <- lift (unescapeKey key) ;;
                                     ret (Obj.set [] k (JArray []))) ;;
                              mergeFollowing obj
                          | None =>
                              if nonEmpty value then
                                k <- lift (unescapeKey key) ;;
                                p <- lift (parsePrimitive value) ;;
                                mergeFollowing (Obj.set [] k (JPrim p))
                              else
                                nextToken <- current ;;
                                if deeperThan nextToken itemIndent then
                                  if typeIs nextToken KEY then
                                    k <- lift (unescapeKey key) ;;
                                    o <- parseObjectLoop fuel' (indentOr0 nextToken) [] ;;
                                    ret (Obj.set [] k (JObject o))
                                  else if typeIs nextToken ARRAY_HEADER then
                                    k <- lift (unescapeKey key) ;;
                                    a <- parseArray fuel' ;;
                                    ret (Obj.set [] k (JArray a))
                                  else if typeIs nextToken LIST_ITEM then
                                    k <- lift (unescapeKey key) ;;
                                    a <- parseListItemsLoop fuel' (indentOr0 nextToken) [] ;;
                                    ret (Obj.set [] k (JArray a))
                                  else
                                    k <- lift (unescapeKey key) ;;
                                    ret (Obj.set [] k (JObject []))
                                else
                                  k <- lift (unescapeKey key) ;;
                                  ret (Obj.set [] k (JObject []))
                          end ;;
                        parseListItemsLoop fuel' baseIndent (result ++ [JObject obj])
                    end
                | None =>
                    arrayMatch <- lift (parseArrayHeaderString content) ;;
                    match arrayMatch with
                    | Some am =>
                        a <- lift (parseInlineArray am) ;;
                        parseListItemsLoop fuel' baseIndent (result ++ [JArray a])
                    | None =>
                        p <- lift (parsePrimitive content) ;;
                        parseListItemsLoop fuel' baseIndent (result ++ [JPrim p])
                    end
                end
            end
      end
  end.

Definition parseObject (fuel : nat) (baseIndent : Z) : M JsonObject :=
  parseObjectLoop fuel baseIndent [].

Definition parseListItems (fuel : nat) (baseIndent : Z) : M JsonArray :=
  parseListItemsLoop fuel baseIndent [].

(** The loop of [parse] over the entries at indent 0. *)
Fixpoint parseRootLoop (fuel : nat) (result : JsonObject) {struct fuel} : M JsonObject :=
  match fuel with
  | O => outOfFuel
  | S fuel' =>
      more <- inBounds ;;
      token <- current ;;
      match token with
      | None => ret result
      | Some token =>
          if negb more then ret result
          else if TokenType_eqb (Token.type token) EOF then ret result
          else if negb (Z.eqb (Token.indent token) 0) then ret result
          else
            match (if TokenType_eqb (Token.type token) ARRAY_HEADER
                   then headerKey token else None) with
            | Some key =>
                array <- parseArray fuel' ;;
                parseRootLoop fuel' (Obj.set result key (JArray array))
            | None =>
                if TokenType_eqb (Token.type token) KEY then
                  let key := Token.value token in
                  advance ;;;
                  colonToken <- current ;;
                  if typeIs colonToken COLON then
                    advance ;;;
                    nextToken <- current ;;
                    if typeIs nextToken VALUE && deeperThan nextToken (Token.indent token) then
                      throw (MissingColonNestedValue (valueOf nextToken))
                    else if isTabSibling nextToken token then
                      parseRootLoop fuel' (Obj.set result key (JObject []))
                    else if opensBlock nextToken token
                            || isCompactNested (Token.indent token) nextToken then
                      let nextIndent := nextIndentOf nextToken token in
                      if typeIs nextToken ARRAY_HEADER then
                        a <- parseArray fuel' ;;
                        parseRootLoop fuel' (Obj.set result key (JArray a))
                      else if typeIs nextToken LIST_ITEM then
                        a <- parseListItems fuel' nextIndent ;;
                        parseRootLoop fuel' (Obj.set result key (JArray a))
                      else if typeIs nextToken KEY then
                        o <- parseObject fuel' nextIndent ;;
                        parseRootLoop fuel' (Obj.set result key (JObject o))
                      else parseRootLoop fuel' (Obj.set result key (JObject []))
                    else if typeIs nextToken VALUE then
                      p <- lift (parsePrimitive (valueOf nextToken)) ;;
                      advance ;;;
                      parseRootLoop fuel' (Obj.set result key (JPrim p))
                    else if typeIs nextToken ARRAY_HEADER then
                      a <- parseArray fuel' ;;
                      parseRootLoop fuel' (Obj.set result key (JArray a))
                    else parseRootLoop fuel' result
                  else parseRootLoop fuel' result
                else
                  advance ;;;
                  parseRootLoop fuel' result
            end
      end
  end.

Definition parse (fuel : nat) : M JsonValue :=
  firstToken <- current ;;
  match firstToken with
  | None => ret JNull
  | Some first =>
      if TokenType_eqb (Token.type first) EOF then ret JNull
      else if TokenType_eqb (Token.type first) VALUE then
        p <- lift (parsePrimitive (Token.value first)) ;;
        ret (JPrim p)
      else if TokenType_eqb (Token.type first) ARRAY_HEADER
              && match headerKey first with None => true | Some _ => false end then
        a <- parseArray fuel ;;
        ret (JArray a)
      else
        result <- parseRootLoop fuel [] ;;
        match Obj.keys result with
        | [] => ret JNull
        | _ => ret (JObject result)
        end
  end.

(** [new Parser(tokens).parse()] *)
Definition runWith (fuel : nat) (tokens : list Token.t) : result JsonValue :=
  match parse fuel {| Parser.tokens := tokens; position := 0 |} with
  | Ok (v, _) => Ok v
  | Throw e => Throw e
  | OutOfFuel => OutOfFuel
  end.

(** Every call and every iteration consumes a token or ends its loop, so a
    few units of fuel per token are given. *)
Definition run (tokens : list Token.t) : result JsonValue :=
  runWith (4 * List.length tokens + 8) tokens.

End Parser.

(** export function decode *)
Definition decode (input : str) (options : option DecodeOptions.t) : result JsonValue :=
  match Js.trim input with
  | [] => Ok JNull
  | _ =>
      rbind (Scanner.scan (Scanner.resolve options) input) Parser.run
  end.

(* ================================================================== *)
(** ** Predicates of the statements *)
(* ================================================================== *)

(** A line of output the way the writer must leave it: no line feed inside,
    not empty, and its last character is not a space. *)
Definition goodLine (l : str) : Prop :=
  ~ In LF l /\ exists pre c, l = pre ++ [c] /\ c <> SPACE.

(** Characters that are neither a line feed nor a space. *)
Definition plainChar (c : ascii) : bool :=
  negb (Js.ch_eqb c LF) && negb (Js.ch_eqb c SPACE).

(** Characters that escapeString leaves alone. *)
Definition unescaped (c : ascii) : bool :=
  negb (Js.ch_eqb c BACKSLASH) && negb (Js.ch_eqb c DOUBLE_QUOTE)
  && negb (Js.ch_eqb c LF) && negb (Js.ch_eqb c CR) && negb (Js.ch_eqb c TAB).

(** What escapeString does to one character. *)
Definition escapeChar (c : ascii) : str :=
  if Js.ch_eqb c BACKSLASH then [BACKSLASH; BACKSLASH]
  else if Js.ch_eqb c DOUBLE_QUOTE then [BACKSLASH; DOUBLE_QUOTE]
  else if Js.ch_eqb c LF then [BACKSLASH; "n"%char]
  else if Js.ch_eqb c CR then [BACKSLASH; "r"%char]
  else if Js.ch_eqb c TAB then [BACKSLASH; "t"%char]
  else [c].

Definition quoted (s : str) : str := [DOUBLE_QUOTE] ++ s ++ [DOUBLE_QUOTE].

(** The writer holds good lines only. *)
Definition goodWriter (w : LineWriter.t) : Prop :=
  Forall goodLine (LineWriter.lines w) /\ ~ In LF (LineWriter.indentationString w).

Definition lenientOptions : option DecodeOptions.t :=
  Some {| DecodeOptions.strict := Some false; DecodeOptions.indent := None |}.

Definition strictOptions : option DecodeOptions.t :=
  Some {| DecodeOptions.strict := Some true; DecodeOptions.indent := None |}.

(** One outcome refines another: it is the same, or it ran out of fuel. *)
Definition refines (A : Type) (r1 r2 : result A) : Prop :=
  r1 = OutOfFuel \/ r1 = r2.
Arguments refines : clear implicits.

(** An encoder function keeps the writer good on the value [v]: as the
    writer of a property, as the writer of a list item, and on what [v]
    holds. *)
Definition keepsGoodKV (options : ResolvedOptions.t)
    (encKV : str -> JsonValue -> LineWriter.t -> nat -> ResolvedOptions.t -> LineWriter.t)
    (v : JsonValue) : Prop :=
  forall key w depth, goodWriter w -> goodWriter (encKV key v w depth options).

Definition keepsGoodLI (options : ResolvedOptions.t)
    (encLI : JsonValue -> LineWriter.t -> nat -> ResolvedOptions.t -> LineWriter.t)
    (v : JsonValue) : Prop :=
  forall w depth, goodWriter w -> goodWriter (encLI v w depth options).

Definition keepsGoodInside (options : ResolvedOptions.t)
    (encKV : str -> JsonValue -> LineWriter.t -> nat -> ResolvedOptions.t -> LineWriter.t)
    (encLI : JsonValue -> LineWriter.t -> nat -> ResolvedOptions.t -> LineWriter.t)
    (v : JsonValue) : Prop :=
  match v with
  | JPrim _ => True
  | JObject o => Forall (fun kv => keepsGoodKV options encKV (snd kv)) o
  | JArray l => Forall (keepsGoodLI options encLI) l
  end.

(* ================================================================== *)
(** ** Inputs of the examples *)
(* ================================================================== *)

Definition num (z : Z) : Unknown := UNumber (JsNumber.ofZ z).

(** [{items: [{id: 1, qty: 5}, {id: 2, qty: 3}]}] *)
Definition itemsExample : Unknown :=
  UPlainObject
    [(lit "items",
      UArray [UPlainObject [(lit "id", num 1); (lit "qty", num 5)];
              UPlainObject [(lit "id", num 2); (lit "qty", num 3)]])].

(** [{items: [1, [{a: 1}]]}] *)
Definition nestedArrayExample : Unknown :=
  UPlainObject
    [(lit "items", UArray [num 1; UArray [UPlainObject [(lit "a", num 1)]]])].

(** The lines of a text that are list items. *)
Definition listItemLines (text : str) : list str :=
  filter (fun line => Js.startsWith (Js.trimStart line) LIST_ITEM_PREFIX)
    (Js.split LF text).

(** [{m: "Line 1\nLine 2"}], the line feed being a single character *)
Definition twoLinesExample : Unknown :=
  UPlainObject [(lit "m", UString (lit "Line 1" ++ [LF] ++ lit "Line 2"))].

(** A line indented with a tab: [\ta: 1] *)
Definition tabIndentedLine : str := [TAB] ++ lit "a: 1".

Definition lenientScanner : Scanner.Options :=
  {| Scanner.strict := false; Scanner.indent := 2%Z |}.

Definition strictScanner : Scanner.Options :=
  {| Scanner.strict := true; Scanner.indent := 2%Z |}.

(** The spaces of a run of indentation, and whether it holds a tab. *)
Definition countSpaces (s : str) : Z :=
  Z.of_nat (length (filter (Js.ch_eqb SPACE) s)).

Definition hasTab (s : str) : bool := existsb (Js.ch_eqb TAB) s.

(** The text after the indentation starts with neither a space nor a tab. *)
Definition endsIndentation (rest : str) : Prop :=
  match rest with
  | c :: _ => c <> SPACE /\ c <> TAB
  | [] => True
  end.

(** The header token of [items[2]: a,b,c]. *)
Definition mismatchHeader : Token.t :=
  {| Token.type := ARRAY_HEADER;
     Token.value := lit "items[2]: a,b,c";
     Token.indent := 0%Z;
     Token.line := 0;
     Token.arrayInfo :=
       Some {| ArrayInfo.key := Some (lit "items");
               ArrayInfo.length := 2%N;
               ArrayInfo.fields := None;
               ArrayInfo.delimiter := ","%char;
               ArrayInfo.inlineValues := Some (lit "a,b,c") |};
     Token.hadTabIndent := false |}.

Definition isEmptyObject (v : JsonValue) : bool :=
  match v with
  | JObject [] => true
  | _ => false
  end.

(** The first token sends [parse] to the loop over the root entries. *)
Definition entersRootLoop (first : Token.t) : bool :=
  negb (TokenType_eqb (Token.type first) EOF)
  && negb (TokenType_eqb (Token.type first) VALUE)
  && negb (TokenType_eqb (Token.type first) ARRAY_HEADER
           && match Parser.headerKey first with None => true | Some _ => false end).

(** The tokens of the text [- x]. *)
Definition listItemTokens : list Token.t :=
  [Scanner.mkToken LIST_ITEM (lit "x") 0 0 None false;
   Scanner.mkToken EOF [] 0 1 None false].

(** No object of the input has an own property [__proto__], which
    JSON.parse creates from a key of that name.  On such a property
    normalizeValue assigns to [result.__proto__] and so sets the prototype
    of [result]; the properties about values that are read back are stated
    for inputs without one. *)
Fixpoint noProtoKey (value : Unknown) : bool :=
  match value with
  | UArray items | USet items => forallb noProtoKey items
  | UPlainObject entries =>
      forallb (fun kv => negb (Js.str_eqb (fst kv) (lit "__proto__"))
                         && noProtoKey (snd kv)) entries
  | _ => true
  end.

(** A text of a size that the decoder takes for certain.  The parser hands
    the values of a line and the items of a list to one call,
    [result.push(...values)], as its arguments, and an engine takes only so
    many (V8 some 120000 on its default stack; beyond, it throws a
    RangeError).  The model of [push] has no such bound; a text of 65535
    characters holds fewer values and items than any engine takes. *)
Definition MAX_TEXT_LENGTH : Z := 65535.

Definition shortText (text : str) : bool :=
  (Z.of_nat (length text) <=? MAX_TEXT_LENGTH)%Z.

(* ================================================================== *)
(** ** Predicates and inputs of the further properties *)
(* ================================================================== *)

Unset Implicit Arguments.

(** The strings a regular expression denotes. *)
Inductive matches : Regex.re -> str -> Prop :=
| MEps : matches Regex.Eps []
| MCls (p : ascii -> bool) (c : ascii) : p c = true -> matches (Regex.Cls p) [c]
| MSeq (a b : Regex.re) (s1 s2 : str) :
    matches a s1 -> matches b s2 -> matches (Regex.Seq a b) (s1 ++ s2)
| MAltL (a b : Regex.re) (s : str) : matches a s -> matches (Regex.Alt a b) s
| MAltR (a b : Regex.re) (s : str) : matches b s -> matches (Regex.Alt a b) s
| MStar0 (a : Regex.re) : matches (Regex.Star a) []
| MStarS (a : Regex.re) (s1 s2 : str) :
    matches a s1 -> matches (Regex.Star a) s2 -> matches (Regex.Star a) (s1 ++ s2).

(** The characters of the text of a number. *)
Definition numberChar (c : ascii) : bool :=
  Js.isDigit c || existsb (Js.ch_eqb c) (lit ".e+-InfityNa").

(** Characters that splitByDelimiter and findMainColon just pass over
    outside quotes: no backslash, no quote, and not the character [d]
    looked for. *)
Definition passes (d : ascii) (c : ascii) : bool :=
  negb (Js.ch_eqb c BACKSLASH) && negb (Js.ch_eqb c DOUBLE_QUOTE)
  && negb (Js.ch_eqb c d).

(** The errors raised while a text is unescaped or a primitive is read. *)
Definition textError (e : Error) : bool :=
  match e with
  | EscapeAtEndOfString | InvalidEscapeSequence _ | UnterminatedQuotedString => true
  | _ => false
  end.

(** The errors the methods of the parser raise. *)
Definition parserError (e : Error) : bool :=
  match e with
  | EscapeAtEndOfString | InvalidEscapeSequence _ | UnterminatedQuotedString
  | MissingColonAfterKey _ | MissingColonNestedValue _
  | ArrayLengthMismatch _ _ | TabularRowCountMismatch _ _
  | TabularRowValueCountMismatch _ _ | ListArrayLengthMismatch _ _ => true
  | _ => false
  end.

(** The errors about the layout of lines, which only strict mode raises. *)
Definition layoutError (e : Error) : bool :=
  match e with
  | TabInIndentation _ | IndentationNotMultiple _ _ _ | BlankLineInsideArray _ => true
  | _ => false
  end.

(** The errors the scanner raises. *)
Definition scannerError (strict : bool) (e : Error) : bool :=
  match e with
  | EscapeAtEndOfString | InvalidEscapeSequence _ => true
  | _ => strict && layoutError e
  end.

(** A call that returns, or throws one of the errors [E]; it does not run
    out of fuel. *)
Definition throwsOnly (E : Error -> bool) (A : Type) (r : result A) : Prop :=
  match r with
  | Ok _ => True
  | Throw e => E e = true
  | OutOfFuel => False
  end.

(** What a method of the parser establishes when it returns; it may throw
    one of the errors of the parser, and it does not run out of fuel. *)
Definition wp (A : Type) (m : Parser.M A) (Q : A -> Parser.State -> Prop)
    (st : Parser.State) : Prop :=
  match m st with
  | Ok (a, st') => Q a st'
  | Throw e => parserError e = true
  | OutOfFuel => False
  end.

(** The tokens left from the position on. *)
Definition remaining (st : Parser.State) : nat :=
  length (Parser.tokens st) - Parser.position st.

(** The method has left the number of tokens alone and has moved on by [n]
    tokens at least. *)
Definition movedOn (n : nat) (st0 : Parser.State) (A : Type) (_ : A)
    (st : Parser.State) : Prop :=
  length (Parser.tokens st) = length (Parser.tokens st0)
  /\ n + Parser.position st0 <= Parser.position st.

(** The own keys of an object are distinct, and [__proto__] is not one of
    them: no assignment creates it. *)
Definition ownKeys (A : Type) (o : list (str * A)) : Prop :=
  NoDup (Obj.keys o) /\ ~ In (lit "__proto__") (Obj.keys o).

(** A key that the encoder writes bare and the scanner takes for a key:
    of the shape of an identifier, and shorter than 100 characters. *)
Definition plainKey (key : str) : bool :=
  isValidUnquotedKey key && (length key <? 100)%nat.

(** A primitive that is read back from its text, the text holding no
    opening bracket. *)
Definition readable (d : ascii) (p : JsonPrimitive) : Prop :=
  Parser.parsePrimitive (encodePrimitive p d) = Ok p
  /\ Js.includes (encodePrimitive p d) "[" = false.

(** The line of a property with a primitive value, and its tokens. *)
Definition propertyLine (d : ascii) (kv : str * JsonPrimitive) : str :=
  encodeKey (fst kv) ++ lit ": " ++ encodePrimitive (snd kv) d.

Definition propertyTokens (d : ascii) (i : nat) (kv : str * JsonPrimitive) : list Token.t :=
  [Scanner.mkToken KEY (fst kv) 0 i None false;
   Scanner.mkToken COLON (lit ":") 0 i None false;
   Scanner.mkToken VALUE (encodePrimitive (snd kv) d) 0 i None false].

(** The text between the brackets of a header and the colon after them, as
    formatHeader prints it without fields. *)
Definition headerBody (lengthMarker : bool) (n : nat) (d : ascii) : str :=
  lit "[" ++ (if lengthMarker then lit "#" else [])
    ++ Js.natToString n
    ++ (if negb (Js.ch_eqb d DEFAULT_DELIMITER) then [d] else [])
    ++ lit "]".

(** A text that starts and ends with characters other than white space and
    holds no line terminator. *)
Definition tidy (s : str) : Prop :=
  s <> [] /\ Js.trim s = s /\ existsb Js.isLineTerminator s = false.

(** The text after the colon of the line of an inline array. *)
Definition inlineRest (values : list JsonPrimitive) (d : ascii) : str :=
  match values with
  | [] => []
  | _ => [SPACE] ++ encodeAndJoinPrimitives values d
  end.

(** The array info the scanner reads from the line of an inline array
    without a key. *)
Definition inlineInfo (key : option str) (values : list JsonPrimitive) (d : ascii)
  : ArrayInfo.t :=
  {| ArrayInfo.key := key;
     ArrayInfo.length := N.of_nat (length values);
     ArrayInfo.fields := None;
     ArrayInfo.delimiter := d;
     ArrayInfo.inlineValues :=
       match values with
       | [] => None
       | _ => Some (encodeAndJoinPrimitives values d)
       end |}.

(** The values of a record: a primitive, or an array of primitives. *)
Inductive Simple : Type :=
| SPrim (p : JsonPrimitive)
| SArray (values : list JsonPrimitive).

Definition simpleValue (v : Simple) : JsonValue :=
  match v with
  | SPrim p => JPrim p
  | SArray values => JArray (map JPrim values)
  end.

Definition simpleObject (entries : list (str * Simple)) : JsonObject :=
  map (fun kv => (fst kv, simpleValue (snd kv))) entries.

(** A value of a record that is read back from its text. *)
Definition readableSimple (d : ascii) (v : Simple) : Prop :=
  match v with
  | SPrim p => readable d p
  | SArray values =>
      Forall (fun p => Parser.parsePrimitive (encodePrimitive p d) = Ok p) values
  end.

(** The line of a property of a record, and its tokens. *)
Definition simpleLine (d : ascii) (lengthMarker : bool) (kv : str * Simple) : str :=
  match snd kv with
  | SPrim p => propertyLine d (fst kv, p)
  | SArray values => encodeInlineArrayLine values d (Some (fst kv)) lengthMarker
  end.

Definition simpleTokens (d : ascii) (lengthMarker : bool) (i : nat) (kv : str * Simple)
  : list Token.t :=
  match snd kv with
  | SPrim p => propertyTokens d i (fst kv, p)
  | SArray values =>
      [Scanner.mkToken ARRAY_HEADER
         (encodeInlineArrayLine values d (Some (fst kv)) lengthMarker) 0 i
         (Some (inlineInfo (Some (fst kv)) values d)) false]
  end.

Fixpoint recordTokens (d : ascii) (lengthMarker : bool) (i : nat)
    (entries : list (str * Simple)) : list Token.t :=
  match entries with
  | [] => []
  | kv :: rest =>
      simpleTokens d lengthMarker i kv ++ recordTokens d lengthMarker (S i) rest
  end.

(** [{name: "Ada", tags: ["x", "y, z"], active: true}] and its properties *)
Definition recordEntries : list (str * Simple) :=
  [(lit "name", SPrim (PString (lit "Ada")));
   (lit "tags", SArray [PString (lit "x"); PString (lit "y, z")]);
   (lit "active", SPrim (PBoolean true))].

Definition recordExample : Unknown :=
  UPlainObject
    [(lit "name", UString (lit "Ada"));
     (lit "tags", UArray [UString (lit "x"); UString (lit "y, z")]);
     (lit "active", UBoolean true)].

(** A token the scanner makes of a line: not an EOF, not a NEWLINE, with an
    indentation that is not negative; in strict mode the indentation leaves
    no remainder by the indent option and no tab was seen. *)
Definition lineToken (options : Scanner.Options) (t : Token.t) : Prop :=
  Token.type t <> EOF /\ Token.type t <> NEWLINE
  /\ (0 <= Token.indent t)%Z
  /\ (Scanner.strict options = true ->
      Token.hadTabIndent t = false
      /\ (Token.indent t = 0%Z \/ Z.rem (Token.indent t) (Scanner.indent options) = 0%Z)).

(** The indentation getIndent returns. *)
Definition indentOk (options : Scanner.Options) (info : IndentInfo.t) : Prop :=
  (0 <= IndentInfo.count info)%Z
  /\ (Scanner.strict options = true ->
      IndentInfo.hadTabIndent info = false
      /\ (IndentInfo.count info = 0%Z
          \/ Z.rem (IndentInfo.count info) (Scanner.indent options) = 0%Z)).

(** Every number in the value is finite. *)
Fixpoint finiteValue (v : JsonValue) : bool :=
  match v with
  | JPrim (PNumber x) => JsNumber.isFinite x
  | JPrim _ => true
  | JObject entries => forallb (fun kv => finiteValue (snd kv)) entries
  | JArray items => forallb finiteValue items
  end.

(** What a method of the parser establishes if it returns. *)
Definition sat (A : Type) (m : Parser.M A) (Q : A -> Parser.State -> Prop)
    (st : Parser.State) : Prop :=
  match m st with
  | Ok (a, st') => Q a st'
  | _ => True
  end.

(** A content that starts with a character that is no white space. *)
Definition startsPlain (content : str) : Prop :=
  match content with
  | c :: _ => Js.isWhiteSpace c = false
  | [] => False
  end.

(** A line as the writer lays it out: the indentation level, repeated, and a
    content that starts with no white space. *)
Definition indentedLine (level : str) (line : str) : Prop :=
  exists depth content, line = Js.repeatStr level depth ++ content /\ startsPlain content.

(** The writer indents by [level] and holds indented lines only. *)
Definition neatWriter (level : str) (w : LineWriter.t) : Prop :=
  LineWriter.indentationString w = level
  /\ Forall (indentedLine level) (LineWriter.lines w).

(** An encoder function keeps the writer neat on the value [v]: as the
    writer of a property, as the writer of a list item, and on what [v]
    holds. *)
Definition keepsNeatKV (level : str) (options : ResolvedOptions.t)
    (encKV : str -> JsonValue -> LineWriter.t -> nat -> ResolvedOptions.t -> LineWriter.t)
    (v : JsonValue) : Prop :=
  forall key w depth, neatWriter level w -> neatWriter level (encKV key v w depth options).

Definition keepsNeatLI (level : str) (options : ResolvedOptions.t)
    (encLI : JsonValue -> LineWriter.t -> nat -> ResolvedOptions.t -> LineWriter.t)
    (v : JsonValue) : Prop :=
  forall w depth, neatWriter level w -> neatWriter level (encLI v w depth options).

Definition keepsNeatInside (level : str) (options : ResolvedOptions.t)
    (encKV : str -> JsonValue -> LineWriter.t -> nat -> ResolvedOptions.t -> LineWriter.t)
    (encLI : JsonValue -> LineWriter.t -> nat -> ResolvedOptions.t -> LineWriter.t)
    (v : JsonValue) : Prop :=
  match v with
  | JPrim _ => True
  | JObject o => Forall (fun kv => keepsNeatKV level options encKV (snd kv)) o
  | JArray l => Forall (keepsNeatLI level options encLI) l
  end.

(** Two array elements of which the encoder writes one. *)
Definition droppedItemExample : Unknown :=
  UArray [UNumber (JsNumber.ofZ 1); UArray [UArray [UNumber (JsNumber.ofZ 2)]]].

(** What follows the dash of a list item: a primitive, an inline array, or
    the first property of an object, which holds a primitive or an inline
    array. *)
Inductive ItemHead : Type :=
| HPrim (p : JsonPrimitive)
| HArray (values : list JsonPrimitive)
| HProperty (key : str) (p : JsonPrimitive)
| HInline (key : str) (values : list JsonPrimitive).

Definition headText (d : ascii) (lengthMarker : bool) (h : ItemHead) : str :=
  match h with
  | HPrim p => encodePrimitive p d
  | HArray values => encodeInlineArrayLine values d None lengthMarker
  | HProperty key p => encodeKey key ++ lit ": " ++ encodePrimitive p d
  | HInline key values => encodeInlineArrayLine values d (Some key) lengthMarker
  end.

(** The lines the encoder writes for a document of nested objects, inline
    arrays, tables and lists: a property with a primitive, a key that opens
    a nested object, an inline array, the header of a table, a row, the
    header of a list, and a list item. *)
Inductive Line : Type :=
| LProperty (key : str) (p : JsonPrimitive)
| LKey (key : str)
| LArray (key : option str) (values : list JsonPrimitive)
| LTable (key : option str) (count : nat) (header : list str)
| LRow (cells : list JsonPrimitive)
| LList (key : option str) (count : nat)
| LItem (head : ItemHead).

Definition lineText (d : ascii) (lengthMarker : bool) (l : Line) : str :=
  match l with
  | LProperty key p => encodeKey key ++ lit ": " ++ encodePrimitive p d
  | LKey key => encodeKey key ++ lit ":"
  | LArray key values => encodeInlineArrayLine values d key lengthMarker
  | LTable key count header => formatHeader count key (Some header) d lengthMarker
  | LRow cells => encodeAndJoinPrimitives cells d
  | LList key count => formatHeader count key None d lengthMarker
  | LItem head => LIST_ITEM_PREFIX ++ headText d lengthMarker head
  end.

(** The array info the scanner reads from the header of a table. *)
Definition tableInfo (key : option str) (count : nat) (header : list str) (d : ascii)
  : ArrayInfo.t :=
  {| ArrayInfo.key := key;
     ArrayInfo.length := N.of_nat count;
     ArrayInfo.fields := Some header;
     ArrayInfo.delimiter := d;
     ArrayInfo.inlineValues := None |}.

(** The array info the scanner reads from the header of a list. *)
Definition listInfo (key : option str) (count : nat) (d : ascii) : ArrayInfo.t :=
  {| ArrayInfo.key := key;
     ArrayInfo.length := N.of_nat count;
     ArrayInfo.fields := None;
     ArrayInfo.delimiter := d;
     ArrayInfo.inlineValues := None |}.

Definition lineTokens (d : ascii) (lengthMarker : bool) (indent : Z) (i : nat) (l : Line)
  : list Token.t :=
  match l with
  | LProperty key p =>
      [Scanner.mkToken KEY key indent i None false;
       Scanner.mkToken COLON (lit ":") indent i None false;
       Scanner.mkToken VALUE (encodePrimitive p d) indent i None false]
  | LKey key =>
      [Scanner.mkToken KEY key indent i None false;
       Scanner.mkToken COLON (lit ":") indent i None false]
  | LArray key values =>
      [Scanner.mkToken ARRAY_HEADER (lineText d lengthMarker l) indent i
         (Some (inlineInfo key values d)) false]
  | LTable key count header =>
      [Scanner.mkToken ARRAY_HEADER (lineText d lengthMarker l) indent i
         (Some (tableInfo key count header d)) false]
  | LRow cells =>
      [Scanner.mkToken VALUE (lineText d lengthMarker l) indent i None false]
  | LList key count =>
      [Scanner.mkToken ARRAY_HEADER (lineText d lengthMarker l) indent i
         (Some (listInfo key count d)) false]
  | LItem head =>
      [Scanner.mkToken LIST_ITEM (headText d lengthMarker head) indent i None false]
  end.

(** A key that is read back from its text and creates a property where it
    stands: written bare it is shorter than 100 characters; it holds no
    opening bracket, is not [__proto__] and is no array index. *)
Definition goodKey (key : str) : bool :=
  (negb (isValidUnquotedKey key) || (length key <? 100)%nat)
  && negb (Js.includes key "[")
  && negb (Js.str_eqb key (lit "__proto__"))
  && match Obj.arrayIndex key with None => true | Some _ => false end.

(** What the scanner asks of the text before the colon to take it for a
    key. *)
Definition keyLike (text : str) : bool :=
  Js.startsWith text [DOUBLE_QUOTE] && Js.endsWith text [DOUBLE_QUOTE]
  || (negb (Js.includes text ",") && (length text <? 100)%nat
      && negb (Regex.test Pattern.digitsCommasSpaces text)).

(** The key of a header: none at the root, or a plain key. *)
Definition plainHeaderKey (key : option str) : Prop :=
  match key with
  | Some k => plainKey k = true
  | None => True
  end.

(** A cell of a row: read back from its text, which holds no opening
    bracket and no colon outside quotes. *)
Definition cell (d : ascii) (p : JsonPrimitive) : Prop :=
  readable d p
  /\ match p with PString s => isISOTimestamp s = false | _ => True end.

(** The lines the scanner reads as their tokens. *)
Definition soundLine (d : ascii) (l : Line) : Prop :=
  match l with
  | LProperty key p => goodKey key = true /\ readable d p
  | LKey key => goodKey key = true
  | LArray key values => plainHeaderKey key
  | LTable key count header =>
      plainHeaderKey key /\ header <> [] /\ Forall (fun f => plainKey f = true) header
  | LRow cells => cells <> [] /\ Forall (cell d) cells
  | LList key count => plainHeaderKey key
  | LItem (HPrim p) => readable d p
  | LItem (HArray values) => True
  | LItem (HProperty key p) => goodKey key = true /\ readable d p
  | LItem (HInline key values) => plainKey key = true
  end.

(** The lines at their depths, and their tokens from line [i] on, for an
    indentation of [n] spaces a level. *)
Definition renderLine (d : ascii) (lengthMarker : bool) (n : nat) (kl : nat * Line) : str :=
  Js.repeatStr [SPACE] (fst kl * n) ++ lineText d lengthMarker (snd kl).

Fixpoint linesTokens (d : ascii) (lengthMarker : bool) (n : nat) (i : nat)
    (ls : list (nat * Line)) : list Token.t :=
  match ls with
  | [] => []
  | kl :: rest =>
      lineTokens d lengthMarker (Z.of_nat (fst kl * n)) i (snd kl)
        ++ linesTokens d lengthMarker n (S i) rest
  end.

(** The token with another indentation. *)
Definition atIndent (indent : Z) (t : Token.t) : Token.t :=
  {| Token.type := Token.type t; Token.value := Token.value t;
     Token.indent := indent; Token.line := Token.line t;
     Token.arrayInfo := Token.arrayInfo t; Token.hadTabIndent := Token.hadTabIndent t |}.

(** A text that starts with a character that is neither white space nor a
    dash. *)
Definition headed (s : str) : Prop :=
  exists c rest, s = c :: rest /\ Js.isWhiteSpace c = false /\ Js.ch_eqb "-" c = false.

(** A document: a primitive, an array of primitives, a table (an array of
    objects that share their keys and hold primitives), an object of
    documents, or a list of documents. *)
#[local] Unset Elimination Schemes.
Inductive Doc : Type :=
| DPrim (p : JsonPrimitive)
| DArray (values : list JsonPrimitive)
| DTable (header : list str) (rows : list (list JsonPrimitive))
| DObject (entries : list (str * Doc))
| DList (items : list Doc).
#[local] Set Elimination Schemes.

(** The object of a row of a table. *)
Definition rowObject (header : list str) (cells : list JsonPrimitive) : JsonObject :=
  combine header (map JPrim cells).

Fixpoint docValue (doc : Doc) : JsonValue :=
  match doc with
  | DPrim p => JPrim p
  | DArray values => JArray (map JPrim values)
  | DTable header rows => JArray (map (fun cells => JObject (rowObject header cells)) rows)
  | DObject entries => JObject (map (fun kv => (fst kv, docValue (snd kv))) entries)
  | DList items => JArray (map docValue items)
  end.

(** The lines of a property, from depth [k] on, and the lines of an item of
    a list: a primitive, an array of primitives, or an object whose first
    property holds a primitive or an array of primitives. *)
Fixpoint entryLines (k : nat) (key : str) (doc : Doc) {struct doc} : list (nat * Line) :=
  match doc with
  | DPrim p => [(k, LProperty key p)]
  | DArray values => [(k, LArray (Some key) values)]
  | DTable header rows =>
      (k, LTable (Some key) (length rows) header)
        :: map (fun cells => (S k, LRow cells)) rows
  | DObject entries =>
      (k, LKey key)
        :: flat_map (fun kv => entryLines (S k) (fst kv) (snd kv)) entries
  | DList items =>
      (k, LList (Some key) (length items)) :: flat_map (itemLines (S k)) items
  end
with itemLines (k : nat) (doc : Doc) {struct doc} : list (nat * Line) :=
  match doc with
  | DPrim p => [(k, LItem (HPrim p))]
  | DArray values => [(k, LItem (HArray values))]
  | DObject ((key, DPrim p) :: rest) =>
      (k, LItem (HProperty key p))
        :: flat_map (fun kv => entryLines (S k) (fst kv) (snd kv)) rest
  | DObject ((key, DArray values) :: rest) =>
      (k, LItem (HInline key values))
        :: flat_map (fun kv => entryLines (S k) (fst kv) (snd kv)) rest
  | _ => []
  end.

(** The lines of the items of a list. *)
Definition itemsLines (k : nat) (items : list Doc) : list (nat * Line) :=
  flat_map (itemLines k) items.

(** The lines of the properties of an object. *)
Definition entriesLines (k : nat) (entries : list (str * Doc)) : list (nat * Line) :=
  flat_map (fun kv => entryLines k (fst kv) (snd kv)) entries.

(** A key that is written bare, read as a key, and creates a property. *)
Definition fieldKey (key : str) : bool :=
  plainKey key && negb (Js.str_eqb key (lit "__proto__")).

(** The key of a property: any good key before a primitive or an object;
    the key of an array is not unescaped when it is read, so that one is
    of the shape of an identifier. *)
Definition entryKey (key : str) (doc : Doc) : bool :=
  match doc with
  | DPrim _ | DObject _ => goodKey key
  | _ => fieldKey key
  end.

Definition goodTable (d : ascii) (header : list str) (rows : list (list JsonPrimitive))
  : Prop :=
  header <> [] /\ NoDup header /\ Forall (fun f => fieldKey f = true) header
  /\ rows <> []
  /\ Forall (fun cells => length cells = length header /\ Forall (cell d) cells) rows.

(** The first property of a nested object is a primitive or an object: an
    array right below a key is taken for the value of that key. *)
Definition firstOpensObject (entries : list (str * Doc)) : Prop :=
  match entries with
  | (_, DArray _) :: _ | (_, DTable _ _) :: _ | (_, DList _) :: _ => False
  | _ => True
  end.

(** The arrays written as a list: not all their elements are primitives,
    and they are no table. *)
Definition listForm (values : list JsonValue) : Prop :=
  isArrayOfPrimitives values = false /\ extractTabularHeader values = None.

(** The documents that survive the trip, below the root, and the items of
    a list that do. *)
Fixpoint goodDoc (d : ascii) (doc : Doc) {struct doc} : Prop :=
  match doc with
  | DPrim p => readable d p
  | DArray values =>
      Forall (fun v => Parser.parsePrimitive (encodePrimitive v d) = Ok v) values
  | DTable header rows => goodTable d header rows
  | DObject entries =>
      entries <> [] /\ NoDup (map fst entries) /\ firstOpensObject entries
      /\ fold_right (fun kv rest => entryKey (fst kv) (snd kv) = true
                                    /\ goodDoc d (snd kv) /\ rest)
           True entries
  | DList items =>
      listForm (map docValue items)
      /\ fold_right (fun item rest => goodItem d item /\ rest) True items
  end
with goodItem (d : ascii) (doc : Doc) {struct doc} : Prop :=
  match doc with
  | DPrim p => cell d p
  | DArray values =>
      Forall (fun v => Parser.parsePrimitive (encodePrimitive v d) = Ok v) values
  | DObject ((key, DPrim p) :: rest) =>
      goodKey key = true /\ readable d p /\ NoDup (key :: map fst rest)
      /\ fold_right (fun kv r => entryKey (fst kv) (snd kv) = true
                                 /\ goodDoc d (snd kv) /\ r)
           True rest
  | DObject ((key, DArray values) :: rest) =>
      fieldKey key = true /\ values <> []
      /\ Forall (fun v => Parser.parsePrimitive (encodePrimitive v d) = Ok v) values
      /\ NoDup (key :: map fst rest)
      /\ fold_right (fun kv r => entryKey (fst kv) (snd kv) = true
                                 /\ goodDoc d (snd kv) /\ r)
           True rest
  | _ => False
  end.

(** The properties of an object that survives the trip. *)
Definition goodEntries (d : ascii) (entries : list (str * Doc)) : Prop :=
  Forall (fun kv => entryKey (fst kv) (snd kv) = true /\ goodDoc d (snd kv)) entries.

(** The writer after some more lines. *)
Definition pushLines (d : ascii) (m : bool) (w : LineWriter.t) (ls : list (nat * Line))
  : LineWriter.t :=
  {| LineWriter.lines :=
       LineWriter.lines w
       ++ map (fun kl => Js.repeatStr (LineWriter.indentationString w) (fst kl)
                         ++ lineText d m (snd kl)) ls;
     LineWriter.indentationString := LineWriter.indentationString w |}.

(** The tokens from the position on. *)
Definition ahead (st : Parser.State) : list Token.t :=
  skipn (Parser.position st) (Parser.tokens st).

(** With the tokens [l] ahead, the method returns [a] and leaves [rest]
    ahead. *)
Definition reads (A : Type) (m : Parser.M A) (l : list Token.t) (a : A)
    (rest : list Token.t) : Prop :=
  forall st, ahead st = l -> exists st', m st = Ok (a, st') /\ ahead st' = rest.

(** The token that ends a loop at the indentation [b], and the token after
    a property at that indentation. *)
Definition ends (b : Z) (l : list Token.t) : Prop :=
  match l with
  | [] => True
  | t :: _ => Token.type t = EOF \/ (Token.indent t < b)%Z
  end.

Definition shallow (b : Z) (l : list Token.t) : Prop :=
  match l with
  | [] => True
  | t :: _ => Token.type t = EOF \/ (Token.indent t <= b)%Z
  end.

(** The tokens of the rows of a table, at the indentation [b]. *)
Definition rowTokens (d : ascii) (b : Z) (rows : list (list JsonPrimitive))
    (ts : list Token.t) : Prop :=
  Forall2 (fun cells t =>
             Token.type t = VALUE /\ Token.indent t = b
             /\ Token.value t = encodeAndJoinPrimitives cells d) rows ts.

(** What the loop of parseObject does with the tokens of a property: it
    sets the property and goes on. *)
Definition entryReads (d : ascii) (m : bool) (n : nat) (doc : Doc) : Prop :=
  forall key k i fuel acc l a rest,
    entryKey key doc = true -> shallow (Z.of_nat (k * n)) l ->
    2 * length (linesTokens d m n i (entryLines k key doc)) <= fuel ->
    reads _ (Parser.parseObjectLoop fuel (Z.of_nat (k * n))
               (Obj.set acc key (docValue doc))) l a rest ->
    reads _ (Parser.parseObjectLoop (S fuel) (Z.of_nat (k * n)) acc)
      (linesTokens d m n i (entryLines k key doc) ++ l) a rest.

(** What the loop of parseListItems does with the tokens of an item at
    depth [k]: it adds the item and goes on. *)
Definition itemReads (d : ascii) (m : bool) (n : nat) (doc : Doc) : Prop :=
  forall k i fuel b acc l a rest,
    (b <= Z.of_nat (k * n))%Z -> shallow (Z.of_nat (k * n)) l ->
    2 * length (linesTokens d m n i (itemLines k doc)) <= fuel ->
    reads _ (Parser.parseListItemsLoop fuel b (acc ++ [docValue doc])) l a rest ->
    reads _ (Parser.parseListItemsLoop (S fuel) b acc)
      (linesTokens d m n i (itemLines k doc) ++ l) a rest.

(** The documents that survive the trip, at the root: an object that is
    not empty, or a table. *)
Definition rootDoc (d : ascii) (doc : Doc) : Prop :=
  match doc with
  | DObject entries =>
      entries <> [] /\ NoDup (map fst entries) /\ goodEntries d entries
  | DTable header rows => goodTable d header rows
  | _ => False
  end.

(** Documents used as examples: an order with a nested object, a table and
    a list, and a list of tasks. *)
Definition orderDoc : Doc :=
  DObject
    [(lit "id", DPrim (PString (lit "A-7")));
     (lit "ship-to",
      DObject [(lit "name", DPrim (PString (lit "Ada Lovelace")));
               (lit "address",
                DObject [(lit "city", DPrim (PString (lit "London")));
                         (lit "tags", DArray [PString (lit "a,b"); PBoolean true])]);
               (lit "is vip?", DPrim (PBoolean true))]);
     (lit "items",
      DTable [lit "sku"; lit "note"]
        [[PString (lit "x1"); PString (lit "first: one")];
         [PString (lit "x2"); PNull]]);
     (lit "log",
      DList [DPrim (PString (lit "created"));
             DObject [(lit "step", DPrim (PString (lit "pack")));
                      (lit "boxes", DArray [PString (lit "S"); PString (lit "M")])];
             DArray [PString (lit "a"); PString (lit "b")]]);
     (lit "done", DPrim (PBoolean false))].

Definition orderExample : Unknown :=
  UPlainObject
    [(lit "id", UString (lit "A-7"));
     (lit "ship-to",
      UPlainObject
        [(lit "name", UString (lit "Ada Lovelace"));
         (lit "address",
          UPlainObject [(lit "city", UString (lit "London"));
                        (lit "tags", UArray [UString (lit "a,b"); UBoolean true])]);
         (lit "is vip?", UBoolean true)]);
     (lit "items",
      UArray [UPlainObject [(lit "sku", UString (lit "x1"));
                            (lit "note", UString (lit "first: one"))];
              UPlainObject [(lit "sku", UString (lit "x2")); (lit "note", UNull)]]);
     (lit "log",
      UArray [UString (lit "created");
              UPlainObject [(lit "step", UString (lit "pack"));
                            (lit "boxes", UArray [UString (lit "S"); UString (lit "M")])];
              UArray [UString (lit "a"); UString (lit "b")]]);
     (lit "done", UBoolean false)].

Definition taskItems : list Doc :=
  [DObject [(lit "task-id", DPrim (PString (lit "t1")));
            (lit "title", DPrim (PString (lit "Write, then test")));
            (lit "tags", DArray [PString (lit "doc"); PString (lit "v2")])];
   DObject [(lit "id", DPrim (PString (lit "t2")));
            (lit "owner", DObject [(lit "name", DPrim (PString (lit "Ada")))]);
            (lit "done", DPrim (PBoolean true))];
   DObject [(lit "tags", DArray [PString (lit "x")]);
            (lit "note", DPrim PNull)];
   DPrim (PString (lit "later"));
   DArray [PBoolean true; PNull]].

Definition taskExample : Unknown :=
  UArray
    [UPlainObject [(lit "task-id", UString (lit "t1"));
                   (lit "title", UString (lit "Write, then test"));
                   (lit "tags", UArray [UString (lit "doc"); UString (lit "v2")])];
     UPlainObject [(lit "id", UString (lit "t2"));
                   (lit "owner", UPlainObject [(lit "name", UString (lit "Ada"))]);
                   (lit "done", UBoolean true)];
     UPlainObject [(lit "tags", UArray [UString (lit "x")]);
                   (lit "note", UNull)];
     UString (lit "later");
     UArray [UBoolean true; UNull]].

(** Two tokens that differ in their line number at most. *)
Definition sameToken (t1 t2 : Token.t) : Prop :=
  Token.type t1 = Token.type t2 /\ Token.value t1 = Token.value t2
  /\ Token.indent t1 = Token.indent t2 /\ Token.arrayInfo t1 = Token.arrayInfo t2
  /\ Token.hadTabIndent t1 = Token.hadTabIndent t2.

Definition sameTokenOpt (t1 t2 : option Token.t) : Prop :=
  match t1, t2 with
  | Some a, Some b => sameToken a b
  | None, None => True
  | _, _ => False
  end.

(** Two states of the parser at the same position of such tokens. *)
Definition sameState (st1 st2 : Parser.State) : Prop :=
  Parser.position st1 = Parser.position st2
  /\ Forall2 sameToken (Parser.tokens st1) (Parser.tokens st2).

(** Two outcomes: the same error, or results related by [R]. *)
Definition sameResult (A : Type) (R : A -> A -> Prop) (r1 r2 : result A) : Prop :=
  match r1, r2 with
  | Ok a1, Ok a2 => R a1 a2
  | Throw e1, Throw e2 => e1 = e2
  | OutOfFuel, OutOfFuel => True
  | _, _ => False
  end.

(** Two methods that, from such states, go the same way. *)
Definition sim (A : Type) (R : A -> A -> Prop) (m1 m2 : Parser.M A) : Prop :=
  forall st1 st2, sameState st1 st2 ->
    sameResult _ (fun x y => R (fst x) (fst y) /\ sameState (snd x) (snd y))
      (m1 st1) (m2 st2).

(** The lines of a text that are not blank. *)
Definition solidLines (input : str) : list str :=
  filter (fun line => negb (Scanner.isBlank line)) (Js.split LF input).

(** A text with blank lines between its properties, inside a table and at
    both ends. *)
Definition spacedText : str :=
  [LF] ++ lit "a: 1" ++ [LF; LF] ++ lit "rows[2]{x,y}:" ++ [LF] ++ lit "  1,2"
    ++ [LF] ++ lit "   " ++ [LF] ++ lit "  3,4" ++ [LF; LF] ++ lit "b: 2" ++ [LF].

Definition packedText : str :=
  lit "a: 1" ++ [LF] ++ lit "rows[2]{x,y}:" ++ [LF] ++ lit "  1,2"
    ++ [LF] ++ lit "  3,4" ++ [LF] ++ lit "b: 2".

(** A text of a property and a table, and its value. *)
Definition stockText : str :=
  lit "shop: north" ++ [LF] ++ lit "rows[2]{sku,ok}:" ++ [LF] ++ lit "  a1,true"
    ++ [LF] ++ lit "  b2,false" ++ [LF] ++ lit "open: true".

Definition stockValue : JsonValue :=
  JObject
    [(lit "shop", JString (lit "north"));
     (lit "rows",
      JArray [JObject [(lit "sku", JString (lit "a1")); (lit "ok", JBool true)];
              JObject [(lit "sku", JString (lit "b2")); (lit "ok", JBool false)]]);
     (lit "open", JBool true)].

(** A line with white space added at its end. *)
Definition padded (l l' : str) : Prop :=
  exists w, l' = l ++ w /\ forallb Js.isWhiteSpace w = true /\ ~ In LF w.




Set Implicit Arguments.

(** Case analysis on a character: all 256 of them. *)
Ltac each_char c := destruct c as [[] [] [] [] [] [] [] []].

(* ================================================================== *)
(** ** Strings: basic facts *)
(* ================================================================== *)

Lemma ch_eqb_eq (a b : ascii) : Js.ch_eqb a b = true <-> a = b.
Proof. unfold Js.ch_eqb. apply Ascii.eqb_eq. Qed.

Lemma ch_eqb_neq (a b : ascii) : Js.ch_eqb a b = false <-> a <> b.
Proof. unfold Js.ch_eqb. apply Ascii.eqb_neq. Qed.

Lemma ch_eqb_refl (a : ascii) : Js.ch_eqb a a = true.
Proof. apply ch_eqb_eq. reflexivity. Qed.

Lemma str_eqb_eq (a b : str) : Js.str_eqb a b = true <-> a = b.
Proof.
  revert b. induction a as [|x a IH]; intros [|y b]; simpl; split; intro H;
    try reflexivity; try discriminate.
  - apply andb_true_iff in H. destruct H as [H1 H2].
    apply ch_eqb_eq in H1. apply IH in H2. subst. reflexivity.
  - injection H as -> ->. rewrite ch_eqb_refl. simpl. apply IH. reflexivity.
Qed.

Lemma str_eqb_refl (a : str) : Js.str_eqb a a = true.
Proof. apply str_eqb_eq. reflexivity. Qed.

Lemma endsWith_snoc (pre : str) (c d : ascii) :
  Js.endsWith (pre ++ [c]) [d] = Js.ch_eqb d c.
Proof.
  unfold Js.endsWith. rewrite rev_app_distr. simpl.
  destruct (Js.ch_eqb d c); destruct (rev pre); reflexivity.
Qed.

Lemma endsWith_nil (d : ascii) : Js.endsWith [] [d] = false.
Proof. reflexivity. Qed.

Lemma goodLine_endsWith_space (l : str) :
  goodLine l -> Js.endsWith l [SPACE] = false.
Proof.
  intros [_ (pre & c & -> & Hc)]. rewrite endsWith_snoc.
  apply ch_eqb_neq. congruence.
Qed.

Lemma goodLine_endsWith_LF (l : str) :
  goodLine l -> Js.endsWith l [LF] = false.
Proof.
  intros [Hn (pre & c & -> & Hc)]. rewrite endsWith_snoc.
  apply ch_eqb_neq. intros <-. apply Hn. apply in_or_app. right. left. reflexivity.
Qed.

Lemma goodLine_app (a b : str) : ~ In LF a -> goodLine b -> goodLine (a ++ b).
Proof.
  intros Ha [Hb (pre & c & -> & Hc)]. split.
  - intro H. apply in_app_or in H. tauto.
  - exists (a ++ pre), c. rewrite app_assoc. split; [reflexivity | assumption].
Qed.

Lemma goodLine_snoc (a : str) (c : ascii) :
  ~ In LF a -> c <> LF -> c <> SPACE -> goodLine (a ++ [c]).
Proof.
  intros Ha Hl Hs. split.
  - intro H. apply in_app_or in H. destruct H as [H | [H | []]]; [tauto | congruence].
  - exists a, c. split; [reflexivity | assumption].
Qed.

Lemma plain_goodLine (l : str) :
  l <> [] -> forallb plainChar l = true -> goodLine l.
Proof.
  intros Hne Hall. rewrite forallb_forall in Hall. split.
  - intro H. apply Hall in H. unfold plainChar in H.
    rewrite ch_eqb_refl in H. discriminate.
  - destruct (exists_last Hne) as (pre & c & ->). exists pre, c. split; [reflexivity|].
    intros ->. specialize (Hall SPACE). unfold plainChar in Hall.
    rewrite (ch_eqb_refl SPACE), andb_false_r in Hall.
    assert (false = true) by (apply Hall; apply in_or_app; right; left; reflexivity).
    discriminate.
Qed.

Lemma plain_noLF (l : str) : forallb plainChar l = true -> ~ In LF l.
Proof.
  intros Hall H. rewrite forallb_forall in Hall. apply Hall in H.
  unfold plainChar in H. rewrite ch_eqb_refl in H. discriminate.
Qed.

Lemma noLF_app (a b : str) : ~ In LF a -> ~ In LF b -> ~ In LF (a ++ b).
Proof. intros Ha Hb H. apply in_app_or in H. tauto. Qed.

Lemma noLF_repeatStr (s : str) (n : nat) : ~ In LF s -> ~ In LF (Js.repeatStr s n).
Proof.
  intro Hs. induction n as [|n IH]; simpl; [tauto|]. apply noLF_app; assumption.
Qed.

Lemma noLF_join (sep : str) (pieces : list str) :
  ~ In LF sep -> Forall (fun p => ~ In LF p) pieces -> ~ In LF (Js.join sep pieces).
Proof.
  intros Hsep H. induction H as [|p ps Hp Hps IH]; simpl; [tauto|].
  destruct ps as [|q ps]; [assumption|].
  apply noLF_app; [assumption|]. apply noLF_app; assumption.
Qed.

Lemma split_noSep (sep : ascii) (l : str) : ~ In sep l -> Js.split sep l = [l].
Proof.
  induction l as [|c l IH]; intro H; simpl; [reflexivity|].
  destruct (Js.ch_eqb c sep) eqn:E.
  - apply ch_eqb_eq in E. subst. exfalso. apply H. left. reflexivity.
  - rewrite IH; [reflexivity|]. intro Hin. apply H. right. assumption.
Qed.

Lemma split_app_sep (sep : ascii) (a b : str) :
  ~ In sep a -> Js.split sep (a ++ sep :: b) = a :: Js.split sep b.
Proof.
  induction a as [|c a IH]; intro H; simpl.
  - rewrite ch_eqb_refl. reflexivity.
  - destruct (Js.ch_eqb c sep) eqn:E.
    + apply ch_eqb_eq in E. subst. exfalso. apply H. left. reflexivity.
    + rewrite IH; [reflexivity|]. intro Hin. apply H. right. assumption.
Qed.

Lemma join_cons2 (sep : str) (p q : str) (ps : list str) :
  Js.join sep (p :: q :: ps) = p ++ sep ++ Js.join sep (q :: ps).
Proof. reflexivity. Qed.

Lemma split_join (sep : ascii) (pieces : list str) :
  pieces <> [] -> Forall (fun p => ~ In sep p) pieces ->
  Js.split sep (Js.join [sep] pieces) = pieces.
Proof.
  intros Hne H. revert Hne.
  induction H as [|p ps Hp Hps IH]; intro Hne; [exfalso; apply Hne; reflexivity|].
  destruct ps as [|q ps].
  - simpl. apply split_noSep. assumption.
  - rewrite join_cons2.
    change ([sep] ++ Js.join [sep] (q :: ps)) with (sep :: Js.join [sep] (q :: ps)).
    rewrite split_app_sep by assumption.
    rewrite IH; [reflexivity | discriminate].
Qed.

Lemma join_last_good (pieces : list str) (p : str) :
  Forall goodLine (pieces ++ [p]) -> goodLine p /\
  exists pre c, Js.join [LF] (pieces ++ [p]) = pre ++ [c] /\ c <> SPACE /\ c <> LF.
Proof.
  intros H. apply Forall_app in H. destruct H as [Hps Hp].
  inversion Hp as [|? ? Hgp _]; subst. split; [assumption|].
  destruct Hgp as [Hn (pre & c & -> & Hc)].
  assert (HcLF : c <> LF).
  { intros ->. apply Hn. apply in_or_app. right. left. reflexivity. }
  clear Hp Hn. induction pieces as [|q qs IH].
  - simpl. exists pre, c. auto.
  - inversion Hps; subst. destruct (IH H2) as (pre' & c' & E & H1' & H2').
    change ((q :: qs) ++ [pre ++ [c]]) with (q :: (qs ++ [pre ++ [c]])).
    destruct (qs ++ [pre ++ [c]]) as [|r rs] eqn:Eq.
    + destruct qs; discriminate.
    + rewrite join_cons2.
      rewrite E. exists (q ++ [LF] ++ pre'), c'.
      rewrite !app_assoc. auto.
Qed.

Lemma dropWhile_head (p : ascii -> bool) (s : str) :
  Js.dropWhile p s = [] \/ exists c r, Js.dropWhile p s = c :: r /\ p c = false.
Proof.
  induction s as [|c s IH]; simpl; [left; reflexivity|].
  destruct (p c) eqn:E; [assumption|]. right. exists c, s. auto.
Qed.

Lemma dropWhile_id (p : ascii -> bool) (c : ascii) (s : str) :
  p c = false -> Js.dropWhile p (c :: s) = c :: s.
Proof. intro H. simpl. rewrite H. reflexivity. Qed.

Lemma trimEnd_last (s : str) :
  Js.trimEnd s = [] \/
  exists pre c, Js.trimEnd s = pre ++ [c] /\ Js.isWhiteSpace c = false.
Proof.
  unfold Js.trimEnd.
  destruct (dropWhile_head Js.isWhiteSpace (rev s)) as [E | (c & r & E & Hc)];
    rewrite E; simpl; [left; reflexivity|].
  right. exists (rev r), c. auto.
Qed.

Lemma trim_last (s : str) :
  Js.trim s = [] \/
  exists pre c, Js.trim s = pre ++ [c] /\ Js.isWhiteSpace c = false.
Proof. unfold Js.trim. apply trimEnd_last. Qed.

(** A string that begins and ends with characters that are not white space
    is its own trimmed form. *)
Lemma trim_id (s : str) (a z : ascii) (mid : str) :
  s = a :: mid ++ [z] \/ (s = [a] /\ z = a) ->
  Js.isWhiteSpace a = false -> Js.isWhiteSpace z = false -> Js.trim s = s.
Proof.
  intros Hs Ha Hz. unfold Js.trim, Js.trimStart, Js.trimEnd.
  destruct Hs as [-> | [-> ->]].
  - rewrite dropWhile_id by assumption.
    assert (E : rev (a :: mid ++ [z]) = z :: rev (a :: mid))
      by apply (rev_unit (a :: mid) z).
    rewrite E. rewrite dropWhile_id by assumption. rewrite <- E.
    apply rev_involutive.
  - simpl. rewrite Ha. simpl. rewrite Ha. reflexivity.
Qed.

Lemma trim_id_forall (s : str) :
  forallb (fun c => negb (Js.isWhiteSpace c)) s = true -> Js.trim s = s.
Proof.
  intro H. destruct s as [|a s]; [reflexivity|].
  rewrite forallb_forall in H.
  assert (Ha : Js.isWhiteSpace a = false).
  { apply negb_true_iff. apply H. left. reflexivity. }
  destruct s as [|b s].
  - apply (@trim_id [a] a a []); auto.
  - assert (Hne : b :: s <> []) by discriminate.
    destruct (exists_last Hne) as (mid & z & E). rewrite E.
    apply (@trim_id (a :: mid ++ [z]) a z mid); auto.
    apply negb_true_iff. apply H. right. rewrite E. apply in_or_app. right. left. reflexivity.
Qed.

(* ================================================================== *)
(** ** Regular expressions: facts about matching *)
(* ================================================================== *)

Lemma void_not_nullable (r : Regex.re) :
  Regex.void r = true -> Regex.nullable r = false.
Proof.
  induction r as [| |p|a IHa b IHb|a IHa b IHb|a IHa]; simpl; intro H;
    try discriminate; try reflexivity.
  - apply orb_true_iff in H. destruct H as [H|H].
    + rewrite (IHa H). reflexivity.
    + rewrite (IHb H). apply andb_false_r.
  - apply andb_true_iff in H. destruct H as [H1 H2].
    rewrite (IHa H1), (IHb H2). reflexivity.
Qed.

Lemma void_deriv (c : ascii) (r : Regex.re) :
  Regex.void r = true -> Regex.void (Regex.deriv c r) = true.
Proof.
  induction r as [| |p|a IHa b IHb|a IHa b IHb|a IHa]; simpl; intro H;
    try discriminate; try reflexivity.
  - apply orb_true_iff in H. destruct (Regex.nullable a) eqn:Na; simpl.
    + destruct H as [H|H].
      * apply void_not_nullable in H. congruence.
      * rewrite H, (IHb H), orb_true_r. reflexivity.
    + destruct H as [H|H]; [rewrite (IHa H) | rewrite H, orb_true_r]; reflexivity.
  - apply andb_true_iff in H. destruct H as [H1 H2].
    rewrite (IHa H1), (IHb H2). reflexivity.
Qed.

Lemma void_test (r : Regex.re) (s : str) :
  Regex.void r = true -> Regex.test r s = false.
Proof.
  revert r. induction s as [|c s IH]; intros r H; simpl.
  - apply void_not_nullable. assumption.
  - apply IH. apply void_deriv. assumption.
Qed.

Lemma alphabet_deriv_void (c : ascii) (r : Regex.re) :
  Regex.alphabet r c = false -> Regex.void (Regex.deriv c r) = true.
Proof.
  induction r as [| |p|a IHa b IHb|a IHa b IHb|a IHa]; simpl; intro H;
    try reflexivity.
  - rewrite H. reflexivity.
  - apply orb_false_iff in H. destruct H as [H1 H2].
    destruct (Regex.nullable a); simpl; rewrite (IHa H1); simpl;
      [apply IHb; assumption | reflexivity].
  - apply orb_false_iff in H. destruct H as [H1 H2].
    rewrite (IHa H1), (IHb H2). reflexivity.
  - rewrite (IHa H). reflexivity.
Qed.

Lemma alphabet_deriv_mono (c x : ascii) (r : Regex.re) :
  Regex.alphabet (Regex.deriv c r) x = true -> Regex.alphabet r x = true.
Proof.
  induction r as [| |p|a IHa b IHb|a IHa b IHb|a IHa]; simpl; intro H;
    try discriminate.
  - destruct (p c); discriminate.
  - destruct (Regex.nullable a); simpl in H;
      repeat (apply orb_true_iff in H; destruct H as [H|H]);
      apply orb_true_iff; auto.
  - apply orb_true_iff in H. apply orb_true_iff. destruct H; auto.
  - apply orb_true_iff in H. destruct H; auto.
Qed.

(** A string that matches is made of characters of the classes. *)
Lemma test_alphabet (r : Regex.re) (s : str) :
  Regex.test r s = true -> forallb (Regex.alphabet r) s = true.
Proof.
  revert r. induction s as [|c s IH]; intros r H; simpl; [reflexivity|].
  simpl in H. apply andb_true_iff. split.
  - destruct (Regex.alphabet r c) eqn:E; [reflexivity|].
    apply (alphabet_deriv_void c) in E. rewrite (void_test _ s E) in H. discriminate.
  - apply IH in H. rewrite forallb_forall in *. intros x Hx.
    apply (alphabet_deriv_mono c). apply H. assumption.
Qed.

Lemma test_nonempty (r : Regex.re) (s : str) :
  Regex.nullable r = false -> Regex.test r s = true -> s <> [].
Proof. intros Hn Ht ->. simpl in Ht. congruence. Qed.

Lemma forallb_impl (A : Type) (p q : A -> bool) (l : list A) :
  (forall x, p x = true -> q x = true) ->
  forallb p l = true -> forallb q l = true.
Proof.
  intros Hpq H. rewrite forallb_forall in *. intros x Hx. apply Hpq, H, Hx.
Qed.

(* ================================================================== *)
(** ** Escaping *)
(* ================================================================== *)

Lemma replaceAll_flat_map (c : ascii) (by_ : str) (f : ascii -> str) (s : str) :
  Js.replaceAll c by_ (flat_map f s) = flat_map (fun x => Js.replaceAll c by_ (f x)) s.
Proof.
  unfold Js.replaceAll. induction s as [|x s IH]; simpl; [reflexivity|].
  rewrite flat_map_app, IH. reflexivity.
Qed.

Lemma replaceAll_as_flat_map (c : ascii) (by_ : str) (s : str) :
  Js.replaceAll c by_ s = flat_map (fun x => Js.replaceAll c by_ [x]) s.
Proof.
  unfold Js.replaceAll. apply flat_map_ext. intro x. simpl.
  rewrite app_nil_r. reflexivity.
Qed.

(** The five replacements of escapeString never interfere: together they map
    each character on its own. *)
Lemma escapeString_chars (s : str) : escapeString s = flat_map escapeChar s.
Proof.
  unfold escapeString.
  rewrite (replaceAll_as_flat_map BACKSLASH).
  rewrite !replaceAll_flat_map.
  apply flat_map_ext. intro x. each_char x; reflexivity.
Qed.

Lemma escapeString_cons (c : ascii) (s : str) :
  escapeString (c :: s) = escapeChar c ++ escapeString s.
Proof. rewrite !escapeString_chars. reflexivity. Qed.

Lemma escapeChar_noLF (c : ascii) : ~ In LF (escapeChar c).
Proof.
  unfold escapeChar.
  destruct (Js.ch_eqb c BACKSLASH) eqn:E1; [simpl; intuition discriminate|].
  destruct (Js.ch_eqb c DOUBLE_QUOTE) eqn:E2; [simpl; intuition discriminate|].
  destruct (Js.ch_eqb c LF) eqn:E3; [simpl; intuition discriminate|].
  destruct (Js.ch_eqb c CR) eqn:E4; [simpl; intuition discriminate|].
  destruct (Js.ch_eqb c TAB) eqn:E5; [simpl; intuition discriminate|].
  simpl. intros [H|[]]. subst. rewrite ch_eqb_refl in E3. discriminate.
Qed.

Lemma escapeString_noLF (s : str) : ~ In LF (escapeString s).
Proof.
  induction s as [|c s IH]; [simpl; tauto|].
  rewrite escapeString_cons. apply noLF_app; [apply escapeChar_noLF | assumption].
Qed.



Lemma escapeChar_unescaped (c : ascii) : unescaped c = true -> escapeChar c = [c].
Proof.
  unfold unescaped, escapeChar. intro H.
  repeat (apply andb_true_iff in H; destruct H as [H ?]).
  repeat match goal with
         | E : negb ?b = true |- _ => apply negb_true_iff in E; rewrite E
         end.
  reflexivity.
Qed.

Lemma escapeString_id (s : str) : forallb unescaped s = true -> escapeString s = s.
Proof.
  induction s as [|c s IH]; intro H; [reflexivity|].
  simpl in H. apply andb_true_iff in H. destruct H as [Hc Hs].
  rewrite escapeString_cons, (escapeChar_unescaped c Hc), (IH Hs). reflexivity.
Qed.

Lemma unescapeString_plain (c : ascii) (s : str) :
  Js.ch_eqb c BACKSLASH = false ->
  unescapeString (c :: s) = rbind (unescapeString s) (fun r => Ok (c :: r)).
Proof. intro H. simpl. rewrite H. reflexivity. Qed.

Lemma unescapeString_id (s : str) :
  forallb unescaped s = true -> unescapeString s = Ok s.
Proof.
  induction s as [|c s IH]; intro H; [reflexivity|].
  simpl in H. apply andb_true_iff in H. destruct H as [Hc Hs].
  rewrite unescapeString_plain.
  - rewrite (IH Hs). reflexivity.
  - unfold unescaped in Hc.
    repeat (apply andb_true_iff in Hc; destruct Hc as [Hc ?]).
    apply negb_true_iff. assumption.
Qed.

(** Unescaping undoes escaping. *)
Lemma unescape_escape (s : str) : unescapeString (escapeString s) = Ok s.
Proof.
  induction s as [|c s IH]; [reflexivity|].
  rewrite escapeString_cons. unfold escapeChar.
  destruct (Js.ch_eqb c BACKSLASH) eqn:E1.
  { apply ch_eqb_eq in E1. subst. simpl. rewrite IH. reflexivity. }
  destruct (Js.ch_eqb c DOUBLE_QUOTE) eqn:E2.
  { apply ch_eqb_eq in E2. subst. simpl. rewrite IH. reflexivity. }
  destruct (Js.ch_eqb c LF) eqn:E3.
  { apply ch_eqb_eq in E3. subst. simpl. rewrite IH. reflexivity. }
  destruct (Js.ch_eqb c CR) eqn:E4.
  { apply ch_eqb_eq in E4. subst. simpl. rewrite IH. reflexivity. }
  destruct (Js.ch_eqb c TAB) eqn:E5.
  { apply ch_eqb_eq in E5. subst. simpl. rewrite IH. reflexivity. }
  change ([c] ++ escapeString s) with (c :: escapeString s).
  rewrite unescapeString_plain by assumption. rewrite IH. reflexivity.
Qed.

(* ================================================================== *)
(** ** The text of numbers *)
(* ================================================================== *)

Lemma forallb_firstn (A : Type) (p : A -> bool) (n : nat) (l : list A) :
  forallb p l = true -> forallb p (firstn n l) = true.
Proof.
  intro H. rewrite forallb_forall in *. intros x Hx. apply H.
  rewrite <- (firstn_skipn n l). apply in_or_app. left. assumption.
Qed.

Lemma forallb_skipn (A : Type) (p : A -> bool) (n : nat) (l : list A) :
  forallb p l = true -> forallb p (skipn n l) = true.
Proof.
  intro H. rewrite forallb_forall in *. intros x Hx. apply H.
  rewrite <- (firstn_skipn n l). apply in_or_app. right. assumption.
Qed.

Lemma uintToStr_plain (u : Decimal.uint) : forallb plainChar (Js.uintToStr u) = true.
Proof. induction u; simpl; auto. Qed.

Lemma uintToStr_unescaped (u : Decimal.uint) : forallb unescaped (Js.uintToStr u) = true.
Proof. induction u; simpl; auto. Qed.

Lemma natToString_noLF (n : nat) : ~ In LF (Js.natToString n).
Proof. apply plain_noLF. apply uintToStr_plain. Qed.

Lemma uintToStr_nonempty (u : Decimal.uint) : u <> Decimal.Nil -> Js.uintToStr u <> [].
Proof. destruct u; simpl; congruence. Qed.

Lemma posToString_nonempty (p : positive) : Js.posToString p <> [].
Proof. apply uintToStr_nonempty. apply DecimalPos.Unsigned.to_uint_nonnil. Qed.

Lemma digitsOfZ_plain (z : Z) : forallb plainChar (JsNumber.digitsOfZ z) = true.
Proof. destruct z; simpl; try reflexivity. apply uintToStr_plain. Qed.

Lemma digitsOfZ_nonempty (z : Z) : JsNumber.digitsOfZ z <> [].
Proof. destruct z; simpl; try discriminate. apply posToString_nonempty. Qed.

Lemma zeros_plain (n : Z) : forallb plainChar (JsNumber.zeros n) = true.
Proof.
  unfold JsNumber.zeros. induction (Z.to_nat n) as [|k IH]; simpl; auto.
Qed.

Lemma layout_plain (ds : str) (n : Z) :
  forallb plainChar ds = true -> forallb plainChar (JsNumber.layout ds n) = true.
Proof.
  intro H. unfold JsNumber.layout.
  repeat match goal with |- context [if ?b then _ else _] => destruct b end;
    rewrite ?forallb_app;
    repeat (apply andb_true_iff; split);
    auto using zeros_plain, digitsOfZ_plain, forallb_firstn, forallb_skipn.
  all: destruct ds as [|d [|d' ds']]; simpl in *; auto.
Qed.

Lemma app_nonempty_l (A : Type) (a b : list A) : a <> [] -> a ++ b <> [].
Proof. destruct a; simpl; congruence. Qed.

Lemma app_nonempty_r (A : Type) (a b : list A) : b <> [] -> a ++ b <> [].
Proof. destruct a; simpl; [auto | congruence]. Qed.

Lemma layout_nonempty (ds : str) (n : Z) : ds <> [] -> JsNumber.layout ds n <> [].
Proof.
  intro H. unfold JsNumber.layout.
  repeat match goal with |- context [if ?b then _ else _] => destruct b end.
  - apply app_nonempty_l. assumption.
  - apply app_nonempty_r. discriminate.
  - discriminate.
  - apply app_nonempty_r. discriminate.
  - apply app_nonempty_r. discriminate.
Qed.

Lemma positiveToString_plain (m : positive) (e : Z) :
  forallb plainChar (JsNumber.positiveToString m e) = true
  /\ JsNumber.positiveToString m e <> [].
Proof.
  unfold JsNumber.positiveToString.
  destruct (binary_round JsNumber.prec JsNumber.emax false m e)
    as [sg|sg| |sg m' e']; try (split; [reflexivity | discriminate]).
  destruct (JsNumber.ratioOf m' e') as [num den].
  destruct (JsNumber.shortest 17 1 _ num den _) as [digits n].
  split.
  - apply layout_plain, digitsOfZ_plain.
  - apply layout_nonempty, digitsOfZ_nonempty.
Qed.

Lemma toString_plain (x : spec_float) :
  forallb plainChar (JsNumber.toString x) = true /\ JsNumber.toString x <> [].
Proof.
  destruct x as [s|s| |s m e]; simpl;
    try (split; [reflexivity | discriminate]).
  - destruct s; split; (reflexivity || discriminate).
  - destruct (positiveToString_plain m e) as [H1 H2]. destruct s.
    + split; [simpl; assumption | discriminate].
    + split; assumption.
Qed.

Lemma toString_goodLine (x : spec_float) : goodLine (JsNumber.toString x).
Proof. destruct (toString_plain x). apply plain_goodLine; assumption. Qed.

(* ================================================================== *)
(** ** The text of primitives, keys and headers *)
(* ================================================================== *)

(** What a bare string is known to satisfy. *)
Lemma isSafeUnquoted_true (s : str) (d : ascii) :
  isSafeUnquoted s d = true ->
  s <> [] /\ Js.trim s = s /\ hasControlChar s = false.
Proof.
  unfold isSafeUnquoted. destruct s as [|c s]; [discriminate|].
  destruct (Js.str_eqb (c :: s) (Js.trim (c :: s))) eqn:E1; simpl negb; cbv iota;
    [|discriminate].
  apply str_eqb_eq in E1.
  repeat match goal with
         | |- (if ?b then false else _) = true -> _ =>
             destruct b eqn:?; [discriminate|]
         end.
  intros _. split; [discriminate|]. split; [congruence | reflexivity].
Qed.

Lemma isSafeUnquoted_goodLine (s : str) (d : ascii) :
  isSafeUnquoted s d = true -> goodLine s.
Proof.
  intro H. apply isSafeUnquoted_true in H. destruct H as (Hne & Ht & Hc). split.
  - intro Hin. unfold hasControlChar in Hc.
    assert (Hex : existsb
              (fun c => Js.ch_eqb c LF || Js.ch_eqb c CR || Js.ch_eqb c TAB) s = true).
    { apply existsb_exists. exists LF. split; [assumption | reflexivity]. }
    congruence.
  - destruct (trim_last s) as [E | (pre & c & E & Hc')]; rewrite Ht in E;
      [contradiction|].
    exists pre, c. split; [assumption|]. intros ->. discriminate.
Qed.

Lemma quoted_goodLine (s : str) : ~ In LF s -> goodLine (quoted s).
Proof.
  intro H. unfold quoted. rewrite app_assoc. apply goodLine_snoc.
  - apply noLF_app; [|assumption]. simpl. intros [E|[]]. discriminate.
  - discriminate.
  - discriminate.
Qed.

Lemma encodeStringLiteral_goodLine (s : str) (d : ascii) :
  goodLine (encodeStringLiteral s d).
Proof.
  unfold encodeStringLiteral. destruct (isSafeUnquoted s d) eqn:E.
  - eapply isSafeUnquoted_goodLine. eassumption.
  - apply (quoted_goodLine (escapeString s)). apply escapeString_noLF.
Qed.

Lemma encodePrimitive_goodLine (p : JsonPrimitive) (d : ascii) :
  goodLine (encodePrimitive p d).
Proof.
  destruct p as [s|x|b|]; simpl.
  - apply encodeStringLiteral_goodLine.
  - apply toString_goodLine.
  - destruct b; apply plain_goodLine; (discriminate || reflexivity).
  - apply plain_goodLine; (discriminate || reflexivity).
Qed.

Lemma goodLine_noLF (l : str) : goodLine l -> ~ In LF l.
Proof. intros [H _]. assumption. Qed.

Lemma unquotedKey_alphabet (c : ascii) :
  Regex.alphabet Pattern.unquotedKey c = true -> plainChar c = true.
Proof. each_char c; vm_compute; intro H; (reflexivity || discriminate). Qed.

Lemma encodeKey_noLF (key : str) : ~ In LF (encodeKey key).
Proof.
  unfold encodeKey, isValidUnquotedKey.
  destruct (Regex.test Pattern.unquotedKey key) eqn:E.
  - apply plain_noLF. apply test_alphabet in E.
    eapply forallb_impl; [|eassumption]. apply unquotedKey_alphabet.
  - apply goodLine_noLF. apply (quoted_goodLine (escapeString key)).
    apply escapeString_noLF.
Qed.

Lemma lit_colon_goodLine (a : str) : ~ In LF a -> goodLine (a ++ lit ":").
Proof. intro H. apply goodLine_snoc; [assumption | discriminate | discriminate]. Qed.

Section GoodDelimiter.

Variable delimiter : ascii.
Hypothesis delimiter_noLF : delimiter <> LF.

Lemma delimiter_str_noLF : ~ In LF [delimiter].
Proof. simpl. intros [E|[]]. congruence. Qed.

Lemma formatHeader_goodLine (n : nat) (key : option str) (fields : option (list str))
    (lengthMarker : bool) :
  goodLine (formatHeader n key fields delimiter lengthMarker).
Proof.
  unfold formatHeader. apply lit_colon_goodLine.
  assert (H0 : ~ In LF match key with
                      | Some (c :: k) => encodeKey (c :: k)
                      | _ => []
                      end).
  { destruct key as [[|c k]|]; simpl; try tauto. apply encodeKey_noLF. }
  assert (H1 : ~ In LF (match key with
                        | Some (c :: k) => encodeKey (c :: k)
                        | _ => []
                        end ++ lit "[" ++ (if lengthMarker then lit "#" else [])
                          ++ Js.natToString n
                          ++ (if negb (Js.ch_eqb delimiter DEFAULT_DELIMITER)
                              then [delimiter] else [])
                          ++ lit "]")).
  { repeat apply noLF_app; try assumption.
    - simpl. intros [E|[]]. discriminate.
    - destruct lengthMarker; simpl; [intros [E|[]]; discriminate | tauto].
    - apply natToString_noLF.
    - destruct (negb _); [apply delimiter_str_noLF | simpl; tauto].
    - simpl. intros [E|[]]. discriminate. }
  destruct fields as [fs|]; [|assumption].
  apply noLF_app; [assumption|]. repeat apply noLF_app.
  - simpl. intros [E|[]]. discriminate.
  - apply noLF_join; [apply delimiter_str_noLF|].
    apply Forall_forall. intros x Hx. apply in_map_iff in Hx.
    destruct Hx as (k & <- & _). apply encodeKey_noLF.
  - simpl. intros [E|[]]. discriminate.
Qed.

Lemma encodeAndJoinPrimitives_goodLine (values : list JsonPrimitive) :
  values <> [] -> goodLine (encodeAndJoinPrimitives values delimiter).
Proof.
  intro Hne. unfold encodeAndJoinPrimitives.
  induction values as [|v vs IH]; [congruence|].
  destruct vs as [|v' vs].
  - simpl. apply encodePrimitive_goodLine.
  - change (map (fun v0 => encodePrimitive v0 delimiter) (v :: v' :: vs))
      with (encodePrimitive v delimiter
              :: map (fun v0 => encodePrimitive v0 delimiter) (v' :: vs)).
    simpl map at 1. rewrite join_cons2.
    apply goodLine_app; [apply goodLine_noLF, encodePrimitive_goodLine|].
    apply goodLine_app; [apply delimiter_str_noLF|].
    apply IH. discriminate.
Qed.

Lemma encodeInlineArrayLine_goodLine (values : list JsonPrimitive)
    (prefix : option str) (lengthMarker : bool) :
  goodLine (encodeInlineArrayLine values delimiter prefix lengthMarker).
Proof.
  unfold encodeInlineArrayLine. destruct values as [|v vs].
  - apply formatHeader_goodLine.
  - apply goodLine_app; [apply goodLine_noLF, formatHeader_goodLine|].
    apply goodLine_app; [simpl; intros [E|[]]; discriminate|].
    apply encodeAndJoinPrimitives_goodLine. discriminate.
Qed.

End GoodDelimiter.

(* ================================================================== *)
(** ** The writer keeps good lines *)
(* ================================================================== *)

Lemma JsonValue_induction (P : JsonValue -> Prop) :
  (forall p, P (JPrim p)) ->
  (forall o, Forall (fun kv => P (snd kv)) o -> P (JObject o)) ->
  (forall l, Forall P l -> P (JArray l)) ->
  forall v, P v.
Proof.
  intros Hp Ho Ha. fix IH 1. intros [p|o|l].
  - apply Hp.
  - apply Ho. induction o as [|[k x] o IHo]; constructor; [apply IH | exact IHo].
  - apply Ha. induction l as [|x l IHl]; constructor; [apply IH | exact IHl].
Qed.

Lemma fold_left_invariant (A B : Type) (P : A -> Prop) (f : A -> B -> A) (l : list B) :
  (forall a x, In x l -> P a -> P (f a x)) ->
  forall a, P a -> P (fold_left f l a).
Proof.
  induction l as [|x l IH]; intros Hf a Ha; simpl; [assumption|].
  apply IH.
  - intros b y Hy. apply Hf. right. assumption.
  - apply Hf; [left; reflexivity | assumption].
Qed.

Lemma goodWriter_new (n : nat) : goodWriter (LineWriter.new n).
Proof.
  split; [constructor|]. simpl. apply noLF_repeatStr.
  simpl. intros [E|[]]. discriminate.
Qed.

Lemma goodWriter_push (w : LineWriter.t) (depth : nat) (content : str) :
  goodWriter w -> goodLine content -> goodWriter (LineWriter.push w depth content).
Proof.
  intros [Hl Hi] Hc. split; simpl; [|assumption].
  apply Forall_app. split; [assumption|]. constructor; [|constructor].
  apply goodLine_app; [|assumption]. apply noLF_repeatStr. assumption.
Qed.

Lemma goodWriter_pushListItem (w : LineWriter.t) (depth : nat) (content : str) :
  goodWriter w -> goodLine content -> goodWriter (LineWriter.pushListItem w depth content).
Proof.
  intros Hw Hc. unfold LineWriter.pushListItem. apply goodWriter_push; [assumption|].
  apply goodLine_app; [|assumption]. simpl. intros [E|[E|[]]]; discriminate.
Qed.

Lemma extractTabularHeader_nonempty (rows : list JsonValue) (header : list str) :
  extractTabularHeader rows = Some header -> header <> [].
Proof.
  unfold extractTabularHeader. destruct rows as [|firstRow rows]; [discriminate|].
  destruct (negb (isJsonObject firstRow)); [discriminate|].
  destruct (Obj.keys (asObject firstRow)) as [|k ks]; [discriminate|].
  destruct (isTabularArray _ _); [|discriminate].
  intro H. injection H as <-. discriminate.
Qed.

Section GoodOptions.

Variable options : ResolvedOptions.t.
Hypothesis delimiter_ok : ResolvedOptions.delimiter options <> LF.

Lemma key_colon_primitive_goodLine (key : str) (p : JsonPrimitive) :
  goodLine (encodeKey key ++ lit ": "
              ++ encodePrimitive p (ResolvedOptions.delimiter options)).
Proof.
  apply goodLine_app; [apply encodeKey_noLF|].
  apply goodLine_app; [simpl; intros [E|[E|[]]]; discriminate|].
  apply encodePrimitive_goodLine.
Qed.

Lemma key_colon_goodLine (key : str) : goodLine (encodeKey key ++ lit ":").
Proof. apply lit_colon_goodLine. apply encodeKey_noLF. Qed.

Lemma key_length_goodLine (key : str) (n : nat) :
  goodLine (encodeKey key ++ lit "[" ++ Js.natToString n ++ lit "]:").
Proof.
  replace (encodeKey key ++ lit "[" ++ Js.natToString n ++ lit "]:")
    with ((encodeKey key ++ lit "[" ++ Js.natToString n ++ lit "]") ++ lit ":")
    by (rewrite <- !app_assoc; reflexivity).
  apply lit_colon_goodLine. repeat apply noLF_app.
  - apply encodeKey_noLF.
  - simpl. intros [E|[]]. discriminate.
  - apply natToString_noLF.
  - simpl. intros [E|[]]. discriminate.
Qed.

Lemma writeTabularRows_good (rows : list JsonObject) (header : list str)
    (w : LineWriter.t) (depth : nat) :
  header <> [] -> goodWriter w ->
  goodWriter (writeTabularRows rows header w depth options).
Proof.
  intros Hh Hw. unfold writeTabularRows.
  apply fold_left_invariant; [|assumption].
  intros a row _ Ha. apply goodWriter_push; [assumption|].
  apply encodeAndJoinPrimitives_goodLine; [assumption|].
  destruct header; [congruence | discriminate].
Qed.

Lemma encodeArrayOfObjectsAsTabular_good (prefix : option str) (rows : list JsonObject)
    (header : list str) (w : LineWriter.t) (depth : nat) :
  header <> [] -> goodWriter w ->
  goodWriter (encodeArrayOfObjectsAsTabular prefix rows header w depth options).
Proof.
  intros Hh Hw. unfold encodeArrayOfObjectsAsTabular.
  apply writeTabularRows_good; [assumption|].
  apply goodWriter_push; [assumption|]. apply formatHeader_goodLine. assumption.
Qed.

Lemma encodeArrayOfArraysAsListItems_good (prefix : option str) (values : list JsonValue)
    (w : LineWriter.t) (depth : nat) :
  goodWriter w ->
  goodWriter (encodeArrayOfArraysAsListItems prefix values w depth options).
Proof.
  intro Hw. unfold encodeArrayOfArraysAsListItems.
  apply fold_left_invariant.
  - intros a arr _ Ha. destruct arr as [p|o|l]; try assumption.
    destruct (isArrayOfPrimitives l); [|assumption].
    apply goodWriter_pushListItem; [assumption|].
    apply encodeInlineArrayLine_goodLine. assumption.
  - apply goodWriter_push; [assumption|]. apply formatHeader_goodLine. assumption.
Qed.

Section OpenInvariant.

Variable encKV :
  str -> JsonValue -> LineWriter.t -> nat -> ResolvedOptions.t -> LineWriter.t.
Variable encLI :
  JsonValue -> LineWriter.t -> nat -> ResolvedOptions.t -> LineWriter.t.

Lemma encodeObjectWith_good (o : JsonObject) (w : LineWriter.t) (depth : nat) :
  Forall (fun kv => keepsGoodKV options encKV (snd kv)) o -> goodWriter w ->
  goodWriter (encodeObjectWith encKV o w depth options).
Proof.
  intros Ho Hw. unfold encodeObjectWith. apply fold_left_invariant; [|assumption].
  intros a kv Hin Ha. rewrite Forall_forall in Ho. apply (Ho kv Hin). assumption.
Qed.

Lemma encodeListItems_good (items : list JsonValue) (w : LineWriter.t) (depth : nat) :
  Forall (keepsGoodLI options encLI) items -> goodWriter w ->
  goodWriter (fold_left (fun w0 item => encLI item w0 depth options) items w).
Proof.
  intros Hl Hw. apply fold_left_invariant; [|assumption].
  intros a item Hin Ha. rewrite Forall_forall in Hl. apply (Hl item Hin). assumption.
Qed.

Lemma encodeMixedArrayAsListItemsWith_good (prefix : option str)
    (items : list JsonValue) (w : LineWriter.t) (depth : nat) :
  Forall (keepsGoodLI options encLI) items -> goodWriter w ->
  goodWriter (encodeMixedArrayAsListItemsWith encLI prefix items w depth options).
Proof.
  intros Hl Hw. unfold encodeMixedArrayAsListItemsWith.
  apply encodeListItems_good; [assumption|].
  apply goodWriter_push; [assumption|]. apply formatHeader_goodLine. assumption.
Qed.

Lemma encodeArrayWith_good (key : option str) (value : JsonArray)
    (w : LineWriter.t) (depth : nat) :
  Forall (keepsGoodLI options encLI) value -> goodWriter w ->
  goodWriter (encodeArrayWith encLI key value w depth options).
Proof.
  intros Hl Hw. unfold encodeArrayWith. destruct value as [|v vs].
  - apply goodWriter_push; [assumption|]. apply formatHeader_goodLine. assumption.
  - destruct (isArrayOfPrimitives (v :: vs)).
    { apply goodWriter_push; [assumption|].
      apply encodeInlineArrayLine_goodLine. assumption. }
    destruct (isArrayOfArrays (v :: vs) && _).
    { apply encodeArrayOfArraysAsListItems_good. assumption. }
    destruct (isArrayOfObjects (v :: vs)).
    + destruct (extractTabularHeader (v :: vs)) as [header|] eqn:E.
      * apply encodeArrayOfObjectsAsTabular_good; [|assumption].
        eapply extractTabularHeader_nonempty. eassumption.
      * apply encodeMixedArrayAsListItemsWith_good; assumption.
    + apply encodeMixedArrayAsListItemsWith_good; assumption.
Qed.

Lemma encodeObjectAsListItemWith_good (obj : JsonObject) (w : LineWriter.t)
    (depth : nat) :
  Forall (fun kv => keepsGoodKV options encKV (snd kv) /\ keepsGoodInside options encKV encLI (snd kv)) obj ->
  goodWriter w ->
  goodWriter (encodeObjectAsListItemWith encKV encLI obj w depth options).
Proof.
  intros Ho Hw. unfold encodeObjectAsListItemWith.
  destruct obj as [|[firstKey firstValue] rest].
  - apply goodWriter_push; [assumption|].
    apply plain_goodLine; [discriminate | reflexivity].
  - inversion Ho as [|? ? [_ Hin] Hrest]; subst. simpl in Hin.
    apply fold_left_invariant.
    + intros a kv Hkv Ha. rewrite Forall_forall in Hrest.
      destruct (Hrest kv Hkv) as [Hk _]. apply Hk. assumption.
    + destruct firstValue as [p|nested|fv].
      * apply goodWriter_pushListItem; [assumption|].
        apply key_colon_primitive_goodLine.
      * destruct nested as [|e es].
        -- apply goodWriter_pushListItem; [assumption|]. apply key_colon_goodLine.
        -- apply encodeObjectWith_good; [assumption|].
           apply goodWriter_pushListItem; [assumption|]. apply key_colon_goodLine.
      * destruct (isArrayOfPrimitives fv).
        { apply goodWriter_pushListItem; [assumption|].
          apply encodeInlineArrayLine_goodLine. assumption. }
        destruct (isArrayOfObjects fv).
        -- destruct (extractTabularHeader fv) as [header|] eqn:E.
           ++ apply writeTabularRows_good.
              ** eapply extractTabularHeader_nonempty. eassumption.
              ** apply goodWriter_pushListItem; [assumption|].
                 apply formatHeader_goodLine. assumption.
           ++ apply fold_left_invariant.
              ** intros a item Hitem Ha. destruct (isJsonObject item); [|assumption].
                 simpl in Hin. rewrite Forall_forall in Hin.
                 apply (Hin item Hitem). assumption.
              ** apply goodWriter_pushListItem; [assumption|].
                 apply key_length_goodLine.
        -- apply encodeListItems_good; [assumption|].
           apply goodWriter_pushListItem; [assumption|].
           apply key_length_goodLine.
Qed.

End OpenInvariant.

(** The source names as equations: a list item that is an object is
    written by encodeObjectAsListItem, an array property by encodeArray, an
    object property by encodeObject. *)
Lemma encodeListItemValue_object (obj : JsonObject) (w : LineWriter.t) (depth : nat) :
  encodeListItemValue (JObject obj) w depth options
  = encodeObjectAsListItem obj w depth options.
Proof. reflexivity. Qed.

Lemma encodeKeyValuePair_array (key : str) (arr : JsonArray) (w : LineWriter.t)
    (depth : nat) :
  encodeKeyValuePair key (JArray arr) w depth options
  = encodeArray (Some key) arr w depth options.
Proof. reflexivity. Qed.

Lemma encodeKeyValuePair_object (key : str) (kv : str * JsonValue) (obj : JsonObject)
    (w : LineWriter.t) (depth : nat) :
  encodeKeyValuePair key (JObject (kv :: obj)) w depth options
  = encodeObject (kv :: obj)
      (LineWriter.push w depth (encodeKey key ++ lit ":")) (depth + 1) options.
Proof. reflexivity. Qed.

(** Every function of the encoder keeps the lines of the writer good. *)
Lemma encoder_keeps_good (v : JsonValue) :
  keepsGoodKV options encodeKeyValuePair v
  /\ keepsGoodLI options encodeListItemValue v
  /\ keepsGoodInside options encodeKeyValuePair encodeListItemValue v.
Proof.
  induction v as [p|o IH|l IH] using JsonValue_induction.
  - split; [|split]; [| |exact I].
    + intros key w depth Hw. simpl. apply goodWriter_push; [assumption|].
      apply key_colon_primitive_goodLine.
    + intros w depth Hw. simpl. apply goodWriter_pushListItem; [assumption|].
      apply encodePrimitive_goodLine.
  - assert (Hkv : Forall (fun kv => keepsGoodKV options encodeKeyValuePair (snd kv)) o).
    { eapply Forall_impl; [|exact IH]. intros kv H. apply H. }
    split; [|split]; [| |exact Hkv].
    + intros key w depth Hw. simpl. destruct o as [|e es].
      * apply goodWriter_push; [assumption|]. apply key_colon_goodLine.
      * apply encodeObjectWith_good; [assumption|].
        apply goodWriter_push; [assumption|]. apply key_colon_goodLine.
    + intros w depth Hw. simpl. apply encodeObjectAsListItemWith_good; [|assumption].
      eapply Forall_impl; [|exact IH]. intros kv H. split; apply H.
  - assert (Hli : Forall (keepsGoodLI options encodeListItemValue) l).
    { eapply Forall_impl; [|exact IH]. intros x H. apply H. }
    split; [|split]; [| |exact Hli].
    + intros key w depth Hw. simpl. apply encodeArrayWith_good; assumption.
    + intros w depth Hw. simpl. destruct (isArrayOfPrimitives l); [|assumption].
      apply goodWriter_pushListItem; [assumption|].
      apply encodeInlineArrayLine_goodLine. assumption.
Qed.

Lemma toString_good (w : LineWriter.t) :
  goodWriter w ->
  Forall (fun l => Js.endsWith l [SPACE] = false)
    (Js.split LF (LineWriter.toString w))
  /\ Js.endsWith (LineWriter.toString w) [LF] = false.
Proof.
  intros [Hl _]. unfold LineWriter.toString.
  destruct (LineWriter.lines w) as [|l ls] eqn:E.
  - simpl. split; [repeat constructor | reflexivity].
  - rewrite <- E in *. assert (Hne : LineWriter.lines w <> []) by congruence.
    split.
    + rewrite split_join; [|assumption|].
      * eapply Forall_impl; [|exact Hl]. apply goodLine_endsWith_space.
      * eapply Forall_impl; [|exact Hl]. apply goodLine_noLF.
    + destruct (exists_last Hne) as (ps & p & Ep). rewrite Ep in *.
      destruct (join_last_good ps p Hl) as (_ & pre & c & Ej & _ & Hc).
      rewrite Ej, endsWith_snoc. apply ch_eqb_neq. congruence.
Qed.

Lemma encodeValue_good (v : JsonValue) :
  Forall (fun l => Js.endsWith l [SPACE] = false)
    (Js.split LF (encodeValue v options))
  /\ Js.endsWith (encodeValue v options) [LF] = false.
Proof.
  destruct v as [p|o|l]; simpl.
  - pose proof (encodePrimitive_goodLine p (ResolvedOptions.delimiter options)) as Hg.
    rewrite split_noSep by (apply goodLine_noLF; assumption). split.
    + constructor; [|constructor]. apply goodLine_endsWith_space. assumption.
    + apply goodLine_endsWith_LF. assumption.
  - apply toString_good. unfold encodeObject. apply encodeObjectWith_good.
    + apply Forall_forall. intros kv _. apply encoder_keeps_good.
    + apply goodWriter_new.
  - apply toString_good. unfold encodeArray. apply encodeArrayWith_good.
    + apply Forall_forall. intros x _. apply encoder_keeps_good.
    + apply goodWriter_new.
Qed.

End GoodOptions.

Lemma resolved_delimiter_ok (options : option EncodeOptions.t) :
  ResolvedOptions.delimiter (resolveEncodeOptions options) <> LF.
Proof.
  destruct options as [[i [[]|] m]|]; simpl; discriminate.
Qed.

(* ================================================================== *)
(** ** Quoting law *)
(* ================================================================== *)


(* ================================================================== *)
(** ** No trailing white space *)
(* ================================================================== *)

(** For every value of the model, whose arrays have no empty slots, and
    all options, no line of the text [encode] returns ends with a space, and
    the text does not end with a line feed. *)
Theorem encode_no_trailing_whitespace (input : Unknown) (options : option EncodeOptions.t) :
  Forall (fun line => Js.endsWith line [SPACE] = false)
    (Js.split LF (encode input options))
  /\ Js.endsWith (encode input options) [LF] = false.
Proof.
  unfold encode. apply encodeValue_good. apply resolved_delimiter_ok.
Qed.

(* ================================================================== *)
(** ** Encoding: the examples of the specification *)
(* ================================================================== *)

(** C6. With default options the two uniform records are written in
    tabular form: the header with the field names in the key order of the
    first record, then one row per record, one level deeper. *)
Theorem encode_tabular_example :
  encode itemsExample None
  = lit "items[2]{id,qty}:" ++ [LF] ++ lit "  1,5" ++ [LF] ++ lit "  2,3".
Proof. vm_compute. reflexivity. Qed.

(** C9. For the mixed array [[1, [{a: 1}]]] the list header declares two
    elements and a single list item follows: [encodeListItemValue] writes
    nothing for an element that is an array with a non-primitive element. *)
Theorem mixed_array_drops_nested_array :
  encode nestedArrayExample None = lit "items[2]:" ++ [LF] ++ lit "  - 1"
  /\ length (listItemLines (encode nestedArrayExample None)) = 1
  /\ (forall arr w depth options,
        isArrayOfPrimitives arr = false ->
        encodeListItemValue (JArray arr) w depth options = w).
Proof.
  split; [vm_compute; reflexivity|]. split; [vm_compute; reflexivity|].
  intros arr w depth options H. simpl. rewrite H. reflexivity.
Qed.

(** C8. Unescaping the escaped form of a string gives the string back;
    the object [{m: "Line 1\nLine 2"}] is written as the one line
    [m: "Line 1\nLine 2"] with a backslash and an [n] between the quotes, and
    decoding that line gives the object back. *)
Theorem escape_unescape_roundtrip :
  (forall s, Parser.unescapeString (escapeString s) = Ok s)
  /\ encode twoLinesExample None = lit "m: " ++ quoted (lit "Line 1\nLine 2")
  /\ decode (encode twoLinesExample None) None = Ok (normalizeValue twoLinesExample)
  /\ normalizeValue twoLinesExample
     = JObject [(lit "m", JString (lit "Line 1" ++ [LF] ++ lit "Line 2"))].
Proof.
  split; [exact unescape_escape|]. repeat split; vm_compute; reflexivity.
Qed.

(* ================================================================== *)
(** ** Decoding: the strict option *)
(* ================================================================== *)

(** C1, counterexample. Without options the tab-indented line is rejected,
    with [{strict: false}] it is accepted: omitting [strict] is not the same
    as setting it to false. *)
Lemma strict_default_counterexample :
  decode tabIndentedLine None = Throw (TabInIndentation 1)
  /\ decode tabIndentedLine lenientOptions
     = Ok (JObject [(lit "a", JNumber (JsNumber.ofZ 1))]).
Proof. split; vm_compute; reflexivity. Qed.

(** C1, as amended. The option [strict] defaults to true: [decode] without
    options, or with options that omit [strict], behaves as with
    [{strict: true}]; so the tab-indented line is rejected when the option
    is omitted. *)
Theorem strict_defaults_to_true (input : str) (indent : option Z) :
  decode input None = decode input strictOptions
  /\ decode input (Some {| DecodeOptions.strict := None; DecodeOptions.indent := indent |})
     = decode input (Some {| DecodeOptions.strict := Some true;
                             DecodeOptions.indent := indent |})
  /\ decode tabIndentedLine
       (Some {| DecodeOptions.strict := None; DecodeOptions.indent := indent |})
     = Throw (TabInIndentation 1).
Proof.
  split; [reflexivity|]. split; [reflexivity|].
  unfold decode. reflexivity.
Qed.

(** Witness of C9 on the inner array [[{a: 1}]]. *)
Lemma mixed_array_drops_nested_array_witness :
  encodeListItemValue
    (JArray [JObject [(lit "a", JNumber (JsNumber.ofZ 1))]])
    (LineWriter.new 2) 1 (resolveEncodeOptions None)
  = LineWriter.new 2.
Proof.
  exact (proj2 (proj2 mixed_array_drops_nested_array)
           [JObject [(lit "a", JNumber (JsNumber.ofZ 1))]]
           (LineWriter.new 2) 1 (resolveEncodeOptions None) eq_refl).
Defined.

(* ================================================================== *)
(** ** Decoding: tabs in the indentation *)
(* ================================================================== *)

Unset Implicit Arguments.

Lemma getIndentFrom_lenient (options : Scanner.Options) (pre rest : str)
    (lineNum : nat) (count : Z) (had : bool) :
  Scanner.strict options = false ->
  Forall (fun c => c = SPACE \/ c = TAB) pre -> endsIndentation rest ->
  Scanner.getIndentFrom options (pre ++ rest) lineNum count had
  = Ok {| IndentInfo.count := (count + countSpaces pre)%Z;
          IndentInfo.hadTabIndent := had || hasTab pre |}.
Proof.
  intros Hs Hpre Hrest. revert count had.
  induction Hpre as [|c pre [-> | ->] _ IH]; intros count had.
  - simpl. unfold countSpaces. simpl. rewrite Z.add_0_r, orb_false_r.
    destruct rest as [|c rest]; [reflexivity|]. simpl. destruct Hrest as [H1 H2].
    apply ch_eqb_neq in H1, H2. rewrite H1, H2. reflexivity.
  - simpl. rewrite IH. unfold countSpaces. simpl.
    f_equal. f_equal. lia.
  - simpl. rewrite Hs. rewrite IH. unfold countSpaces, hasTab. simpl.
    f_equal. f_equal. destruct had; reflexivity.
Qed.

Lemma getIndentFrom_strict_tab (options : Scanner.Options) (pre rest : str)
    (lineNum : nat) (count : Z) (had : bool) :
  Scanner.strict options = true ->
  Forall (fun c => c = SPACE \/ c = TAB) pre -> In TAB pre ->
  Scanner.getIndentFrom options (pre ++ rest) lineNum count had
  = Throw (TabInIndentation lineNum).
Proof.
  intros Hs Hpre. revert count had.
  induction Hpre as [|c pre [-> | ->] _ IH]; intros count had Hin.
  - destruct Hin.
  - simpl. apply IH. destruct Hin as [E|Hin]; [discriminate | assumption].
  - simpl. rewrite Hs. reflexivity.
Qed.

(** C3, counterexample. In lenient mode a line indented with one tab has
    indent 0, not 4: the tab only sets the flag. *)
Lemma tab_indent_counterexample :
  Scanner.getIndent lenientScanner ([TAB] ++ lit "x") 1
  = Ok {| IndentInfo.count := 0; IndentInfo.hadTabIndent := true |}.
Proof. reflexivity. Qed.

(** C3, as amended. In lenient mode the indent of a line is the number of
    spaces in its leading run of spaces and tabs: a tab adds no column and
    only sets [hadTabIndent]; in strict mode a tab in that run is fatal. *)
Theorem getIndent_tabs (options : Scanner.Options) (pre rest : str) (lineNum : nat) :
  Forall (fun c => c = SPACE \/ c = TAB) pre -> endsIndentation rest ->
  (Scanner.strict options = false ->
   Scanner.getIndent options (pre ++ rest) lineNum
   = Ok {| IndentInfo.count := countSpaces pre;
           IndentInfo.hadTabIndent := hasTab pre |})
  /\ (Scanner.strict options = true -> In TAB pre ->
      Scanner.getIndent options (pre ++ rest) lineNum
      = Throw (TabInIndentation lineNum)).
Proof.
  intros Hpre Hrest. split.
  - intro Hs. unfold Scanner.getIndent.
    rewrite (getIndentFrom_lenient options pre rest lineNum 0 false Hs Hpre Hrest).
    simpl. rewrite Hs. reflexivity.
  - intros Hs Hin. unfold Scanner.getIndent.
    rewrite (getIndentFrom_strict_tab options pre rest lineNum 0 false Hs Hpre Hin).
    reflexivity.
Qed.

(** Witness of C3: a space, a tab and a space before [x]. *)
Lemma getIndent_tabs_witness :
  Scanner.getIndent lenientScanner ([SPACE; TAB; SPACE] ++ lit "x") 1
  = Ok {| IndentInfo.count := 2; IndentInfo.hadTabIndent := true |}
  /\ Scanner.getIndent strictScanner ([SPACE; TAB; SPACE] ++ lit "x") 1
     = Throw (TabInIndentation 1).
Proof.
  assert (Hpre : Forall (fun c => c = SPACE \/ c = TAB) [SPACE; TAB; SPACE])
    by (repeat constructor; auto).
  assert (Hrest : endsIndentation (lit "x")) by (split; discriminate).
  split.
  - exact (proj1 (getIndent_tabs lenientScanner [SPACE; TAB; SPACE] (lit "x") 1 Hpre Hrest)
             eq_refl).
  - exact (proj2 (getIndent_tabs strictScanner [SPACE; TAB; SPACE] (lit "x") 1 Hpre Hrest)
             eq_refl
             (or_intror (or_introl eq_refl))).
Defined.

(* ================================================================== *)
(** ** Decoding: count mismatch of an inline array *)
(* ================================================================== *)

(** C2, counterexample. With [{strict: false}] the header that declares
    two elements before three values is still rejected. *)
Lemma lenient_count_mismatch_counterexample :
  decode (lit "items[2]: a,b,c") lenientOptions = Throw (ArrayLengthMismatch 2 3).
Proof. vm_compute. reflexivity. Qed.

(** C2, as amended. A count mismatch of an inline primitive array is not
    suppressed in lenient mode: [items[2]: a,b,c] raises the length mismatch
    whatever the options, and whenever [parseArray] reads a header with
    inline values whose number differs from a declared length other than 0
    it raises that error; the parser has no access to the option. *)
Theorem count_mismatch_not_suppressed :
  (forall options,
     decode (lit "items[2]: a,b,c") options = Throw (ArrayLengthMismatch 2 3))
  /\ (forall fuel st header info inline,
        nth_error (Parser.tokens st) (Parser.position st) = Some header ->
        Token.arrayInfo header = Some info ->
        ArrayInfo.inlineValues info = Some inline -> inline <> [] ->
        ArrayInfo.length info <> 0%N ->
        N.of_nat (length (splitByDelimiter inline (ArrayInfo.delimiter info)))
        <> ArrayInfo.length info ->
        Parser.parseArray (S fuel) st
        = Throw (ArrayLengthMismatch (ArrayInfo.length info)
                   (length (splitByDelimiter inline (ArrayInfo.delimiter info))))).
Proof.
  split.
  - intros [[[[]|] ind]|]; reflexivity.
  - intros fuel st header info inline Hcur Hinfo Hinline Hne Hlen Hmis.
    simpl. unfold Parser.bind, Parser.current, Parser.advance. rewrite Hcur, Hinfo.
    simpl. apply N.eqb_neq in Hlen. rewrite Hlen, Hinline.
    destruct inline as [|c v]; [congruence|].
    apply N.eqb_neq in Hmis. unfold Parser.splitByDelimiter. rewrite Hmis.
    reflexivity.
Qed.

(** Witness of C2: the token the scanner makes of that line, in lenient
    mode, and what [parseArray] does with it. *)
Lemma count_mismatch_not_suppressed_witness :
  rbind (Scanner.scan lenientScanner (lit "items[2]: a,b,c"))
    (fun tokens => Ok (hd_error tokens)) = Ok (Some mismatchHeader)
  /\ Parser.parseArray 1 {| Parser.tokens := [mismatchHeader]; Parser.position := 0 |}
     = Throw (ArrayLengthMismatch 2 3).
Proof.
  split; [reflexivity|].
  refine (proj2 count_mismatch_not_suppressed 0
            {| Parser.tokens := [mismatchHeader]; Parser.position := 0 |}
            mismatchHeader _ (lit "a,b,c") eq_refl eq_refl eq_refl _ _ _);
    discriminate.
Defined.

(* ================================================================== *)
(** ** Decoding: fuel only bounds the recursion *)
(* ================================================================== *)

Lemma refines_refl (A : Type) (r : result A) : refines A r r.
Proof. right. reflexivity. Qed.

Lemma refines_trans (A : Type) (r1 r2 r3 : result A) :
  refines A r1 r2 -> refines A r2 r3 -> refines A r1 r3.
Proof.
  intros [H1|H1] [H2|H2]; subst; try (left; reflexivity); right; reflexivity.
Qed.

Lemma refines_bind (A B : Type) (m1 m2 : Parser.M A) (k1 k2 : A -> Parser.M B)
    (st : Parser.State) :
  refines _ (m1 st) (m2 st) ->
  (forall a st', refines _ (k1 a st') (k2 a st')) ->
  refines _ (Parser.bind m1 k1 st) (Parser.bind m2 k2 st).
Proof.
  intros [H|H] Hk; unfold Parser.bind.
  - rewrite H. left. reflexivity.
  - rewrite H. destruct (m2 st) as [[a st']| |];
      [apply Hk | right; reflexivity | left; reflexivity].
Qed.

(** Both sides run the same code; they differ in the fuel of the calls. *)
Ltac fuel_mono IHo IHa IHl :=
  repeat first
    [ match goal with |- refines _ ?a ?a => apply refines_refl end
    | apply IHo | apply IHa | apply IHl
    | apply refines_bind; [|intros]
    | match goal with
      | |- refines _ ((match ?x with _ => _ end) _) _ => destruct x
      | |- refines _ (match ?x with _ => _ end) _ => destruct x
      end ].

Ltac unfold_once fuel :=
  let m := fresh "m" in
  let Em := fresh "Em" in
  remember (S fuel) as m eqn:Em in |- * at 2;
  cbn [Parser.parseObjectLoop Parser.parseArray Parser.parseListItemsLoop
       Parser.parseRootLoop];
  subst m.

Lemma parser_fuel_step (fuel : nat) :
  (forall b r st,
     refines _ (Parser.parseObjectLoop fuel b r st)
       (Parser.parseObjectLoop (S fuel) b r st))
  /\ (forall st, refines _ (Parser.parseArray fuel st) (Parser.parseArray (S fuel) st))
  /\ (forall b r st,
        refines _ (Parser.parseListItemsLoop fuel b r st)
          (Parser.parseListItemsLoop (S fuel) b r st)).
Proof.
  induction fuel as [|fuel (IHo & IHa & IHl)].
  - repeat split; intros; left; reflexivity.
  - split; [|split].
    + intros b r st. unfold_once fuel. fuel_mono IHo IHa IHl.
    + intros st. unfold_once fuel. fuel_mono IHo IHa IHl.
    + intros b r st. unfold_once fuel. fuel_mono IHo IHa IHl.
Qed.

Lemma parseRootLoop_fuel_step (fuel : nat) (r : JsonObject) (st : Parser.State) :
  refines _ (Parser.parseRootLoop fuel r st) (Parser.parseRootLoop (S fuel) r st).
Proof.
  revert r st. induction fuel as [|fuel IH]; intros r st.
  - left. reflexivity.
  - destruct (parser_fuel_step fuel) as (IHo & IHa & IHl).
    unfold Parser.parseObject, Parser.parseListItems.
    unfold_once fuel. unfold Parser.parseObject, Parser.parseListItems.
    fuel_mono IHo IHa IHl; apply IH.
Qed.

Lemma parse_fuel_step (fuel : nat) (st : Parser.State) :
  refines _ (Parser.parse fuel st) (Parser.parse (S fuel) st).
Proof.
  destruct (parser_fuel_step fuel) as (IHo & IHa & IHl).
  unfold Parser.parse.
  fuel_mono IHo IHa IHl; apply parseRootLoop_fuel_step.
Qed.

(** More fuel never changes what the parser returns or throws. *)
Lemma parse_fuel_monotone (fuel more : nat) (st : Parser.State) :
  refines _ (Parser.parse fuel st) (Parser.parse (more + fuel) st).
Proof.
  induction more as [|more IH]; [apply refines_refl|].
  eapply refines_trans; [exact IH|]. apply parse_fuel_step.
Qed.

Lemma runWith_fuel_monotone (fuel more : nat) (tokens : list Token.t) :
  refines _ (Parser.runWith fuel tokens) (Parser.runWith (more + fuel) tokens).
Proof.
  unfold Parser.runWith.
  destruct (parse_fuel_monotone fuel more
              {| Parser.tokens := tokens; Parser.position := 0 |}) as [H|H];
    rewrite H; [left | right]; reflexivity.
Qed.

(* ================================================================== *)
(** ** Decoding: the top level never yields an empty object *)
(* ================================================================== *)

Lemma parse_root_loop (fuel : nat) (st : Parser.State) (first : Token.t) :
  nth_error (Parser.tokens st) (Parser.position st) = Some first ->
  entersRootLoop first = true ->
  Parser.parse fuel st
  = match Parser.parseRootLoop fuel [] st with
    | Ok (result, st') =>
        match Obj.keys result with
        | [] => Ok (JNull, st')
        | _ => Ok (JObject result, st')
        end
    | Throw e => Throw e
    | OutOfFuel => OutOfFuel
    end.
Proof.
  intros Hcur Hroot. unfold entersRootLoop in Hroot.
  apply andb_true_iff in Hroot. destruct Hroot as [Hroot H3].
  apply andb_true_iff in Hroot. destruct Hroot as [H1 H2].
  apply negb_true_iff in H1, H2, H3.
  unfold Parser.parse, Parser.bind, Parser.current at 1. rewrite Hcur, H1, H2, H3.
  destruct (Parser.parseRootLoop fuel [] st) as [[result st']| |]; try reflexivity.
  destruct (Obj.keys result); reflexivity.
Qed.

Lemma parse_not_empty_object (fuel : nat) (st st' : Parser.State) (v : JsonValue) :
  Parser.parse fuel st = Ok (v, st') -> isEmptyObject v = false.
Proof.
  unfold Parser.parse, Parser.bind, Parser.current at 1.
  destruct (nth_error (Parser.tokens st) (Parser.position st)) as [first|].
  2:{ unfold Parser.ret. intro H. injection H as <- _. reflexivity. }
  destruct (TokenType_eqb (Token.type first) EOF).
  { unfold Parser.ret. intro H. injection H as <- _. reflexivity. }
  destruct (TokenType_eqb (Token.type first) VALUE).
  { unfold Parser.lift, Parser.ret.
    destruct (Parser.parsePrimitive (Token.value first)); try discriminate.
    intro H. injection H as <- _. reflexivity. }
  destruct (TokenType_eqb (Token.type first) ARRAY_HEADER && _).
  { destruct (Parser.parseArray fuel st) as [[a st1]| |]; try discriminate.
    unfold Parser.ret. intro H. injection H as <- _. reflexivity. }
  destruct (Parser.parseRootLoop fuel [] st) as [[result st1]| |]; try discriminate.
  destruct result as [|kv result]; simpl; unfold Parser.ret;
    intro H; injection H as <- _; reflexivity.
Qed.

(** C10. [decode] never returns an empty object, and neither does [parse]
    on any tokens with any fuel: when the root loop binds no key, [parse]
    returns null; so decoding what [encode] makes of the empty object, the
    empty text, gives null, and so does a text with a list item and no key at
    the root. *)
Theorem decode_never_empty_object (input : str) (options : option DecodeOptions.t) :
  match decode input options with
  | Ok v => isEmptyObject v = false
  | Throw _ => True
  | OutOfFuel => True
  end
  /\ (forall fuel st,
        match Parser.parse fuel st with
        | Ok (v, _) => isEmptyObject v = false
        | Throw _ => True
        | OutOfFuel => True
        end)
  /\ encode (UPlainObject []) None = []
  /\ decode (encode (UPlainObject []) None) options = Ok JNull
  /\ decode (lit "- x") options = Ok JNull
  /\ (forall fuel st first st',
        nth_error (Parser.tokens st) (Parser.position st) = Some first ->
        entersRootLoop first = true ->
        Parser.parseRootLoop fuel [] st = Ok ([], st') ->
        Parser.parse fuel st = Ok (JNull, st')).
Proof.
  split; [|split; [|split; [reflexivity|split; [reflexivity|split]]]].
  - unfold decode. destruct (Js.trim input) as [|c t]; [reflexivity|].
    destruct (Scanner.scan (Scanner.resolve options) input) as [tokens| |];
      simpl; try exact I.
    unfold Parser.run, Parser.runWith.
    destruct (Parser.parse _ _) as [[v st']| |] eqn:E; try exact I.
    eapply parse_not_empty_object. eassumption.
  - intros fuel st.
    destruct (Parser.parse fuel st) as [[v st']| |] eqn:E; try exact I.
    eapply parse_not_empty_object. eassumption.
  - destruct options as [[[[]|] ind]|]; reflexivity.
  - intros fuel st first st' Hcur Hroot Hloop.
    rewrite (parse_root_loop fuel st first Hcur Hroot), Hloop. reflexivity.
Qed.

(** Witness of C10 on the tokens of [- x]: the loop skips the list item,
    binds nothing, and [parse] returns null. *)
Lemma decode_never_empty_object_witness :
  Parser.parse 12 {| Parser.tokens := listItemTokens; Parser.position := 0 |}
  = Ok (JNull, {| Parser.tokens := listItemTokens; Parser.position := 1 |}).
Proof.
  exact (proj2 (proj2 (proj2 (proj2 (proj2 (decode_never_empty_object [] None)))))
           12 {| Parser.tokens := listItemTokens; Parser.position := 0 |}
           (Scanner.mkToken LIST_ITEM (lit "x") 0 0 None false)
           {| Parser.tokens := listItemTokens; Parser.position := 1 |}
           eq_refl eq_refl eq_refl).
Defined.

(* ================================================================== *)
(** ** Decoding: numeric shapes *)
(* ================================================================== *)

Lemma digit_not_white (c : ascii) :
  Js.isDigit c = true -> negb (Js.isWhiteSpace c) = true.
Proof. each_char c; vm_compute; intro H; (reflexivity || discriminate). Qed.

Lemma digit_unescaped (c : ascii) : Js.isDigit c = true -> unescaped c = true.
Proof. each_char c; vm_compute; intro H; (reflexivity || discriminate). Qed.

Lemma leadingZero_alphabet (c : ascii) :
  Regex.alphabet Pattern.leadingZero c = true -> Js.isDigit c = true.
Proof. each_char c; vm_compute; intro H; (reflexivity || discriminate). Qed.

Lemma strictNumber_alphabet (c : ascii) :
  Regex.alphabet Pattern.strictNumber c = true ->
  negb (Js.isWhiteSpace c) = true /\ Js.ch_eqb DOUBLE_QUOTE c = false.
Proof.
  each_char c; vm_compute; intro H; (split; reflexivity) || discriminate.
Qed.

(** After a leading 0 the strict numeric shape admits no digit. *)
Lemma strictNumber_after_zero (d : ascii) :
  Js.isDigit d = true ->
  Regex.void (Regex.deriv d (Regex.deriv "0"%char Pattern.strictNumber)) = true.
Proof. each_char d; vm_compute; intro H; (reflexivity || discriminate). Qed.

Lemma leadingZero_digits (token : str) :
  Regex.test Pattern.leadingZero token = true -> forallb Js.isDigit token = true.
Proof.
  intro H. apply test_alphabet in H.
  eapply forallb_impl; [|exact H]. exact leadingZero_alphabet.
Qed.

(** A token of the shape 0 and digits: its first two characters. *)
Lemma leadingZero_shape (token : str) :
  Regex.test Pattern.leadingZero token = true ->
  exists d rest, token = "0"%char :: d :: rest /\ Js.isDigit d = true.
Proof.
  intro H. pose proof (leadingZero_digits token H) as Hd.
  destruct token as [|c0 [|d rest]].
  - discriminate.
  - exfalso. revert H. each_char c0; vm_compute; discriminate.
  - simpl in Hd. apply andb_true_iff in Hd. destruct Hd as [_ Hd].
    apply andb_true_iff in Hd. destruct Hd as [Hd _].
    exists d, rest. split; [|assumption].
    destruct (Js.ch_eqb "0"%char c0) eqn:E.
    + apply ch_eqb_eq in E. subst. reflexivity.
    + exfalso. change (Regex.test Pattern.leadingZero (c0 :: d :: rest))
        with (Regex.test (Regex.deriv c0 Pattern.leadingZero) (d :: rest)) in H.
      rewrite void_test in H; [discriminate|].
      unfold Pattern.leadingZero, Regex.Chr. cbn -[Js.ch_eqb]. rewrite E. reflexivity.
Qed.

Lemma substring_inner (a z : ascii) (mid : str) :
  Js.substring (a :: mid ++ [z]) 1 (Z.of_nat (length (a :: mid ++ [z])) - 1) = mid.
Proof.
  unfold Js.substring.
  assert (Hlen : length (a :: mid ++ [z]) = S (S (length mid))).
  { simpl. rewrite length_app. simpl. lia. }
  rewrite Hlen.
  replace (Z.to_nat (Z.min (Z.min (Z.max 1 0) (Z.of_nat (S (S (length mid)))))
                       (Z.min (Z.max (Z.of_nat (S (S (length mid))) - 1) 0)
                          (Z.of_nat (S (S (length mid)))))))
    with 1 by lia.
  replace (Z.to_nat (Z.max (Z.min (Z.max 1 0) (Z.of_nat (S (S (length mid)))))
                       (Z.min (Z.max (Z.of_nat (S (S (length mid))) - 1) 0)
                          (Z.of_nat (S (S (length mid)))))))
    with (S (length mid)) by lia.
  simpl. rewrite Nat.sub_0_r.
  rewrite firstn_app, firstn_all, Nat.sub_diag. simpl. apply app_nil_r.
Qed.

Lemma not_literal (r : Regex.re) (token literal : str) :
  Regex.test r token = true -> Regex.test r literal = false ->
  Js.str_eqb token literal = false.
Proof.
  intros Ht Hl. destruct (Js.str_eqb token literal) eqn:E; [|reflexivity].
  apply str_eqb_eq in E. subst. congruence.
Qed.

Lemma parsePrimitive_leadingZero (token : str) :
  Regex.test Pattern.leadingZero token = true ->
  Parser.parsePrimitive token = Ok (PString token).
Proof.
  intro H. pose proof (leadingZero_digits token H) as Hd.
  destruct (leadingZero_shape token H) as (d & rest & E & Hdigit).
  unfold Parser.parsePrimitive.
  rewrite (trim_id_forall token)
    by (eapply forallb_impl; [|exact Hd]; exact digit_not_white).
  rewrite (not_literal Pattern.leadingZero token (lit "null") H eq_refl).
  rewrite (not_literal Pattern.leadingZero token (lit "true") H eq_refl).
  rewrite (not_literal Pattern.leadingZero token (lit "false") H eq_refl).
  assert (Hstrict : Regex.test Pattern.strictNumber token = false).
  { rewrite E.
    change (Regex.test Pattern.strictNumber ("0"%char :: d :: rest))
      with (Regex.test
              (Regex.deriv d (Regex.deriv "0"%char Pattern.strictNumber)) rest).
    apply void_test. apply strictNumber_after_zero. assumption. }
  rewrite Hstrict. rewrite E. reflexivity.
Qed.

Lemma isSafeUnquoted_numericLike (token : str) (delimiter : ascii) :
  isNumericLike token = true -> isSafeUnquoted token delimiter = false.
Proof.
  intro H. unfold isSafeUnquoted. destruct token as [|c t]; [reflexivity|].
  destruct (negb _); [reflexivity|]. rewrite H, orb_true_r. reflexivity.
Qed.

Lemma parsePrimitive_quoted (s : str) :
  forallb unescaped s = true ->
  Parser.parsePrimitive (quoted s) = Ok (PString s).
Proof.
  intro Hs. unfold Parser.parsePrimitive, quoted.
  change ([DOUBLE_QUOTE] ++ s ++ [DOUBLE_QUOTE]) with (DOUBLE_QUOTE :: s ++ [DOUBLE_QUOTE]).
  rewrite (@trim_id (DOUBLE_QUOTE :: s ++ [DOUBLE_QUOTE]) DOUBLE_QUOTE DOUBLE_QUOTE s)
    by ((left; reflexivity) || reflexivity).
  change (Js.str_eqb (DOUBLE_QUOTE :: s ++ [DOUBLE_QUOTE]) (lit "null")) with false.
  change (Js.str_eqb (DOUBLE_QUOTE :: s ++ [DOUBLE_QUOTE]) (lit "true")) with false.
  change (Js.str_eqb (DOUBLE_QUOTE :: s ++ [DOUBLE_QUOTE]) (lit "false")) with false.
  cbv iota.
  assert (Hstrict : Regex.test Pattern.strictNumber (DOUBLE_QUOTE :: s ++ [DOUBLE_QUOTE]) = false).
  { change (Regex.test Pattern.strictNumber (DOUBLE_QUOTE :: s ++ [DOUBLE_QUOTE]))
      with (Regex.test (Regex.deriv DOUBLE_QUOTE Pattern.strictNumber)
              (s ++ [DOUBLE_QUOTE])).
    apply void_test. reflexivity. }
  rewrite Hstrict. simpl andb. cbv iota.
  assert (Hstart : Js.startsWith (DOUBLE_QUOTE :: s ++ [DOUBLE_QUOTE]) [DOUBLE_QUOTE] = true).
  { simpl. destruct (s ++ [DOUBLE_QUOTE]); reflexivity. }
  rewrite Hstart.
  change (DOUBLE_QUOTE :: s ++ [DOUBLE_QUOTE]) with ((DOUBLE_QUOTE :: s) ++ [DOUBLE_QUOTE]) at 1.
  rewrite endsWith_snoc. rewrite ch_eqb_refl.
  assert (Hlen : (length (DOUBLE_QUOTE :: s ++ [DOUBLE_QUOTE]) <? 2) = false).
  { apply Nat.ltb_ge. simpl. rewrite length_app. simpl. lia. }
  rewrite Hlen. simpl orb. cbv iota.
  rewrite substring_inner. unfold Parser.unescapeString.
  rewrite (unescapeString_id s Hs). reflexivity.
Qed.

(** C7, counterexample. [1e999] has the strict numeric shape and is
    returned as a string: its value is not a finite double. *)
Lemma overflowing_number_counterexample :
  Regex.test Pattern.strictNumber (lit "1e999") = true
  /\ Parser.parsePrimitive (lit "1e999") = Ok (PString (lit "1e999")).
Proof. split; vm_compute; reflexivity. Qed.

(** C7, as amended. A token of the shape 0 followed by digits is returned
    as the same string; the encoder quotes such a string, since
    [isNumericLike] accepts it, and the quoted form is read back as the
    string.  A token of the strict numeric shape is returned as its number
    when that number is a finite double, and as the same string when it is
    not (as [1e999], which overflows). *)
Theorem parsePrimitive_numeric_shapes (token : str) (delimiter : ascii) :
  (Regex.test Pattern.leadingZero token = true ->
   Parser.parsePrimitive token = Ok (PString token)
   /\ isNumericLike token = true
   /\ encodeStringLiteral token delimiter = quoted token
   /\ Parser.parsePrimitive (encodeStringLiteral token delimiter) = Ok (PString token))
  /\ (Regex.test Pattern.strictNumber token = true ->
      (JsNumber.isFinite (JsNumber.Number token) = true ->
       Parser.parsePrimitive token = Ok (PNumber (JsNumber.Number token)))
      /\ (JsNumber.isFinite (JsNumber.Number token) = false ->
          Parser.parsePrimitive token = Ok (PString token))).
Proof.
  split.
  - intro H. pose proof (leadingZero_digits token H) as Hd.
    assert (Hu : forallb unescaped token = true)
      by (eapply forallb_impl; [|exact Hd]; exact digit_unescaped).
    assert (Hn : isNumericLike token = true)
      by (unfold isNumericLike; rewrite H; apply orb_true_r).
    assert (Hq : encodeStringLiteral token delimiter = quoted token).
    { unfold encodeStringLiteral.
      rewrite (isSafeUnquoted_numericLike token delimiter Hn).
      rewrite (escapeString_id token Hu). reflexivity. }
    split; [apply parsePrimitive_leadingZero; assumption|].
    split; [assumption|]. split; [assumption|].
    rewrite Hq. apply parsePrimitive_quoted. assumption.
  - intro H. pose proof (test_alphabet _ _ H) as Ha.
    assert (Htrim : Js.trim token = token).
    { apply trim_id_forall. eapply forallb_impl; [|exact Ha].
      intros c Hc. apply strictNumber_alphabet. assumption. }
    assert (Hquote : Js.startsWith token [DOUBLE_QUOTE] = false).
    { destruct token as [|c t]; [reflexivity|]. cbn [forallb] in Ha.
      apply andb_true_iff in Ha. destruct Ha as [Hc _].
      apply strictNumber_alphabet in Hc. destruct Hc as [_ Hc].
      cbn [Js.startsWith]. rewrite Hc. reflexivity. }
    unfold Parser.parsePrimitive. rewrite Htrim.
    rewrite (not_literal Pattern.strictNumber token (lit "null") H eq_refl).
    rewrite (not_literal Pattern.strictNumber token (lit "true") H eq_refl).
    rewrite (not_literal Pattern.strictNumber token (lit "false") H eq_refl).
    rewrite H. split; intro Hf.
    + rewrite Hf. destruct (JsNumber.Number token); try discriminate; reflexivity.
    + rewrite Hf, andb_false_r, Hquote. reflexivity.
Qed.

(** Witness of C7 on the tokens [0123], [1.5e3] and [1e999]. *)
Lemma parsePrimitive_numeric_shapes_witness :
  (Parser.parsePrimitive (lit "0123") = Ok (PString (lit "0123"))
   /\ encodeStringLiteral (lit "0123") ","%char = quoted (lit "0123")
   /\ Parser.parsePrimitive (encodeStringLiteral (lit "0123") ","%char)
      = Ok (PString (lit "0123")))
  /\ Parser.parsePrimitive (lit "1.5e3") = Ok (PNumber (JsNumber.ofZ 1500))
  /\ Parser.parsePrimitive (lit "1e999") = Ok (PString (lit "1e999")).
Proof.
  pose proof (proj1 (parsePrimitive_numeric_shapes (lit "0123") ","%char) eq_refl)
    as (H1 & _ & H3 & H4).
  split; [exact (conj H1 (conj H3 H4))|]. split.
  - exact (proj1 (proj2 (parsePrimitive_numeric_shapes (lit "1.5e3") ","%char) eq_refl)
             eq_refl).
  - exact (proj2 (proj2 (parsePrimitive_numeric_shapes (lit "1e999") ","%char) eq_refl)
             eq_refl).
Defined.

(* ================================================================== *)
(** ** Regular expressions: what a pattern matches *)
(* ================================================================== *)

Lemma matches_nul_inv (s : str) : matches Regex.Nul s -> False.
Proof. intro H. inversion H. Qed.

Lemma matches_eps_inv (s : str) : matches Regex.Eps s -> s = [].
Proof. intro H. inversion H. reflexivity. Qed.

Lemma matches_cls_inv (p : ascii -> bool) (s : str) :
  matches (Regex.Cls p) s -> exists c, s = [c] /\ p c = true.
Proof. intro H. inversion H; subst. eauto. Qed.

Lemma matches_seq_inv (a b : Regex.re) (s : str) :
  matches (Regex.Seq a b) s ->
  exists s1 s2, s = s1 ++ s2 /\ matches a s1 /\ matches b s2.
Proof. intro H. inversion H; subst. eauto. Qed.

Lemma matches_alt_inv (a b : Regex.re) (s : str) :
  matches (Regex.Alt a b) s -> matches a s \/ matches b s.
Proof. intro H. inversion H; subst; auto. Qed.

Lemma matches_seq_cons (a b : Regex.re) (c : ascii) (s1 s2 : str) :
  matches a (c :: s1) -> matches b s2 -> matches (Regex.Seq a b) (c :: s1 ++ s2).
Proof. intros Ha Hb. exact (MSeq a b (c :: s1) s2 Ha Hb). Qed.

Lemma nullable_matches (r : Regex.re) : Regex.nullable r = true <-> matches r [].
Proof.
  induction r as [| |p|a IHa b IHb|a IHa b IHb|a IHa]; simpl; split; intro H.
  - discriminate.
  - destruct (matches_nul_inv _ H).
  - constructor.
  - reflexivity.
  - discriminate.
  - apply matches_cls_inv in H. destruct H as (c & E & _). discriminate.
  - apply andb_true_iff in H. destruct H as [H1 H2].
    exact (MSeq a b [] [] (proj1 IHa H1) (proj1 IHb H2)).
  - apply matches_seq_inv in H. destruct H as (s1 & s2 & E & H1 & H2).
    symmetry in E. apply app_eq_nil in E. destruct E; subst.
    apply andb_true_iff. split; [apply IHa | apply IHb]; assumption.
  - apply orb_true_iff in H. destruct H as [H|H];
      [apply MAltL, IHa | apply MAltR, IHb]; assumption.
  - apply orb_true_iff. apply matches_alt_inv in H.
    destruct H; [left; apply IHa | right; apply IHb]; assumption.
  - constructor.
  - reflexivity.
Qed.

Lemma matches_star_cons (a : Regex.re) (c : ascii) (s : str) :
  matches (Regex.Star a) (c :: s) ->
  exists s1 s2, s = s1 ++ s2 /\ matches a (c :: s1) /\ matches (Regex.Star a) s2.
Proof.
  intro H. remember (Regex.Star a) as r eqn:Er. remember (c :: s) as t eqn:Et.
  revert c s Et. induction H as [| | | | | |a' s1 s2 H1 _ H2 IH2]; intros c0 s0 Et;
    try discriminate.
  injection Er as ->. destruct s1 as [|x s1].
  - simpl in Et. apply IH2; [reflexivity | assumption].
  - simpl in Et. injection Et as -> <-. exists s1, s2. auto.
Qed.

Lemma deriv_matches (r : Regex.re) (c : ascii) (s : str) :
  matches (Regex.deriv c r) s <-> matches r (c :: s).
Proof.
  revert s. induction r as [| |p|a IHa b IHb|a IHa b IHb|a IHa]; intro s; simpl.
  - split; intro H; destruct (matches_nul_inv _ H).
  - split; intro H; [destruct (matches_nul_inv _ H)|].
    apply matches_eps_inv in H. discriminate.
  - destruct (p c) eqn:E; split; intro H.
    + apply matches_eps_inv in H. subst. constructor. assumption.
    + apply matches_cls_inv in H. destruct H as (x & Ex & _). injection Ex as _ ->.
      constructor.
    + destruct (matches_nul_inv _ H).
    + apply matches_cls_inv in H. destruct H as (x & Ex & Hx). injection Ex as <- _.
      congruence.
  - assert (Hfwd : matches (Regex.Seq (Regex.deriv c a) b) s ->
                   matches (Regex.Seq a b) (c :: s)).
    { intro H. apply matches_seq_inv in H. destruct H as (s1 & s2 & -> & H1 & H2).
      apply matches_seq_cons; [apply IHa|]; assumption. }
    destruct (Regex.nullable a) eqn:Na; split; intro H.
    + apply matches_alt_inv in H. destruct H as [H|H]; [auto|].
      exact (MSeq a b [] (c :: s) (proj1 (nullable_matches a) Na) (proj1 (IHb s) H)).
    + apply matches_seq_inv in H. destruct H as (s1 & s2 & E & H1 & H2).
      destruct s1 as [|x s1].
      * simpl in E. subst. apply MAltR. apply IHb. assumption.
      * simpl in E. injection E as <- ->. apply MAltL.
        constructor; [apply IHa|]; assumption.
    + auto.
    + apply matches_seq_inv in H. destruct H as (s1 & s2 & E & H1 & H2).
      destruct s1 as [|x s1].
      * apply nullable_matches in H1. congruence.
      * simpl in E. injection E as <- ->. constructor; [apply IHa|]; assumption.
  - split; intro H; apply matches_alt_inv in H; destruct H as [H|H];
      solve [apply MAltL, IHa; assumption | apply MAltR, IHb; assumption].
  - split; intro H.
    + apply matches_seq_inv in H. destruct H as (s1 & s2 & -> & H1 & H2).
      exact (MStarS a (c :: s1) s2 (proj1 (IHa s1) H1) H2).
    + apply matches_star_cons in H. destruct H as (s1 & s2 & -> & H1 & H2).
      constructor; [apply IHa|]; assumption.
Qed.

(** Matching by derivatives decides the denotation. *)
Lemma test_matches (r : Regex.re) (s : str) : Regex.test r s = true <-> matches r s.
Proof.
  revert r. induction s as [|c s IH]; intro r; simpl.
  - apply nullable_matches.
  - rewrite IH. apply deriv_matches.
Qed.

Lemma matches_seq_mono (a a' b b' : Regex.re) (s : str) :
  (forall t, matches a t -> matches a' t) ->
  (forall t, matches b t -> matches b' t) ->
  matches (Regex.Seq a b) s -> matches (Regex.Seq a' b') s.
Proof.
  intros Ha Hb H. apply matches_seq_inv in H. destruct H as (s1 & s2 & -> & H1 & H2).
  constructor; auto.
Qed.

(** Every text of the strict numeric shape is numeric-like. *)
Lemma strictNumber_numericLike (s : str) :
  Regex.test Pattern.strictNumber s = true -> Regex.test Pattern.numericLike s = true.
Proof.
  rewrite !test_matches. unfold Pattern.strictNumber, Pattern.numericLike.
  apply matches_seq_mono; [auto|]. intro t.
  apply matches_seq_mono; [|auto]. clear t. intros t H.
  apply matches_alt_inv in H. destruct H as [H|H].
  - apply matches_cls_inv in H. destruct H as (c & -> & Hc).
    apply ch_eqb_eq in Hc. subst.
    exact (MSeq _ _ ["0"%char] [] (MCls Js.isDigit "0"%char eq_refl) (MStar0 _)).
  - unfold Regex.Plus. revert H. apply matches_seq_mono; [|auto].
    intros u Hu. apply matches_cls_inv in Hu. destruct Hu as (c & -> & Hc).
    constructor. revert Hc. each_char c; vm_compute; intro H; (reflexivity || discriminate).
Qed.

(* ================================================================== *)
(** ** Primitives and keys: from the text and back *)
(* ================================================================== *)

(** Everything [isSafeUnquoted] has checked of a string it accepts. *)
Lemma isSafeUnquoted_facts (s : str) (d : ascii) :
  isSafeUnquoted s d = true ->
  s <> [] /\ Js.trim s = s
  /\ isBooleanOrNullLiteral s = false /\ isNumericLike s = false
  /\ (Js.includes s ":" = true -> isISOTimestamp s = true)
  /\ Js.includes s DOUBLE_QUOTE = false /\ Js.includes s BACKSLASH = false
  /\ hasBracketOrBrace s = false /\ hasControlChar s = false
  /\ Js.includes s d = false /\ Js.startsWith s LIST_ITEM_MARKER = false.
Proof.
  unfold isSafeUnquoted. destruct s as [|c s]; [discriminate|].
  destruct (Js.str_eqb (c :: s) (Js.trim (c :: s))) eqn:E1; simpl negb; cbv iota;
    [|discriminate].
  apply str_eqb_eq in E1.
  destruct (isBooleanOrNullLiteral (c :: s) || isNumericLike (c :: s)) eqn:E2;
    [discriminate|]. apply orb_false_iff in E2. destruct E2 as [E2 E3].
  destruct (Js.includes (c :: s) ":" && negb (isISOTimestamp (c :: s))) eqn:E4;
    [discriminate|].
  destruct (Js.includes (c :: s) DOUBLE_QUOTE || Js.includes (c :: s) BACKSLASH) eqn:E5;
    [discriminate|]. apply orb_false_iff in E5. destruct E5 as [E5 E6].
  destruct (hasBracketOrBrace (c :: s)) eqn:E7; [discriminate|].
  destruct (hasControlChar (c :: s)) eqn:E8; [discriminate|].
  destruct (Js.includes (c :: s) d) eqn:E9; [discriminate|].
  destruct (Js.startsWith (c :: s) LIST_ITEM_MARKER) eqn:E10; [discriminate|].
  intros _. repeat split; try assumption; try congruence.
  intro Hc. rewrite Hc in E4. simpl in E4. apply negb_false_iff in E4. assumption.
Qed.

Lemma startsWith_single (s : str) (c : ascii) :
  Js.startsWith s [c] = match s with x :: _ => Js.ch_eqb c x | [] => false end.
Proof.
  destruct s as [|x s]; simpl; [reflexivity|].
  destruct s; apply andb_true_r.
Qed.

Lemma includes_head (c x : ascii) (s : str) :
  Js.includes (x :: s) c = false -> Js.ch_eqb c x = false.
Proof. unfold Js.includes. simpl. intro H. apply orb_false_iff in H. tauto. Qed.

(** A string that is written bare is read back as itself. *)
Lemma parsePrimitive_safe (s : str) (d : ascii) :
  isSafeUnquoted s d = true -> Parser.parsePrimitive s = Ok (PString s).
Proof.
  intro H. apply isSafeUnquoted_facts in H.
  destruct H as (Hne & Ht & Hlit & Hnum & _ & Hq & _).
  unfold Parser.parsePrimitive. rewrite Ht.
  unfold isBooleanOrNullLiteral in Hlit.
  apply orb_false_iff in Hlit. destruct Hlit as [Hlit Hnull].
  apply orb_false_iff in Hlit. destruct Hlit as [Htrue Hfalse].
  unfold TRUE_LITERAL, FALSE_LITERAL, NULL_LITERAL in *.
  rewrite Hnull, Htrue, Hfalse.
  assert (Hstrict : Regex.test Pattern.strictNumber s = false).
  { destruct (Regex.test Pattern.strictNumber s) eqn:E; [|reflexivity].
    apply strictNumber_numericLike in E. unfold isNumericLike in Hnum.
    rewrite E in Hnum. discriminate. }
  rewrite Hstrict. simpl andb. cbv iota.
  rewrite startsWith_single. destruct s as [|x s]; [congruence|].
  rewrite (includes_head _ _ _ Hq). reflexivity.
Qed.

(** A text between double quotes is read by unescaping what is between
    them. *)
Lemma parsePrimitive_quoted_text (e : str) :
  Parser.parsePrimitive (quoted e)
  = rbind (unescapeString e) (fun s => Ok (PString s)).
Proof.
  unfold Parser.parsePrimitive, quoted.
  change ([DOUBLE_QUOTE] ++ e ++ [DOUBLE_QUOTE]) with (DOUBLE_QUOTE :: e ++ [DOUBLE_QUOTE]).
  rewrite (@trim_id (DOUBLE_QUOTE :: e ++ [DOUBLE_QUOTE]) DOUBLE_QUOTE DOUBLE_QUOTE e)
    by ((left; reflexivity) || reflexivity).
  change (Js.str_eqb (DOUBLE_QUOTE :: e ++ [DOUBLE_QUOTE]) (lit "null")) with false.
  change (Js.str_eqb (DOUBLE_QUOTE :: e ++ [DOUBLE_QUOTE]) (lit "true")) with false.
  change (Js.str_eqb (DOUBLE_QUOTE :: e ++ [DOUBLE_QUOTE]) (lit "false")) with false.
  cbv iota.
  assert (Hstrict : Regex.test Pattern.strictNumber (DOUBLE_QUOTE :: e ++ [DOUBLE_QUOTE]) = false).
  { change (Regex.test Pattern.strictNumber (DOUBLE_QUOTE :: e ++ [DOUBLE_QUOTE]))
      with (Regex.test (Regex.deriv DOUBLE_QUOTE Pattern.strictNumber)
              (e ++ [DOUBLE_QUOTE])).
    apply void_test. reflexivity. }
  rewrite Hstrict. simpl andb. cbv iota.
  rewrite startsWith_single, ch_eqb_refl.
  change (DOUBLE_QUOTE :: e ++ [DOUBLE_QUOTE]) with ((DOUBLE_QUOTE :: e) ++ [DOUBLE_QUOTE]) at 1.
  rewrite endsWith_snoc. rewrite ch_eqb_refl.
  assert (Hlen : (length (DOUBLE_QUOTE :: e ++ [DOUBLE_QUOTE]) <? 2) = false).
  { apply Nat.ltb_ge. simpl. rewrite length_app. simpl. lia. }
  rewrite Hlen. simpl orb. cbv iota.
  rewrite substring_inner. reflexivity.
Qed.

Lemma parsePrimitive_encodeStringLiteral (s : str) (d : ascii) :
  Parser.parsePrimitive (encodeStringLiteral s d) = Ok (PString s).
Proof.
  unfold encodeStringLiteral. destruct (isSafeUnquoted s d) eqn:E.
  - eapply parsePrimitive_safe. eassumption.
  - change ([DOUBLE_QUOTE] ++ escapeString s ++ [DOUBLE_QUOTE])
      with (quoted (escapeString s)).
    rewrite (parsePrimitive_quoted_text (escapeString s)), unescape_escape. reflexivity.
Qed.

(** X1. Strings, booleans and null survive the trip through the text of a
    primitive, whatever the delimiter: [parsePrimitive] reads from what
    [encodePrimitive] writes the value it was given. *)
Theorem primitive_roundtrip (d : ascii) :
  (forall s, Parser.parsePrimitive (encodePrimitive (PString s) d) = Ok (PString s))
  /\ (forall b, Parser.parsePrimitive (encodePrimitive (PBoolean b) d) = Ok (PBoolean b))
  /\ Parser.parsePrimitive (encodePrimitive PNull d) = Ok PNull.
Proof.
  split; [|split].
  - intro s. apply parsePrimitive_encodeStringLiteral.
  - intros []; reflexivity.
  - reflexivity.
Qed.

Lemma unquotedKey_no_quote (c : ascii) :
  Regex.alphabet Pattern.unquotedKey c = true -> Js.ch_eqb DOUBLE_QUOTE c = false.
Proof. each_char c; vm_compute; intro H; (reflexivity || discriminate). Qed.

Lemma unescapeKey_quoted (e : str) : unescapeKey (quoted e) = unescapeString e.
Proof.
  unfold unescapeKey, quoted.
  change ([DOUBLE_QUOTE] ++ e ++ [DOUBLE_QUOTE]) with (DOUBLE_QUOTE :: e ++ [DOUBLE_QUOTE]).
  rewrite startsWith_single, ch_eqb_refl.
  change (DOUBLE_QUOTE :: e ++ [DOUBLE_QUOTE]) with ((DOUBLE_QUOTE :: e) ++ [DOUBLE_QUOTE]) at 1.
  rewrite endsWith_snoc, ch_eqb_refl. simpl andb. cbv iota.
  rewrite substring_inner. reflexivity.
Qed.

Lemma unescapeKey_valid (key : str) :
  isValidUnquotedKey key = true -> unescapeKey key = Ok key.
Proof.
  intro H. unfold isValidUnquotedKey in H. apply test_alphabet in H.
  unfold unescapeKey. rewrite startsWith_single.
  destruct key as [|c key]; [reflexivity|].
  simpl in H. apply andb_true_iff in H. destruct H as [Hc _].
  rewrite (unquotedKey_no_quote c Hc). reflexivity.
Qed.

(** X2. A key survives the trip through its text: [unescapeKey] reads from
    what [encodeKey] writes the key it was given. *)
Theorem key_roundtrip (key : str) : unescapeKey (encodeKey key) = Ok key.
Proof.
  unfold encodeKey. destruct (isValidUnquotedKey key) eqn:E.
  - apply unescapeKey_valid. assumption.
  - change ([DOUBLE_QUOTE] ++ escapeString key ++ [DOUBLE_QUOTE])
      with (quoted (escapeString key)).
    rewrite (unescapeKey_quoted (escapeString key)). apply unescape_escape.
Qed.

(* ================================================================== *)
(** ** Splitting at delimiters and finding the colon *)
(* ================================================================== *)

(** *** Array.prototype.join, one piece more *)

Lemma join_snoc (sep : str) (l : list str) (x : str) :
  l <> [] -> Js.join sep (l ++ [x]) = Js.join sep l ++ sep ++ x.
Proof.
  induction l as [|p l IH]; intro Hne; [congruence|].
  destruct l as [|q l].
  - reflexivity.
  - change ((p :: q :: l) ++ [x]) with (p :: (q :: l) ++ [x]).
    change ((q :: l) ++ [x]) with (q :: (l ++ [x])) at 1.
    rewrite join_cons2. change (q :: l ++ [x]) with ((q :: l) ++ [x]).
    rewrite IH by discriminate. rewrite join_cons2, <- !app_assoc. reflexivity.
Qed.

Lemma join_snoc_app (sep : str) (l : list str) (x y : str) :
  Js.join sep (l ++ [x ++ y]) = Js.join sep (l ++ [x]) ++ y.
Proof.
  destruct l as [|p l]; [reflexivity|].
  rewrite !join_snoc by discriminate. rewrite <- !app_assoc. reflexivity.
Qed.

(** *** splitByDelimiter keeps every character but a last delimiter *)

Lemma splitByDelimiterFrom_join (s : str) (d : ascii) (result : list str)
    (current : str) (inQuotes escapeNext : bool) :
  let out := splitByDelimiterFrom s d result current inQuotes escapeNext in
  Js.join [d] out = Js.join [d] (result ++ [current]) ++ s
  \/ Js.join [d] out ++ [d] = Js.join [d] (result ++ [current]) ++ s.
Proof.
  revert result current inQuotes escapeNext.
  induction s as [|c s IH]; intros result current inQuotes escapeNext; cbn zeta.
  - simpl. rewrite app_nil_r. destruct current as [|x current].
    + destruct result as [|p result]; [left; reflexivity|].
      right. rewrite join_snoc by discriminate. reflexivity.
    + left. reflexivity.
  - assert (Hkeep : forall q e,
              Js.join [d] (splitByDelimiterFrom s d result (current ++ [c]) q e)
              = Js.join [d] (result ++ [current]) ++ c :: s
              \/ Js.join [d] (splitByDelimiterFrom s d result (current ++ [c]) q e) ++ [d]
                 = Js.join [d] (result ++ [current]) ++ c :: s).
    { intros q e. specialize (IH result (current ++ [c]) q e). cbn zeta in IH.
      rewrite join_snoc_app, <- app_assoc in IH. exact IH. }
    simpl. destruct escapeNext; [apply Hkeep|].
    destruct (Js.ch_eqb c BACKSLASH); [apply Hkeep|].
    destruct (Js.ch_eqb c DOUBLE_QUOTE); [apply Hkeep|].
    destruct (negb inQuotes && Js.ch_eqb c d) eqn:E; [|apply Hkeep].
    apply andb_true_iff in E. destruct E as [_ E]. apply ch_eqb_eq in E. subst c.
    specialize (IH (result ++ [current]) [] inQuotes false). cbn zeta in IH.
    rewrite (join_snoc [d] (result ++ [current]) [])
      in IH by (destruct result; discriminate).
    rewrite app_nil_r, <- app_assoc in IH. exact IH.
Qed.

(** X3. [splitByDelimiter] loses no character except one delimiter at the
    very end: joining the pieces with the delimiter gives the text back, or
    the text without its last character, which is then the delimiter. *)
Theorem splitByDelimiter_join (s : str) (d : ascii) :
  Js.join [d] (splitByDelimiter s d) = s
  \/ Js.join [d] (splitByDelimiter s d) ++ [d] = s.
Proof. exact (splitByDelimiterFrom_join s d [] [] false false). Qed.

(** *** findMainColon *)

Lemma findMainColonFrom_sound (s : str) (i : nat) (inQuotes escapeNext : bool) (j : nat) :
  findMainColonFrom s i inQuotes escapeNext = Some j ->
  i <= j /\ nth_error s (j - i) = Some ":"%char.
Proof.
  revert i inQuotes escapeNext.
  induction s as [|c s IH]; intros i inQuotes escapeNext H; [discriminate|].
  assert (Hrec : forall q e, findMainColonFrom s (S i) q e = Some j ->
                             i <= j /\ nth_error (c :: s) (j - i) = Some ":"%char).
  { intros q e Hr. apply IH in Hr. destruct Hr as [Hle Hn]. split; [lia|].
    replace (j - i) with (S (j - S i)) by lia. exact Hn. }
  simpl in H. destruct escapeNext; [eapply Hrec; eassumption|].
  destruct (Js.ch_eqb c BACKSLASH); [eapply Hrec; eassumption|].
  destruct (Js.ch_eqb c DOUBLE_QUOTE); [eapply Hrec; eassumption|].
  destruct (negb inQuotes && Js.ch_eqb c ":") eqn:E; [|eapply Hrec; eassumption].
  injection H as <-. apply andb_true_iff in E. destruct E as [_ E].
  apply ch_eqb_eq in E. subst c. split; [lia|]. rewrite Nat.sub_diag. reflexivity.
Qed.

Lemma findMainColonFrom_none (s : str) (i : nat) (inQuotes escapeNext : bool) :
  Js.includes s ":" = false -> findMainColonFrom s i inQuotes escapeNext = None.
Proof.
  revert i inQuotes escapeNext.
  induction s as [|c s IH]; intros i inQuotes escapeNext H; [reflexivity|].
  unfold Js.includes in H. simpl in H. apply orb_false_iff in H. destruct H as [Hc Hs].
  simpl. assert (E : Js.ch_eqb c ":" = false).
  { unfold Js.ch_eqb in *. rewrite Ascii.eqb_sym. exact Hc. }
  rewrite E, andb_false_r.
  destruct escapeNext; [apply IH; exact Hs|].
  destruct (Js.ch_eqb c BACKSLASH); [apply IH; exact Hs|].
  destruct (Js.ch_eqb c DOUBLE_QUOTE); apply IH; exact Hs.
Qed.

(** Outside quotes, over characters that are neither a quote, a backslash
    nor a colon, the search just moves on. *)
Lemma findMainColonFrom_skip (pre rest : str) (i : nat) :
  forallb (fun c => negb (Js.ch_eqb c BACKSLASH) && negb (Js.ch_eqb c DOUBLE_QUOTE)
                    && negb (Js.ch_eqb c ":")) pre = true ->
  findMainColonFrom (pre ++ rest) i false false
  = findMainColonFrom rest (i + length pre) false false.
Proof.
  revert i. induction pre as [|c pre IH]; intros i H.
  - simpl. rewrite Nat.add_0_r. reflexivity.
  - simpl in H. apply andb_true_iff in H. destruct H as [Hc Hpre].
    apply andb_true_iff in Hc. destruct Hc as [Hc H3].
    apply andb_true_iff in Hc. destruct Hc as [H1 H2].
    apply negb_true_iff in H1, H2, H3.
    simpl. rewrite H1, H2, H3. simpl. rewrite IH by assumption.
    f_equal. lia.
Qed.

(** X4. The index [findMainColon] returns is that of a colon; a text without
    a colon has none; and in a text that holds no quote and no backslash
    before its first colon, that colon is the one found. *)
Theorem findMainColon_spec (s : str) :
  (forall j, findMainColon s = Some j -> nth_error s j = Some ":"%char)
  /\ (Js.includes s ":" = false -> findMainColon s = None)
  /\ (forall pre rest,
        s = pre ++ ":"%char :: rest ->
        forallb (fun c => negb (Js.ch_eqb c BACKSLASH) && negb (Js.ch_eqb c DOUBLE_QUOTE)
                          && negb (Js.ch_eqb c ":")) pre = true ->
        findMainColon s = Some (length pre)).
Proof.
  split; [|split].
  - intros j H. apply findMainColonFrom_sound in H. destruct H as [_ H].
    rewrite Nat.sub_0_r in H. exact H.
  - apply findMainColonFrom_none.
  - intros pre rest -> Hpre. unfold findMainColon.
    rewrite findMainColonFrom_skip by assumption. reflexivity.
Qed.

(** Witness: the colon of [a:b], and the text [ab] that has none. *)
Lemma findMainColon_spec_witness :
  nth_error (lit "a:b") 1 = Some ":"%char
  /\ findMainColon (lit "ab") = None
  /\ findMainColon (lit "a:b") = Some 1.
Proof.
  split; [|split].
  - exact (proj1 (findMainColon_spec (lit "a:b")) 1 eq_refl).
  - exact (proj1 (proj2 (findMainColon_spec (lit "ab"))) eq_refl).
  - exact (proj2 (proj2 (findMainColon_spec (lit "a:b"))) (lit "a") (lit "b") eq_refl eq_refl).
Defined.

(* ================================================================== *)
(** ** Rows of primitives *)
(* ================================================================== *)

Lemma uintToStr_number (u : Decimal.uint) : forallb numberChar (Js.uintToStr u) = true.
Proof. induction u; simpl; auto. Qed.

Lemma digitsOfZ_number (z : Z) : forallb numberChar (JsNumber.digitsOfZ z) = true.
Proof. destruct z; simpl; try reflexivity. apply uintToStr_number. Qed.

Lemma zeros_number (n : Z) : forallb numberChar (JsNumber.zeros n) = true.
Proof.
  unfold JsNumber.zeros. induction (Z.to_nat n) as [|k IH]; simpl; auto.
Qed.

Lemma layout_number (ds : str) (n : Z) :
  forallb numberChar ds = true -> forallb numberChar (JsNumber.layout ds n) = true.
Proof.
  intro H. unfold JsNumber.layout.
  repeat match goal with |- context [if ?b then _ else _] => destruct b end;
    rewrite ?forallb_app;
    repeat (apply andb_true_iff; split);
    auto using zeros_number, digitsOfZ_number, forallb_firstn, forallb_skipn.
  all: destruct ds as [|d [|d' ds']]; simpl in *; auto.
Qed.

Lemma positiveToString_number (m : positive) (e : Z) :
  forallb numberChar (JsNumber.positiveToString m e) = true.
Proof.
  unfold JsNumber.positiveToString.
  destruct (binary_round JsNumber.prec JsNumber.emax false m e)
    as [sg|sg| |sg m' e']; try reflexivity.
  destruct (JsNumber.ratioOf m' e') as [num den].
  destruct (JsNumber.shortest 17 1 _ num den _) as [digits n].
  apply layout_number, digitsOfZ_number.
Qed.

(** The text of a number is made of digits, the point, the signs and the
    letters of the exponent, of Infinity and of NaN. *)
Lemma toString_number (x : spec_float) : forallb numberChar (JsNumber.toString x) = true.
Proof.
  destruct x as [s|s| |s m e]; simpl; try reflexivity.
  - destruct s; reflexivity.
  - destruct s; [simpl|]; apply positiveToString_number.
Qed.

(** *** splitByDelimiter over what the encoder writes *)

Lemma split_skip_plain (piece rest : str) (d : ascii) (result : list str)
    (current : str) (inQuotes : bool) :
  forallb (passes d) piece = true ->
  splitByDelimiterFrom (piece ++ rest) d result current inQuotes false
  = splitByDelimiterFrom rest d result (current ++ piece) inQuotes false.
Proof.
  revert current. induction piece as [|c piece IH]; intros current H.
  - simpl. rewrite app_nil_r. reflexivity.
  - simpl in H. apply andb_true_iff in H. destruct H as [Hc Hp].
    unfold passes in Hc.
    apply andb_true_iff in Hc. destruct Hc as [Hc H3].
    apply andb_true_iff in Hc. destruct Hc as [H1 H2].
    apply negb_true_iff in H1, H2, H3.
    simpl. rewrite H1, H2, H3, andb_false_r. rewrite IH by assumption.
    rewrite <- app_assoc. reflexivity.
Qed.

Lemma split_skip_escaped (s rest : str) (d : ascii) (result : list str) (current : str) :
  splitByDelimiterFrom (escapeString s ++ rest) d result current true false
  = splitByDelimiterFrom rest d result (current ++ escapeString s) true false.
Proof.
  revert current. induction s as [|c s IH]; intro current.
  - simpl. rewrite app_nil_r. reflexivity.
  - rewrite escapeString_cons, <- !app_assoc.
    replace (current ++ escapeChar c ++ escapeString s)
      with ((current ++ escapeChar c) ++ escapeString s) by (rewrite <- app_assoc; reflexivity).
    rewrite <- IH. unfold escapeChar.
    destruct (Js.ch_eqb c BACKSLASH) eqn:E1;
      [simpl; rewrite <- app_assoc; reflexivity|].
    destruct (Js.ch_eqb c DOUBLE_QUOTE) eqn:E2;
      [simpl; rewrite <- app_assoc; reflexivity|].
    destruct (Js.ch_eqb c LF) eqn:E3; [simpl; rewrite <- app_assoc; reflexivity|].
    destruct (Js.ch_eqb c CR) eqn:E4; [simpl; rewrite <- app_assoc; reflexivity|].
    destruct (Js.ch_eqb c TAB) eqn:E5; [simpl; rewrite <- app_assoc; reflexivity|].
    simpl. rewrite E1, E2. reflexivity.
Qed.

Lemma split_skip_quoted (s rest : str) (d : ascii) (result : list str) (current : str) :
  splitByDelimiterFrom (quoted (escapeString s) ++ rest) d result current false false
  = splitByDelimiterFrom rest d result (current ++ quoted (escapeString s)) false false.
Proof.
  unfold quoted. rewrite <- !app_assoc.
  change ([DOUBLE_QUOTE] ++ escapeString s ++ [DOUBLE_QUOTE] ++ rest)
    with (DOUBLE_QUOTE :: escapeString s ++ DOUBLE_QUOTE :: rest).
  cbn [splitByDelimiterFrom].
  change (Js.ch_eqb DOUBLE_QUOTE BACKSLASH) with false.
  change (Js.ch_eqb DOUBLE_QUOTE DOUBLE_QUOTE) with true. cbv iota.
  rewrite split_skip_escaped. cbn [splitByDelimiterFrom negb].
  change (Js.ch_eqb DOUBLE_QUOTE BACKSLASH) with false.
  change (Js.ch_eqb DOUBLE_QUOTE DOUBLE_QUOTE) with true. cbv iota.
  rewrite <- !app_assoc. reflexivity.
Qed.

Lemma includes_forallb (s : str) (c : ascii) :
  Js.includes s c = false -> forallb (fun x => negb (Js.ch_eqb x c)) s = true.
Proof.
  unfold Js.includes. induction s as [|x s IH]; simpl; intro H; [reflexivity|].
  apply orb_false_iff in H. destruct H as [Hx Hs].
  unfold Js.ch_eqb in *. rewrite Ascii.eqb_sym, Hx. simpl. apply IH. assumption.
Qed.

Lemma forallb_and (A : Type) (p q : A -> bool) (l : list A) :
  forallb p l = true -> forallb q l = true ->
  forallb (fun x => p x && q x) l = true.
Proof.
  intros Hp Hq. rewrite forallb_forall in *. intros x Hx.
  rewrite (Hp x Hx), (Hq x Hx). reflexivity.
Qed.

Lemma safe_passes (s : str) (d : ascii) :
  isSafeUnquoted s d = true -> forallb (passes d) s = true.
Proof.
  intro H. apply isSafeUnquoted_facts in H.
  destruct H as (_ & _ & _ & _ & _ & Hq & Hb & _ & _ & Hd & _).
  unfold passes. apply forallb_and; [apply forallb_and|]; apply includes_forallb; assumption.
Qed.

Lemma number_passes (d : Delimiter) (c : ascii) :
  numberChar c = true -> passes (delimiterChar d) c = true.
Proof.
  destruct d; each_char c; vm_compute; intro H; (reflexivity || discriminate).
Qed.

(** The text of a primitive is passed over as a whole. *)
Lemma split_skip_primitive (d : Delimiter) (p : JsonPrimitive) (rest : str)
    (result : list str) (current : str) :
  splitByDelimiterFrom (encodePrimitive p (delimiterChar d) ++ rest) (delimiterChar d)
    result current false false
  = splitByDelimiterFrom rest (delimiterChar d) result
      (current ++ encodePrimitive p (delimiterChar d)) false false.
Proof.
  destruct p as [s|x|b|]; cbn [encodePrimitive].
  - unfold encodeStringLiteral.
    destruct (isSafeUnquoted s (delimiterChar d)) eqn:E.
    + apply split_skip_plain. apply safe_passes. assumption.
    + apply split_skip_quoted.
  - apply split_skip_plain. eapply forallb_impl; [|apply toString_number].
    apply number_passes.
  - destruct b; apply split_skip_plain; destruct d; reflexivity.
  - apply split_skip_plain. destruct d; reflexivity.
Qed.

Lemma encodePrimitive_nonempty (p : JsonPrimitive) (d : ascii) : encodePrimitive p d <> [].
Proof.
  destruct (encodePrimitive_goodLine p d) as [_ (pre & c & -> & _)].
  destruct pre; discriminate.
Qed.

Lemma delimiter_not_special (d : Delimiter) :
  Js.ch_eqb (delimiterChar d) BACKSLASH = false
  /\ Js.ch_eqb (delimiterChar d) DOUBLE_QUOTE = false.
Proof. destruct d; split; reflexivity. Qed.

Lemma split_joined_primitives (d : Delimiter) (values : list JsonPrimitive)
    (result : list str) :
  splitByDelimiterFrom (encodeAndJoinPrimitives values (delimiterChar d)) (delimiterChar d)
    result [] false false
  = result ++ map (fun v => encodePrimitive v (delimiterChar d)) values.
Proof.
  unfold encodeAndJoinPrimitives. revert result.
  induction values as [|v vs IH]; intro result.
  - simpl. rewrite app_nil_r. reflexivity.
  - destruct vs as [|v' vs].
    + simpl map. cbn [Js.join].
      rewrite <- (app_nil_r (encodePrimitive v (delimiterChar d))) at 1.
      rewrite split_skip_primitive. simpl.
      destruct (encodePrimitive v (delimiterChar d)) eqn:E; [|reflexivity].
      exfalso. exact (encodePrimitive_nonempty v (delimiterChar d) E).
    + change (map (fun v0 => encodePrimitive v0 (delimiterChar d)) (v :: v' :: vs))
        with (encodePrimitive v (delimiterChar d)
                :: map (fun v0 => encodePrimitive v0 (delimiterChar d)) (v' :: vs)).
      remember (map (fun v0 => encodePrimitive v0 (delimiterChar d)) (v' :: vs)) as tl eqn:Etl.
      assert (Htl : exists q qs, tl = q :: qs) by (subst tl; simpl; eauto).
      destruct Htl as (q & qs & Eq). rewrite Eq. rewrite join_cons2. rewrite <- Eq.
      rewrite split_skip_primitive.
      change ([delimiterChar d] ++ Js.join [delimiterChar d] tl)
        with (delimiterChar d :: Js.join [delimiterChar d] tl).
      cbn [splitByDelimiterFrom].
      destruct (delimiter_not_special d) as [H1 H2]. rewrite H1, H2, ch_eqb_refl.
      cbn [negb andb]. subst tl. rewrite IH. rewrite <- app_assoc. reflexivity.
Qed.

Lemma number_not_white (c : ascii) :
  numberChar c = true -> negb (Js.isWhiteSpace c) = true.
Proof. each_char c; vm_compute; intro H; (reflexivity || discriminate). Qed.

(** The text of a primitive has no white space at either end. *)
Lemma encodePrimitive_trim (p : JsonPrimitive) (d : ascii) :
  Js.trim (encodePrimitive p d) = encodePrimitive p d.
Proof.
  destruct p as [s|x|b|]; simpl.
  - unfold encodeStringLiteral. destruct (isSafeUnquoted s d) eqn:E.
    + apply isSafeUnquoted_facts in E. tauto.
    + change ([DOUBLE_QUOTE] ++ escapeString s ++ [DOUBLE_QUOTE])
        with (DOUBLE_QUOTE :: escapeString s ++ [DOUBLE_QUOTE]).
      apply (@trim_id _ DOUBLE_QUOTE DOUBLE_QUOTE (escapeString s));
        [left; reflexivity | reflexivity | reflexivity].
  - apply trim_id_forall. eapply forallb_impl; [|apply toString_number].
    apply number_not_white.
  - destruct b; reflexivity.
  - reflexivity.
Qed.

Lemma parsePrimitives_encoded (d : ascii) (values : list JsonPrimitive) :
  Forall (fun v => Parser.parsePrimitive (encodePrimitive v d) = Ok v) values ->
  Parser.parsePrimitives (map (fun v => encodePrimitive v d) values)
  = Ok (map JPrim values).
Proof.
  unfold Parser.parsePrimitives. induction 1 as [|v vs Hv _ IH]; [reflexivity|].
  simpl. rewrite encodePrimitive_trim, Hv. simpl. rewrite IH. reflexivity.
Qed.

(** X5. A row of primitives joined by the delimiter of the options is split
    again into the texts of its values, quoted values that hold the delimiter
    included; and when each value is read back from its text, as strings,
    booleans and null always are, the row is read back as the values. *)
Theorem row_roundtrip (d : Delimiter) (values : list JsonPrimitive) :
  splitByDelimiter (encodeAndJoinPrimitives values (delimiterChar d)) (delimiterChar d)
  = map (fun v => encodePrimitive v (delimiterChar d)) values
  /\ (Forall (fun v => Parser.parsePrimitive (encodePrimitive v (delimiterChar d)) = Ok v)
        values ->
      Parser.parsePrimitives
        (splitByDelimiter (encodeAndJoinPrimitives values (delimiterChar d))
           (delimiterChar d))
      = Ok (map JPrim values))
  /\ (Forall (fun v => match v with PNumber _ => False | _ => True end) values ->
      Parser.parsePrimitives
        (splitByDelimiter (encodeAndJoinPrimitives values (delimiterChar d))
           (delimiterChar d))
      = Ok (map JPrim values)).
Proof.
  assert (Hsplit : splitByDelimiter (encodeAndJoinPrimitives values (delimiterChar d))
                     (delimiterChar d)
                   = map (fun v => encodePrimitive v (delimiterChar d)) values)
    by exact (split_joined_primitives d values []).
  split; [exact Hsplit|]. rewrite Hsplit. split.
  - apply parsePrimitives_encoded.
  - intro H. apply parsePrimitives_encoded.
    eapply Forall_impl; [|exact H]. intros [s|x|b|] Hv.
    + apply parsePrimitive_encodeStringLiteral.
    + destruct Hv.
    + destruct b; reflexivity.
    + reflexivity.
Qed.

(** Witness: the row of [a,b], 1.5, true and null. *)
Lemma row_roundtrip_witness :
  Parser.parsePrimitives
    (splitByDelimiter
       (encodeAndJoinPrimitives
          [PString (lit "a,b"); PNumber (JsNumber.Number (lit "1.5")); PBoolean true; PNull]
          ","%char) ","%char)
  = Ok [JString (lit "a,b"); JNumber (JsNumber.Number (lit "1.5")); JBool true; JNull].
Proof.
  refine (proj1 (proj2 (row_roundtrip DComma
            [PString (lit "a,b"); PNumber (JsNumber.Number (lit "1.5")); PBoolean true; PNull])) _).
  repeat constructor.
Defined.

(* ================================================================== *)
(** ** The methods of the parser: what they establish *)
(* ================================================================== *)

Lemma wp_ret (A : Type) (a : A) (Q : A -> Parser.State -> Prop) (st : Parser.State) :
  Q a st -> wp A (Parser.ret a) Q st.
Proof. intro H. exact H. Qed.

Lemma wp_bind (A B : Type) (m : Parser.M A) (k : A -> Parser.M B)
    (Q : B -> Parser.State -> Prop) (st : Parser.State) :
  wp A m (fun a st' => wp B (k a) Q st') st -> wp B (Parser.bind m k) Q st.
Proof.
  unfold wp, Parser.bind. destruct (m st) as [[a st']| |]; intro H; exact H.
Qed.

Lemma wp_conseq (A : Type) (m : Parser.M A) (Q Q' : A -> Parser.State -> Prop)
    (st : Parser.State) :
  wp A m Q st -> (forall a st', Q a st' -> Q' a st') -> wp A m Q' st.
Proof.
  unfold wp. destruct (m st) as [[a st']| |]; intros H HQ; auto.
Qed.

Lemma wp_lift (A : Type) (r : result A) (Q : A -> Parser.State -> Prop)
    (st : Parser.State) :
  throwsOnly textError A r -> (forall a, r = Ok a -> Q a st) -> wp A (Parser.lift r) Q st.
Proof.
  unfold wp, Parser.lift. destruct r as [a|e|]; simpl; intros Hh HQ; auto.
  destruct e; try discriminate; reflexivity.
Qed.

Lemma wp_current (Q : option Token.t -> Parser.State -> Prop) (st : Parser.State) :
  Q (nth_error (Parser.tokens st) (Parser.position st)) st -> wp _ Parser.current Q st.
Proof. intro H. exact H. Qed.

Lemma wp_advance (Q : unit -> Parser.State -> Prop) (st : Parser.State) :
  Q tt {| Parser.tokens := Parser.tokens st; Parser.position := S (Parser.position st) |} ->
  wp _ Parser.advance Q st.
Proof. intro H. exact H. Qed.

Lemma wp_inBounds (Q : bool -> Parser.State -> Prop) (st : Parser.State) :
  Q (Parser.position st <? length (Parser.tokens st))%nat st -> wp _ Parser.inBounds Q st.
Proof. intro H. exact H. Qed.

Lemma wp_tokensFrom (Q : list Token.t -> Parser.State -> Prop) (st : Parser.State) :
  Q (skipn (Parser.position st) (Parser.tokens st)) st -> wp _ Parser.tokensFrom Q st.
Proof. intro H. exact H. Qed.

Lemma wp_inject (token : Token.t) (Q : unit -> Parser.State -> Prop) (st : Parser.State) :
  Q tt {| Parser.tokens :=
            Parser.setNth (Parser.tokens st) (Nat.pred (Parser.position st)) token;
          Parser.position := Nat.pred (Parser.position st) |} ->
  wp _ (Parser.inject token) Q st.
Proof. intro H. exact H. Qed.

Lemma wp_throw (A : Type) (e : Error) (Q : A -> Parser.State -> Prop) (st : Parser.State) :
  parserError e = true -> wp A (Parser.throw e) Q st.
Proof. intro H. exact H. Qed.

Lemma throwsOnly_mono (E E' : Error -> bool) (A : Type) (r : result A) :
  (forall e, E e = true -> E' e = true) -> throwsOnly E A r -> throwsOnly E' A r.
Proof. intro H. destruct r as [a|e|]; simpl; auto. Qed.

Lemma throwsOnly_rbind (E : Error -> bool) (A B : Type) (r : result A) (k : A -> result B) :
  throwsOnly E A r -> (forall a, throwsOnly E B (k a)) -> throwsOnly E B (rbind r k).
Proof. destruct r as [a| |]; simpl; auto. Qed.

Lemma throwsOnly_rmap (E : Error -> bool) (A B : Type) (f : A -> result B) (l : list A) :
  (forall a, throwsOnly E B (f a)) -> throwsOnly E (list B) (rmap f l).
Proof.
  intro Hf. induction l as [|a l IH]; simpl; [exact I|].
  apply throwsOnly_rbind; [apply Hf|]. intro b.
  apply throwsOnly_rbind; [exact IH|]. intro bs. exact I.
Qed.

Lemma unescapeString_throws_upto (E : Error -> bool) (n : nat) (s : str) :
  E EscapeAtEndOfString = true -> (forall c, E (InvalidEscapeSequence c) = true) ->
  length s <= n -> throwsOnly E str (unescapeString s).
Proof.
  intros H1 H2. revert s. induction n as [|n IH]; intros s Hn.
  - destruct s; [exact I | simpl in Hn; lia].
  - destruct s as [|c s]; [exact I|].
    simpl in Hn. simpl. destruct (Js.ch_eqb c BACKSLASH).
    + destruct s as [|x s]; [exact H1|].
      assert (Hs : throwsOnly E str (unescapeString s)) by (apply IH; simpl in Hn; lia).
      repeat match goal with
             | |- throwsOnly _ _ (if ?b then _ else _) => destruct b
             | |- throwsOnly _ _ (rbind _ _) =>
                 apply throwsOnly_rbind; [exact Hs | intro; exact I]
             end.
      apply H2.
    + apply throwsOnly_rbind; [apply IH; lia | intro; exact I].
Qed.

(** unescapeString raises its two errors only. *)
Lemma unescapeString_throws (E : Error -> bool) (s : str) :
  E EscapeAtEndOfString = true -> (forall c, E (InvalidEscapeSequence c) = true) ->
  throwsOnly E str (unescapeString s).
Proof.
  intros H1 H2. apply (unescapeString_throws_upto E (length s)); auto.
Qed.

Lemma unescapeKey_throws (E : Error -> bool) (key : str) :
  E EscapeAtEndOfString = true -> (forall c, E (InvalidEscapeSequence c) = true) ->
  throwsOnly E str (unescapeKey key).
Proof.
  intros H1 H2. unfold unescapeKey.
  destruct (_ && _); [apply unescapeString_throws; assumption | exact I].
Qed.

Lemma parsePrimitive_throws (value : str) :
  throwsOnly textError JsonPrimitive (Parser.parsePrimitive value).
Proof.
  unfold Parser.parsePrimitive.
  repeat match goal with
         | |- throwsOnly _ _ (if ?b then _ else _) => destruct b
         end; try exact I; try reflexivity.
  apply throwsOnly_rbind; [|intro; exact I].
  apply unescapeString_throws; [reflexivity | intro; reflexivity].
Qed.

Lemma headerFields_throws (E : Error -> bool) (m : HeaderMatch.t) :
  E EscapeAtEndOfString = true -> (forall c, E (InvalidEscapeSequence c) = true) ->
  throwsOnly E (option (list str)) (headerFields m).
Proof.
  intros H1 H2. unfold headerFields. destruct (HeaderMatch.fieldsStr m); [|exact I].
  apply throwsOnly_rbind; [|intro; exact I].
  apply throwsOnly_rmap. intro f. apply unescapeKey_throws; assumption.
Qed.

Lemma parseArrayHeaderString_throws (s : str) :
  throwsOnly textError (option Parser.HeaderInfo.t) (Parser.parseArrayHeaderString s).
Proof.
  unfold Parser.parseArrayHeaderString. destruct (matchArrayPattern s); [|exact I].
  apply throwsOnly_rbind; [|intro; exact I].
  apply headerFields_throws; [reflexivity | intro; reflexivity].
Qed.

Lemma parsePrimitives_throws (values : list str) :
  throwsOnly textError JsonArray (Parser.parsePrimitives values).
Proof.
  unfold Parser.parsePrimitives. apply throwsOnly_rmap. intro v.
  apply throwsOnly_rbind; [apply parsePrimitive_throws | intro; exact I].
Qed.

Lemma parseInlineArray_throws (info : Parser.HeaderInfo.t) :
  throwsOnly textError JsonArray (Parser.parseInlineArray info).
Proof.
  unfold Parser.parseInlineArray. destruct (Parser.nonEmptyFields _); [exact I|].
  apply parsePrimitives_throws.
Qed.

Lemma parseCells_throws (fields values : list str) (j : nat) (obj : JsonObject) :
  throwsOnly textError JsonObject (Parser.parseCells fields values j obj).
Proof.
  revert j obj. induction fields as [|f fields IH]; intros j obj; simpl; [exact I|].
  apply throwsOnly_rbind; [apply parsePrimitive_throws | intro p; apply IH].
Qed.

Lemma parser_unescapeKey_throws (key : str) :
  throwsOnly textError str (Parser.unescapeKey key).
Proof. apply unescapeKey_throws; [reflexivity | intro; reflexivity]. Qed.

Lemma setNth_length (A : Type) (l : list A) (n : nat) (x : A) :
  length (Parser.setNth l n x) = length l.
Proof.
  revert n. induction l as [|y l IH]; intros [|n]; simpl; auto.
Qed.

Lemma nth_error_in_bounds (A : Type) (l : list A) (n : nat) (x : A) :
  nth_error l n = Some x -> n < length l.
Proof. intro H. apply nth_error_Some. congruence. Qed.

Lemma typeIs_in_bounds (l : list Token.t) (n : nat) (ty : TokenType) :
  Parser.typeIs (nth_error l n) ty = true -> n < length l.
Proof.
  destruct (nth_error l n) eqn:E; [|discriminate].
  intros _. eapply nth_error_in_bounds. eassumption.
Qed.

(** The side conditions on fuel and position. *)
Ltac bounds :=
  unfold movedOn, remaining in *;
  cbn [Parser.tokens Parser.position] in *;
  rewrite ?setNth_length in *;
  repeat match goal with
         | H : negb _ = false |- _ => apply negb_false_iff in H
         | H : negb _ = true |- _ => apply negb_true_iff in H
         | H : (_ <? _)%nat = true |- _ => apply Nat.ltb_lt in H
         | H : (_ <? _)%nat = false |- _ => apply Nat.ltb_ge in H
         | H : nth_error _ _ = Some _ |- _ => apply nth_error_in_bounds in H
         | H : nth_error _ _ = None |- _ => apply nth_error_None in H
         | H : Parser.typeIs (nth_error _ _) _ = true |- _ => apply typeIs_in_bounds in H
         | H : _ /\ _ |- _ => destruct H
         end;
  repeat split; try lia.

(** One step through the body of a method. *)
Ltac wp_prim :=
  lazymatch goal with
  | |- wp _ (Parser.bind _ _) _ _ => apply wp_bind
  | |- wp _ (Parser.ret _) _ _ => apply wp_ret
  | |- wp _ (Parser.throw _) _ _ => first [apply wp_throw; reflexivity | exfalso; bounds]
  | |- wp _ Parser.current _ _ => apply wp_current
  | |- wp _ Parser.advance _ _ => apply wp_advance
  | |- wp _ Parser.inBounds _ _ => apply wp_inBounds
  | |- wp _ Parser.tokensFrom _ _ => apply wp_tokensFrom
  | |- wp _ (Parser.inject _) _ _ => apply wp_inject
  | |- wp _ (Parser.lift _) _ _ =>
      apply wp_lift;
      [ first [ apply parsePrimitive_throws | apply parseArrayHeaderString_throws
              | apply parseInlineArray_throws | apply parser_unescapeKey_throws
              | apply parsePrimitives_throws | apply parseCells_throws ]
      | intros ? _ ]
  end;
  cbv beta.

Ltac wp_case :=
  match goal with
  | |- wp _ (if ?b then _ else _) _ _ => destruct b eqn:?
  | |- wp _ (match ?x with _ => _ end) _ _ => destruct x eqn:?
  end.

(* ================================================================== *)
(** ** The parser terminates *)
(* ================================================================== *)

Lemma parseRows_moves (n : nat) (fields : list str) (delimiter : ascii) (arrayIndent : Z)
    (result : JsonArray) (st : Parser.State) :
  wp _ (Parser.parseRows n fields delimiter arrayIndent result) (movedOn 0 st JsonArray) st.
Proof.
  revert result st. induction n as [|n IH]; intros result st.
  - apply wp_ret. bounds.
  - cbn [Parser.parseRows]. cbv zeta.
    repeat first
      [ wp_prim
      | match goal with
        | |- wp _ (Parser.parseRows n _ _ _ _) _ _ =>
            eapply wp_conseq; [apply IH | cbv beta; intros ? ? ?]
        end
      | wp_case ]; bounds.
Qed.

(** With fuel for twice the tokens left, a method of the parser returns or
    throws an error of the parser; it never moves back, and parseArray,
    entered on a token, moves on. *)
Lemma parser_halts (fuel : nat) :
  (forall b r st,
     2 * remaining st + 2 <= fuel ->
     wp _ (Parser.parseObjectLoop fuel b r) (movedOn 0 st JsonObject) st)
  /\ (forall st,
        2 * remaining st + 1 <= fuel ->
        Parser.position st < length (Parser.tokens st) ->
        wp _ (Parser.parseArray fuel) (movedOn 1 st JsonArray) st)
  /\ (forall b r st,
        2 * remaining st + 2 <= fuel ->
        wp _ (Parser.parseListItemsLoop fuel b r) (movedOn 0 st JsonArray) st).
Proof.
  induction fuel as [|fuel (IHo & IHa & IHl)].
  - repeat split; intros; exfalso; lia.
  - split; [|split].
    + intros b r st Hfuel. cbn [Parser.parseObjectLoop]. cbv zeta.
      repeat first
        [ wp_prim
        | match goal with
          | |- wp _ (Parser.parseObjectLoop fuel _ _) _ _ =>
              eapply wp_conseq; [apply IHo; bounds | cbv beta; intros ? ? ?]
          | |- wp _ (Parser.parseArray fuel) _ _ =>
              eapply wp_conseq; [apply IHa; bounds | cbv beta; intros ? ? ?]
          | |- wp _ (Parser.parseListItemsLoop fuel _ _) _ _ =>
              eapply wp_conseq; [apply IHl; bounds | cbv beta; intros ? ? ?]
          end
        | wp_case ]; bounds.
    + intros st Hfuel Hpos. cbn [Parser.parseArray]. cbv zeta.
      repeat first
        [ wp_prim
        | match goal with
          | |- wp _ (Parser.parseListItemsLoop fuel _ _) _ _ =>
              eapply wp_conseq; [apply IHl; bounds | cbv beta; intros ? ? ?]
          | |- wp _ (Parser.parseRows _ _ _ _ _) _ _ =>
              eapply wp_conseq; [apply parseRows_moves | cbv beta; intros ? ? ?]
          end
        | wp_case ]; bounds.
    + intros b r st Hfuel. cbn [Parser.parseListItemsLoop]. cbv zeta.
      repeat first
        [ wp_prim
        | match goal with
          | |- wp _ (Parser.parseObjectLoop fuel _ _) _ _ =>
              eapply wp_conseq; [apply IHo; bounds | cbv beta; intros ? ? ?]
          | |- wp _ (Parser.parseArray fuel) _ _ =>
              eapply wp_conseq; [apply IHa; bounds | cbv beta; intros ? ? ?]
          | |- wp _ (Parser.parseListItemsLoop fuel _ _) _ _ =>
              eapply wp_conseq; [apply IHl; bounds | cbv beta; intros ? ? ?]
          end
        | wp_case ]; bounds.
Qed.

(* ================================================================== *)
(** ** The errors of the decoder *)
(* ================================================================== *)

Lemma parseRootLoop_halts (fuel : nat) (r : JsonObject) (st : Parser.State) :
  2 * remaining st + 2 <= fuel ->
  wp _ (Parser.parseRootLoop fuel r) (movedOn 0 st JsonObject) st.
Proof.
  revert r st. induction fuel as [|fuel IH]; intros r st Hfuel; [exfalso; lia|].
  destruct (parser_halts fuel) as (IHo & IHa & IHl).
  cbn [Parser.parseRootLoop]. unfold Parser.parseObject, Parser.parseListItems. cbv zeta.
  repeat first
    [ wp_prim
    | match goal with
      | |- wp _ (Parser.parseRootLoop fuel _) _ _ =>
          eapply wp_conseq; [apply IH; bounds | cbv beta; intros ? ? ?]
      | |- wp _ (Parser.parseObjectLoop fuel _ _) _ _ =>
          eapply wp_conseq; [apply IHo; bounds | cbv beta; intros ? ? ?]
      | |- wp _ (Parser.parseArray fuel) _ _ =>
          eapply wp_conseq; [apply IHa; bounds | cbv beta; intros ? ? ?]
      | |- wp _ (Parser.parseListItemsLoop fuel _ _) _ _ =>
          eapply wp_conseq; [apply IHl; bounds | cbv beta; intros ? ? ?]
      end
    | wp_case ]; bounds.
Qed.

Lemma parse_halts (fuel : nat) (st : Parser.State) :
  2 * remaining st + 2 <= fuel -> wp _ (Parser.parse fuel) (fun _ _ => True) st.
Proof.
  intro Hfuel. destruct (parser_halts fuel) as (_ & IHa & _).
  unfold Parser.parse.
  repeat first
    [ wp_prim
    | match goal with
      | |- wp _ (Parser.parseRootLoop fuel _) _ _ =>
          eapply wp_conseq; [apply parseRootLoop_halts; bounds | cbv beta; intros ? ? ?]
      | |- wp _ (Parser.parseArray fuel) _ _ =>
          eapply wp_conseq; [apply IHa; bounds | cbv beta; intros ? ? ?]
      end
    | wp_case ]; exact I.
Qed.

Lemma runWith_throws (fuel : nat) (tokens : list Token.t) :
  2 * length tokens + 2 <= fuel -> throwsOnly parserError _ (Parser.runWith fuel tokens).
Proof.
  intro Hfuel. unfold Parser.runWith.
  pose proof (parse_halts fuel {| Parser.tokens := tokens; Parser.position := 0 |}) as H.
  unfold remaining, wp in H. cbn [Parser.tokens Parser.position] in H.
  rewrite Nat.sub_0_r in H. specialize (H Hfuel).
  destruct (Parser.parse fuel _) as [[v st']| |]; exact H.
Qed.

Lemma refines_halts (E : Error -> bool) (A : Type) (r1 r2 : result A) :
  refines A r1 r2 -> throwsOnly E A r1 -> r1 = r2.
Proof. intros [-> | H] Hh; [destruct Hh | exact H]. Qed.

(** Above the bound the fuel no longer matters. *)
Lemma runWith_enough (fuel : nat) (tokens : list Token.t) :
  2 * length tokens + 2 <= fuel -> Parser.runWith fuel tokens = Parser.run tokens.
Proof.
  intro Hfuel. unfold Parser.run.
  set (n := 2 * length tokens + 2) in *.
  assert (Hn : forall f, n <= f -> Parser.runWith n tokens = Parser.runWith f tokens).
  { intros f Hf. apply (refines_halts parserError).
    - replace f with ((f - n) + n) by lia. apply runWith_fuel_monotone.
    - apply runWith_throws. unfold n. lia. }
  rewrite <- (Hn fuel Hfuel). apply Hn. unfold n. lia.
Qed.

(** *** The scanner *)

Lemma getIndentFrom_throws (options : Scanner.Options) (line : str) (lineNum : nat)
    (count : Z) (had : bool) :
  throwsOnly (scannerError (Scanner.strict options)) _
    (Scanner.getIndentFrom options line lineNum count had).
Proof.
  revert count had. induction line as [|c line IH]; intros count had; simpl; [exact I|].
  destruct (Js.ch_eqb c SPACE); [apply IH|].
  destruct (Js.ch_eqb c TAB); [|exact I].
  destruct (Scanner.strict options) eqn:E; [reflexivity | apply IH].
Qed.

Lemma getIndent_throws (options : Scanner.Options) (line : str) (lineNum : nat) :
  throwsOnly (scannerError (Scanner.strict options)) _
    (Scanner.getIndent options line lineNum).
Proof.
  unfold Scanner.getIndent. apply throwsOnly_rbind; [apply getIndentFrom_throws|].
  intro info. cbv zeta.
  destruct (Scanner.strict options); simpl; [|exact I].
  destruct (_ && _); [reflexivity | exact I].
Qed.

Lemma parseArrayHeader_throws (strict : bool) (s : str) :
  throwsOnly (scannerError strict) _ (Scanner.parseArrayHeader s).
Proof.
  unfold Scanner.parseArrayHeader. destruct (matchArrayPattern s); [|exact I].
  apply throwsOnly_rbind; [|intro; exact I].
  apply headerFields_throws; [reflexivity | intro; reflexivity].
Qed.

Lemma scanLine_throws (strict : bool) (trimmed : str) (indent : Z) (i : nat) (had : bool) :
  throwsOnly (scannerError strict) _ (Scanner.scanLine trimmed indent i had).
Proof.
  unfold Scanner.scanLine. destruct (Js.startsWith trimmed (lit "- ")); [exact I|].
  apply throwsOnly_rbind; [apply parseArrayHeader_throws|].
  intros [info|]; [exact I|]. cbv zeta.
  destruct (Js.includes trimmed ":"); [|exact I].
  destruct (findMainColon trimmed); [|exact I].
  destruct (_ || _); [|exact I].
  apply throwsOnly_rbind; [|intro; exact I].
  apply unescapeKey_throws; [reflexivity | intro; reflexivity].
Qed.

Lemma scanFrom_throws (options : Scanner.Options) (lines : list str) (i : nat)
    (tokens : list Token.t) (insideArray : bool) (arrayIndent : Z) :
  throwsOnly (scannerError (Scanner.strict options)) _
    (Scanner.scanFrom options lines i tokens insideArray arrayIndent).
Proof.
  revert i tokens insideArray arrayIndent.
  induction lines as [|line lines IH]; intros i tokens insideArray arrayIndent;
    simpl; [exact I|].
  destruct (Scanner.isBlank line).
  - apply throwsOnly_rbind; [|intro; apply IH].
    destruct (Scanner.strict options && insideArray) eqn:E; [|exact I].
    destruct (Scanner.nextNonBlank lines (i + 1)) as [[nextLine nextLineIndex]|]; [|exact I].
    apply throwsOnly_rbind; [apply getIndent_throws|]. intro info.
    destruct (_ <? _)%Z; [|exact I].
    apply andb_true_iff in E. destruct E as [E _]. simpl. rewrite E. reflexivity.
  - apply throwsOnly_rbind; [apply getIndent_throws|]. intro info. cbv zeta.
    apply throwsOnly_rbind; [apply parseArrayHeader_throws|]. intro arrayCheck.
    destruct (match arrayCheck with Some _ => _ | None => _ end) as [ia ai].
    apply throwsOnly_rbind; [apply scanLine_throws|]. intro ts. apply IH.
Qed.

Lemma scan_throws (options : Scanner.Options) (input : str) :
  throwsOnly (scannerError (Scanner.strict options)) _ (Scanner.scan options input).
Proof.
  unfold Scanner.scan. cbv zeta.
  apply throwsOnly_rbind; [apply scanFrom_throws | intro; exact I].
Qed.

Lemma decode_throws (input : str) (options : option DecodeOptions.t) :
  throwsOnly
    (fun e => parserError e
              || scannerError (Scanner.strict (Scanner.resolve options)) e)
    _ (decode input options).
Proof.
  unfold decode. destruct (Js.trim input); [exact I|].
  apply throwsOnly_rbind.
  - eapply throwsOnly_mono; [|apply scan_throws].
    intros e He. cbv beta. rewrite He. apply orb_true_r.
  - intro tokens. unfold Parser.run.
    eapply throwsOnly_mono; [|apply runWith_throws; lia].
    intros e He. cbv beta. rewrite He. reflexivity.
Qed.

Lemma throwsOnly_cases (E : Error -> bool) (A : Type) (r : result A) :
  throwsOnly E A r -> (exists a, r = Ok a) \/ (exists e, r = Throw e).
Proof. destruct r as [a|e|]; intro H; [left|right|destruct H]; eauto. Qed.

(** X6. The parser terminates.  The nesting of its calls and iterations
    never exceeds twice the number of tokens plus two: with that much fuel
    [parse] returns or throws, any larger bound gives the same outcome, and
    so [decode] returns a value or throws on every input. *)
Theorem decode_terminates :
  (forall input options,
     (exists v, decode input options = Ok v) \/ (exists e, decode input options = Throw e))
  /\ (forall fuel tokens,
        2 * length tokens + 2 <= fuel ->
        Parser.runWith fuel tokens = Parser.run tokens
        /\ ((exists v, Parser.runWith fuel tokens = Ok v)
            \/ (exists e, Parser.runWith fuel tokens = Throw e))).
Proof.
  split.
  - intros input options. eapply throwsOnly_cases. apply decode_throws.
  - intros fuel tokens Hfuel. split; [apply runWith_enough; assumption|].
    eapply throwsOnly_cases. apply runWith_throws. assumption.
Qed.

(** Witness: the tokens of [- x], with fuel 6. *)
Lemma decode_terminates_witness :
  Parser.runWith 6 listItemTokens = Parser.run listItemTokens.
Proof.
  refine (proj1 (proj2 decode_terminates 6 listItemTokens _)).
  simpl. lia.
Defined.



(* ================================================================== *)
(** ** Decoding a text of one line *)
(* ================================================================== *)

(** *** One line that is neither blank nor indented *)

Lemma trim_head (s : str) :
  Js.trim s = s -> match s with c :: _ => Js.isWhiteSpace c = false | [] => True end.
Proof.
  destruct s as [|c s]; [trivial|]. intro H.
  destruct (Js.isWhiteSpace c) eqn:E; [|reflexivity]. exfalso.
  unfold Js.trim, Js.trimStart in H. cbn [Js.dropWhile] in H. rewrite E in H.
  assert (Hlen : forall t, length (Js.trimEnd t) <= length t).
  { intro t. unfold Js.trimEnd. rewrite length_rev.
    rewrite <- (length_rev t). generalize (rev t). intro u.
    induction u as [|x u IH]; simpl; [lia|]. destruct (Js.isWhiteSpace x); simpl; lia. }
  assert (Hdrop : forall t, length (Js.dropWhile Js.isWhiteSpace t) <= length t).
  { intro t. induction t as [|x t IH]; simpl; [lia|].
    destruct (Js.isWhiteSpace x); simpl; lia. }
  apply (f_equal (@length ascii)) in H.
  pose proof (Hlen (Js.dropWhile Js.isWhiteSpace s)). pose proof (Hdrop s).
  simpl in H. lia.
Qed.

Lemma not_white_not_space (c : ascii) :
  Js.isWhiteSpace c = false -> Js.ch_eqb c SPACE = false /\ Js.ch_eqb c TAB = false.
Proof. each_char c; vm_compute; intro H; (split; reflexivity) || discriminate. Qed.

(** A line that starts with a character other than white space has indent
    0, in either mode. *)
Lemma getIndent_flush (options : Scanner.Options) (c : ascii) (line : str) (lineNum : nat) :
  Js.isWhiteSpace c = false ->
  Scanner.getIndent options (c :: line) lineNum
  = Ok {| IndentInfo.count := 0; IndentInfo.hadTabIndent := false |}.
Proof.
  intro H. apply not_white_not_space in H. destruct H as [H1 H2].
  unfold Scanner.getIndent. cbn [Scanner.getIndentFrom]. rewrite H1, H2.
  cbn [rbind IndentInfo.count]. rewrite andb_false_r. reflexivity.
Qed.

Lemma includes_app (a b : str) (c : ascii) :
  Js.includes (a ++ b) c = Js.includes a c || Js.includes b c.
Proof. unfold Js.includes. apply existsb_app. Qed.

Lemma includes_in (s : str) (c : ascii) : Js.includes s c = false -> ~ In c s.
Proof.
  unfold Js.includes. intros H Hin.
  assert (E : existsb (Js.ch_eqb c) s = true).
  { apply existsb_exists. exists c. split; [assumption | apply ch_eqb_refl]. }
  congruence.
Qed.

(** A text without an opening bracket is no array header. *)
Lemma matchArrayPattern_no_bracket (s : str) :
  Js.includes s "[" = false -> matchArrayPattern s = None.
Proof.
  intro H. unfold matchArrayPattern.
  destruct (dropWhile_head notBracket s) as [E | (c & r & E & Hc)]; rewrite E;
    [reflexivity|].
  assert (Hin : In c s).
  { clear - E. induction s as [|x s IH]; simpl in E; [discriminate|].
    destruct (notBracket x).
    - right. apply IH. assumption.
    - injection E as -> _. left. reflexivity. }
  assert (Hne : Js.ch_eqb c "[" = false).
  { apply ch_eqb_neq. intros ->. apply (includes_in _ _ H). assumption. }
  rewrite Hne. reflexivity.
Qed.

Lemma parseArrayHeader_no_bracket (s : str) :
  Js.includes s "[" = false -> Scanner.parseArrayHeader s = Ok None.
Proof.
  intro H. unfold Scanner.parseArrayHeader.
  rewrite matchArrayPattern_no_bracket by assumption. reflexivity.
Qed.

(** The scanner on a single line that is a plain value. *)
Lemma scan_plain_line (options : Scanner.Options) (text : str) :
  ~ In LF text -> text <> [] -> Js.trim text = text ->
  Js.startsWith text (lit "- ") = false ->
  Js.includes text "[" = false ->
  findMainColon text = None ->
  Scanner.scan options text
  = Ok [Scanner.mkToken VALUE text 0 0 None false;
        Scanner.mkToken EOF [] 0 1 None false].
Proof.
  intros Hlf Hne Htrim Hitem Hbr Hcolon.
  unfold Scanner.scan. cbv zeta. rewrite split_noSep by assumption.
  cbn [Scanner.scanFrom length].
  unfold Scanner.isBlank. rewrite Htrim.
  pose proof (trim_head text Htrim) as Hhead.
  destruct text as [|c text]; [congruence|].
  rewrite getIndent_flush by assumption. cbn [rbind IndentInfo.count IndentInfo.hadTabIndent].
  rewrite parseArrayHeader_no_bracket by assumption. cbn [rbind andb].
  unfold Scanner.scanLine. rewrite Hitem.
  rewrite parseArrayHeader_no_bracket by assumption. cbn [rbind].
  rewrite Hcolon. destruct (Js.includes (c :: text) ":"); reflexivity.
Qed.

Lemma decode_plain_line_gen (options : option DecodeOptions.t) (text : str) :
  ~ In LF text -> text <> [] -> Js.trim text = text ->
  Js.startsWith text (lit "- ") = false ->
  Js.includes text "[" = false ->
  findMainColon text = None ->
  decode text options = rbind (Parser.parsePrimitive text) (fun p => Ok (JPrim p)).
Proof.
  intros Hlf Hne Htrim Hitem Hbr Hcolon. unfold decode. rewrite Htrim.
  destruct text as [|c text]; [congruence|].
  rewrite scan_plain_line by assumption. cbn [rbind].
  unfold Parser.run, Parser.runWith, Parser.parse, Parser.bind, Parser.current.
  cbn [Parser.tokens Parser.position nth_error Scanner.mkToken Token.type Token.value
       TokenType_eqb].
  unfold Parser.lift, Parser.ret.
  destruct (Parser.parsePrimitive (c :: text)); reflexivity.
Qed.

(** X8. A text of one line that holds no colon and no opening bracket, is
    not a list item and has no white space around it is read as a primitive:
    [decode] returns what [parsePrimitive] reads from it, or throws what
    [parsePrimitive] throws. *)
Theorem decode_plain_line (options : option DecodeOptions.t) (text : str) :
  text <> [] -> Js.trim text = text ->
  Js.includes text LF = false -> Js.includes text ":" = false ->
  Js.includes text "[" = false -> Js.startsWith text (lit "- ") = false ->
  decode text options = rbind (Parser.parsePrimitive text) (fun p => Ok (JPrim p)).
Proof.
  intros Hne Htrim Hlf Hcolon Hbr Hitem.
  apply decode_plain_line_gen; try assumption.
  - apply includes_in. assumption.
  - apply findMainColonFrom_none. assumption.
Qed.

(** Witness: the text [hello world]. *)
Lemma decode_plain_line_witness :
  decode (lit "hello world") None
  = rbind (Parser.parsePrimitive (lit "hello world")) (fun p => Ok (JPrim p)).
Proof.
  apply decode_plain_line; (discriminate || reflexivity).
Defined.

(* ================================================================== *)
(** ** A string at the root *)
(* ================================================================== *)

Lemma findMainColonFrom_escaped (s rest : str) (i : nat) :
  findMainColonFrom (escapeString s ++ rest) i true false
  = findMainColonFrom rest (i + length (escapeString s)) true false.
Proof.
  revert i. induction s as [|c s IH]; intro i.
  - simpl. rewrite Nat.add_0_r. reflexivity.
  - rewrite escapeString_cons, <- app_assoc, length_app.
    assert (Hpair : forall x,
              findMainColonFrom ([BACKSLASH; x] ++ escapeString s ++ rest) i true false
              = findMainColonFrom rest (i + (2 + length (escapeString s))) true false).
    { intro x. cbn [app findMainColonFrom].
      change (Js.ch_eqb BACKSLASH BACKSLASH) with true. cbv iota.
      rewrite IH. f_equal. lia. }
    unfold escapeChar.
    destruct (Js.ch_eqb c BACKSLASH) eqn:E1; [apply Hpair|].
    destruct (Js.ch_eqb c DOUBLE_QUOTE) eqn:E2; [apply Hpair|].
    destruct (Js.ch_eqb c LF) eqn:E3; [apply Hpair|].
    destruct (Js.ch_eqb c CR) eqn:E4; [apply Hpair|].
    destruct (Js.ch_eqb c TAB) eqn:E5; [apply Hpair|].
    cbn [app findMainColonFrom length]. rewrite E1, E2. cbn [negb andb].
    rewrite IH. f_equal. lia.
Qed.

(** Every colon of a quoted text is between the quotes. *)
Lemma findMainColon_quoted (s : str) : findMainColon (quoted (escapeString s)) = None.
Proof.
  unfold findMainColon, quoted.
  change ([DOUBLE_QUOTE] ++ escapeString s ++ [DOUBLE_QUOTE])
    with (DOUBLE_QUOTE :: escapeString s ++ [DOUBLE_QUOTE]).
  cbn [findMainColonFrom].
  change (Js.ch_eqb DOUBLE_QUOTE BACKSLASH) with false.
  change (Js.ch_eqb DOUBLE_QUOTE DOUBLE_QUOTE) with true. cbv iota.
  rewrite findMainColonFrom_escaped. reflexivity.
Qed.

Lemma escapeChar_no_bracket (c : ascii) :
  Js.ch_eqb "["%char c = false -> Js.includes (escapeChar c) "[" = false.
Proof.
  intro H. unfold escapeChar.
  repeat match goal with |- context [if ?b then _ else _] => destruct b end;
    try reflexivity.
  unfold Js.includes. cbn [existsb]. rewrite H. reflexivity.
Qed.

Lemma escapeString_no_bracket (s : str) :
  Js.includes s "[" = false -> Js.includes (escapeString s) "[" = false.
Proof.
  induction s as [|c s IH]; intro H; [reflexivity|].
  unfold Js.includes in H. simpl in H. apply orb_false_iff in H. destruct H as [Hc Hs].
  rewrite escapeString_cons, includes_app, (escapeChar_no_bracket c Hc).
  apply IH. exact Hs.
Qed.

Lemma encodeStringLiteral_no_bracket (s : str) (d : ascii) :
  Js.includes s "[" = false -> Js.includes (encodeStringLiteral s d) "[" = false.
Proof.
  intro H. unfold encodeStringLiteral. destruct (isSafeUnquoted s d); [assumption|].
  rewrite !includes_app, (escapeString_no_bracket s H). reflexivity.
Qed.

Lemma startsWith_item_marker (s : str) :
  Js.startsWith s LIST_ITEM_MARKER = false -> Js.startsWith s (lit "- ") = false.
Proof.
  destruct s as [|c s]; [reflexivity|]. unfold LIST_ITEM_MARKER. cbn [lit list_ascii_of_string Js.startsWith].
  intro H. destruct (Js.ch_eqb "-" c); [|reflexivity].
  destruct s; discriminate.
Qed.

Lemma encodeStringLiteral_no_item (s : str) (d : ascii) :
  Js.startsWith (encodeStringLiteral s d) (lit "- ") = false.
Proof.
  unfold encodeStringLiteral. destruct (isSafeUnquoted s d) eqn:E.
  - apply isSafeUnquoted_facts in E. apply startsWith_item_marker. tauto.
  - reflexivity.
Qed.

Lemma encodeStringLiteral_no_main_colon (s : str) (d : ascii) :
  isISOTimestamp s = false -> findMainColon (encodeStringLiteral s d) = None.
Proof.
  intro H. unfold encodeStringLiteral. destruct (isSafeUnquoted s d) eqn:E.
  - apply isSafeUnquoted_facts in E. destruct E as (_ & _ & _ & _ & Hc & _).
    apply findMainColonFrom_none. destruct (Js.includes s ":"); [|reflexivity].
    rewrite Hc in H by reflexivity. discriminate.
  - apply (findMainColon_quoted s).
Qed.

(** X9. A string at the root survives the trip: when it holds no opening
    bracket and is no ISO timestamp, [decode] reads from the text [encode]
    makes of it the string itself, whatever the options of either. *)
Theorem root_string_roundtrip (s : str) (eo : option EncodeOptions.t)
    (options : option DecodeOptions.t) :
  Js.includes s "[" = false -> isISOTimestamp s = false ->
  decode (encode (UString s) eo) options = Ok (JString s).
Proof.
  intros Hbr Hiso. unfold encode. cbn [normalizeValue JString encodeValue encodePrimitive].
  set (d := ResolvedOptions.delimiter (resolveEncodeOptions eo)).
  pose proof (encodeStringLiteral_goodLine s d) as Hgood.
  rewrite decode_plain_line_gen.
  - rewrite parsePrimitive_encodeStringLiteral. reflexivity.
  - apply goodLine_noLF. assumption.
  - destruct Hgood as [_ (pre & c & -> & _)]. destruct pre; discriminate.
  - apply (encodePrimitive_trim (PString s) d).
  - apply encodeStringLiteral_no_item.
  - apply encodeStringLiteral_no_bracket. assumption.
  - apply encodeStringLiteral_no_main_colon. assumption.
Qed.

(** Witness: the string [a: "b", c], quotes, colon and comma included. *)
Lemma root_string_roundtrip_witness :
  decode (encode (UString (lit "a: " ++ quoted (lit "b") ++ lit ", c")) None) None
  = Ok (JString (lit "a: " ++ quoted (lit "b") ++ lit ", c")).
Proof.
  apply root_string_roundtrip; reflexivity.
Defined.

(* ================================================================== *)
(** ** Objects: own keys *)
(* ================================================================== *)

(** *** Objects: own properties *)

Lemma get_none (A : Type) (o : list (str * A)) (key : str) :
  ~ In key (Obj.keys o) -> Obj.get o key = None.
Proof.
  induction o as [|[k v] o IH]; simpl; intro H; [reflexivity|].
  destruct (Js.str_eqb k key) eqn:E.
  - apply str_eqb_eq in E. exfalso. apply H. left. assumption.
  - apply IH. intro Hin. apply H. right. assumption.
Qed.

Lemma has_false (A : Type) (o : list (str * A)) (key : str) :
  ~ In key (Obj.keys o) -> Obj.has o key = false.
Proof. intro H. unfold Obj.has. rewrite get_none by assumption. reflexivity. Qed.

Lemma keys_replace (A : Type) (o : list (str * A)) (key : str) (v : A) :
  Obj.keys (Obj.replace o key v) = Obj.keys o.
Proof.
  induction o as [|[k x] o IH]; simpl; [reflexivity|].
  destruct (Js.str_eqb k key); simpl; [reflexivity|]. rewrite IH. reflexivity.
Qed.

Lemma keys_insertIndex_in (A : Type) (o : list (str * A)) (i : Z) (key : str) (v : A)
    (k : str) :
  In k (Obj.keys (Obj.insertIndex o i key v)) <-> k = key \/ In k (Obj.keys o).
Proof.
  induction o as [|[k0 x] o IH]; simpl.
  - intuition congruence.
  - destruct (Obj.arrayIndex k0) as [j|]; [destruct (j <? i)%Z|]; simpl;
      rewrite ?IH; intuition congruence.
Qed.

Lemma keys_insertIndex_NoDup (A : Type) (o : list (str * A)) (i : Z) (key : str) (v : A) :
  ~ In key (Obj.keys o) -> NoDup (Obj.keys o) ->
  NoDup (Obj.keys (Obj.insertIndex o i key v)).
Proof.
  induction o as [|[k0 x] o IH]; simpl; intros Hin Hnd.
  - constructor; [tauto | constructor].
  - inversion Hnd as [|? ? Hk0 Ho]; subst.
    destruct (Obj.arrayIndex k0) as [j|]; [destruct (j <? i)%Z|]; simpl.
    + constructor.
      * rewrite keys_insertIndex_in. intuition congruence.
      * apply IH; tauto.
    + constructor; [simpl; tauto | assumption].
    + constructor; [simpl; tauto | assumption].
Qed.

Lemma ownKeys_set (A : Type) (o : list (str * A)) (key : str) (v : A) :
  ownKeys A o -> ownKeys A (Obj.set o key v).
Proof.
  intros [Hnd Hp]. unfold Obj.set.
  destruct (Js.str_eqb key (lit "__proto__")) eqn:E; [split; assumption|].
  assert (Hkey : key <> lit "__proto__").
  { intro H. apply str_eqb_eq in H. congruence. }
  destruct (Obj.has o key) eqn:Eh.
  - unfold ownKeys. rewrite keys_replace. split; assumption.
  - assert (Hin : ~ In key (Obj.keys o)).
    { intro Hin. unfold Obj.has in Eh. destruct (Obj.get o key) eqn:Eg; [discriminate|].
      clear - Hin Eg. induction o as [|[k x] o IH]; simpl in *; [tauto|].
      destruct (Js.str_eqb k key) eqn:E; [discriminate|].
      destruct Hin as [Hk|Hin]; [|auto].
      apply str_eqb_eq in Hk. congruence. }
    destruct (Obj.arrayIndex key) as [i|].
    + split.
      * apply keys_insertIndex_NoDup; assumption.
      * rewrite keys_insertIndex_in. intros [H|H];
          [apply Hkey; symmetry; exact H | exact (Hp H)].
    + unfold ownKeys, Obj.keys. rewrite map_app. simpl. split.
      * apply NoDup_app_remove_l with (l := []). simpl.
        apply (NoDup_Add (a := key) (l := map fst o)); [|split; assumption].
        clear. induction (map fst o) as [|x l IH]; simpl; constructor. assumption.
      * intro H. apply in_app_or in H. destruct H as [H|[H|[]]];
          [exact (Hp H) | apply Hkey; exact H].
Qed.

Lemma ownKeys_fold (A B : Type) (f : B -> str * A) (l : list B) (o : list (str * A)) :
  ownKeys A o ->
  ownKeys A (fold_left (fun result x => Obj.set result (fst (f x)) (snd (f x))) l o).
Proof.
  revert o. induction l as [|x l IH]; intros o H; simpl; [assumption|].
  apply IH. apply ownKeys_set. assumption.
Qed.

(** Assigning a key that is new, not an array index and not [__proto__]
    appends the property. *)
Lemma set_fresh (A : Type) (o : list (str * A)) (key : str) (v : A) :
  key <> lit "__proto__" -> ~ In key (Obj.keys o) -> Obj.arrayIndex key = None ->
  Obj.set o key v = o ++ [(key, v)].
Proof.
  intros Hp Hin Hidx. unfold Obj.set.
  destruct (Js.str_eqb key (lit "__proto__")) eqn:E.
  - apply str_eqb_eq in E. congruence.
  - rewrite has_false by assumption. rewrite Hidx. reflexivity.
Qed.

(** Assigning the properties of an object one after the other to an empty
    object builds the object again. *)
Lemma rebuild_object (A : Type) (o acc : list (str * A)) :
  NoDup (Obj.keys acc ++ Obj.keys o) -> ~ In (lit "__proto__") (Obj.keys o) ->
  Forall (fun kv => Obj.arrayIndex (fst kv) = None) o ->
  fold_left (fun r kv => Obj.set r (fst kv) (snd kv)) o acc = acc ++ o.
Proof.
  revert acc. induction o as [|[k v] o IH]; intros acc Hnd Hp Hidx; simpl.
  - rewrite app_nil_r. reflexivity.
  - inversion Hidx as [|? ? Hk Ho]; subst. simpl in Hk, Hp.
    rewrite set_fresh.
    + rewrite IH.
      * rewrite <- app_assoc. reflexivity.
      * unfold Obj.keys in *. rewrite map_app, <- app_assoc. simpl. exact Hnd.
      * tauto.
      * assumption.
    + intro E. apply Hp. left. assumption.
    + simpl in Hnd. apply NoDup_remove_2 in Hnd. intro Hin. apply Hnd.
      apply in_or_app. left. assumption.
    + assumption.
Qed.

(* ================================================================== *)
(** ** Properties of primitives: the lines *)
(* ================================================================== *)

(** *** The scanner on the line of a property *)

Lemma unquotedKey_first (c : ascii) (key : str) :
  Regex.test Pattern.unquotedKey (c :: key) = true ->
  (Js.isUpper c || Js.isLower c || Js.ch_eqb c "_") = true.
Proof.
  intro H. destruct (Js.isUpper c || Js.isLower c || Js.ch_eqb c "_") eqn:E;
    [reflexivity|].
  change (Regex.test Pattern.unquotedKey (c :: key))
    with (Regex.test (Regex.deriv c Pattern.unquotedKey) key) in H.
  rewrite void_test in H; [discriminate|].
  unfold Pattern.unquotedKey. cbn [Regex.deriv Regex.nullable]. rewrite E. reflexivity.
Qed.

Lemma key_first_facts (c : ascii) :
  (Js.isUpper c || Js.isLower c || Js.ch_eqb c "_") = true ->
  Js.isWhiteSpace c = false /\ Js.ch_eqb "-" c = false /\ Js.isDigit c = false
  /\ (Js.isDigit c || Js.ch_eqb c "," || Js.isWhiteSpace c) = false.
Proof.
  each_char c; vm_compute; intro H; (repeat split; reflexivity) || discriminate.
Qed.

Lemma key_char_facts (c : ascii) :
  Regex.alphabet Pattern.unquotedKey c = true ->
  negb (Js.isWhiteSpace c) = true /\ passes ":" c = true
  /\ Js.ch_eqb "["%char c = false /\ Js.ch_eqb ","%char c = false.
Proof.
  each_char c; vm_compute; intro H; (repeat split; reflexivity) || discriminate.
Qed.

Lemma substring_prefix (a b : str) :
  Js.substring (a ++ b) 0 (Z.of_nat (length a)) = a.
Proof.
  unfold Js.substring. rewrite length_app.
  replace (Z.to_nat (Z.min (Z.min (Z.max 0 0) (Z.of_nat (length a + length b)))
                       (Z.min (Z.max (Z.of_nat (length a)) 0)
                          (Z.of_nat (length a + length b))))) with 0 by lia.
  replace (Z.to_nat (Z.max (Z.min (Z.max 0 0) (Z.of_nat (length a + length b)))
                       (Z.min (Z.max (Z.of_nat (length a)) 0)
                          (Z.of_nat (length a + length b))))) with (length a) by lia.
  rewrite Nat.sub_0_r. cbn [skipn]. rewrite firstn_app, Nat.sub_diag, firstn_all.
  simpl. apply app_nil_r.
Qed.

Lemma substringFrom_suffix (a b : str) :
  Js.substringFrom (a ++ b) (Z.of_nat (length a)) = b.
Proof.
  unfold Js.substringFrom, Js.substring. rewrite length_app.
  replace (Z.to_nat (Z.min (Z.min (Z.max (Z.of_nat (length a)) 0)
                              (Z.of_nat (length a + length b)))
                       (Z.min (Z.max (Z.of_nat (length a + length b)) 0)
                          (Z.of_nat (length a + length b))))) with (length a) by lia.
  replace (Z.to_nat (Z.max (Z.min (Z.max (Z.of_nat (length a)) 0)
                              (Z.of_nat (length a + length b)))
                       (Z.min (Z.max (Z.of_nat (length a + length b)) 0)
                          (Z.of_nat (length a + length b))))) with (length a + length b) by lia.
  rewrite skipn_app, skipn_all, Nat.sub_diag. cbn [skipn app].
  replace (length a + length b - length a) with (length b) by lia.
  apply firstn_all.
Qed.

Lemma trim_space (s : str) : Js.trim (SPACE :: s) = Js.trim s.
Proof. reflexivity. Qed.

(** A text that starts and ends with characters other than white space is
    its own trimmed form. *)
Lemma trim_id_ends (a : ascii) (mid : str) (s : str) :
  Js.isWhiteSpace a = false -> s <> [] -> Js.trim s = s ->
  Js.trim (a :: mid ++ s) = a :: mid ++ s.
Proof.
  intros Ha Hne Hs. destruct (trim_last s) as [E | (pre & z & E & Hz)];
    rewrite Hs in E; [congruence|].
  rewrite E, app_assoc.
  apply (@trim_id (a :: (mid ++ pre) ++ [z]) a z (mid ++ pre));
    [left; reflexivity | assumption | assumption].
Qed.

(* ================================================================== *)
(** ** Properties of primitives: the tokens *)
(* ================================================================== *)

Lemma plainKey_facts (key : str) :
  plainKey key = true ->
  encodeKey key = key /\ unescapeKey key = Ok key /\ (length key <? 100)%nat = true
  /\ forallb (Regex.alphabet Pattern.unquotedKey) key = true
  /\ exists c rest, key = c :: rest
                    /\ (Js.isUpper c || Js.isLower c || Js.ch_eqb c "_") = true.
Proof.
  unfold plainKey. intro H. apply andb_true_iff in H. destruct H as [Hv Hl].
  split; [unfold encodeKey; rewrite Hv; reflexivity|].
  split; [apply unescapeKey_valid; assumption|].
  split; [assumption|]. unfold isValidUnquotedKey in Hv.
  split; [apply test_alphabet; assumption|].
  destruct key as [|c rest]; [discriminate|]. exists c, rest.
  split; [reflexivity|]. eapply unquotedKey_first. eassumption.
Qed.

Lemma plainKey_not_index (key : str) : plainKey key = true -> Obj.arrayIndex key = None.
Proof.
  intro H. apply plainKey_facts in H.
  destruct H as (_ & _ & _ & _ & c & rest & -> & Hc).
  apply key_first_facts in Hc. destruct Hc as (_ & _ & Hd & _).
  unfold Obj.arrayIndex. cbn [forallb]. rewrite Hd. reflexivity.
Qed.

Lemma forallb_includes (s : str) (c : ascii) :
  forallb (fun x => negb (Js.ch_eqb c x)) s = true -> Js.includes s c = false.
Proof.
  unfold Js.includes. induction s as [|x s IH]; simpl; intro H; [reflexivity|].
  apply andb_true_iff in H. destruct H as [Hx Hs].
  apply negb_true_iff in Hx. rewrite Hx. apply IH. assumption.
Qed.

Lemma propertyLine_eq (d : ascii) (key : str) (p : JsonPrimitive) :
  plainKey key = true ->
  propertyLine d (key, p) = key ++ ":"%char :: SPACE :: encodePrimitive p d.
Proof.
  intro Hk. unfold propertyLine. cbn [fst snd].
  destruct (plainKey_facts key Hk) as (-> & _). reflexivity.
Qed.

Lemma propertyLine_trim (d : ascii) (key : str) (p : JsonPrimitive) :
  plainKey key = true -> Js.trim (propertyLine d (key, p)) = propertyLine d (key, p).
Proof.
  intro Hk. rewrite propertyLine_eq by assumption.
  destruct (plainKey_facts key Hk) as (_ & _ & _ & _ & c & rest & -> & Hc).
  apply key_first_facts in Hc. destruct Hc as (Hw & _).
  replace ((c :: rest) ++ ":"%char :: SPACE :: encodePrimitive p d)
    with (c :: (rest ++ [":"%char; SPACE]) ++ encodePrimitive p d)
    by (simpl; rewrite <- app_assoc; reflexivity).
  apply trim_id_ends; [assumption | apply encodePrimitive_nonempty | apply encodePrimitive_trim].
Qed.

Lemma propertyLine_no_bracket (d : ascii) (key : str) (p : JsonPrimitive) :
  plainKey key = true -> readable d p ->
  Js.includes (propertyLine d (key, p)) "[" = false.
Proof.
  intros Hk [_ Hp]. rewrite propertyLine_eq by assumption.
  destruct (plainKey_facts key Hk) as (_ & _ & _ & Ha & _).
  rewrite includes_app.
  rewrite (forallb_includes key "[").
  - change (":"%char :: SPACE :: encodePrimitive p d)
      with ([":"%char; SPACE] ++ encodePrimitive p d).
    rewrite includes_app, Hp. reflexivity.
  - eapply forallb_impl; [|exact Ha]. intros c Hc.
    apply key_char_facts in Hc. destruct Hc as (_ & _ & Hb & _). rewrite Hb. reflexivity.
Qed.

Lemma propertyLine_noLF (d : ascii) (key : str) (p : JsonPrimitive) :
  ~ In LF (propertyLine d (key, p)).
Proof.
  unfold propertyLine. cbn [fst snd]. apply noLF_app; [apply encodeKey_noLF|].
  apply noLF_app; [simpl; intros [E|[E|[]]]; discriminate|].
  apply goodLine_noLF, encodePrimitive_goodLine.
Qed.

(** The scanner makes three tokens of the line of a property. *)
Lemma scanLine_property (d : ascii) (key : str) (p : JsonPrimitive) (i : nat) :
  plainKey key = true -> readable d p ->
  Scanner.scanLine (propertyLine d (key, p)) 0 i false
  = Ok (propertyTokens d i (key, p)).
Proof.
  intros Hk Hp. pose proof (propertyLine_no_bracket d key p Hk Hp) as Hbr.
  unfold Scanner.scanLine.
  rewrite parseArrayHeader_no_bracket by assumption.
  rewrite propertyLine_eq in * by assumption.
  destruct (plainKey_facts key Hk) as (_ & Hu & Hlen & Ha & c & rest & E & Hc).
  pose proof (key_first_facts c Hc) as (Hw & Hdash & Hdigit & Hcls).
  assert (Hitem : Js.startsWith (key ++ ":"%char :: SPACE :: encodePrimitive p d) (lit "- ")
                  = false).
  { rewrite E. cbn [app lit list_ascii_of_string Js.startsWith]. rewrite Hdash. reflexivity. }
  rewrite Hitem. cbn [rbind].
  assert (Hinc : Js.includes (key ++ ":"%char :: SPACE :: encodePrimitive p d) ":" = true).
  { rewrite includes_app. unfold Js.includes at 2. cbn [existsb].
    rewrite ch_eqb_refl. apply orb_true_r. }
  rewrite Hinc.
  assert (Hcolon : findMainColon (key ++ ":"%char :: SPACE :: encodePrimitive p d)
                   = Some (length key)).
  { unfold findMainColon. rewrite findMainColonFrom_skip.
    - cbn [findMainColonFrom]. change (Js.ch_eqb ":" BACKSLASH) with false.
      change (Js.ch_eqb ":" DOUBLE_QUOTE) with false. rewrite ch_eqb_refl. reflexivity.
    - eapply forallb_impl; [|exact Ha]. intros x Hx.
      apply key_char_facts in Hx. destruct Hx as (_ & Hx & _). exact Hx. }
  rewrite Hcolon. cbv zeta.
  rewrite substring_prefix.
  assert (Htrimk : Js.trim key = key).
  { apply trim_id_forall. eapply forallb_impl; [|exact Ha]. intros x Hx.
    apply key_char_facts in Hx. tauto. }
  rewrite Htrimk.
  replace (key ++ ":"%char :: SPACE :: encodePrimitive p d)
    with ((key ++ [":"%char]) ++ SPACE :: encodePrimitive p d)
    by (rewrite <- app_assoc; reflexivity).
  replace (Z.of_nat (length key) + 1)%Z with (Z.of_nat (length (key ++ [":"%char])))
    by (rewrite length_app; simpl; lia).
  rewrite substringFrom_suffix, trim_space, encodePrimitive_trim.
  assert (Hq : Js.startsWith key [DOUBLE_QUOTE] = false).
  { rewrite E. cbn [Js.startsWith]. revert Hc. clear.
    each_char c; vm_compute; intro H; (reflexivity || discriminate). }
  rewrite Hq. cbn [andb orb].
  assert (Hcomma : Js.includes key "," = false).
  { apply forallb_includes. eapply forallb_impl; [|exact Ha]. intros x Hx.
    apply key_char_facts in Hx. destruct Hx as (_ & _ & _ & Hx). rewrite Hx. reflexivity. }
  rewrite Hcomma, Hlen.
  assert (Hre : Regex.test Pattern.digitsCommasSpaces key = false).
  { rewrite E.
    change (Regex.test Pattern.digitsCommasSpaces (c :: rest))
      with (Regex.test (Regex.deriv c Pattern.digitsCommasSpaces) rest).
    apply void_test. unfold Pattern.digitsCommasSpaces, Regex.Plus.
    cbn [Regex.deriv Regex.nullable]. rewrite Hcls. reflexivity. }
  rewrite Hre. cbn [negb andb]. rewrite Hu. cbn [rbind].
  unfold propertyTokens. cbn [fst snd].
  destruct (encodePrimitive p d) eqn:Et;
    [exfalso; exact (encodePrimitive_nonempty p d Et)|].
  reflexivity.
Qed.

(* ================================================================== *)
(** ** Properties of primitives: the parser *)
(* ================================================================== *)

(** *** The parser on the tokens of properties *)

Lemma parseRootLoop_property (fuel : nat) (result : JsonObject) (st : Parser.State)
    (key text : str) (p : JsonPrimitive) (i : nat) :
  nth_error (Parser.tokens st) (Parser.position st)
  = Some (Scanner.mkToken KEY key 0 i None false) ->
  nth_error (Parser.tokens st) (S (Parser.position st))
  = Some (Scanner.mkToken COLON (lit ":") 0 i None false) ->
  nth_error (Parser.tokens st) (S (S (Parser.position st)))
  = Some (Scanner.mkToken VALUE text 0 i None false) ->
  Parser.parsePrimitive text = Ok p ->
  Parser.parseRootLoop (S fuel) result st
  = Parser.parseRootLoop fuel (Obj.set result key (JPrim p))
      {| Parser.tokens := Parser.tokens st;
         Parser.position := S (S (S (Parser.position st))) |}.
Proof.
  intros H1 H2 H3 Hp.
  assert (Hb : (Parser.position st <? length (Parser.tokens st))%nat = true).
  { apply Nat.ltb_lt. eapply nth_error_in_bounds. eassumption. }
  cbn [Parser.parseRootLoop].
  unfold Parser.bind at 1. unfold Parser.inBounds at 1.
  unfold Parser.bind at 1. unfold Parser.current at 1.
  rewrite Hb, H1.
  cbn [negb Scanner.mkToken Token.type Token.indent Token.value TokenType_eqb Z.eqb].
  unfold Parser.bind at 1. unfold Parser.advance at 1.
  unfold Parser.bind at 1. unfold Parser.current at 1.
  cbn [Parser.tokens Parser.position]. rewrite H2.
  cbn [Parser.typeIs Scanner.mkToken Token.type TokenType_eqb].
  unfold Parser.bind at 1. unfold Parser.advance at 1.
  unfold Parser.bind at 1. unfold Parser.current at 1.
  cbn [Parser.tokens Parser.position]. rewrite H3.
  cbn [Parser.typeIs Parser.deeperThan Parser.isTabSibling Parser.opensBlock
       Parser.isCompactNested Parser.valueOf
       Scanner.mkToken Token.type Token.indent Token.value Token.hadTabIndent
       TokenType_eqb Z.ltb Z.compare andb orb Z.eqb].
  unfold Parser.bind at 1. unfold Parser.lift at 1. rewrite Hp.
  unfold Parser.bind at 1. unfold Parser.advance at 1.
  cbn [Parser.tokens Parser.position]. reflexivity.
Qed.

Lemma nth_error_after (A : Type) (pre l : list A) (k : nat) :
  nth_error (pre ++ l) (length pre + k) = nth_error l k.
Proof.
  rewrite nth_error_app2 by lia. f_equal. lia.
Qed.

Lemma nth_error_here (A : Type) (pre l : list A) :
  nth_error (pre ++ l) (length pre) = nth_error l 0.
Proof. rewrite nth_error_app2 by lia. rewrite Nat.sub_diag. reflexivity. Qed.

(* ================================================================== *)
(** ** Normalized objects *)
(* ================================================================== *)

Lemma normalizeValue_ownKeys (input : Unknown) (o : JsonObject) :
  normalizeValue input = JObject o -> ownKeys _ o.
Proof.
  destruct input as [|s|b|x|z|items|items|entries|]; cbn [normalizeValue];
    try discriminate.
  - destruct (JsNumber.isNegativeZero x); [discriminate|].
    destruct (negb (JsNumber.isFinite x)); discriminate.
  - destruct (_ && _); discriminate.
  - intro H. injection H as <-.
    apply (ownKeys_fold _ _ (fun kv => (fst kv, normalizeValue (snd kv)))).
    split; [constructor | simpl; tauto].
Qed.

Lemma trim_nonblank (c : ascii) (s : str) :
  Js.isWhiteSpace c = false -> Js.trim (c :: s) <> [].
Proof.
  intros Hc H. unfold Js.trim, Js.trimStart in H. cbn [Js.dropWhile] in H.
  rewrite Hc in H. unfold Js.trimEnd in H.
  apply (f_equal (@rev ascii)) in H. rewrite rev_involutive in H. simpl rev in H.
  assert (Hin : forall l, In c l -> Js.dropWhile Js.isWhiteSpace l <> []).
  { induction l as [|x l IH]; simpl; [tauto|]. intros [-> | Hl].
    - rewrite Hc. discriminate.
    - destruct (Js.isWhiteSpace x); [auto | discriminate]. }
  apply (Hin (rev s ++ [c])); [|exact H]. apply in_or_app. right. left. reflexivity.
Qed.

Lemma join_head (sep : str) (c : ascii) (p : str) (ps : list str) :
  exists rest, Js.join sep ((c :: p) :: ps) = c :: rest.
Proof. destruct ps as [|q ps]; simpl; eauto. Qed.

Lemma readable_string (d : ascii) (s : str) :
  Js.includes s "[" = false -> readable d (PString s).
Proof.
  intro H. split.
  - apply parsePrimitive_encodeStringLiteral.
  - apply encodeStringLiteral_no_bracket. assumption.
Qed.

(* ================================================================== *)
(** ** Array headers *)
(* ================================================================== *)

(** *** The length in a header *)

Lemma digitsToZ_uintToStr (u : Decimal.uint) (acc : nat) :
  fold_left (fun a c => 10 * a + Js.digitVal c)%Z (Js.uintToStr u) (Z.of_nat acc)
  = Z.of_nat (Nat.of_uint_acc u acc).
Proof.
  revert acc. induction u; intro acc; cbn [Js.uintToStr fold_left Nat.of_uint_acc];
    [reflexivity | ..];
    rewrite <- IHu; f_equal; rewrite Nat.tail_mul_spec;
    match goal with
    | |- context [Js.digitVal ?c] =>
        let v := eval vm_compute in (Js.digitVal c) in
        change (Js.digitVal c) with v
    end; lia.
Qed.

(** [parseInt] reads back the length the encoder prints. *)
Lemma digitsToZ_natToString (n : nat) : Js.digitsToZ (Js.natToString n) = Z.of_nat n.
Proof.
  unfold Js.digitsToZ, Js.natToString.
  change 0%Z with (Z.of_nat 0).
  rewrite (digitsToZ_uintToStr (Nat.to_uint n) 0).
  change (Nat.of_uint_acc (Nat.to_uint n) 0) with (Nat.of_uint (Nat.to_uint n)).
  rewrite DecimalNat.Unsigned.of_to. reflexivity.
Qed.

Lemma uintToStr_digits (u : Decimal.uint) : forallb Js.isDigit (Js.uintToStr u) = true.
Proof. induction u; simpl; auto. Qed.

Lemma natToString_nonempty (n : nat) : Js.natToString n <> [].
Proof.
  unfold Js.natToString. apply uintToStr_nonempty. intro H.
  pose proof (DecimalNat.Unsigned.of_to n) as E. rewrite H in E.
  cbn in E. subst n. discriminate.
Qed.

Lemma takeWhile_stop (p : ascii -> bool) (a rest : str) :
  forallb p a = true ->
  match rest with c :: _ => p c = false | [] => True end ->
  Js.takeWhile p (a ++ rest) = a /\ Js.dropWhile p (a ++ rest) = rest.
Proof.
  intros Ha Hr. induction a as [|x a IH]; simpl.
  - destruct rest as [|c rest]; [split; reflexivity|]. simpl. rewrite Hr. split; reflexivity.
  - simpl in Ha. apply andb_true_iff in Ha. destruct Ha as [Hx Ha].
    rewrite Hx. destruct (IH Ha) as [-> ->]. split; reflexivity.
Qed.

Lemma formatHeader_plain (n : nat) (key : option str) (d : ascii) (lengthMarker : bool) :
  formatHeader n key None d lengthMarker
  = match key with Some (c :: k) => encodeKey (c :: k) | _ => [] end
      ++ headerBody lengthMarker n d ++ lit ":".
Proof. unfold formatHeader, headerBody. rewrite <- !app_assoc. reflexivity. Qed.

(** The array header pattern on a header without fields: the key before the
    bracket, the length, the delimiter, and the text after the colon. *)
Lemma matchArrayPattern_header (key : str) (lengthMarker : bool) (n : nat)
    (d : Delimiter) (rest : str) :
  forallb notBracket key = true ->
  existsb Js.isLineTerminator (Js.dropWhile Js.isWhiteSpace rest) = false ->
  matchArrayPattern (key ++ headerBody lengthMarker n (delimiterChar d) ++ lit ":" ++ rest)
  = Some {| HeaderMatch.key := match key with [] => None | _ => Some key end;
            HeaderMatch.lengthStr := Js.natToString n;
            HeaderMatch.delimiterInHeader :=
              match d with DComma => None | _ => Some (delimiterChar d) end;
            HeaderMatch.fieldsStr := None;
            HeaderMatch.valueAfter := Js.dropWhile Js.isWhiteSpace rest |}.
Proof.
  intros Hkey Hrest. unfold matchArrayPattern, headerBody.
  rewrite <- !app_assoc.
  destruct (takeWhile_stop notBracket key
              (lit "[" ++ (if lengthMarker then lit "#" else [])
                 ++ Js.natToString n
                 ++ (if negb (Js.ch_eqb (delimiterChar d) DEFAULT_DELIMITER)
                     then [delimiterChar d] else [])
                 ++ lit "]" ++ lit ":" ++ rest) Hkey eq_refl) as [-> ->].
  cbn [lit list_ascii_of_string app]. change (Js.ch_eqb "[" "[") with true.
  cbn [negb].
  set (tail := (if negb (Js.ch_eqb (delimiterChar d) DEFAULT_DELIMITER)
                then [delimiterChar d] else []) ++ "]"%char :: ":"%char :: rest).
  assert (Htail : match tail with c :: _ => Js.isDigit c = false | [] => True end).
  { unfold tail. destruct d; reflexivity. }
  assert (Hskip : match (if lengthMarker then ["#"%char] else []) ++ Js.natToString n ++ tail with
                  | c :: r => if Js.ch_eqb c "#" then r
                              else (if lengthMarker then ["#"%char] else [])
                                     ++ Js.natToString n ++ tail
                  | [] => (if lengthMarker then ["#"%char] else []) ++ Js.natToString n ++ tail
                  end = Js.natToString n ++ tail).
  { destruct lengthMarker; [reflexivity|]. cbn [app].
    pose proof (uintToStr_digits (Nat.to_uint n)) as Hd.
    pose proof (natToString_nonempty n) as Hne. unfold Js.natToString in *.
    destruct (Js.uintToStr (Nat.to_uint n)) as [|c r]; [congruence|].
    cbn [app]. simpl in Hd. apply andb_true_iff in Hd. destruct Hd as [Hc _].
    assert (E : Js.ch_eqb c "#" = false).
    { revert Hc. clear. each_char c; vm_compute; intro H; (reflexivity || discriminate). }
    rewrite E. reflexivity. }
  rewrite Hskip.
  destruct (takeWhile_stop Js.isDigit (Js.natToString n) tail
              (uintToStr_digits (Nat.to_uint n)) Htail) as [-> ->].
  pose proof (natToString_nonempty n) as Hne.
  destruct (Js.natToString n) as [|c0 r0] eqn:En; [congruence|].
  unfold tail.
  destruct d; cbn [delimiterChar];
    repeat first
      [ progress cbn [app negb orb andb]
      | match goal with
        | |- context [Js.ch_eqb ?a ?b] =>
            let v := eval vm_compute in (Js.ch_eqb a b) in
            change (Js.ch_eqb a b) with v
        | |- context [isHeaderDelimiter ?a] =>
            let v := eval vm_compute in (isHeaderDelimiter a) in
            change (isHeaderDelimiter a) with v
        end ];
    rewrite Hrest; reflexivity.
Qed.

(* ================================================================== *)
(** ** Inline arrays: the line *)
(* ================================================================== *)

Lemma tidy_app (a b : str) (sep : str) : tidy a -> tidy b ->
  existsb Js.isLineTerminator sep = false -> tidy (a ++ sep ++ b).
Proof.
  intros (Hna & Hta & Hla) (Hnb & Htb & Hlb) Hsep. split; [|split].
  - apply app_nonempty_l. assumption.
  - pose proof (trim_head a Hta) as Hh. destruct a as [|c a]; [congruence|].
    replace ((c :: a) ++ sep ++ b) with (c :: (a ++ sep) ++ b)
      by (simpl; rewrite <- app_assoc; reflexivity).
    apply trim_id_ends; assumption.
  - rewrite !existsb_app, Hla, Hsep, Hlb. reflexivity.
Qed.

Lemma tidy_join (d : ascii) (pieces : list str) :
  Js.isLineTerminator d = false -> pieces <> [] -> Forall tidy pieces ->
  tidy (Js.join [d] pieces).
Proof.
  intros Hd Hne H. induction H as [|p ps Hp Hps IH]; [congruence|].
  destruct ps as [|q ps]; [exact Hp|].
  rewrite join_cons2. apply tidy_app; [assumption | apply IH; discriminate|].
  simpl. rewrite Hd. reflexivity.
Qed.

Lemma escapeString_no_terminator (s : str) :
  existsb Js.isLineTerminator (escapeString s) = false.
Proof.
  induction s as [|c s IH]; [reflexivity|].
  rewrite escapeString_cons, existsb_app, IH, orb_false_r.
  each_char c; reflexivity.
Qed.

Lemma number_no_terminator (c : ascii) :
  numberChar c = true -> negb (Js.isLineTerminator c) = true.
Proof. each_char c; vm_compute; intro H; (reflexivity || discriminate). Qed.

Lemma forallb_negb_existsb (A : Type) (p : A -> bool) (l : list A) :
  forallb (fun x => negb (p x)) l = true -> existsb p l = false.
Proof.
  induction l as [|x l IH]; simpl; intro H; [reflexivity|].
  apply andb_true_iff in H. destruct H as [Hx Hl].
  apply negb_true_iff in Hx. rewrite Hx. apply IH. assumption.
Qed.

Lemma control_terminator (s : str) :
  hasControlChar s = false -> existsb Js.isLineTerminator s = false.
Proof.
  unfold hasControlChar. induction s as [|c s IH]; simpl; intro H; [reflexivity|].
  apply orb_false_iff in H. destruct H as [Hc Hs]. rewrite (IH Hs), orb_false_r.
  unfold Js.isLineTerminator. apply orb_false_iff in Hc. destruct Hc as [Hc _].
  exact Hc.
Qed.

Lemma encodePrimitive_tidy (p : JsonPrimitive) (d : ascii) : tidy (encodePrimitive p d).
Proof.
  split; [apply encodePrimitive_nonempty|]. split; [apply encodePrimitive_trim|].
  destruct p as [s|x|b|]; cbn [encodePrimitive].
  - unfold encodeStringLiteral. destruct (isSafeUnquoted s d) eqn:E.
    + apply isSafeUnquoted_facts in E. apply control_terminator. tauto.
    + rewrite !existsb_app, escapeString_no_terminator. reflexivity.
  - apply forallb_negb_existsb. eapply forallb_impl; [|apply toString_number].
    apply number_no_terminator.
  - destruct b; reflexivity.
  - reflexivity.
Qed.

Lemma joined_tidy (d : Delimiter) (values : list JsonPrimitive) :
  values <> [] -> tidy (encodeAndJoinPrimitives values (delimiterChar d)).
Proof.
  intro Hne. unfold encodeAndJoinPrimitives. apply tidy_join.
  - destruct d; reflexivity.
  - destruct values; [congruence | discriminate].
  - apply Forall_forall. intros x Hx. apply in_map_iff in Hx.
    destruct Hx as (v & <- & _). apply encodePrimitive_tidy.
Qed.

Lemma dropWhile_tidy (s : str) : tidy s -> Js.dropWhile Js.isWhiteSpace (SPACE :: s) = s.
Proof.
  intros (Hne & Ht & _). pose proof (trim_head s Ht) as Hh.
  destruct s as [|c s]; [congruence|]. cbn [Js.dropWhile].
  change (Js.isWhiteSpace SPACE) with true. cbv iota. rewrite Hh. reflexivity.
Qed.

Lemma encodeInlineArrayLine_eq (values : list JsonPrimitive) (d : ascii)
    (key : option str) (lengthMarker : bool) :
  encodeInlineArrayLine values d key lengthMarker
  = match key with Some (c :: k) => encodeKey (c :: k) | _ => [] end
      ++ headerBody lengthMarker (length values) d ++ lit ":" ++ inlineRest values d.
Proof.
  unfold encodeInlineArrayLine, inlineRest. rewrite formatHeader_plain.
  destruct values; rewrite <- ?app_assoc, ?app_nil_r; reflexivity.
Qed.

Lemma inlineRest_value (values : list JsonPrimitive) (d : Delimiter) :
  Js.dropWhile Js.isWhiteSpace (inlineRest values (delimiterChar d))
  = match values with [] => [] | _ => encodeAndJoinPrimitives values (delimiterChar d) end
  /\ existsb Js.isLineTerminator
       (Js.dropWhile Js.isWhiteSpace (inlineRest values (delimiterChar d))) = false.
Proof.
  unfold inlineRest. destruct values as [|v vs]; [split; reflexivity|].
  pose proof (joined_tidy d (v :: vs)) as Ht.
  change ([SPACE] ++ encodeAndJoinPrimitives (v :: vs) (delimiterChar d))
    with (SPACE :: encodeAndJoinPrimitives (v :: vs) (delimiterChar d)).
  rewrite dropWhile_tidy by (apply Ht; discriminate).
  split; [reflexivity|]. apply Ht. discriminate.
Qed.

Lemma parseArrayHeader_inline (values : list JsonPrimitive) (d : Delimiter)
    (lengthMarker : bool) :
  Scanner.parseArrayHeader
    (encodeInlineArrayLine values (delimiterChar d) None lengthMarker)
  = Ok (Some (inlineInfo None values (delimiterChar d))).
Proof.
  rewrite encodeInlineArrayLine_eq.
  unfold Scanner.parseArrayHeader.
  destruct (inlineRest_value values d) as [Hv Hl].
  rewrite (matchArrayPattern_header [] lengthMarker (length values) d
             (inlineRest values (delimiterChar d)) eq_refl Hl).
  unfold headerFields. cbn [HeaderMatch.fieldsStr rbind HeaderMatch.key trimmedKey
                            HeaderMatch.valueAfter].
  unfold inlineInfo. f_equal. f_equal.
  unfold headerLength, headerDelimiter. cbn [HeaderMatch.lengthStr HeaderMatch.delimiterInHeader].
  rewrite digitsToZ_natToString, Hv.
  assert (Hlen : Z.to_N (Z.of_nat (length values)) = N.of_nat (length values)) by lia.
  rewrite Hlen.
  assert (Hd : match match d with DComma => None | _ => Some (delimiterChar d) end with
               | Some x => x | None => ","%char end = delimiterChar d)
    by (destruct d; reflexivity).
  rewrite Hd.
  destruct values as [|v vs]; [reflexivity|].
  destruct (joined_tidy d (v :: vs)) as (Hne & Ht & _); [discriminate|].
  rewrite Ht.
  destruct (encodeAndJoinPrimitives (v :: vs) (delimiterChar d)); [congruence | reflexivity].
Qed.

(* ================================================================== *)
(** ** An array of primitives at the root *)
(* ================================================================== *)

Lemma isArrayOfPrimitives_map (values : list JsonPrimitive) :
  isArrayOfPrimitives (map JPrim values) = true.
Proof. unfold isArrayOfPrimitives. induction values; simpl; auto. Qed.

Lemma asPrimitives_map (values : list JsonPrimitive) :
  asPrimitives (map JPrim values) = values.
Proof.
  unfold asPrimitives. induction values as [|v vs IH]; simpl; [reflexivity|].
  rewrite IH. reflexivity.
Qed.

Lemma encodeArray_primitives (key : option str) (values : list JsonPrimitive)
    (w : LineWriter.t) (depth : nat) (options : ResolvedOptions.t) :
  encodeArray key (map JPrim values) w depth options
  = LineWriter.push w depth
      (encodeInlineArrayLine values (ResolvedOptions.delimiter options) key
         (ResolvedOptions.lengthMarker options)).
Proof.
  unfold encodeArray, encodeArrayWith. destruct values as [|v vs]; [reflexivity|].
  change (map JPrim (v :: vs)) with (JPrim v :: map JPrim vs).
  change (JPrim v :: map JPrim vs) with (map JPrim (v :: vs)) at 2 3.
  rewrite isArrayOfPrimitives_map, asPrimitives_map. reflexivity.
Qed.

Lemma encodeValue_primitives (values : list JsonPrimitive) (options : ResolvedOptions.t) :
  encodeValue (JArray (map JPrim values)) options
  = encodeInlineArrayLine values (ResolvedOptions.delimiter options) None
      (ResolvedOptions.lengthMarker options).
Proof. cbn [encodeValue]. rewrite encodeArray_primitives. reflexivity. Qed.

Lemma resolved_delimiter (eo : option EncodeOptions.t) :
  exists d, ResolvedOptions.delimiter (resolveEncodeOptions eo) = delimiterChar d.
Proof.
  destruct eo as [[i [d|] m]|]; simpl; [exists d | exists DComma | exists DComma];
    reflexivity.
Qed.

(** parseArray on the header of an inline array. *)
Lemma parseArray_inline (fuel : nat) (st : Parser.State) (token : Token.t)
    (key : option str) (values : list JsonPrimitive) (d : Delimiter) :
  nth_error (Parser.tokens st) (Parser.position st) = Some token ->
  Token.arrayInfo token = Some (inlineInfo key values (delimiterChar d)) ->
  Forall (fun v => Parser.parsePrimitive (encodePrimitive v (delimiterChar d)) = Ok v)
    values ->
  Parser.parseArray (S fuel) st
  = Ok (map JPrim values,
        {| Parser.tokens := Parser.tokens st;
           Parser.position := S (Parser.position st) |}).
Proof.
  intros Hcur Hinfo Hread. cbn [Parser.parseArray].
  unfold Parser.bind at 1. unfold Parser.current at 1. rewrite Hcur, Hinfo.
  cbv zeta. unfold Parser.bind at 1. unfold Parser.advance at 1.
  unfold inlineInfo. cbn [ArrayInfo.length ArrayInfo.inlineValues ArrayInfo.delimiter
                           ArrayInfo.fields].
  destruct values as [|v vs]; [reflexivity|].
  assert (Hn : N.eqb (N.of_nat (length (v :: vs))) 0 = false).
  { apply N.eqb_neq. simpl. lia. }
  rewrite Hn.
  destruct (joined_tidy d (v :: vs)) as (Hne & _); [discriminate|].
  destruct (encodeAndJoinPrimitives (v :: vs) (delimiterChar d)) as [|c j] eqn:Ej;
    [congruence|].
  rewrite <- Ej. unfold Parser.splitByDelimiter.
  pose proof (split_joined_primitives d (v :: vs) []) as Hsplit.
  cbn [app] in Hsplit. unfold splitByDelimiter. rewrite Hsplit.
  rewrite length_map, N.eqb_refl. cbn [negb].
  unfold Parser.lift. rewrite parsePrimitives_encoded by assumption. reflexivity.
Qed.

Lemma inline_line_facts (values : list JsonPrimitive) (d : Delimiter) (lengthMarker : bool) :
  let line := encodeInlineArrayLine values (delimiterChar d) None lengthMarker in
  ~ In LF line /\ Js.trim line = line
  /\ exists rest, line = "["%char :: rest.
Proof.
  cbv zeta. split; [|split].
  - apply goodLine_noLF. apply encodeInlineArrayLine_goodLine. destruct d; discriminate.
  - rewrite encodeInlineArrayLine_eq. unfold headerBody.
    set (inner := (if lengthMarker then lit "#" else [])
                    ++ Js.natToString (length values)
                    ++ (if negb (Js.ch_eqb (delimiterChar d) DEFAULT_DELIMITER)
                        then [delimiterChar d] else [])
                    ++ lit "]").
    destruct values as [|v vs].
    + replace ([] ++ (lit "[" ++ inner) ++ lit ":" ++ inlineRest [] (delimiterChar d))
        with ("["%char :: inner ++ lit ":")
        by (unfold inlineRest; cbn [lit list_ascii_of_string app];
            rewrite <- ?app_assoc; reflexivity).
      apply trim_id_ends; [reflexivity | discriminate | reflexivity].
    + replace ([] ++ (lit "[" ++ inner) ++ lit ":" ++ inlineRest (v :: vs) (delimiterChar d))
        with ("["%char :: (inner ++ lit ": ")
                ++ encodeAndJoinPrimitives (v :: vs) (delimiterChar d))
        by (unfold inlineRest; cbn [lit list_ascii_of_string app];
            rewrite <- ?app_assoc; reflexivity).
      destruct (joined_tidy d (v :: vs)) as (Hne & Ht & _); [discriminate|].
      apply trim_id_ends; [reflexivity | assumption | assumption].
  - rewrite encodeInlineArrayLine_eq. unfold headerBody.
    cbn [lit list_ascii_of_string app]. eauto.
Qed.

(** X10. An array of primitives at the root survives the trip.  When the
    input normalizes to an array of primitives that are each read back from
    their text, as strings (of code units below 256), booleans and null
    always are, and the text of [encode] has at most 65535 characters,
    [decode] returns from that text the normalized input, whatever the
    options: the header is recognised with its length and delimiter, and the
    values are split and read. *)
Theorem root_array_roundtrip (input : Unknown) (values : list JsonPrimitive)
    (eo : option EncodeOptions.t) (options : option DecodeOptions.t) :
  normalizeValue input = JArray (map JPrim values) ->
  Forall (fun v =>
            Parser.parsePrimitive
              (encodePrimitive v (ResolvedOptions.delimiter (resolveEncodeOptions eo)))
            = Ok v) values ->
  shortText (encode input eo) = true ->
  decode (encode input eo) options = Ok (normalizeValue input).
Proof.
  intros Hn Hread _. unfold encode. rewrite Hn, encodeValue_primitives.
  destruct (resolved_delimiter eo) as (d & Ed). rewrite Ed in *.
  set (m := ResolvedOptions.lengthMarker (resolveEncodeOptions eo)).
  destruct (inline_line_facts values d m) as (Hlf & Htrim & rest & Eline).
  pose proof (parseArrayHeader_inline values d m) as Hheader.
  unfold decode. rewrite Htrim.
  destruct (encodeInlineArrayLine values (delimiterChar d) None m) as [|c line] eqn:El;
    [discriminate|].
  injection Eline as -> ->.
  unfold Scanner.scan. cbv zeta. rewrite split_noSep by assumption.
  cbn [Scanner.scanFrom length]. unfold Scanner.isBlank. rewrite Htrim.
  rewrite getIndent_flush by reflexivity.
  cbn [rbind IndentInfo.count IndentInfo.hadTabIndent]. rewrite Hheader.
  cbn [rbind]. unfold Scanner.scanLine.
  assert (Hitem : Js.startsWith ("["%char :: rest) (lit "- ") = false) by reflexivity.
  rewrite Hitem, Hheader. cbn [rbind app].
  unfold Parser.run. cbn [length Nat.mul Nat.add].
  unfold Parser.runWith, Parser.parse.
  unfold Parser.bind at 1. unfold Parser.current at 1.
  cbn [Parser.tokens Parser.position nth_error Scanner.mkToken Token.type TokenType_eqb
       Parser.headerKey Token.arrayInfo inlineInfo ArrayInfo.key andb].
  unfold Parser.bind at 1.
  erewrite (parseArray_inline _ _ _ None values d);
    [reflexivity | reflexivity | reflexivity | exact Hread].
Qed.

(** Witness: the array of [a,b], [true] and null. *)
Lemma root_array_roundtrip_witness :
  decode (encode (UArray [UString (lit "a,b"); UString (lit "true"); UNull]) None) None
  = Ok (normalizeValue (UArray [UString (lit "a,b"); UString (lit "true"); UNull])).
Proof.
  apply (root_array_roundtrip (UArray [UString (lit "a,b"); UString (lit "true"); UNull])
           [PString (lit "a,b"); PString (lit "true"); PNull] None None).
  - reflexivity.
  - repeat constructor.
  - reflexivity.
Defined.

(* ================================================================== *)
(** ** Records: the lines and the tokens *)
(* ================================================================== *)

(** *** The encoder on a record *)

Lemma encodeObject_record (entries : list (str * Simple)) (w : LineWriter.t)
    (options : ResolvedOptions.t) :
  encodeObject (simpleObject entries) w 0 options
  = {| LineWriter.lines :=
         LineWriter.lines w
         ++ map (simpleLine (ResolvedOptions.delimiter options)
                   (ResolvedOptions.lengthMarker options)) entries;
       LineWriter.indentationString := LineWriter.indentationString w |}.
Proof.
  unfold encodeObject, encodeObjectWith. revert w.
  induction entries as [|[k v] entries IH]; intro w.
  - simpl. rewrite app_nil_r. destruct w; reflexivity.
  - cbn [simpleObject map fold_left fst snd].
    unfold simpleObject in IH. rewrite IH. destruct v as [p|values].
    + cbn [simpleValue encodeKeyValuePair simpleLine snd fst].
      unfold LineWriter.push, propertyLine.
      cbn [LineWriter.lines LineWriter.indentationString Js.repeatStr app fst snd].
      rewrite <- app_assoc. reflexivity.
    + cbn [simpleValue simpleLine snd fst].
      change (encodeKeyValuePair k (JArray (map JPrim values)) w 0 options)
        with (encodeArray (Some k) (map JPrim values) w 0 options).
      rewrite encodeArray_primitives. unfold LineWriter.push.
      cbn [LineWriter.lines LineWriter.indentationString Js.repeatStr app].
      rewrite <- app_assoc. reflexivity.
Qed.

Lemma encodeValue_record (entries : list (str * Simple)) (options : ResolvedOptions.t) :
  encodeValue (JObject (simpleObject entries)) options
  = Js.join [LF]
      (map (simpleLine (ResolvedOptions.delimiter options)
              (ResolvedOptions.lengthMarker options)) entries).
Proof. cbn [encodeValue]. rewrite encodeObject_record. reflexivity. Qed.

(** *** The scanner on the line of an array property *)

Lemma key_not_bracket (c : ascii) :
  Regex.alphabet Pattern.unquotedKey c = true -> notBracket c = true.
Proof. each_char c; vm_compute; intro H; (reflexivity || discriminate). Qed.

Lemma arrayLine_eq (d : ascii) (lengthMarker : bool) (key : str)
    (values : list JsonPrimitive) :
  plainKey key = true ->
  encodeInlineArrayLine values d (Some key) lengthMarker
  = key ++ headerBody lengthMarker (length values) d ++ lit ":" ++ inlineRest values d.
Proof.
  intro Hk. rewrite encodeInlineArrayLine_eq.
  destruct (plainKey_facts key Hk) as (Hkey & _ & _ & _ & c & rest & -> & _).
  rewrite Hkey. reflexivity.
Qed.

Lemma parseArrayHeader_keyed (d : Delimiter) (lengthMarker : bool) (key : str)
    (values : list JsonPrimitive) :
  plainKey key = true ->
  Scanner.parseArrayHeader
    (encodeInlineArrayLine values (delimiterChar d) (Some key) lengthMarker)
  = Ok (Some (inlineInfo (Some key) values (delimiterChar d))).
Proof.
  intro Hk. rewrite arrayLine_eq by assumption.
  destruct (plainKey_facts key Hk) as (_ & _ & _ & Ha & c & rest & E & Hc).
  unfold Scanner.parseArrayHeader.
  destruct (inlineRest_value values d) as [Hv Hl].
  rewrite (matchArrayPattern_header key lengthMarker (length values) d
             (inlineRest values (delimiterChar d))).
  2:{ eapply forallb_impl; [|exact Ha]. apply key_not_bracket. }
  2:{ exact Hl. }
  unfold headerFields. cbn [HeaderMatch.fieldsStr rbind HeaderMatch.key
                            HeaderMatch.valueAfter].
  unfold inlineInfo. f_equal. f_equal.
  unfold headerLength, headerDelimiter.
  cbn [HeaderMatch.lengthStr HeaderMatch.delimiterInHeader].
  rewrite digitsToZ_natToString, Hv.
  assert (Hlen : Z.to_N (Z.of_nat (length values)) = N.of_nat (length values)) by lia.
  rewrite Hlen.
  assert (Hd : match match d with DComma => None | _ => Some (delimiterChar d) end with
               | Some x => x | None => ","%char end = delimiterChar d)
    by (destruct d; reflexivity).
  rewrite Hd.
  assert (Hkey : trimmedKey match key with [] => None | _ => Some key end = Some key).
  { rewrite E. unfold trimmedKey. rewrite <- E.
    assert (Ht : Js.trim key = key).
    { apply trim_id_forall. eapply forallb_impl; [|exact Ha]. intros x Hx.
      apply key_char_facts in Hx. tauto. }
    rewrite Ht, E. reflexivity. }
  rewrite Hkey.
  destruct values as [|v vs]; [reflexivity|].
  destruct (joined_tidy d (v :: vs)) as (Hne & Ht & _); [discriminate|].
  rewrite Ht.
  destruct (encodeAndJoinPrimitives (v :: vs) (delimiterChar d)); [congruence | reflexivity].
Qed.

Lemma arrayLine_trim (d : Delimiter) (lengthMarker : bool) (key : str)
    (values : list JsonPrimitive) :
  plainKey key = true ->
  Js.trim (encodeInlineArrayLine values (delimiterChar d) (Some key) lengthMarker)
  = encodeInlineArrayLine values (delimiterChar d) (Some key) lengthMarker.
Proof.
  intro Hk. rewrite arrayLine_eq by assumption.
  destruct (plainKey_facts key Hk) as (_ & _ & _ & _ & c & rest & -> & Hc).
  apply key_first_facts in Hc. destruct Hc as (Hw & _).
  destruct values as [|v vs].
  - replace ((c :: rest) ++ headerBody lengthMarker (length (@nil JsonPrimitive)) (delimiterChar d)
               ++ lit ":" ++ inlineRest [] (delimiterChar d))
      with (c :: (rest ++ headerBody lengthMarker 0 (delimiterChar d)) ++ lit ":")
      by (unfold inlineRest; cbn [length app]; rewrite <- ?app_assoc, ?app_nil_r;
          reflexivity).
    apply trim_id_ends; [assumption | discriminate | reflexivity].
  - replace ((c :: rest) ++ headerBody lengthMarker (length (v :: vs)) (delimiterChar d)
               ++ lit ":" ++ inlineRest (v :: vs) (delimiterChar d))
      with (c :: (rest ++ headerBody lengthMarker (length (v :: vs)) (delimiterChar d)
                    ++ lit ": ")
              ++ encodeAndJoinPrimitives (v :: vs) (delimiterChar d))
      by (unfold inlineRest; cbn [lit list_ascii_of_string app];
          rewrite <- ?app_assoc; cbn [app]; reflexivity).
    destruct (joined_tidy d (v :: vs)) as (Hne & Ht & _); [discriminate|].
    apply trim_id_ends; assumption.
Qed.

Lemma simpleLine_noLF (d : Delimiter) (lengthMarker : bool) (kv : str * Simple) :
  ~ In LF (simpleLine (delimiterChar d) lengthMarker kv).
Proof.
  destruct kv as [k [p|values]]; unfold simpleLine; cbn [fst snd].
  - apply propertyLine_noLF.
  - apply goodLine_noLF. apply encodeInlineArrayLine_goodLine. destruct d; discriminate.
Qed.

Lemma simpleLine_head (d : Delimiter) (lengthMarker : bool) (key : str) (v : Simple) :
  plainKey key = true ->
  exists c rest,
    simpleLine (delimiterChar d) lengthMarker (key, v) = c :: rest
    /\ Js.isWhiteSpace c = false /\ Js.ch_eqb "-" c = false.
Proof.
  intro Hk. destruct (plainKey_facts key Hk) as (_ & _ & _ & _ & c & rest & E & Hc).
  apply key_first_facts in Hc. destruct Hc as (Hw & Hd & _).
  destruct v as [p|values]; unfold simpleLine; cbn [fst snd].
  - rewrite propertyLine_eq by assumption. rewrite E. cbn [app]. eauto.
  - rewrite arrayLine_eq by assumption. rewrite E. cbn [app]. eauto.
Qed.

(** The scanner on the lines of a record, from line [i] on. *)
Lemma scanFrom_record (options : Scanner.Options) (d : Delimiter) (lengthMarker : bool)
    (entries : list (str * Simple)) (i : nat) (tokens : list Token.t)
    (insideArray : bool) (arrayIndent : Z) :
  Forall (fun kv => plainKey (fst kv) = true
                    /\ readableSimple (delimiterChar d) (snd kv)) entries ->
  Scanner.scanFrom options (map (simpleLine (delimiterChar d) lengthMarker) entries)
    i tokens insideArray arrayIndent
  = Ok (tokens ++ recordTokens (delimiterChar d) lengthMarker i entries).
Proof.
  intro H. revert i tokens insideArray arrayIndent.
  induction H as [|[k v] entries [Hk Hv] _ IH]; intros i tokens insideArray arrayIndent.
  - simpl. rewrite app_nil_r. reflexivity.
  - cbn [map Scanner.scanFrom fst snd] in *.
    destruct (simpleLine_head d lengthMarker k v Hk) as (c & rest & Eline & Hw & Hdash).
    assert (Htrim : Js.trim (simpleLine (delimiterChar d) lengthMarker (k, v))
                    = simpleLine (delimiterChar d) lengthMarker (k, v)).
    { destruct v; unfold simpleLine; cbn [fst snd];
        [apply propertyLine_trim | apply arrayLine_trim]; assumption. }
    unfold Scanner.isBlank. rewrite Htrim. rewrite Eline.
    rewrite getIndent_flush by assumption.
    cbn [rbind IndentInfo.count IndentInfo.hadTabIndent]. rewrite <- Eline.
    destruct v as [p|values]; unfold simpleLine in *; cbn [fst snd] in *.
    + rewrite parseArrayHeader_no_bracket
        by (apply propertyLine_no_bracket; assumption).
      cbn [rbind]. rewrite scanLine_property by assumption. cbn [rbind].
      destruct (insideArray && (0 <=? arrayIndent)%Z);
        rewrite IH; cbn [recordTokens simpleTokens snd fst];
        rewrite <- app_assoc; reflexivity.
    + rewrite parseArrayHeader_keyed by assumption. cbn [rbind].
      unfold Scanner.scanLine.
      assert (Hitem : Js.startsWith
                        (encodeInlineArrayLine values (delimiterChar d) (Some k) lengthMarker)
                        (lit "- ") = false).
      { rewrite Eline. cbn [lit list_ascii_of_string Js.startsWith]. rewrite Hdash.
        reflexivity. }
      rewrite Hitem, parseArrayHeader_keyed by assumption. cbn [rbind].
      rewrite IH. cbn [recordTokens simpleTokens snd fst].
      rewrite <- app_assoc. reflexivity.
Qed.

(* ================================================================== *)
(** ** Records: from the text and back *)
(* ================================================================== *)

Lemma parseRootLoop_array (fuel : nat) (result : JsonObject) (st : Parser.State)
    (key line : str) (values : list JsonPrimitive) (d : Delimiter) (i : nat) :
  plainKey key = true ->
  nth_error (Parser.tokens st) (Parser.position st)
  = Some (Scanner.mkToken ARRAY_HEADER line 0 i
            (Some (inlineInfo (Some key) values (delimiterChar d))) false) ->
  Forall (fun v => Parser.parsePrimitive (encodePrimitive v (delimiterChar d)) = Ok v)
    values ->
  Parser.parseRootLoop (S (S fuel)) result st
  = Parser.parseRootLoop (S fuel) (Obj.set result key (JArray (map JPrim values)))
      {| Parser.tokens := Parser.tokens st;
         Parser.position := S (Parser.position st) |}.
Proof.
  intros Hk Hcur Hread.
  assert (Hb : (Parser.position st <? length (Parser.tokens st))%nat = true).
  { apply Nat.ltb_lt. eapply nth_error_in_bounds. eassumption. }
  destruct (plainKey_facts key Hk) as (_ & _ & _ & _ & c & rest & E & _).
  remember (S fuel) as fuel' eqn:Ef.
  cbn [Parser.parseRootLoop].
  unfold Parser.bind at 1. unfold Parser.inBounds at 1.
  unfold Parser.bind at 1. unfold Parser.current at 1.
  rewrite Hb, Hcur.
  cbn [negb Scanner.mkToken Token.type Token.indent TokenType_eqb Z.eqb
       Parser.headerKey Token.arrayInfo inlineInfo ArrayInfo.key].
  rewrite E. rewrite <- E.
  unfold Parser.bind at 1. subst fuel'.
  erewrite (parseArray_inline fuel st _ (Some key) values d);
    [reflexivity | exact Hcur | reflexivity | exact Hread].
Qed.

Lemma recordTokens_length (d : ascii) (m : bool) (i : nat) (entries : list (str * Simple)) :
  length entries <= length (recordTokens d m i entries).
Proof.
  revert i. induction entries as [|[k v] entries IH]; intro i; [simpl; lia|].
  cbn [recordTokens]. rewrite length_app. specialize (IH (S i)).
  destruct v; simpl in *; lia.
Qed.

Lemma parseRootLoop_record (d : Delimiter) (m : bool) (entries : list (str * Simple))
    (fuel : nat) (result : JsonObject) (pre : list Token.t) (i n : nat) :
  length entries + 1 < fuel ->
  Forall (fun kv => plainKey (fst kv) = true
                    /\ readableSimple (delimiterChar d) (snd kv)) entries ->
  exists st',
    Parser.parseRootLoop fuel result
      {| Parser.tokens :=
           pre ++ recordTokens (delimiterChar d) m i entries
             ++ [Scanner.mkToken EOF [] 0 n None false];
         Parser.position := length pre |}
    = Ok (fold_left (fun r kv => Obj.set r (fst kv) (simpleValue (snd kv))) entries result,
          st').
Proof.
  intros Hfuel H. revert fuel result pre i Hfuel.
  induction H as [|[k v] entries [Hk Hv] _ IH]; intros fuel result pre i Hfuel.
  - destruct fuel as [|fuel]; [simpl in Hfuel; lia|].
    cbn [recordTokens app Parser.parseRootLoop length].
    unfold Parser.bind, Parser.inBounds, Parser.current.
    cbn [Parser.tokens Parser.position].
    rewrite nth_error_here. cbn [nth_error].
    assert (Hb : (length pre <? length (pre ++ [Scanner.mkToken EOF [] 0 n None false]))%nat
                 = true).
    { apply Nat.ltb_lt. rewrite length_app. simpl. lia. }
    rewrite Hb. cbn [negb Scanner.mkToken Token.type TokenType_eqb].
    unfold Parser.ret. eexists. reflexivity.
  - destruct fuel as [|[|fuel]]; [simpl in Hfuel; lia | simpl in Hfuel; lia|].
    cbn [fst snd] in *. cbn [recordTokens fold_left length fst snd].
    set (tokens := pre ++ (simpleTokens (delimiterChar d) m i (k, v)
                             ++ recordTokens (delimiterChar d) m (S i) entries)
                     ++ [Scanner.mkToken EOF [] 0 n None false]).
    assert (Etok : tokens
                   = (pre ++ simpleTokens (delimiterChar d) m i (k, v))
                       ++ recordTokens (delimiterChar d) m (S i) entries
                       ++ [Scanner.mkToken EOF [] 0 n None false]).
    { unfold tokens. rewrite <- !app_assoc. reflexivity. }
    destruct v as [p|values]; cbn [readableSimple simpleValue] in *.
    + destruct Hv as [Hp _].
      rewrite (parseRootLoop_property (S fuel) result _ k
                 (encodePrimitive p (delimiterChar d)) p i).
      * cbn [Parser.tokens Parser.position]. rewrite Etok.
        replace (S (S (S (length pre))))
          with (length (pre ++ simpleTokens (delimiterChar d) m i (k, SPrim p)))
          by (rewrite length_app; simpl; lia).
        apply IH. simpl in Hfuel. lia.
      * cbn [Parser.tokens Parser.position]. unfold tokens.
        rewrite nth_error_here. reflexivity.
      * cbn [Parser.tokens Parser.position]. unfold tokens.
        replace (S (length pre)) with (length pre + 1) by lia.
        rewrite nth_error_after. reflexivity.
      * cbn [Parser.tokens Parser.position]. unfold tokens.
        replace (S (S (length pre))) with (length pre + 2) by lia.
        rewrite nth_error_after. reflexivity.
      * assumption.
    + rewrite (parseRootLoop_array fuel result _ k
                 (encodeInlineArrayLine values (delimiterChar d) (Some k) m) values d i).
      * cbn [Parser.tokens Parser.position]. rewrite Etok.
        replace (S (length pre))
          with (length (pre ++ simpleTokens (delimiterChar d) m i (k, SArray values)))
          by (rewrite length_app; simpl; lia).
        apply IH. simpl in Hfuel. lia.
      * assumption.
      * cbn [Parser.tokens Parser.position]. unfold tokens.
        rewrite nth_error_here. reflexivity.
      * assumption.
Qed.

Lemma recordTokens_first (d : ascii) (m : bool) (i : nat) (k : str) (v : Simple)
    (entries : list (str * Simple)) (eof : Token.t) :
  plainKey k = true ->
  exists first,
    nth_error (recordTokens d m i ((k, v) :: entries) ++ [eof]) 0 = Some first
    /\ entersRootLoop first = true.
Proof.
  intro Hk. destruct (plainKey_facts k Hk) as (_ & _ & _ & _ & c & rest & E & _).
  destruct v as [p|values]; cbn [recordTokens simpleTokens propertyTokens snd fst app nth_error];
    eexists; (split; [reflexivity|]).
  - reflexivity.
  - unfold entersRootLoop, Parser.headerKey.
    cbn [Scanner.mkToken Token.type Token.arrayInfo inlineInfo ArrayInfo.key TokenType_eqb
         negb andb].
    rewrite E. reflexivity.
Qed.

Lemma decode_record (d : Delimiter) (m : bool) (entries : list (str * Simple))
    (options : option DecodeOptions.t) :
  entries <> [] ->
  Forall (fun kv => plainKey (fst kv) = true
                    /\ readableSimple (delimiterChar d) (snd kv)) entries ->
  decode (Js.join [LF] (map (simpleLine (delimiterChar d) m) entries)) options
  = Ok (match fold_left (fun r kv => Obj.set r (fst kv) (simpleValue (snd kv))) entries [] with
        | [] => JNull
        | o => JObject o
        end).
Proof.
  intros Hne H. unfold decode.
  destruct entries as [|[k v] entries]; [congruence|].
  assert (Hk : plainKey k = true) by (inversion H as [|? ? [Hk _] _]; exact Hk).
  destruct (simpleLine_head d m k v Hk) as (c & rest & Eline & Hw & _).
  destruct (join_head [LF] c rest (map (simpleLine (delimiterChar d) m) entries))
    as (tail & Ej).
  assert (Ejoin : Js.join [LF] (map (simpleLine (delimiterChar d) m) ((k, v) :: entries))
                  = c :: tail).
  { cbn [map]. rewrite Eline. exact Ej. }
  pose proof (trim_nonblank c tail Hw) as Hnb. rewrite <- Ejoin in Hnb.
  destruct (Js.trim (Js.join [LF] (map (simpleLine (delimiterChar d) m) ((k, v) :: entries))))
    as [|t0 ts]; [congruence|]. clear Hnb.
  unfold Scanner.scan. cbv zeta.
  rewrite split_join.
  2:{ discriminate. }
  2:{ apply Forall_forall. intros l Hl. apply in_map_iff in Hl.
      destruct Hl as (kv & <- & _). apply simpleLine_noLF. }
  rewrite scanFrom_record by assumption. cbn [rbind app].
  unfold Parser.run.
  set (fuel := 4 * length _ + 8).
  set (eof := Scanner.mkToken EOF [] 0 _ None false).
  assert (Hfuel : length ((k, v) :: entries) + 1 < fuel).
  { unfold fuel. rewrite length_app.
    pose proof (recordTokens_length (delimiterChar d) m 0 ((k, v) :: entries)).
    simpl length in *. lia. }
  destruct (parseRootLoop_record d m ((k, v) :: entries) fuel [] [] 0
              (length (map (simpleLine (delimiterChar d) m) ((k, v) :: entries)))
              Hfuel H) as (st' & Hloop).
  cbn [app length] in Hloop. fold eof in Hloop.
  destruct (recordTokens_first (delimiterChar d) m 0 k v entries eof Hk)
    as (first & Hfirst & Hroot).
  unfold Parser.runWith.
  rewrite (parse_root_loop fuel
             {| Parser.tokens := recordTokens (delimiterChar d) m 0 ((k, v) :: entries)
                                   ++ [eof];
                Parser.position := 0 |} first Hfirst Hroot).
  rewrite Hloop.
  destruct (fold_left _ _ _); reflexivity.
Qed.

Lemma fold_set_record (entries : list (str * Simple)) (acc : JsonObject) :
  fold_left (fun r kv => Obj.set r (fst kv) (simpleValue (snd kv))) entries acc
  = fold_left (fun r kv => Obj.set r (fst kv) (snd kv)) (simpleObject entries) acc.
Proof.
  revert acc. induction entries as [|[k p] entries IH]; intro acc; simpl; [reflexivity|].
  apply IH.
Qed.

(** X11. A record survives the trip.  When the input, without an own
    property [__proto__], normalizes to a non-empty object whose keys have
    the shape of an identifier and fewer than 100 characters, and whose
    values are primitives or arrays of primitives that are read back from
    their text (the text of a value that is not in an array holding no
    opening bracket), and the text of [encode] has at most 65535 characters,
    [decode] returns from that text the normalized input, whatever the
    options.  Strings (of code units below 256), booleans and null are read
    back from their text. *)
Theorem record_roundtrip (input : Unknown) (entries : list (str * Simple))
    (eo : option EncodeOptions.t) (options : option DecodeOptions.t) :
  let d := ResolvedOptions.delimiter (resolveEncodeOptions eo) in
  (noProtoKey input = true ->
   normalizeValue input = JObject (simpleObject entries) ->
   entries <> [] ->
   Forall (fun kv => plainKey (fst kv) = true /\ readableSimple d (snd kv)) entries ->
   shortText (encode input eo) = true ->
   decode (encode input eo) options = Ok (normalizeValue input))
  /\ (forall s, Js.includes s "[" = false -> readable d (PString s))
  /\ (forall b, readable d (PBoolean b))
  /\ readable d PNull
  /\ (forall values,
        Forall (fun v => match v with PNumber _ => False | _ => True end) values ->
        readableSimple d (SArray values)).
Proof.
  intro d. split; [|split; [|split; [|split]]].
  - intros _ Hn Hne H _. unfold encode. rewrite Hn, encodeValue_record. fold d.
    destruct (resolved_delimiter eo) as (dl & Ed). fold d in Ed. rewrite Ed in *.
    rewrite decode_record by assumption. rewrite fold_set_record.
    destruct (normalizeValue_ownKeys input _ Hn) as [Hnd Hp].
    rewrite rebuild_object.
    + destruct entries; [congruence | reflexivity].
    + exact Hnd.
    + exact Hp.
    + apply Forall_forall. intros [k v] Hin. unfold simpleObject in Hin.
      apply in_map_iff in Hin. destruct Hin as ([k' p'] & Ekv & Hin).
      injection Ekv as <- <-. rewrite Forall_forall in H.
      apply plainKey_not_index. apply (H (k', p') Hin).
  - apply readable_string.
  - intros []; split; reflexivity.
  - split; reflexivity.
  - intros values H. cbn [readableSimple]. eapply Forall_impl; [|exact H].
    intros [s|x|b|] Hv.
    + apply parsePrimitive_encodeStringLiteral.
    + destruct Hv.
    + destruct b; reflexivity.
    + reflexivity.
Qed.

(** Witness: [{name: "Ada", tags: ["x", "y, z"], active: true}]. *)
Lemma record_roundtrip_witness :
  decode (encode recordExample None) None = Ok (normalizeValue recordExample).
Proof.
  refine (proj1 (record_roundtrip recordExample recordEntries None None) _ _ _ _ _).
  - reflexivity.
  - reflexivity.
  - discriminate.
  - repeat constructor.
  - reflexivity.
Defined.

(* ================================================================== *)
(** ** The scanner: indentation and tokens *)
(* ================================================================== *)

(** *** Indentation by spaces *)

Lemma getIndentFrom_spaces (options : Scanner.Options) (k : nat) (rest : str)
    (lineNum : nat) (count : Z) (had : bool) :
  endsIndentation rest ->
  Scanner.getIndentFrom options (Js.repeatStr [SPACE] k ++ rest) lineNum count had
  = Ok {| IndentInfo.count := (count + Z.of_nat k)%Z; IndentInfo.hadTabIndent := had |}.
Proof.
  intro Hrest. revert count. induction k as [|k IH]; intro count.
  - simpl. rewrite Z.add_0_r. destruct rest as [|c rest]; [reflexivity|].
    destruct Hrest as [H1 H2]. apply ch_eqb_neq in H1, H2.
    simpl. rewrite H1, H2. reflexivity.
  - cbn [Js.repeatStr app Scanner.getIndentFrom]. rewrite ch_eqb_refl.
    rewrite IH. f_equal. f_equal. lia.
Qed.

(** X12. Indentation by spaces.  For a line that starts with [k] spaces and
    then a character that is neither a space nor a tab, getIndent counts [k]
    and sets no flag; in strict mode it accepts the line when [k] is 0 or
    leaves no remainder by the indent option, and raises the
    not-a-multiple error otherwise, so with an indent option of 0 every
    indented line is rejected; in lenient mode it accepts every [k]. *)
Theorem getIndent_spaces (options : Scanner.Options) (k : nat) (rest : str) (lineNum : nat) :
  endsIndentation rest ->
  Scanner.getIndent options (Js.repeatStr [SPACE] k ++ rest) lineNum
  = if Scanner.strict options && (0 <? Z.of_nat k)%Z
       && negb (Z.rem (Z.of_nat k) (Scanner.indent options) =? 0)%Z
    then Throw (IndentationNotMultiple lineNum (Scanner.indent options) (Z.of_nat k))
    else Ok {| IndentInfo.count := Z.of_nat k; IndentInfo.hadTabIndent := false |}.
Proof.
  intro Hrest. unfold Scanner.getIndent.
  rewrite (getIndentFrom_spaces options k rest lineNum 0 false Hrest).
  cbn [rbind IndentInfo.count]. rewrite Z.add_0_l. reflexivity.
Qed.

(** Witness: three spaces before [x], with an indent option of 2. *)
Lemma getIndent_spaces_witness :
  Scanner.getIndent strictScanner (Js.repeatStr [SPACE] 3 ++ lit "x") 7
  = Throw (IndentationNotMultiple 7 2 3)
  /\ Scanner.getIndent lenientScanner (Js.repeatStr [SPACE] 3 ++ lit "x") 7
     = Ok {| IndentInfo.count := 3; IndentInfo.hadTabIndent := false |}.
Proof.
  assert (H : endsIndentation (lit "x")) by (split; discriminate).
  split.
  - exact (getIndent_spaces strictScanner 3 (lit "x") 7 H).
  - exact (getIndent_spaces lenientScanner 3 (lit "x") 7 H).
Defined.

(** *** The tokens of the scanner *)

Lemma getIndentFrom_ok (options : Scanner.Options) (line : str) (lineNum : nat)
    (count : Z) (had : bool) (info : IndentInfo.t) :
  (0 <= count)%Z -> (Scanner.strict options = true -> had = false) ->
  Scanner.getIndentFrom options line lineNum count had = Ok info ->
  (0 <= IndentInfo.count info)%Z
  /\ (Scanner.strict options = true -> IndentInfo.hadTabIndent info = false).
Proof.
  revert count had. induction line as [|c line IH]; intros count had Hc Hh H; simpl in H.
  - injection H as <-. auto.
  - destruct (Js.ch_eqb c SPACE).
    + apply IH in H; [assumption | lia | assumption].
    + destruct (Js.ch_eqb c TAB).
      * destruct (Scanner.strict options) eqn:Es; [discriminate|].
        apply IH in H; [assumption | assumption | discriminate].
      * injection H as <-. auto.
Qed.

Lemma getIndent_ok (options : Scanner.Options) (line : str) (lineNum : nat)
    (info : IndentInfo.t) :
  Scanner.getIndent options line lineNum = Ok info -> indentOk options info.
Proof.
  unfold Scanner.getIndent. intro H.
  destruct (Scanner.getIndentFrom options line lineNum 0 false) as [i| |] eqn:E;
    try discriminate.
  cbn [rbind] in H.
  apply getIndentFrom_ok in E; [|lia | reflexivity]. destruct E as [E1 E2].
  destruct (Scanner.strict options && (0 <? IndentInfo.count i)%Z
            && negb (Z.rem (IndentInfo.count i) (Scanner.indent options) =? 0)%Z) eqn:Ec;
    [discriminate|].
  injection H as <-. split; [assumption|]. intro Hs. split; [auto|].
  rewrite Hs in Ec. cbn [andb] in Ec.
  destruct (0 <? IndentInfo.count i)%Z eqn:E0.
  - cbn [andb] in Ec. apply negb_false_iff in Ec. apply Z.eqb_eq in Ec. right. exact Ec.
  - apply Z.ltb_ge in E0. left. lia.
Qed.

Lemma scanLine_tokens (options : Scanner.Options) (trimmed : str) (info : IndentInfo.t)
    (i : nat) (ts : list Token.t) :
  indentOk options info ->
  Scanner.scanLine trimmed (IndentInfo.count info) i (IndentInfo.hadTabIndent info) = Ok ts ->
  Forall (lineToken options) ts /\ 1 <= length ts <= 3.
Proof.
  intros [H0 Hs] H.
  assert (Htok : forall ty v ai,
            ty <> EOF -> ty <> NEWLINE ->
            lineToken options
              (Scanner.mkToken ty v (IndentInfo.count info) i ai
                 (IndentInfo.hadTabIndent info))).
  { intros ty v ai H1 H2. repeat split; try assumption; apply Hs; assumption. }
  unfold Scanner.scanLine in H.
  destruct (Js.startsWith trimmed (lit "- ")).
  { injection H as <-. split; [|simpl; lia].
    constructor; [apply Htok; discriminate | constructor]. }
  destruct (Scanner.parseArrayHeader trimmed) as [[ai|]| |]; try discriminate; cbn [rbind] in H.
  { injection H as <-. split; [|simpl; lia].
    constructor; [apply Htok; discriminate | constructor]. }
  assert (Hplain : Forall (lineToken options)
                     [Scanner.mkToken VALUE trimmed (IndentInfo.count info) i None
                        (IndentInfo.hadTabIndent info)])
    by (constructor; [apply Htok; discriminate | constructor]).
  cbv zeta in H.
  destruct (Js.includes trimmed ":"); [|injection H as <-; split; [assumption | simpl; lia]].
  destruct (findMainColon trimmed) as [colonIndex|];
    [|injection H as <-; split; [assumption | simpl; lia]].
  destruct (_ || _); [|injection H as <-; split; [assumption | simpl; lia]].
  destruct (unescapeKey _) as [k| |]; try discriminate. cbn [rbind] in H.
  injection H as <-. split.
  - constructor; [apply Htok; discriminate|].
    constructor; [apply Htok; discriminate|].
    destruct (Js.trim _); [constructor|].
    constructor; [apply Htok; discriminate | constructor].
  - destruct (Js.trim (Js.substringFrom _ _)); simpl; lia.
Qed.

Lemma scanFrom_tokens (options : Scanner.Options) (lines : list str) (i : nat)
    (tokens : list Token.t) (insideArray : bool) (arrayIndent : Z) (out : list Token.t) :
  Scanner.scanFrom options lines i tokens insideArray arrayIndent = Ok out ->
  exists ts, out = tokens ++ ts /\ Forall (lineToken options) ts
             /\ length ts <= 3 * length lines.
Proof.
  revert i tokens insideArray arrayIndent.
  induction lines as [|line lines IH]; intros i tokens insideArray arrayIndent H;
    cbn [Scanner.scanFrom] in H.
  - injection H as <-. exists []. rewrite app_nil_r. repeat split; [constructor | simpl; lia].
  - destruct (Scanner.isBlank line).
    + match type of H with rbind ?r _ = _ => destruct r as [u| |]; try discriminate end.
      cbn [rbind] in H. apply IH in H. destruct H as (ts & -> & Hts & Hlen).
      exists ts. repeat split; [assumption | simpl; lia].
    + destruct (Scanner.getIndent options line (i + 1)) as [info| |] eqn:Ei;
        try discriminate. cbn [rbind] in H. cbv zeta in H.
      destruct (Scanner.parseArrayHeader (Js.trim line)) as [arrayCheck| |];
        try discriminate. cbn [rbind] in H.
      destruct (match arrayCheck with Some _ => _ | None => _ end) as [ia ai].
      destruct (Scanner.scanLine _ _ _ _) as [ts0| |] eqn:Es; try discriminate.
      cbn [rbind] in H.
      apply getIndent_ok in Ei. apply (scanLine_tokens options _ info) in Es; [|assumption].
      destruct Es as [Hts0 Hlen0].
      apply IH in H. destruct H as (ts & -> & Hts & Hlen).
      exists (ts0 ++ ts). rewrite app_assoc. repeat split.
      * apply Forall_app. split; assumption.
      * rewrite length_app. simpl. lia.
Qed.

(** X13. The tokens of the scanner.  What [scan] returns is the tokens of the
    lines followed by one EOF token that carries the number of lines: no
    other token is an EOF, none is a NEWLINE, a line gives three tokens at
    most, and no indentation is negative; in strict mode no token has seen a
    tab and every indentation is 0 or leaves no remainder by the indent
    option. *)
Theorem scan_tokens (options : Scanner.Options) (input : str) (tokens : list Token.t) :
  Scanner.scan options input = Ok tokens ->
  exists ts,
    tokens = ts ++ [Scanner.mkToken EOF [] 0 (length (Js.split LF input)) None false]
    /\ Forall (lineToken options) ts
    /\ length ts <= 3 * length (Js.split LF input).
Proof.
  unfold Scanner.scan. cbv zeta. intro H.
  destruct (Scanner.scanFrom options (Js.split LF input) 0 [] false (-1)%Z)
    as [out| |] eqn:E; try discriminate.
  cbn [rbind] in H. injection H as <-.
  apply scanFrom_tokens in E. destruct E as (ts & -> & Hts & Hlen).
  exists ts. auto.
Qed.

(** Witness: the two lines [a: 1] and [- x]. *)
Lemma scan_tokens_witness :
  exists ts,
    [Scanner.mkToken KEY (lit "a") 0 0 None false;
     Scanner.mkToken COLON (lit ":") 0 0 None false;
     Scanner.mkToken VALUE (lit "1") 0 0 None false;
     Scanner.mkToken LIST_ITEM (lit "x") 0 1 None false;
     Scanner.mkToken EOF [] 0 2 None false]
    = ts ++ [Scanner.mkToken EOF [] 0
               (length (Js.split LF (lit "a: 1" ++ [LF] ++ lit "- x"))) None false]
    /\ Forall (lineToken strictScanner) ts
    /\ length ts <= 3 * length (Js.split LF (lit "a: 1" ++ [LF] ++ lit "- x")).
Proof.
  apply (scan_tokens strictScanner (lit "a: 1" ++ [LF] ++ lit "- x")).
  reflexivity.
Defined.

(* ================================================================== *)
(** ** Decoded numbers are finite *)
(* ================================================================== *)

Lemma sat_ret (A : Type) (a : A) (Q : A -> Parser.State -> Prop) (st : Parser.State) :
  Q a st -> sat A (Parser.ret a) Q st.
Proof. intro H. exact H. Qed.

Lemma sat_bind (A B : Type) (m : Parser.M A) (k : A -> Parser.M B)
    (Q : B -> Parser.State -> Prop) (st : Parser.State) :
  sat A m (fun a st' => sat B (k a) Q st') st -> sat B (Parser.bind m k) Q st.
Proof.
  unfold sat, Parser.bind. destruct (m st) as [[a st']| |]; intro H; exact H.
Qed.

Lemma sat_conseq (A : Type) (m : Parser.M A) (Q Q' : A -> Parser.State -> Prop)
    (st : Parser.State) :
  sat A m Q st -> (forall a st', Q a st' -> Q' a st') -> sat A m Q' st.
Proof.
  unfold sat. destruct (m st) as [[a st']| |]; intros H HQ; auto.
Qed.

Lemma sat_lift (A : Type) (r : result A) (Q : A -> Parser.State -> Prop)
    (st : Parser.State) :
  (forall a, r = Ok a -> Q a st) -> sat A (Parser.lift r) Q st.
Proof.
  unfold sat, Parser.lift. destruct r as [a|e|]; simpl; intros HQ; auto.
Qed.

Lemma sat_state (A : Type) (m : Parser.M A) (Q : A -> Parser.State -> Prop)
    (st : Parser.State) :
  (forall a st', m st = Ok (a, st') -> Q a st') -> sat A m Q st.
Proof.
  unfold sat. destruct (m st) as [[a st']| |]; intro H; auto.
Qed.

Lemma sat_throw (A : Type) (e : Error) (Q : A -> Parser.State -> Prop) (st : Parser.State) :
  sat A (Parser.throw e) Q st.
Proof. exact I. Qed.

Lemma sat_outOfFuel (A : Type) (Q : A -> Parser.State -> Prop) (st : Parser.State) :
  sat A Parser.outOfFuel Q st.
Proof. exact I. Qed.

(** *** Finite numbers *)

Lemma parsePrimitive_finite (value : str) (p : JsonPrimitive) :
  Parser.parsePrimitive value = Ok p -> finiteValue (JPrim p) = true.
Proof.
  unfold Parser.parsePrimitive. cbv zeta.
  repeat match goal with
         | |- (if ?b then _ else _) = _ -> _ => destruct b eqn:?
         end;
    try (intro H; injection H as <-; reflexivity); try discriminate.
  - intro H. injection H as <-. simpl.
    repeat match goal with
           | H : _ && _ = true |- _ => apply andb_true_iff in H; destruct H
           end.
    assumption.
  - match goal with
    | |- rbind ?r _ = _ -> _ => destruct r; try discriminate
    end.
    intro H. injection H as <-. reflexivity.
Qed.

Lemma parsePrimitives_finite (values : list str) (items : JsonArray) :
  Parser.parsePrimitives values = Ok items -> finiteValue (JArray items) = true.
Proof.
  unfold Parser.parsePrimitives. revert items.
  induction values as [|v values IH]; intros items H; simpl in H.
  - injection H as <-. reflexivity.
  - destruct (Parser.parsePrimitive (Js.trim v)) as [p| |] eqn:Ep; try discriminate.
    cbn [rbind] in H.
    destruct (rmap _ values) as [ps| |]; try discriminate.
    cbn [rbind] in H. injection H as <-.
    cbn [finiteValue forallb]. apply andb_true_iff. split.
    + exact (parsePrimitive_finite _ _ Ep).
    + exact (IH ps eq_refl).
Qed.

Lemma parseInlineArray_finite (info : Parser.HeaderInfo.t) (items : JsonArray) :
  Parser.parseInlineArray info = Ok items -> finiteValue (JArray items) = true.
Proof.
  unfold Parser.parseInlineArray. cbv zeta.
  destruct (Parser.nonEmptyFields _).
  - intro H. injection H as <-. reflexivity.
  - apply parsePrimitives_finite.
Qed.

Lemma finite_replace (o : JsonObject) (key : str) (v : JsonValue) :
  finiteValue (JObject o) = true -> finiteValue v = true ->
  finiteValue (JObject (Obj.replace o key v)) = true.
Proof.
  intros Ho Hv. induction o as [|[k x] o IH]; [reflexivity|].
  cbn [finiteValue forallb snd] in Ho. apply andb_true_iff in Ho. destruct Ho as [Hx Ho].
  cbn [Obj.replace]. destruct (Js.str_eqb k key); cbn [finiteValue forallb snd].
  - rewrite Hv. exact Ho.
  - rewrite Hx. exact (IH Ho).
Qed.

Lemma finite_insertIndex (o : JsonObject) (i : Z) (key : str) (v : JsonValue) :
  finiteValue (JObject o) = true -> finiteValue v = true ->
  finiteValue (JObject (Obj.insertIndex o i key v)) = true.
Proof.
  intros Ho Hv. induction o as [|[k x] o IH].
  - cbn [Obj.insertIndex finiteValue forallb snd]. rewrite Hv. reflexivity.
  - pose proof Ho as Ho'.
    cbn [finiteValue forallb snd] in Ho. apply andb_true_iff in Ho. destruct Ho as [Hx Ho].
    cbn [Obj.insertIndex].
    destruct (Obj.arrayIndex k) as [j|]; [destruct (j <? i)%Z|].
    + cbn [finiteValue forallb snd]. rewrite Hx. exact (IH Ho).
    + cbn [finiteValue forallb snd] in *. rewrite Hv. exact Ho'.
    + cbn [finiteValue forallb snd] in *. rewrite Hv. exact Ho'.
Qed.

Lemma finite_set (o : JsonObject) (key : str) (v : JsonValue) :
  finiteValue (JObject o) = true -> finiteValue v = true ->
  finiteValue (JObject (Obj.set o key v)) = true.
Proof.
  intros Ho Hv. unfold Obj.set.
  destruct (Js.str_eqb key _); [exact Ho|].
  destruct (Obj.has o key); [apply finite_replace; assumption|].
  destruct (Obj.arrayIndex key); [apply finite_insertIndex; assumption|].
  cbn [finiteValue] in *. rewrite forallb_app, Ho. cbn [forallb snd]. rewrite Hv. reflexivity.
Qed.

Lemma finite_assign (target source : JsonObject) :
  finiteValue (JObject target) = true -> finiteValue (JObject source) = true ->
  finiteValue (JObject (Obj.assign target source)) = true.
Proof.
  unfold Obj.assign. revert target.
  induction source as [|[k x] source IH]; intros target Ht Hs; [exact Ht|].
  cbn [finiteValue forallb snd] in Hs. apply andb_true_iff in Hs. destruct Hs as [Hx Hs].
  cbn [fold_left fst snd]. apply IH; [|exact Hs].
  apply finite_set; assumption.
Qed.

Lemma finite_snoc (items : JsonArray) (v : JsonValue) :
  finiteValue (JArray items) = true -> finiteValue v = true ->
  finiteValue (JArray (items ++ [v])) = true.
Proof.
  intros Hi Hv. cbn [finiteValue] in *. rewrite forallb_app, Hi. cbn [forallb].
  rewrite Hv. reflexivity.
Qed.

Lemma parseCells_finite (fields values : list str) (j : nat) (obj result : JsonObject) :
  finiteValue (JObject obj) = true ->
  Parser.parseCells fields values j obj = Ok result -> finiteValue (JObject result) = true.
Proof.
  revert j obj. induction fields as [|f fields IH]; intros j obj Ho H; simpl in H.
  - injection H as <-. exact Ho.
  - destruct (Parser.parsePrimitive _) as [p| |] eqn:Ep; try discriminate.
    cbn [rbind] in H. apply IH in H; [exact H|].
    apply finite_set; [exact Ho | exact (parsePrimitive_finite _ _ Ep)].
Qed.

(** The side conditions on the values. *)
Ltac finite :=
  repeat match goal with
         | H : Parser.parsePrimitive _ = Ok _ |- _ => apply parsePrimitive_finite in H
         | H : Parser.parsePrimitives _ = Ok _ |- _ => apply parsePrimitives_finite in H
         | H : Parser.parseInlineArray _ = Ok _ |- _ => apply parseInlineArray_finite in H
         | H : Parser.parseCells _ _ _ _ = Ok _ |- _ =>
             apply parseCells_finite in H; [|reflexivity]
         end;
  repeat first
    [ assumption
    | reflexivity
    | apply finite_set
    | apply finite_assign
    | apply finite_snoc ].

(** One step through the body of a method. *)
Ltac sat_prim :=
  lazymatch goal with
  | |- sat _ (Parser.bind _ _) _ _ => apply sat_bind
  | |- sat _ (Parser.ret _) _ _ => apply sat_ret
  | |- sat _ (Parser.throw _) _ _ => apply sat_throw
  | |- sat _ Parser.outOfFuel _ _ => apply sat_outOfFuel
  | |- sat _ (Parser.lift _) _ _ => apply sat_lift; intros ? ?
  | |- sat _ Parser.current _ _ => apply sat_state; intros ? ? _
  | |- sat _ Parser.advance _ _ => apply sat_state; intros ? ? _
  | |- sat _ Parser.inBounds _ _ => apply sat_state; intros ? ? _
  | |- sat _ Parser.tokensFrom _ _ => apply sat_state; intros ? ? _
  | |- sat _ (Parser.inject _) _ _ => apply sat_state; intros ? ? _
  end;
  cbv beta.

Ltac sat_case :=
  match goal with
  | |- sat _ (if ?b then _ else _) _ _ => destruct b
  | |- sat _ (match ?x with _ => _ end) _ _ => destruct x
  end.

Lemma parseRows_finite (n : nat) (fields : list str) (delimiter : ascii) (arrayIndent : Z)
    (result : JsonArray) (st : Parser.State) :
  finiteValue (JArray result) = true ->
  sat _ (Parser.parseRows n fields delimiter arrayIndent result)
    (fun a _ => finiteValue (JArray a) = true) st.
Proof.
  revert result st. induction n as [|n IH]; intros result st Hr.
  - apply sat_ret. exact Hr.
  - cbn [Parser.parseRows]. cbv zeta.
    repeat first
      [ sat_prim
      | match goal with
        | |- sat _ (Parser.parseRows n _ _ _ _) _ _ => apply IH
        end
      | sat_case ]; finite.
Qed.

(** Whatever a method of the parser returns has finite numbers only. *)
Lemma parser_finite (fuel : nat) :
  (forall b r st,
     finiteValue (JObject r) = true ->
     sat _ (Parser.parseObjectLoop fuel b r) (fun o _ => finiteValue (JObject o) = true) st)
  /\ (forall st,
        sat _ (Parser.parseArray fuel) (fun a _ => finiteValue (JArray a) = true) st)
  /\ (forall b r st,
        finiteValue (JArray r) = true ->
        sat _ (Parser.parseListItemsLoop fuel b r)
          (fun a _ => finiteValue (JArray a) = true) st).
Proof.
  induction fuel as [|fuel (IHo & IHa & IHl)].
  - repeat split; intros; exact I.
  - split; [|split].
    + intros b r st Hr. cbn [Parser.parseObjectLoop]. cbv zeta.
      repeat first
        [ sat_prim
        | match goal with
          | |- sat _ (Parser.parseObjectLoop fuel _ _) _ _ =>
              eapply sat_conseq; [apply IHo; finite | cbv beta; intros ? ? ?]
          | |- sat _ (Parser.parseArray fuel) _ _ =>
              eapply sat_conseq; [apply IHa | cbv beta; intros ? ? ?]
          | |- sat _ (Parser.parseListItemsLoop fuel _ _) _ _ =>
              eapply sat_conseq; [apply IHl; finite | cbv beta; intros ? ? ?]
          end
        | sat_case ]; finite.
    + intros st. cbn [Parser.parseArray]. cbv zeta.
      repeat first
        [ sat_prim
        | match goal with
          | |- sat _ (Parser.parseListItemsLoop fuel _ _) _ _ =>
              eapply sat_conseq; [apply IHl; finite | cbv beta; intros ? ? ?]
          | |- sat _ (Parser.parseRows _ _ _ _ _) _ _ =>
              eapply sat_conseq; [apply parseRows_finite; finite | cbv beta; intros ? ? ?]
          end
        | sat_case ]; finite.
    + intros b r st Hr. cbn [Parser.parseListItemsLoop]. cbv zeta.
      repeat first
        [ sat_prim
        | match goal with
          | |- sat _ (Parser.parseObjectLoop fuel _ _) _ _ =>
              eapply sat_conseq; [apply IHo; finite | cbv beta; intros ? ? ?]
          | |- sat _ (Parser.parseArray fuel) _ _ =>
              eapply sat_conseq; [apply IHa | cbv beta; intros ? ? ?]
          | |- sat _ (Parser.parseListItemsLoop fuel _ _) _ _ =>
              eapply sat_conseq; [apply IHl; finite | cbv beta; intros ? ? ?]
          end
        | sat_case ]; finite.
Qed.

Lemma parseRootLoop_finite (fuel : nat) (r : JsonObject) (st : Parser.State) :
  finiteValue (JObject r) = true ->
  sat _ (Parser.parseRootLoop fuel r) (fun o _ => finiteValue (JObject o) = true) st.
Proof.
  revert r st. induction fuel as [|fuel IH]; intros r st Hr; [exact I|].
  destruct (parser_finite fuel) as (IHo & IHa & IHl).
  cbn [Parser.parseRootLoop]. unfold Parser.parseObject, Parser.parseListItems. cbv zeta.
  repeat first
    [ sat_prim
    | match goal with
      | |- sat _ (Parser.parseRootLoop fuel _) _ _ =>
          eapply sat_conseq; [apply IH; finite | cbv beta; intros ? ? ?]
      | |- sat _ (Parser.parseObjectLoop fuel _ _) _ _ =>
          eapply sat_conseq; [apply IHo; finite | cbv beta; intros ? ? ?]
      | |- sat _ (Parser.parseArray fuel) _ _ =>
          eapply sat_conseq; [apply IHa | cbv beta; intros ? ? ?]
      | |- sat _ (Parser.parseListItemsLoop fuel _ _) _ _ =>
          eapply sat_conseq; [apply IHl; finite | cbv beta; intros ? ? ?]
      end
    | sat_case ]; finite.
Qed.

Lemma parse_finite (fuel : nat) (st : Parser.State) :
  sat _ (Parser.parse fuel) (fun v _ => finiteValue v = true) st.
Proof.
  destruct (parser_finite fuel) as (IHo & IHa & IHl).
  unfold Parser.parse.
  repeat first
    [ sat_prim
    | match goal with
      | |- sat _ (Parser.parseRootLoop fuel _) _ _ =>
          eapply sat_conseq; [apply parseRootLoop_finite; finite | cbv beta; intros ? ? ?]
      | |- sat _ (Parser.parseArray fuel) _ _ =>
          eapply sat_conseq; [apply IHa | cbv beta; intros ? ? ?]
      end
    | sat_case ]; finite.
Qed.

(** X14. No number that is not finite.  Every number in a value that decode
    returns is finite: neither NaN nor an infinity is ever decoded, whatever
    the input and the options (a numeral that overflows is returned as a
    string). *)
Theorem decode_numbers_finite (input : str) (options : option DecodeOptions.t)
    (v : JsonValue) :
  decode input options = Ok v -> finiteValue v = true.
Proof.
  unfold decode.
  destruct (Js.trim input); [intro E; injection E as <-; reflexivity|].
  destruct (Scanner.scan _ _) as [tokens| |]; try discriminate.
  cbn [rbind]. unfold Parser.run, Parser.runWith.
  pose proof (parse_finite (4 * length tokens + 8)
                {| Parser.tokens := tokens; Parser.position := 0 |}) as H.
  unfold sat in H.
  destruct (Parser.parse _ _) as [[r st1]| |]; try discriminate.
  intro E. injection E as <-. exact H.
Qed.

(** Witness: the numeral [1e999] overflows and is returned as a string. *)
Lemma decode_numbers_finite_witness :
  finiteValue (JObject [(lit "a", JString (lit "1e999")); (lit "b", JNumber (JsNumber.ofZ 2))])
  = true.
Proof.
  apply (decode_numbers_finite (lit "a: 1e999" ++ [LF] ++ lit "b: 2") None).
  vm_compute. reflexivity.
Defined.

(* ================================================================== *)
(** ** The encoder indents by whole levels *)
(* ================================================================== *)

(** *** The first character of a content *)

Lemma startsPlain_app (a b : str) : startsPlain a -> startsPlain (a ++ b).
Proof. destruct a; simpl; [tauto | auto]. Qed.

Lemma trimmed_startsPlain (s : str) : s <> [] -> Js.trim s = s -> startsPlain s.
Proof.
  intros Hs Ht. destruct s as [|c s]; [congruence|]. exact (trim_head _ Ht).
Qed.

Lemma encodePrimitive_startsPlain (p : JsonPrimitive) (d : ascii) :
  startsPlain (encodePrimitive p d).
Proof.
  apply trimmed_startsPlain; [apply encodePrimitive_nonempty | apply encodePrimitive_trim].
Qed.

Lemma encodeKey_startsPlain (key : str) : startsPlain (encodeKey key).
Proof.
  unfold encodeKey, isValidUnquotedKey.
  destruct (Regex.test Pattern.unquotedKey key) eqn:E; [|reflexivity].
  destruct key as [|c key]; [discriminate|].
  apply unquotedKey_first in E. apply key_first_facts in E. simpl. tauto.
Qed.

Lemma formatHeader_startsPlain (n : nat) (key : option str) (fields : option (list str))
    (delimiter : ascii) (lengthMarker : bool) :
  startsPlain (formatHeader n key fields delimiter lengthMarker).
Proof.
  unfold formatHeader. apply startsPlain_app.
  assert (H : startsPlain
                (match key with
                 | Some (c :: k) => encodeKey (c :: k)
                 | _ => []
                 end ++ lit "[" ++ (if lengthMarker then lit "#" else [])
                   ++ Js.natToString n
                   ++ (if negb (Js.ch_eqb delimiter DEFAULT_DELIMITER)
                       then [delimiter] else [])
                   ++ lit "]")).
  { destruct key as [[|c k]|]; try reflexivity.
    apply startsPlain_app. apply encodeKey_startsPlain. }
  destruct fields; [apply startsPlain_app|]; exact H.
Qed.

Lemma encodeAndJoinPrimitives_startsPlain (values : list JsonPrimitive) (delimiter : ascii) :
  values <> [] -> startsPlain (encodeAndJoinPrimitives values delimiter).
Proof.
  intro Hne. unfold encodeAndJoinPrimitives.
  destruct values as [|v vs]; [congruence|].
  destruct vs as [|v' vs]; cbn [map Js.join].
  - apply encodePrimitive_startsPlain.
  - apply startsPlain_app. apply encodePrimitive_startsPlain.
Qed.

Lemma encodeInlineArrayLine_startsPlain (values : list JsonPrimitive) (delimiter : ascii)
    (prefix : option str) (lengthMarker : bool) :
  startsPlain (encodeInlineArrayLine values delimiter prefix lengthMarker).
Proof.
  unfold encodeInlineArrayLine. destruct values.
  - apply formatHeader_startsPlain.
  - apply startsPlain_app. apply formatHeader_startsPlain.
Qed.

(** *** The writer keeps indented lines *)

Lemma neatWriter_push (level : str) (w : LineWriter.t) (depth : nat) (content : str) :
  neatWriter level w -> startsPlain content -> neatWriter level (LineWriter.push w depth content).
Proof.
  intros [Hi Hw] Hc. unfold neatWriter, LineWriter.push.
  cbn [LineWriter.lines LineWriter.indentationString].
  split; [exact Hi|].
  apply Forall_app. split; [exact Hw|]. constructor; [|constructor].
  exists depth, content. rewrite Hi. split; [reflexivity | exact Hc].
Qed.

Lemma neatWriter_pushListItem (level : str) (w : LineWriter.t) (depth : nat) (content : str) :
  neatWriter level w -> neatWriter level (LineWriter.pushListItem w depth content).
Proof.
  intro Hw. unfold LineWriter.pushListItem. apply neatWriter_push; [exact Hw|].
  reflexivity.
Qed.

Section NeatOptions.

Variable options : ResolvedOptions.t.

Variable level : str.

Lemma writeTabularRows_neat (rows : list JsonObject) (header : list str)
    (w : LineWriter.t) (depth : nat) :
  header <> [] -> neatWriter level w ->
  neatWriter level (writeTabularRows rows header w depth options).
Proof.
  intros Hh Hw. unfold writeTabularRows.
  apply fold_left_invariant; [|assumption].
  intros a row _ Ha. apply neatWriter_push; [assumption|].
  apply encodeAndJoinPrimitives_startsPlain.
  destruct header; [congruence | discriminate].
Qed.

Lemma encodeArrayOfObjectsAsTabular_neat (prefix : option str) (rows : list JsonObject)
    (header : list str) (w : LineWriter.t) (depth : nat) :
  header <> [] -> neatWriter level w ->
  neatWriter level (encodeArrayOfObjectsAsTabular prefix rows header w depth options).
Proof.
  intros Hh Hw. unfold encodeArrayOfObjectsAsTabular.
  apply writeTabularRows_neat; [assumption|].
  apply neatWriter_push; [assumption|]. apply formatHeader_startsPlain.
Qed.

Lemma encodeArrayOfArraysAsListItems_neat (prefix : option str) (values : list JsonValue)
    (w : LineWriter.t) (depth : nat) :
  neatWriter level w ->
  neatWriter level (encodeArrayOfArraysAsListItems prefix values w depth options).
Proof.
  intro Hw. unfold encodeArrayOfArraysAsListItems.
  apply fold_left_invariant.
  - intros a arr _ Ha. destruct arr as [p|o|l]; try assumption.
    destruct (isArrayOfPrimitives l); [|assumption].
    apply neatWriter_pushListItem. assumption.
  - apply neatWriter_push; [assumption|]. apply formatHeader_startsPlain.
Qed.

Section OpenNeat.

Variable encKV :
  str -> JsonValue -> LineWriter.t -> nat -> ResolvedOptions.t -> LineWriter.t.

Variable encLI :
  JsonValue -> LineWriter.t -> nat -> ResolvedOptions.t -> LineWriter.t.

Lemma encodeObjectWith_neat (o : JsonObject) (w : LineWriter.t) (depth : nat) :
  Forall (fun kv => keepsNeatKV level options encKV (snd kv)) o -> neatWriter level w ->
  neatWriter level (encodeObjectWith encKV o w depth options).
Proof.
  intros Ho Hw. unfold encodeObjectWith. apply fold_left_invariant; [|assumption].
  intros a kv Hin Ha. rewrite Forall_forall in Ho. apply (Ho kv Hin). assumption.
Qed.

Lemma encodeListItems_neat (items : list JsonValue) (w : LineWriter.t) (depth : nat) :
  Forall (keepsNeatLI level options encLI) items -> neatWriter level w ->
  neatWriter level (fold_left (fun w0 item => encLI item w0 depth options) items w).
Proof.
  intros Hl Hw. apply fold_left_invariant; [|assumption].
  intros a item Hin Ha. rewrite Forall_forall in Hl. apply (Hl item Hin). assumption.
Qed.

Lemma encodeMixedArrayAsListItemsWith_neat (prefix : option str)
    (items : list JsonValue) (w : LineWriter.t) (depth : nat) :
  Forall (keepsNeatLI level options encLI) items -> neatWriter level w ->
  neatWriter level (encodeMixedArrayAsListItemsWith encLI prefix items w depth options).
Proof.
  intros Hl Hw. unfold encodeMixedArrayAsListItemsWith.
  apply encodeListItems_neat; [assumption|].
  apply neatWriter_push; [assumption|]. apply formatHeader_startsPlain.
Qed.

Lemma encodeArrayWith_neat (key : option str) (value : JsonArray)
    (w : LineWriter.t) (depth : nat) :
  Forall (keepsNeatLI level options encLI) value -> neatWriter level w ->
  neatWriter level (encodeArrayWith encLI key value w depth options).
Proof.
  intros Hl Hw. unfold encodeArrayWith. destruct value as [|v vs].
  - apply neatWriter_push; [assumption|]. apply formatHeader_startsPlain.
  - destruct (isArrayOfPrimitives (v :: vs)).
    { apply neatWriter_push; [assumption|]. apply encodeInlineArrayLine_startsPlain. }
    destruct (isArrayOfArrays (v :: vs) && _).
    { apply encodeArrayOfArraysAsListItems_neat. assumption. }
    destruct (isArrayOfObjects (v :: vs)).
    + destruct (extractTabularHeader (v :: vs)) as [header|] eqn:E.
      * apply encodeArrayOfObjectsAsTabular_neat; [|assumption].
        eapply extractTabularHeader_nonempty. eassumption.
      * apply encodeMixedArrayAsListItemsWith_neat; assumption.
    + apply encodeMixedArrayAsListItemsWith_neat; assumption.
Qed.

Lemma encodeObjectAsListItemWith_neat (obj : JsonObject) (w : LineWriter.t)
    (depth : nat) :
  Forall (fun kv => keepsNeatKV level options encKV (snd kv)
                    /\ keepsNeatInside level options encKV encLI (snd kv)) obj ->
  neatWriter level w ->
  neatWriter level (encodeObjectAsListItemWith encKV encLI obj w depth options).
Proof.
  intros Ho Hw. unfold encodeObjectAsListItemWith.
  destruct obj as [|[firstKey firstValue] rest].
  - apply neatWriter_push; [assumption | reflexivity].
  - inversion Ho as [|? ? [_ Hin] Hrest]; subst. simpl in Hin.
    apply fold_left_invariant.
    + intros a kv Hkv Ha. rewrite Forall_forall in Hrest.
      destruct (Hrest kv Hkv) as [Hk _]. apply Hk. assumption.
    + destruct firstValue as [p|nested|fv].
      * apply neatWriter_pushListItem. assumption.
      * destruct nested as [|e es].
        -- apply neatWriter_pushListItem. assumption.
        -- apply encodeObjectWith_neat; [assumption|].
           apply neatWriter_pushListItem. assumption.
      * destruct (isArrayOfPrimitives fv).
        { apply neatWriter_pushListItem. assumption. }
        destruct (isArrayOfObjects fv).
        -- destruct (extractTabularHeader fv) as [header|] eqn:E.
           ++ apply writeTabularRows_neat.
              ** eapply extractTabularHeader_nonempty. eassumption.
              ** apply neatWriter_pushListItem. assumption.
           ++ apply fold_left_invariant.
              ** intros a item Hitem Ha. destruct (isJsonObject item); [|assumption].
                 simpl in Hin. rewrite Forall_forall in Hin.
                 apply (Hin item Hitem). assumption.
              ** apply neatWriter_pushListItem. assumption.
        -- apply encodeListItems_neat; [assumption|].
           apply neatWriter_pushListItem. assumption.
Qed.

End OpenNeat.

(** Every function of the encoder keeps the lines of the writer indented. *)
Lemma encoder_keeps_neat (v : JsonValue) :
  keepsNeatKV level options encodeKeyValuePair v
  /\ keepsNeatLI level options encodeListItemValue v
  /\ keepsNeatInside level options encodeKeyValuePair encodeListItemValue v.
Proof.
  induction v as [p|o IH|l IH] using JsonValue_induction.
  - split; [|split]; [| |exact I].
    + intros key w depth Hw. simpl. apply neatWriter_push; [assumption|].
      apply startsPlain_app. apply encodeKey_startsPlain.
    + intros w depth Hw. simpl. apply neatWriter_pushListItem. assumption.
  - assert (Hkv : Forall (fun kv => keepsNeatKV level options encodeKeyValuePair (snd kv)) o).
    { eapply Forall_impl; [|exact IH]. intros kv H. apply H. }
    split; [|split]; [| |exact Hkv].
    + intros key w depth Hw. simpl. destruct o as [|e es].
      * apply neatWriter_push; [assumption|].
        apply startsPlain_app. apply encodeKey_startsPlain.
      * apply encodeObjectWith_neat; [assumption|].
        apply neatWriter_push; [assumption|].
        apply startsPlain_app. apply encodeKey_startsPlain.
    + intros w depth Hw. simpl. apply encodeObjectAsListItemWith_neat; [|assumption].
      eapply Forall_impl; [|exact IH]. intros kv H. split; apply H.
  - assert (Hli : Forall (keepsNeatLI level options encodeListItemValue) l).
    { eapply Forall_impl; [|exact IH]. intros x H. apply H. }
    split; [|split]; [| |exact Hli].
    + intros key w depth Hw. simpl. apply encodeArrayWith_neat; assumption.
    + intros w depth Hw. simpl. destruct (isArrayOfPrimitives l); [|assumption].
      apply neatWriter_pushListItem. assumption.
Qed.

End NeatOptions.

(* ================================================================== *)
(** ** The layout of the output *)
(* ================================================================== *)

Lemma neatWriter_new (n : nat) :
  neatWriter (Js.repeatStr [SPACE] n) (LineWriter.new n).
Proof. split; [reflexivity | constructor]. Qed.

(** The lines of the text of a value: the text is empty, or each of its
    lines is indented by whole levels and starts its content with no white
    space. *)
Lemma encodeValue_lines (v : JsonValue) (options : ResolvedOptions.t) :
  ResolvedOptions.delimiter options <> LF ->
  encodeValue v options = []
  \/ Forall (indentedLine (Js.repeatStr [SPACE] (ResolvedOptions.indent options)))
       (Js.split LF (encodeValue v options)).
Proof.
  intro Hd.
  assert (Hw : forall w,
            goodWriter w ->
            neatWriter (Js.repeatStr [SPACE] (ResolvedOptions.indent options)) w ->
            LineWriter.toString w = []
            \/ Forall (indentedLine (Js.repeatStr [SPACE] (ResolvedOptions.indent options)))
                 (Js.split LF (LineWriter.toString w))).
  { intros w [Hg _] [_ Hn]. unfold LineWriter.toString.
    destruct (LineWriter.lines w) as [|l ls] eqn:E; [left; reflexivity|].
    right. rewrite <- E in *. rewrite split_join.
    - exact Hn.
    - rewrite E. discriminate.
    - eapply Forall_impl; [|exact Hg]. intros a Ha. exact (goodLine_noLF Ha). }
  destruct v as [p|o|l]; cbn [encodeValue].
  - right. pose proof (encodePrimitive_goodLine p (ResolvedOptions.delimiter options)) as Hg.
    rewrite split_noSep by (exact (goodLine_noLF Hg)).
    constructor; [|constructor].
    exists 0, (encodePrimitive p (ResolvedOptions.delimiter options)).
    split; [reflexivity | apply encodePrimitive_startsPlain].
  - apply Hw.
    + apply encodeObjectWith_good; [|apply goodWriter_new].
      apply Forall_forall. intros kv _. apply (encoder_keeps_good options Hd).
    + apply encodeObjectWith_neat; [|apply neatWriter_new].
      apply Forall_forall. intros kv _. apply encoder_keeps_neat.
  - apply Hw.
    + apply encodeArrayWith_good; [exact Hd | | apply goodWriter_new].
      apply Forall_forall. intros x _. apply (encoder_keeps_good options Hd).
    + apply encodeArrayWith_neat; [|apply neatWriter_new].
      apply Forall_forall. intros x _. apply encoder_keeps_neat.
Qed.

(** *** The scanner on indented lines *)

Lemma repeatStr_app (s : str) (a b : nat) :
  Js.repeatStr s (a + b) = Js.repeatStr s a ++ Js.repeatStr s b.
Proof.
  induction a as [|a IH]; simpl; [reflexivity|]. rewrite IH, app_assoc. reflexivity.
Qed.

Lemma repeatStr_repeatStr (c : ascii) (n depth : nat) :
  Js.repeatStr (Js.repeatStr [c] n) depth = Js.repeatStr [c] (depth * n).
Proof.
  induction depth as [|depth IH]; simpl; [reflexivity|].
  rewrite IH, repeatStr_app. reflexivity.
Qed.

Lemma trim_spaces (k : nat) (s : str) : Js.trim (Js.repeatStr [SPACE] k ++ s) = Js.trim s.
Proof. induction k as [|k IH]; simpl; [reflexivity|]. rewrite trim_space. exact IH. Qed.

Lemma indentedLine_scans (options : Scanner.Options) (n : nat) (line : str) (lineNum : nat) :
  Scanner.indent options = Z.of_nat n ->
  indentedLine (Js.repeatStr [SPACE] n) line ->
  Scanner.isBlank line = false
  /\ exists info, Scanner.getIndent options line lineNum = Ok info.
Proof.
  intros Hn (depth & content & -> & Hc).
  destruct content as [|c rest]; [destruct Hc|]. simpl in Hc.
  rewrite repeatStr_repeatStr. split.
  - unfold Scanner.isBlank. rewrite trim_spaces.
    destruct (Js.trim (c :: rest)) eqn:E; [|reflexivity].
    exfalso. exact (trim_nonblank c rest Hc E).
  - unfold Scanner.getIndent. rewrite getIndentFrom_spaces.
    + cbn [rbind IndentInfo.count]. rewrite Z.add_0_l, Hn.
      assert (Hrem : (Z.rem (Z.of_nat (depth * n)) (Z.of_nat n) =? 0)%Z = true
                     \/ (0 <? Z.of_nat (depth * n))%Z = false).
      { destruct n as [|n].
        - right. rewrite Nat.mul_0_r. reflexivity.
        - left. apply Z.eqb_eq. rewrite Nat2Z.inj_mul. apply Z.rem_mul. lia. }
      destruct Hrem as [-> | ->]; rewrite ?andb_false_r; cbn [negb]; rewrite ?andb_false_r;
        eexists; reflexivity.
    + apply not_white_not_space in Hc. destruct Hc as [H1 H2].
      split; apply ch_eqb_neq; assumption.
Qed.

Lemma scanFrom_indented (options : Scanner.Options) (n : nat) (lines : list str) (i : nat)
    (tokens : list Token.t) (insideArray : bool) (arrayIndent : Z) :
  Scanner.indent options = Z.of_nat n ->
  Forall (indentedLine (Js.repeatStr [SPACE] n)) lines ->
  throwsOnly (scannerError false) _
    (Scanner.scanFrom options lines i tokens insideArray arrayIndent).
Proof.
  intros Hn Hl. revert i tokens insideArray arrayIndent.
  induction Hl as [|line lines Hline Hlines IH]; intros i tokens insideArray arrayIndent;
    cbn [Scanner.scanFrom]; [exact I|].
  destruct (indentedLine_scans options n line (i + 1) Hn Hline) as (-> & info & ->).
  cbn [rbind]. cbv zeta.
  apply throwsOnly_rbind; [apply parseArrayHeader_throws|]. intro arrayCheck.
  destruct (match arrayCheck with Some _ => _ | None => _ end) as [ia ai].
  apply throwsOnly_rbind; [apply scanLine_throws|]. intro ts. apply IH.
Qed.

(** Strict decoding finds no fault with the layout of a text whose lines
    are indented by whole levels. *)
Lemma decode_indented (text : str) (options : option DecodeOptions.t) (n : nat) :
  Scanner.indent (Scanner.resolve options) = Z.of_nat n ->
  text = [] \/ Forall (indentedLine (Js.repeatStr [SPACE] n)) (Js.split LF text) ->
  throwsOnly (fun e => negb (layoutError e)) _ (decode text options).
Proof.
  intros Hn [-> | Hl]; [exact I|].
  unfold decode. destruct (Js.trim text); [exact I|].
  apply throwsOnly_rbind.
  - unfold Scanner.scan. cbv zeta. apply throwsOnly_rbind; [|intro; exact I].
    eapply throwsOnly_mono; [|apply (scanFrom_indented _ n); assumption].
    intros e He. destruct e; try discriminate; reflexivity.
  - intro tokens. unfold Parser.run.
    eapply throwsOnly_mono; [|apply runWith_throws; lia].
    intros e He. destruct e; try discriminate; reflexivity.
Qed.

(** X15. The layout of the output.  The text [encode] returns is empty, or
    each of its lines is a whole number of indentation levels (the indent
    option times a depth, in spaces) followed by a content that starts with
    no white space: no line is blank and no indentation holds a tab.  So
    [decode], strict or not, with the same indent option never rejects the
    output of [encode] for its layout; it can still reject it for its
    content, as the witness shows. *)
Theorem encode_layout (input : Unknown) (eo : option EncodeOptions.t)
    (options : option DecodeOptions.t) :
  let indent := ResolvedOptions.indent (resolveEncodeOptions eo) in
  (encode input eo = []
   \/ Forall (indentedLine (Js.repeatStr [SPACE] indent)) (Js.split LF (encode input eo)))
  /\ (Scanner.indent (Scanner.resolve options) = Z.of_nat indent ->
      forall e, decode (encode input eo) options = Throw e -> layoutError e = false).
Proof.
  cbv zeta. unfold encode.
  pose proof (encodeValue_lines (normalizeValue input) (resolveEncodeOptions eo)
                (resolved_delimiter_ok eo)) as Hl.
  split; [exact Hl|]. intros Hn e He.
  pose proof (decode_indented _ options _ Hn Hl) as H.
  rewrite He in H. simpl in H. apply negb_true_iff in H. exact H.
Qed.

(** Witness: the array [1, [[2]]] is written with the header [[2]:] and the
    one item [- 1], which strict decoding rejects for the count. *)
Lemma encode_layout_witness :
  decode (encode droppedItemExample None) None = Throw (ListArrayLengthMismatch 2 1)
  /\ layoutError (ListArrayLengthMismatch 2 1) = false.
Proof.
  assert (H : decode (encode droppedItemExample None) None
              = Throw (ListArrayLengthMismatch 2 1)) by (vm_compute; reflexivity).
  split; [exact H|].
  exact (proj2 (encode_layout droppedItemExample None None) eq_refl _ H).
Defined.

(* ================================================================== *)
(** ** Documents: the lines and the scanner *)
(* ================================================================== *)

(** *** Lines and their tokens *)

(** The indentation of a line only tags its tokens. *)
Lemma scanLine_atIndent (trimmed : str) (indent : Z) (i : nat) :
  Scanner.scanLine trimmed indent i false
  = rbind (Scanner.scanLine trimmed 0 i false) (fun ts => Ok (map (atIndent indent) ts)).
Proof.
  unfold Scanner.scanLine.
  destruct (Js.startsWith trimmed (lit "- ")); [reflexivity|].
  destruct (Scanner.parseArrayHeader trimmed) as [[info|]| |]; try reflexivity.
  cbn [rbind]. cbv zeta.
  destruct (Js.includes trimmed ":"); [|reflexivity].
  destruct (findMainColon trimmed); [|reflexivity].
  destruct (_ || _); [|reflexivity].
  destruct (unescapeKey _); try reflexivity.
  cbn [rbind]. destruct (Js.trim (Js.substringFrom _ _)); reflexivity.
Qed.

Lemma lineTokens_atIndent (d : ascii) (m : bool) (indent : Z) (i : nat) (l : Line) :
  map (atIndent indent) (lineTokens d m 0 i l) = lineTokens d m indent i l.
Proof. destruct l; reflexivity. Qed.

(** *** A key and its colon *)

Lemma plainKey_chars (key : str) :
  plainKey key = true ->
  Js.trim key = key /\ Js.includes key "[" = false /\ Js.includes key "," = false
  /\ forallb (fun c => negb (Js.ch_eqb c BACKSLASH) && negb (Js.ch_eqb c DOUBLE_QUOTE)
                       && negb (Js.ch_eqb c ":")) key = true
  /\ forallb notBracket key = true.
Proof.
  intro Hk. destruct (plainKey_facts key Hk) as (_ & _ & _ & Ha & _).
  split; [|split; [|split; [|split]]].
  - apply trim_id_forall. eapply forallb_impl; [|exact Ha]. intros x Hx.
    apply key_char_facts in Hx. tauto.
  - apply forallb_includes. eapply forallb_impl; [|exact Ha]. intros x Hx.
    apply key_char_facts in Hx. destruct Hx as (_ & _ & Hx & _). rewrite Hx. reflexivity.
  - apply forallb_includes. eapply forallb_impl; [|exact Ha]. intros x Hx.
    apply key_char_facts in Hx. destruct Hx as (_ & _ & _ & Hx). rewrite Hx. reflexivity.
  - eapply forallb_impl; [|exact Ha]. intros x Hx.
    apply key_char_facts in Hx. destruct Hx as (_ & Hx & _). exact Hx.
  - eapply forallb_impl; [|exact Ha]. apply key_not_bracket.
Qed.

(** *** Keys in quotes *)

Lemma goodKey_facts (key : str) :
  goodKey key = true ->
  (isValidUnquotedKey key = true -> plainKey key = true)
  /\ Js.includes key "[" = false
  /\ key <> lit "__proto__" /\ Obj.arrayIndex key = None.
Proof.
  unfold goodKey. intro H.
  apply andb_true_iff in H. destruct H as [H H4].
  apply andb_true_iff in H. destruct H as [H H3].
  apply andb_true_iff in H. destruct H as [H1 H2].
  split; [|split; [|split]].
  - intro Hv. unfold plainKey. rewrite Hv in *. exact H1.
  - apply negb_true_iff. exact H2.
  - intro E. rewrite E, str_eqb_refl in H3. discriminate.
  - destruct (Obj.arrayIndex key); [discriminate | reflexivity].
Qed.

(** The text of a key, as the scanner and the parser take it. *)
Lemma keyText_facts (key : str) :
  goodKey key = true ->
  (exists c rest, encodeKey key = c :: rest
                  /\ Js.isWhiteSpace c = false /\ Js.ch_eqb "-" c = false)
  /\ Js.trim (encodeKey key) = encodeKey key
  /\ Js.includes (encodeKey key) "[" = false
  /\ (forall rest, findMainColon (encodeKey key ++ ":"%char :: rest)
                   = Some (length (encodeKey key)))
  /\ keyLike (encodeKey key) = true
  /\ unescapeKey (encodeKey key) = Ok key.
Proof.
  intro Hg. destruct (goodKey_facts key Hg) as (Hplain & Hbr & _ & _).
  unfold encodeKey. destruct (isValidUnquotedKey key) eqn:Ev.
  - specialize (Hplain eq_refl).
    destruct (plainKey_chars key Hplain) as (Htrim & _ & Hcomma & Hpass & _).
    destruct (plainKey_facts key Hplain) as (_ & Hu & Hlen & _ & c & rest & E & Hc).
    pose proof (key_first_facts c Hc) as (Hw & Hdash & Hdigit & Hcls).
    split; [exists c, rest; auto|]. split; [exact Htrim|]. split; [exact Hbr|].
    split; [|split; [|exact Hu]].
    + intro tail. unfold findMainColon. rewrite findMainColonFrom_skip by exact Hpass.
      cbn [findMainColonFrom].
      change (Js.ch_eqb ":" BACKSLASH) with false.
      change (Js.ch_eqb ":" DOUBLE_QUOTE) with false. rewrite ch_eqb_refl. reflexivity.
    + unfold keyLike. rewrite Hcomma, Hlen.
      assert (Hre : Regex.test Pattern.digitsCommasSpaces key = false).
      { rewrite E.
        change (Regex.test Pattern.digitsCommasSpaces (c :: rest))
          with (Regex.test (Regex.deriv c Pattern.digitsCommasSpaces) rest).
        apply void_test. unfold Pattern.digitsCommasSpaces, Regex.Plus.
        cbn [Regex.deriv Regex.nullable]. rewrite Hcls. reflexivity. }
      rewrite Hre. apply orb_true_r.
  - change ([DOUBLE_QUOTE] ++ escapeString key ++ [DOUBLE_QUOTE])
      with (DOUBLE_QUOTE :: escapeString key ++ [DOUBLE_QUOTE]).
    split; [eexists _, _; split; [reflexivity | split; reflexivity]|].
    split.
    { apply (@trim_id _ DOUBLE_QUOTE DOUBLE_QUOTE (escapeString key));
        [left; reflexivity | reflexivity | reflexivity]. }
    split.
    { change (DOUBLE_QUOTE :: escapeString key ++ [DOUBLE_QUOTE])
        with ([DOUBLE_QUOTE] ++ escapeString key ++ [DOUBLE_QUOTE]).
      rewrite !includes_app, escapeString_no_bracket by exact Hbr. reflexivity. }
    split; [|split].
    + intro tail. unfold findMainColon.
      change ((DOUBLE_QUOTE :: escapeString key ++ [DOUBLE_QUOTE]) ++ ":"%char :: tail)
        with (DOUBLE_QUOTE :: (escapeString key ++ [DOUBLE_QUOTE]) ++ ":"%char :: tail).
      rewrite <- app_assoc. cbn [findMainColonFrom].
      change (Js.ch_eqb DOUBLE_QUOTE BACKSLASH) with false.
      change (Js.ch_eqb DOUBLE_QUOTE DOUBLE_QUOTE) with true. cbv iota. cbn [negb].
      rewrite findMainColonFrom_escaped. cbn [app findMainColonFrom].
      change (Js.ch_eqb DOUBLE_QUOTE BACKSLASH) with false.
      change (Js.ch_eqb DOUBLE_QUOTE DOUBLE_QUOTE) with true. cbv iota. cbn [negb].
      change (Js.ch_eqb ":" BACKSLASH) with false.
      change (Js.ch_eqb ":" DOUBLE_QUOTE) with false. rewrite ch_eqb_refl.
      cbn [andb negb]. f_equal. cbn [length]. rewrite length_app. simpl. lia.
    + unfold keyLike.
      change (DOUBLE_QUOTE :: escapeString key ++ [DOUBLE_QUOTE])
        with ((DOUBLE_QUOTE :: escapeString key) ++ [DOUBLE_QUOTE]) at 2.
      rewrite endsWith_snoc.
      cbn [Js.startsWith]. rewrite ch_eqb_refl.
      destruct (escapeString key ++ [DOUBLE_QUOTE]); reflexivity.
    + change (DOUBLE_QUOTE :: escapeString key ++ [DOUBLE_QUOTE])
        with (quoted (escapeString key)).
      rewrite unescapeKey_quoted. apply unescape_escape.
Qed.

(** The scanner on the line of a key, with or without a text after the
    colon. *)
Lemma scanLine_entry (key text : str) (i : nat) :
  goodKey key = true -> Js.trim text = text -> Js.includes text "[" = false ->
  Scanner.scanLine (encodeKey key ++ lit ":" ++ match text with
                                                | [] => []
                                                | _ => SPACE :: text
                                                end) 0 i false
  = Ok ([Scanner.mkToken KEY key 0 i None false;
         Scanner.mkToken COLON (lit ":") 0 i None false]
          ++ match text with
             | [] => []
             | _ => [Scanner.mkToken VALUE text 0 i None false]
             end).
Proof.
  intros Hg Ht Hbr.
  destruct (keyText_facts key Hg)
    as ((c & rest & E & Hw & Hdash) & Htrim & Hkbr & Hcolon & Hlike & Hu).
  set (tail := match text with [] => [] | _ => SPACE :: text end).
  assert (Htail : Js.trim tail = text /\ Js.includes tail "[" = false).
  { unfold tail. destruct text as [|x text]; [split; reflexivity|].
    split; [rewrite trim_space; exact Ht|]. cbn [Js.includes existsb] in *.
    exact Hbr. }
  destruct Htail as [Htt Htb].
  unfold Scanner.scanLine.
  assert (Hitem : Js.startsWith (encodeKey key ++ lit ":" ++ tail) (lit "- ") = false).
  { rewrite E. cbn [app lit list_ascii_of_string Js.startsWith]. rewrite Hdash. reflexivity. }
  rewrite Hitem.
  rewrite parseArrayHeader_no_bracket
    by (rewrite !includes_app, Hkbr, Htb; reflexivity).
  cbn [rbind].
  assert (Hinc : Js.includes (encodeKey key ++ lit ":" ++ tail) ":" = true).
  { rewrite !includes_app. unfold Js.includes at 2. cbn [lit list_ascii_of_string existsb].
    rewrite ch_eqb_refl. cbn [orb]. apply orb_true_r. }
  rewrite Hinc.
  change (lit ":" ++ tail) with (":"%char :: tail).
  rewrite Hcolon. cbv zeta.
  rewrite substring_prefix, Htrim.
  replace (encodeKey key ++ ":"%char :: tail) with ((encodeKey key ++ lit ":") ++ tail)
    by (rewrite <- app_assoc; reflexivity).
  replace (Z.of_nat (length (encodeKey key)) + 1)%Z
    with (Z.of_nat (length (encodeKey key ++ lit ":")))
    by (rewrite length_app; simpl; lia).
  rewrite substringFrom_suffix, Htt.
  unfold keyLike in Hlike. rewrite Hlike, Hu. cbn [rbind]. reflexivity.
Qed.

Lemma entryText_trim (key text : str) :
  goodKey key = true -> text <> [] -> Js.trim text = text ->
  Js.trim (encodeKey key ++ lit ": " ++ text) = encodeKey key ++ lit ": " ++ text.
Proof.
  intros Hg Hne Ht.
  destruct (keyText_facts key Hg) as ((c & rest & E & Hw & _) & _).
  rewrite E.
  replace ((c :: rest) ++ lit ": " ++ text) with (c :: (rest ++ lit ": ") ++ text)
    by (cbn [app]; rewrite <- app_assoc; reflexivity).
  apply trim_id_ends; assumption.
Qed.

(** *** The header of a table *)

(** The array header pattern on a header with fields. *)
Lemma matchArrayPattern_fields (key : str) (lengthMarker : bool) (n : nat)
    (d : Delimiter) (fieldsText : str) :
  forallb notBracket key = true ->
  fieldsText <> [] ->
  forallb (fun x => negb (Js.ch_eqb x "}")) fieldsText = true ->
  matchArrayPattern (key ++ headerBody lengthMarker n (delimiterChar d)
                       ++ lit "{" ++ fieldsText ++ lit "}:")
  = Some {| HeaderMatch.key := match key with [] => None | _ => Some key end;
            HeaderMatch.lengthStr := Js.natToString n;
            HeaderMatch.delimiterInHeader :=
              match d with DComma => None | _ => Some (delimiterChar d) end;
            HeaderMatch.fieldsStr := Some fieldsText;
            HeaderMatch.valueAfter := [] |}.
Proof.
  intros Hkey Hne Hfields. unfold matchArrayPattern, headerBody.
  rewrite <- !app_assoc.
  destruct (takeWhile_stop notBracket key
              (lit "[" ++ (if lengthMarker then lit "#" else [])
                 ++ Js.natToString n
                 ++ (if negb (Js.ch_eqb (delimiterChar d) DEFAULT_DELIMITER)
                     then [delimiterChar d] else [])
                 ++ lit "]" ++ lit "{" ++ fieldsText ++ lit "}:") Hkey eq_refl) as [-> ->].
  cbn [lit list_ascii_of_string app]. change (Js.ch_eqb "[" "[") with true.
  cbn [negb].
  set (tail := (if negb (Js.ch_eqb (delimiterChar d) DEFAULT_DELIMITER)
                then [delimiterChar d] else [])
                 ++ "]"%char :: "{"%char :: fieldsText ++ ["}"%char; ":"%char]).
  assert (Htail : match tail with c :: _ => Js.isDigit c = false | [] => True end).
  { unfold tail. destruct d; reflexivity. }
  assert (Hskip : match (if lengthMarker then ["#"%char] else []) ++ Js.natToString n ++ tail with
                  | c :: r => if Js.ch_eqb c "#" then r
                              else (if lengthMarker then ["#"%char] else [])
                                     ++ Js.natToString n ++ tail
                  | [] => (if lengthMarker then ["#"%char] else []) ++ Js.natToString n ++ tail
                  end = Js.natToString n ++ tail).
  { destruct lengthMarker; [reflexivity|]. cbn [app].
    pose proof (uintToStr_digits (Nat.to_uint n)) as Hd.
    pose proof (natToString_nonempty n) as Hn. unfold Js.natToString in *.
    destruct (Js.uintToStr (Nat.to_uint n)) as [|c r]; [congruence|].
    cbn [app]. simpl in Hd. apply andb_true_iff in Hd. destruct Hd as [Hc _].
    assert (E : Js.ch_eqb c "#" = false).
    { revert Hc. clear. each_char c; vm_compute; intro H; (reflexivity || discriminate). }
    rewrite E. reflexivity. }
  rewrite Hskip.
  destruct (takeWhile_stop Js.isDigit (Js.natToString n) tail
              (uintToStr_digits (Nat.to_uint n)) Htail) as [-> ->].
  pose proof (natToString_nonempty n) as Hn.
  destruct (Js.natToString n) as [|c0 r0] eqn:En; [congruence|].
  destruct (takeWhile_stop (fun x => negb (Js.ch_eqb x "}")) fieldsText
              ["}"%char; ":"%char] Hfields eq_refl) as [Htw Hdw].
  unfold tail.
  destruct d; cbn [delimiterChar];
    repeat first
      [ progress cbn [app negb orb andb]
      | rewrite Htw
      | rewrite Hdw
      | match goal with
        | |- context [Js.ch_eqb ?a ?b] =>
            let v := eval vm_compute in (Js.ch_eqb a b) in
            change (Js.ch_eqb a b) with v
        | |- context [isHeaderDelimiter ?a] =>
            let v := eval vm_compute in (isHeaderDelimiter a) in
            change (isHeaderDelimiter a) with v
        end ];
    (destruct fieldsText as [|f0 fs]; [congruence|]);
    reflexivity.
Qed.

Lemma formatHeader_fields (count : nat) (key : option str) (header : list str)
    (d : ascii) (lengthMarker : bool) :
  formatHeader count key (Some header) d lengthMarker
  = match key with Some (c :: k) => encodeKey (c :: k) | _ => [] end
      ++ headerBody lengthMarker count d
      ++ lit "{" ++ Js.join [d] (map encodeKey header) ++ lit "}:".
Proof.
  unfold formatHeader, headerBody. rewrite <- !app_assoc. reflexivity.
Qed.

Lemma key_char_delimiter (d : Delimiter) (c : ascii) :
  Regex.alphabet Pattern.unquotedKey c = true ->
  passes (delimiterChar d) c = true /\ negb (Js.ch_eqb c "}") = true.
Proof.
  destruct d; each_char c; vm_compute; intro H; (split; reflexivity) || discriminate.
Qed.

Lemma map_encodeKey_plain (keys : list str) :
  Forall (fun f => plainKey f = true) keys -> map encodeKey keys = keys.
Proof.
  intro H. induction H as [|k keys Hk _ IH]; [reflexivity|].
  cbn [map]. rewrite IH. destruct (plainKey_facts k Hk) as (-> & _). reflexivity.
Qed.

(** The names of the fields, joined by the delimiter, are split again into
    the names. *)
Lemma split_joined_keys (d : Delimiter) (keys : list str) (result : list str) :
  Forall (fun f => plainKey f = true) keys ->
  splitByDelimiterFrom (Js.join [delimiterChar d] keys) (delimiterChar d)
    result [] false false
  = result ++ keys.
Proof.
  intro H. revert result. induction H as [|k keys Hk Hkeys IH]; intro result.
  - simpl. rewrite app_nil_r. reflexivity.
  - destruct (plainKey_facts k Hk) as (_ & _ & _ & Ha & c & rest & E & _).
    assert (Hpass : forallb (passes (delimiterChar d)) k = true).
    { eapply forallb_impl; [|exact Ha]. intros x Hx.
      apply (key_char_delimiter d) in Hx. tauto. }
    destruct keys as [|k' keys].
    + cbn [Js.join]. rewrite <- (app_nil_r k) at 1.
      rewrite split_skip_plain by exact Hpass. cbn [app splitByDelimiterFrom].
      rewrite E. reflexivity.
    + rewrite join_cons2. rewrite split_skip_plain by exact Hpass.
      change ([delimiterChar d] ++ Js.join [delimiterChar d] (k' :: keys))
        with (delimiterChar d :: Js.join [delimiterChar d] (k' :: keys)).
      cbn [splitByDelimiterFrom].
      destruct (delimiter_not_special d) as [H1 H2]. rewrite H1, H2, ch_eqb_refl.
      cbn [negb andb app]. rewrite IH. rewrite <- app_assoc. reflexivity.
Qed.

Lemma joined_keys_facts (d : Delimiter) (keys : list str) :
  keys <> [] -> Forall (fun f => plainKey f = true) keys ->
  Js.join [delimiterChar d] keys <> []
  /\ forallb (fun x => negb (Js.ch_eqb x "}")) (Js.join [delimiterChar d] keys) = true.
Proof.
  intros Hne H. induction H as [|k keys Hk Hkeys IH]; [congruence|].
  destruct (plainKey_facts k Hk) as (_ & _ & _ & Ha & c & rest & E & _).
  assert (Hb : forallb (fun x => negb (Js.ch_eqb x "}")) k = true).
  { eapply forallb_impl; [|exact Ha]. intros x Hx.
    apply (key_char_delimiter d) in Hx. tauto. }
  destruct keys as [|k' keys].
  - cbn [Js.join]. split; [rewrite E; discriminate | exact Hb].
  - rewrite join_cons2. split; [rewrite E; discriminate|].
    rewrite !forallb_app, Hb. destruct IH as [_ IH]; [discriminate|].
    rewrite IH. destruct d; reflexivity.
Qed.

Lemma unescape_trimmed_keys (keys : list str) :
  Forall (fun f => plainKey f = true) keys ->
  rmap (fun f => unescapeKey (Js.trim f)) keys = Ok keys.
Proof.
  intro H. induction H as [|k keys Hk _ IH]; [reflexivity|].
  cbn [rmap]. destruct (plainKey_chars k Hk) as (-> & _).
  destruct (plainKey_facts k Hk) as (_ & -> & _).
  cbn [rbind]. rewrite IH. reflexivity.
Qed.

Lemma headerKey_text (key : option str) :
  plainHeaderKey key ->
  exists text,
    match key with Some (c :: k) => encodeKey (c :: k) | _ => [] end = text
    /\ forallb notBracket text = true
    /\ trimmedKey match text with [] => None | _ => Some text end = key
    /\ match key with Some k => text = k | None => text = [] end.
Proof.
  destruct key as [k|]; cbn [plainHeaderKey].
  - intro Hk. destruct (plainKey_facts k Hk) as (He & _ & _ & _ & c & rest & E & _).
    destruct (plainKey_chars k Hk) as (Ht & _ & _ & _ & Hnb).
    exists k. rewrite E in *. rewrite He. repeat split; try assumption.
    unfold trimmedKey. rewrite Ht. reflexivity.
  - intros _. exists []. repeat split.
Qed.

Lemma parseArrayHeader_table (d : Delimiter) (m : bool) (key : option str) (count : nat)
    (header : list str) :
  soundLine (delimiterChar d) (LTable key count header) ->
  Scanner.parseArrayHeader (lineText (delimiterChar d) m (LTable key count header))
  = Ok (Some (tableInfo key count header (delimiterChar d))).
Proof.
  intros (Hkey & Hne & Hh). cbn [lineText].
  rewrite formatHeader_fields, map_encodeKey_plain by exact Hh.
  destruct (headerKey_text key Hkey) as (text & -> & Hnb & Htk & _).
  destruct (joined_keys_facts d header Hne Hh) as [Hj1 Hj2].
  unfold Scanner.parseArrayHeader.
  rewrite (matchArrayPattern_fields text m count d _ Hnb Hj1 Hj2).
  unfold headerFields, headerDelimiter.
  cbn [HeaderMatch.fieldsStr HeaderMatch.delimiterInHeader HeaderMatch.key
       HeaderMatch.valueAfter].
  assert (Hd : match match d with DComma => None | _ => Some (delimiterChar d) end with
               | Some x => x | None => ","%char end = delimiterChar d)
    by (destruct d; reflexivity).
  rewrite Hd. unfold splitByDelimiter.
  rewrite (split_joined_keys d header [] Hh). cbn [app].
  rewrite unescape_trimmed_keys by exact Hh. cbn [rbind].
  unfold tableInfo, headerLength. cbn [HeaderMatch.lengthStr].
  rewrite digitsToZ_natToString, Htk.
  assert (Hlen : Z.to_N (Z.of_nat count) = N.of_nat count) by lia.
  rewrite Hlen. reflexivity.
Qed.

(** *** A row *)

Lemma includes_forall (s : str) (c : ascii) :
  Js.includes s c = false -> forallb (fun x => negb (Js.ch_eqb x c)) s = true.
Proof.
  unfold Js.includes. induction s as [|x s IH]; [reflexivity|].
  cbn [existsb forallb]. intro H. apply orb_false_iff in H. destruct H as [H1 H2].
  rewrite IH by exact H2. unfold Js.ch_eqb in *. rewrite Ascii.eqb_sym, H1. reflexivity.
Qed.

Lemma number_char_facts (c : ascii) :
  numberChar c = true ->
  passes ":" c = true /\ Js.ch_eqb " " c = false.
Proof. each_char c; vm_compute; intro H; (split; reflexivity) || discriminate. Qed.

(** Outside quotes, the search for the colon passes over the text of a
    cell. *)
Lemma colon_skip_cell (d : ascii) (p : JsonPrimitive) (rest : str) (i : nat) :
  cell d p ->
  findMainColonFrom (encodePrimitive p d ++ rest) i false false
  = findMainColonFrom rest (i + length (encodePrimitive p d)) false false.
Proof.
  intros [_ Hts]. destruct p as [s|x|b|]; cbn [encodePrimitive].
  - unfold encodeStringLiteral. destruct (isSafeUnquoted s d) eqn:E.
    + apply isSafeUnquoted_facts in E.
      destruct E as (_ & _ & _ & _ & Hc & Hq & Hb & _).
      apply findMainColonFrom_skip.
      assert (Hcolon : Js.includes s ":" = false).
      { destruct (Js.includes s ":"); [|reflexivity].
        rewrite Hc in Hts by reflexivity. discriminate. }
      apply includes_forall in Hcolon, Hq, Hb.
      rewrite forallb_forall in *. intros x Hx.
      rewrite (Hcolon x Hx), (Hq x Hx), (Hb x Hx). reflexivity.
    + change (([DOUBLE_QUOTE] ++ escapeString s ++ [DOUBLE_QUOTE]) ++ rest)
        with (DOUBLE_QUOTE :: (escapeString s ++ [DOUBLE_QUOTE]) ++ rest).
      rewrite <- app_assoc. cbn [findMainColonFrom].
      change (Js.ch_eqb DOUBLE_QUOTE BACKSLASH) with false.
      change (Js.ch_eqb DOUBLE_QUOTE DOUBLE_QUOTE) with true. cbv iota. cbn [negb].
      rewrite findMainColonFrom_escaped. cbn [app findMainColonFrom].
      change (Js.ch_eqb DOUBLE_QUOTE BACKSLASH) with false.
      change (Js.ch_eqb DOUBLE_QUOTE DOUBLE_QUOTE) with true. cbv iota. cbn [negb].
      f_equal. cbn [length]. rewrite length_app. simpl. lia.
  - apply findMainColonFrom_skip. eapply forallb_impl; [|apply toString_number].
    intros c Hc. apply number_char_facts in Hc. destruct Hc as [Hc _]. exact Hc.
  - destruct b; apply findMainColonFrom_skip; reflexivity.
  - apply findMainColonFrom_skip; reflexivity.
Qed.

Lemma colon_skip_row (d : Delimiter) (cells : list JsonPrimitive) (i : nat) :
  Forall (cell (delimiterChar d)) cells ->
  findMainColonFrom (encodeAndJoinPrimitives cells (delimiterChar d)) i false false = None.
Proof.
  unfold encodeAndJoinPrimitives. intro H. revert i.
  induction H as [|p ps Hp Hps IH]; intro i; [reflexivity|].
  destruct ps as [|p' ps].
  - cbn [map Js.join].
    rewrite <- (app_nil_r (encodePrimitive p (delimiterChar d))).
    rewrite colon_skip_cell by exact Hp. reflexivity.
  - change (map (fun v => encodePrimitive v (delimiterChar d)) (p :: p' :: ps))
      with (encodePrimitive p (delimiterChar d)
              :: map (fun v => encodePrimitive v (delimiterChar d)) (p' :: ps)).
    remember (map (fun v => encodePrimitive v (delimiterChar d)) (p' :: ps)) as tl eqn:Etl.
    assert (Htl : exists q qs, tl = q :: qs) by (subst tl; simpl; eauto).
    destruct Htl as (q & qs & Eq). rewrite Eq. rewrite join_cons2. rewrite <- Eq.
    rewrite colon_skip_cell by exact Hp.
    change ([delimiterChar d] ++ Js.join [delimiterChar d] tl)
      with (delimiterChar d :: Js.join [delimiterChar d] tl).
    cbn [findMainColonFrom].
    destruct (delimiter_not_special d) as [H1 H2]. rewrite H1, H2.
    assert (H3 : Js.ch_eqb (delimiterChar d) ":" = false) by (destruct d; reflexivity).
    rewrite H3. cbn [negb andb]. subst tl. apply IH.
Qed.

Lemma row_no_bracket (d : Delimiter) (cells : list JsonPrimitive) :
  Forall (cell (delimiterChar d)) cells ->
  Js.includes (encodeAndJoinPrimitives cells (delimiterChar d)) "[" = false.
Proof.
  unfold encodeAndJoinPrimitives. intro H.
  induction H as [|p ps [[_ Hp] _] Hps IH]; [reflexivity|].
  destruct ps as [|p' ps].
  - cbn [map Js.join]. exact Hp.
  - change (map (fun v => encodePrimitive v (delimiterChar d)) (p :: p' :: ps))
      with (encodePrimitive p (delimiterChar d)
              :: map (fun v => encodePrimitive v (delimiterChar d)) (p' :: ps)).
    remember (map (fun v => encodePrimitive v (delimiterChar d)) (p' :: ps)) as tl eqn:Etl.
    assert (Htl : exists q qs, tl = q :: qs) by (subst tl; simpl; eauto).
    destruct Htl as (q & qs & Eq). rewrite Eq. rewrite join_cons2. rewrite <- Eq.
    rewrite !includes_app, Hp, IH. destruct d; reflexivity.
Qed.

Lemma row_no_item (d : Delimiter) (cells : list JsonPrimitive) :
  Js.startsWith (encodeAndJoinPrimitives cells (delimiterChar d)) (lit "- ") = false.
Proof.
  unfold encodeAndJoinPrimitives. destruct cells as [|p ps]; [reflexivity|].
  assert (Hrow : exists tailr,
            Js.join [delimiterChar d]
              (map (fun v => encodePrimitive v (delimiterChar d)) (p :: ps))
            = encodePrimitive p (delimiterChar d) ++ tailr
            /\ match tailr with c :: _ => Js.ch_eqb " " c = false | [] => True end).
  { destruct ps as [|p' ps].
    - exists []. cbn [map Js.join]. rewrite app_nil_r. split; [reflexivity | exact I].
    - exists (delimiterChar d
              :: Js.join [delimiterChar d]
                   (map (fun v => encodePrimitive v (delimiterChar d)) (p' :: ps))).
      split; [reflexivity | destruct d; reflexivity]. }
  destruct Hrow as (tailr & -> & Htail).
  destruct p as [s|x|b|]; cbn [encodePrimitive].
  - unfold encodeStringLiteral. destruct (isSafeUnquoted s (delimiterChar d)) eqn:E.
    + apply isSafeUnquoted_facts in E.
      destruct E as (Hne & _ & _ & _ & _ & _ & _ & _ & _ & _ & Hd).
      destruct s as [|c s]; [congruence|].
      unfold LIST_ITEM_MARKER in Hd. cbn [lit list_ascii_of_string Js.startsWith] in Hd.
      cbn [app lit list_ascii_of_string Js.startsWith].
      destruct (Js.ch_eqb "-" c); [|reflexivity].
      destruct s; discriminate.
    + reflexivity.
  - pose proof (toString_number x) as Hn.
    pose proof (encodePrimitive_nonempty (PNumber x) (delimiterChar d)) as Hne.
    cbn [encodePrimitive] in Hne.
    destruct (JsNumber.toString x) as [|c1 [|c2 t]]; [congruence| |].
    + cbn [app lit list_ascii_of_string Js.startsWith].
      destruct tailr as [|c tailr]; [destruct (Js.ch_eqb "-" c1); reflexivity|].
      cbn [Js.startsWith]. rewrite Htail. destruct (Js.ch_eqb "-" c1); reflexivity.
    + cbn [forallb] in Hn. apply andb_true_iff in Hn. destruct Hn as [_ Hn].
      apply andb_true_iff in Hn. destruct Hn as [Hn _].
      apply number_char_facts in Hn. destruct Hn as [_ Hn].
      cbn [app lit list_ascii_of_string Js.startsWith]. rewrite Hn.
      destruct (Js.ch_eqb "-" c1); reflexivity.
  - destruct b; reflexivity.
  - reflexivity.
Qed.

Lemma scanLine_row (d : Delimiter) (m : bool) (cells : list JsonPrimitive) (i : nat) :
  soundLine (delimiterChar d) (LRow cells) ->
  Scanner.parseArrayHeader (lineText (delimiterChar d) m (LRow cells)) = Ok None
  /\ Scanner.scanLine (lineText (delimiterChar d) m (LRow cells)) 0 i false
     = Ok (lineTokens (delimiterChar d) m 0 i (LRow cells)).
Proof.
  intros [Hne Hcells]. cbn [lineText lineTokens].
  pose proof (parseArrayHeader_no_bracket _ (row_no_bracket d cells Hcells)) as Hh.
  split; [exact Hh|].
  unfold Scanner.scanLine. rewrite row_no_item, Hh. cbn [rbind]. cbv zeta.
  destruct (Js.includes _ ":"); [|reflexivity].
  unfold findMainColon. rewrite colon_skip_row by exact Hcells. reflexivity.
Qed.

(** *** Every line *)

Lemma headed_app (a b : str) : headed a -> headed (a ++ b).
Proof. intros (c & rest & -> & H). exists c, (rest ++ b). split; [reflexivity | exact H]. Qed.

Lemma headed_no_item (s : str) : headed s -> Js.startsWith s (lit "- ") = false.
Proof.
  intros (c & rest & -> & _ & H). cbn [lit list_ascii_of_string Js.startsWith].
  rewrite H. reflexivity.
Qed.

Lemma plainKey_headed (key : str) : plainKey key = true -> headed key.
Proof.
  intro Hk. destruct (plainKey_facts key Hk) as (_ & _ & _ & _ & c & rest & E & Hc).
  apply key_first_facts in Hc. destruct Hc as (Hw & Hd & _).
  exists c, rest. auto.
Qed.

Lemma headerText_headed (key : option str) (m : bool) (n : nat) (d : ascii) (rest : str) :
  plainHeaderKey key ->
  headed (match key with Some (c :: k) => encodeKey (c :: k) | _ => [] end
            ++ headerBody m n d ++ rest).
Proof.
  intro Hkey. destruct (headerKey_text key Hkey) as (text & -> & _ & _ & Ht).
  destruct key as [k|].
  - subst text. apply headed_app. apply plainKey_headed. exact Hkey.
  - subst text. unfold headerBody. cbn [lit list_ascii_of_string app].
    eexists _, _. split; [reflexivity | split; reflexivity].
Qed.

Lemma trim_ends_colon (s : str) :
  headed (s ++ lit ":") -> Js.trim (s ++ lit ":") = s ++ lit ":".
Proof.
  intros (c & rest & E & Hw & _). destruct s as [|c0 s].
  - reflexivity.
  - cbn [app] in *. injection E as -> _.
    apply trim_id_ends; [exact Hw | discriminate | reflexivity].
Qed.

Lemma headed_startsPlain (s : str) : headed s -> startsPlain s.
Proof. intros (c & rest & -> & H & _). exact H. Qed.

(** *** The header of a list and its items *)

Lemma parseArrayHeader_list (d : Delimiter) (m : bool) (key : option str) (count : nat) :
  plainHeaderKey key ->
  Scanner.parseArrayHeader (formatHeader count key None (delimiterChar d) m)
  = Ok (Some (listInfo key count (delimiterChar d))).
Proof.
  intro Hkey. rewrite formatHeader_plain.
  destruct (headerKey_text key Hkey) as (text & -> & Hnb & Htk & _).
  unfold Scanner.parseArrayHeader.
  pose proof (matchArrayPattern_header text m count d [] Hnb eq_refl) as Hm.
  cbn [lit list_ascii_of_string app] in Hm. cbn [lit list_ascii_of_string].
  rewrite Hm. unfold headerFields, headerDelimiter, headerLength.
  cbn [HeaderMatch.fieldsStr HeaderMatch.delimiterInHeader HeaderMatch.key
       HeaderMatch.valueAfter HeaderMatch.lengthStr rbind Js.dropWhile].
  rewrite digitsToZ_natToString, Htk.
  assert (Hlen : Z.to_N (Z.of_nat count) = N.of_nat count) by lia.
  rewrite Hlen.
  assert (Hd : match match d with DComma => None | _ => Some (delimiterChar d) end with
               | Some x => x | None => ","%char end = delimiterChar d)
    by (destruct d; reflexivity).
  rewrite Hd. reflexivity.
Qed.

(** The text after the dash of an item: not empty, and its own trimmed
    form. *)
Lemma headText_tidy (d : Delimiter) (m : bool) (h : ItemHead) :
  soundLine (delimiterChar d) (LItem h) ->
  headText (delimiterChar d) m h <> []
  /\ Js.trim (headText (delimiterChar d) m h) = headText (delimiterChar d) m h.
Proof.
  destruct h as [p|values|key p|key values]; cbn [soundLine headText].
  4:{ intro Hk. split; [|apply arrayLine_trim; exact Hk].
      rewrite arrayLine_eq by exact Hk.
      destruct (plainKey_facts key Hk) as (_ & _ & _ & _ & c & rest & -> & _).
      discriminate. }
  - intros _. split; [apply encodePrimitive_nonempty | apply encodePrimitive_trim].
  - intros _. destruct (inline_line_facts values d m) as (_ & Ht & rest & E).
    split; [rewrite E; discriminate | exact Ht].
  - intros [Hk Hp].
    split; [|apply entryText_trim;
             [exact Hk | apply encodePrimitive_nonempty | apply encodePrimitive_trim]].
    destruct (keyText_facts key Hk) as ((c & rest & -> & _) & _). discriminate.
Qed.

(** The line of an item is no header that the scanner rejects. *)
Lemma itemLine_header (d : Delimiter) (m : bool) (h : ItemHead) :
  soundLine (delimiterChar d) (LItem h) ->
  exists ah,
    Scanner.parseArrayHeader (LIST_ITEM_PREFIX ++ headText (delimiterChar d) m h) = Ok ah.
Proof.
  destruct h as [p|values|key p|key values]; cbn [soundLine headText].
  4:{ intro Hk. rewrite arrayLine_eq by exact Hk. rewrite app_assoc.
      destruct (inlineRest_value values d) as [_ Hl].
      destruct (plainKey_chars key Hk) as (_ & _ & _ & _ & Hnb).
      unfold Scanner.parseArrayHeader.
      rewrite (matchArrayPattern_header (LIST_ITEM_PREFIX ++ key) m (length values) d
                 (inlineRest values (delimiterChar d))).
      - unfold headerFields. cbn [HeaderMatch.fieldsStr rbind]. eexists. reflexivity.
      - rewrite forallb_app, Hnb. reflexivity.
      - exact Hl. }
  - intros [_ Hp]. exists None. apply parseArrayHeader_no_bracket.
    rewrite includes_app, Hp. reflexivity.
  - intros _. rewrite encodeInlineArrayLine_eq. cbn [app].
    destruct (inlineRest_value values d) as [_ Hl].
    unfold Scanner.parseArrayHeader.
    rewrite (matchArrayPattern_header LIST_ITEM_PREFIX m (length values) d
               (inlineRest values (delimiterChar d)) eq_refl Hl).
    unfold headerFields. cbn [HeaderMatch.fieldsStr rbind]. eexists. reflexivity.
  - intros [Hk [_ Hp]]. exists None. apply parseArrayHeader_no_bracket.
    destruct (keyText_facts key Hk) as (_ & _ & Hkbr & _).
    rewrite !includes_app, Hkbr, Hp. reflexivity.
Qed.

(** What the scanner makes of a sound line, taken by itself. *)
Lemma soundLine_scans (d : Delimiter) (m : bool) (l : Line) (i : nat) :
  soundLine (delimiterChar d) l ->
  startsPlain (lineText (delimiterChar d) m l)
  /\ Js.trim (lineText (delimiterChar d) m l) = lineText (delimiterChar d) m l
  /\ (exists ah, Scanner.parseArrayHeader (lineText (delimiterChar d) m l) = Ok ah)
  /\ Scanner.scanLine (lineText (delimiterChar d) m l) 0 i false
     = Ok (lineTokens (delimiterChar d) m 0 i l).
Proof.
  destruct l as [key p|key|key values|key count header|cells|key count|h];
    cbn [soundLine].
  - intros [Hk [Hp Hpb]].
    destruct (keyText_facts key Hk) as ((c & rest & E & Hw & Hdash) & _ & Hkbr & _).
    pose proof (scanLine_entry key (encodePrimitive p (delimiterChar d)) i Hk
                  (encodePrimitive_trim p (delimiterChar d)) Hpb) as Hscan.
    pose proof (encodePrimitive_nonempty p (delimiterChar d)) as Hne.
    cbn [lineText lineTokens].
    destruct (encodePrimitive p (delimiterChar d)) as [|x text] eqn:Ep; [congruence|].
    rewrite <- Ep in *.
    split; [rewrite E; exact Hw|]. split; [|split].
    + apply entryText_trim; [exact Hk | exact Hne | apply encodePrimitive_trim].
    + exists None. apply parseArrayHeader_no_bracket.
      rewrite !includes_app, Hkbr, Hpb. reflexivity.
    + rewrite Ep in Hscan. rewrite <- Ep in Hscan. exact Hscan.
  - intro Hk. cbn [lineText lineTokens].
    destruct (keyText_facts key Hk) as ((c & rest & E & Hw & Hdash) & _ & Hkbr & _).
    assert (Hh : headed (encodeKey key ++ lit ":")).
    { rewrite E. exists c, (rest ++ lit ":"). auto. }
    split; [apply headed_startsPlain; exact Hh|].
    split; [apply trim_ends_colon; exact Hh|].
    split.
    + exists None. apply parseArrayHeader_no_bracket.
      rewrite includes_app, Hkbr. reflexivity.
    + pose proof (scanLine_entry key [] i Hk eq_refl eq_refl) as Hscan.
      cbn [app] in Hscan. rewrite app_nil_r in Hscan. exact Hscan.
  - intro Hkey. cbn [lineText lineTokens].
    assert (Hhead : headed (encodeInlineArrayLine values (delimiterChar d) key m)).
    { rewrite encodeInlineArrayLine_eq. apply headerText_headed. exact Hkey. }
    assert (Hheader : Scanner.parseArrayHeader
                        (encodeInlineArrayLine values (delimiterChar d) key m)
                      = Ok (Some (inlineInfo key values (delimiterChar d)))).
    { destruct key as [k|]; [apply parseArrayHeader_keyed; exact Hkey
                            | apply parseArrayHeader_inline]. }
    split; [apply headed_startsPlain; exact Hhead|]. split; [|split].
    + destruct key as [k|]; [apply arrayLine_trim; exact Hkey|].
      apply (inline_line_facts values d m).
    + eexists. exact Hheader.
    + unfold Scanner.scanLine. rewrite headed_no_item by exact Hhead.
      rewrite Hheader. reflexivity.
  - intros (Hkey & Hne & Hh).
    pose proof (parseArrayHeader_table d m key count header (conj Hkey (conj Hne Hh)))
      as Hheader.
    cbn [lineText lineTokens] in *.
    assert (Hhead : headed (formatHeader count key (Some header) (delimiterChar d) m)).
    { rewrite formatHeader_fields. apply headerText_headed. exact Hkey. }
    split; [apply headed_startsPlain; exact Hhead|]. split; [|split].
    + unfold formatHeader in *. apply trim_ends_colon. exact Hhead.
    + eexists. exact Hheader.
    + unfold Scanner.scanLine. rewrite headed_no_item by exact Hhead.
      rewrite Hheader. reflexivity.
  - intros [Hne Hcells].
    destruct (scanLine_row d m cells i (conj Hne Hcells)) as [Hh Hs].
    destruct (joined_tidy d cells Hne) as (Hn & Ht & _).
    cbn [lineText] in *.
    split; [|split; [exact Ht | split; [eexists; exact Hh | exact Hs]]].
    apply trimmed_startsPlain; assumption.
  - intro Hkey. pose proof (parseArrayHeader_list d m key count Hkey) as Hheader.
    cbn [lineText lineTokens] in *.
    assert (Hhead : headed (formatHeader count key None (delimiterChar d) m)).
    { rewrite formatHeader_plain.
      pose proof (headerText_headed key m count (delimiterChar d) (lit ":") Hkey) as H.
      exact H. }
    split; [apply headed_startsPlain; exact Hhead|]. split; [|split].
    + rewrite formatHeader_plain in *. rewrite app_assoc in *.
      apply trim_ends_colon. exact Hhead.
    + eexists. exact Hheader.
    + unfold Scanner.scanLine. rewrite headed_no_item by exact Hhead.
      rewrite Hheader. reflexivity.
  - intro Hh. destruct (headText_tidy d m h Hh) as [Hne Ht].
    cbn [lineText lineTokens]. split; [reflexivity|]. split; [|split].
    + change (LIST_ITEM_PREFIX ++ headText (delimiterChar d) m h)
        with ("-"%char :: [SPACE] ++ headText (delimiterChar d) m h).
      apply trim_id_ends; [reflexivity | exact Hne | exact Ht].
    + apply itemLine_header. exact Hh.
    + unfold Scanner.scanLine.
      assert (Hsw : Js.startsWith (LIST_ITEM_PREFIX ++ headText (delimiterChar d) m h)
                      (lit "- ") = true).
      { cbn [LIST_ITEM_PREFIX lit list_ascii_of_string app Js.startsWith].
        destruct (headText (delimiterChar d) m h); reflexivity. }
      rewrite Hsw.
      pose proof (substringFrom_suffix LIST_ITEM_PREFIX (headText (delimiterChar d) m h))
        as Hs.
      change (Z.of_nat (length LIST_ITEM_PREFIX)) with 2%Z in Hs. rewrite Hs. reflexivity.
Qed.

(** *** The lines of a text *)

Lemma getIndent_level (options : Scanner.Options) (n k : nat) (content : str)
    (lineNum : nat) :
  Scanner.strict options = false \/ Scanner.indent options = Z.of_nat n ->
  startsPlain content ->
  Scanner.getIndent options (Js.repeatStr [SPACE] (k * n) ++ content) lineNum
  = Ok {| IndentInfo.count := Z.of_nat (k * n); IndentInfo.hadTabIndent := false |}.
Proof.
  intros Hopt Hc. destruct content as [|c rest]; [destruct Hc|]. simpl in Hc.
  unfold Scanner.getIndent. rewrite getIndentFrom_spaces.
  2:{ apply not_white_not_space in Hc. destruct Hc as [H1 H2].
      split; apply ch_eqb_neq; assumption. }
  cbn [rbind IndentInfo.count]. rewrite Z.add_0_l.
  destruct Hopt as [-> | ->]; [reflexivity|].
  assert (Hrem : (Z.rem (Z.of_nat (k * n)) (Z.of_nat n) =? 0)%Z = true
                 \/ (0 <? Z.of_nat (k * n))%Z = false).
  { destruct n as [|n].
    - right. rewrite Nat.mul_0_r. reflexivity.
    - left. apply Z.eqb_eq. rewrite Nat2Z.inj_mul. apply Z.rem_mul. lia. }
  destruct Hrem as [-> | ->]; rewrite ?andb_false_r; cbn [negb]; rewrite ?andb_false_r;
    reflexivity.
Qed.

Lemma scanFrom_lines (options : Scanner.Options) (d : Delimiter) (m : bool) (n : nat)
    (ls : list (nat * Line)) (i : nat) (tokens : list Token.t)
    (insideArray : bool) (arrayIndent : Z) :
  Scanner.strict options = false \/ Scanner.indent options = Z.of_nat n ->
  Forall (fun kl => soundLine (delimiterChar d) (snd kl)) ls ->
  Scanner.scanFrom options (map (renderLine (delimiterChar d) m n) ls)
    i tokens insideArray arrayIndent
  = Ok (tokens ++ linesTokens (delimiterChar d) m n i ls).
Proof.
  intros Hopt H. revert i tokens insideArray arrayIndent.
  induction H as [|[k l] ls Hl _ IH]; intros i tokens insideArray arrayIndent.
  - simpl. rewrite app_nil_r. reflexivity.
  - cbn [map Scanner.scanFrom fst snd] in *.
    destruct (soundLine_scans d m l i Hl) as (Hplain & Htrim & (ah & Hah) & Hscan).
    unfold renderLine. cbn [fst snd].
    assert (Ht : Js.trim (Js.repeatStr [SPACE] (k * n) ++ lineText (delimiterChar d) m l)
                 = lineText (delimiterChar d) m l)
      by (rewrite trim_spaces; exact Htrim).
    unfold Scanner.isBlank. rewrite Ht.
    destruct (lineText (delimiterChar d) m l) as [|c rest] eqn:El; [destruct Hplain|].
    rewrite <- El in *.
    rewrite getIndent_level by assumption.
    cbn [rbind IndentInfo.count IndentInfo.hadTabIndent]. rewrite Hah.
    cbn [rbind]. rewrite scanLine_atIndent, Hscan. cbn [rbind].
    rewrite lineTokens_atIndent.
    destruct (match ah with Some _ => _ | None => _ end) as [ia ai].
    rewrite IH. cbn [linesTokens fst snd]. rewrite <- app_assoc. reflexivity.
Qed.

(* ================================================================== *)
(** ** Documents: the encoder *)
(* ================================================================== *)

(** *** Documents *)

Lemma Doc_induction (P : Doc -> Prop) :
  (forall p, P (DPrim p)) ->
  (forall values, P (DArray values)) ->
  (forall header rows, P (DTable header rows)) ->
  (forall entries, Forall (fun kv => P (snd kv)) entries -> P (DObject entries)) ->
  (forall items, Forall P items -> P (DList items)) ->
  forall doc, P doc.
Proof.
  intros Hp Ha Ht Ho Hl. fix IH 1. intros [p|values|header rows|entries|items].
  - apply Hp.
  - apply Ha.
  - apply Ht.
  - apply Ho. induction entries as [|[k x] entries IHe]; constructor; [apply IH | exact IHe].
  - apply Hl. induction items as [|x items IHi]; constructor; [apply IH | exact IHi].
Qed.

Lemma goodDoc_items (d : ascii) (items : list Doc) :
  fold_right (fun item rest => goodItem d item /\ rest) True items
  <-> Forall (goodItem d) items.
Proof.
  induction items as [|x items IH]; simpl.
  - split; [constructor | trivial].
  - split.
    + intros [H1 H2]. constructor; [exact H1 | apply IH; exact H2].
    + intro H. inversion H; subst. tauto.
Qed.

Lemma goodDoc_entries (d : ascii) (entries : list (str * Doc)) :
  fold_right (fun kv rest => entryKey (fst kv) (snd kv) = true
                            /\ goodDoc d (snd kv) /\ rest)
    True entries
  <-> goodEntries d entries.
Proof.
  unfold goodEntries. induction entries as [|kv entries IH]; simpl.
  - split; [constructor | trivial].
  - split.
    + intros (H1 & H2 & H3). constructor; [split; assumption | apply IH; exact H3].
    + intro H. inversion H as [|? ? [H1 H2] H3]; subst. tauto.
Qed.

Lemma pushLines_nil (d : ascii) (m : bool) (w : LineWriter.t) : pushLines d m w [] = w.
Proof. unfold pushLines. cbn [map]. rewrite app_nil_r. destruct w; reflexivity. Qed.

Lemma pushLines_app (d : ascii) (m : bool) (w : LineWriter.t) (a b : list (nat * Line)) :
  pushLines d m w (a ++ b) = pushLines d m (pushLines d m w a) b.
Proof.
  unfold pushLines. cbn [LineWriter.lines LineWriter.indentationString].
  rewrite map_app, app_assoc. reflexivity.
Qed.

Lemma push_line (d : ascii) (m : bool) (w : LineWriter.t) (k : nat) (l : Line) :
  LineWriter.push w k (lineText d m l) = pushLines d m w [(k, l)].
Proof. reflexivity. Qed.

(** *** The encoder on a table *)

Lemma keys_rowObject (header : list str) (cells : list JsonPrimitive) :
  length cells = length header -> Obj.keys (rowObject header cells) = header.
Proof.
  unfold Obj.keys, rowObject. revert cells.
  induction header as [|f header IH]; intros [|c cells] H; simpl in *;
    try reflexivity; try discriminate.
  rewrite IH by lia. reflexivity.
Qed.

Lemma get_rowObject (header : list str) (cells : list JsonPrimitive) (key : str) :
  length cells = length header -> In key header ->
  exists p, Obj.get (rowObject header cells) key = Some (JPrim p).
Proof.
  unfold rowObject. revert cells.
  induction header as [|f header IH]; intros [|c cells] H Hin; simpl in *;
    try tauto; try discriminate.
  destruct (Js.str_eqb f key) eqn:E; [eauto|].
  destruct Hin as [Hin|Hin]; [subst; rewrite str_eqb_refl in E; discriminate|].
  apply IH; [lia | exact Hin].
Qed.

Lemma cells_rowObject (header : list str) (cells : list JsonPrimitive) :
  length cells = length header -> NoDup header ->
  map (fun key => match Obj.get (rowObject header cells) key with
                  | Some v => asPrimitive v
                  | None => PNull
                  end) header
  = cells.
Proof.
  unfold rowObject. revert cells.
  induction header as [|f header IH]; intros [|c cells] H Hnd; simpl in *;
    try reflexivity; try discriminate.
  rewrite str_eqb_refl. cbn [asPrimitive]. f_equal.
  inversion Hnd as [|? ? Hf Hnd']; subst.
  transitivity (map (fun key => match Obj.get (combine header (map JPrim cells)) key with
                                 | Some v => asPrimitive v
                                 | None => PNull
                                 end) header).
  - apply map_ext_in. intros key Hkey.
    destruct (Js.str_eqb f key) eqn:E; [|reflexivity].
    apply str_eqb_eq in E. subst. contradiction.
  - apply IH; [lia | assumption].
Qed.

Lemma isTabularArray_rows (header : list str) (rows : list (list JsonPrimitive)) :
  Forall (fun cells => length cells = length header) rows ->
  isTabularArray (map (rowObject header) rows) header = true.
Proof.
  intro H. unfold isTabularArray. apply forallb_forall. intros row Hrow.
  apply in_map_iff in Hrow. destruct Hrow as (cells & <- & Hcells).
  rewrite Forall_forall in H. specialize (H cells Hcells).
  rewrite keys_rowObject by exact H. rewrite Nat.eqb_refl. cbn [andb].
  apply forallb_forall. intros key Hkey.
  destruct (get_rowObject header cells key H Hkey) as (p & ->). reflexivity.
Qed.

Lemma writeTabularRows_rows (d : ascii) (m : bool) (header : list str)
    (rows : list (list JsonPrimitive)) (w : LineWriter.t) (k : nat)
    (options : ResolvedOptions.t) :
  ResolvedOptions.delimiter options = d ->
  NoDup header -> Forall (fun cells => length cells = length header) rows ->
  writeTabularRows (map (rowObject header) rows) header w k options
  = pushLines d m w (map (fun cells => (k, LRow cells)) rows).
Proof.
  intros Hd Hnd H. unfold writeTabularRows. revert w.
  induction H as [|cells rows Hcells _ IH]; intro w.
  - cbn [map fold_left]. rewrite pushLines_nil. reflexivity.
  - cbn [map fold_left]. rewrite cells_rowObject by assumption. rewrite IH, Hd.
    change ((k, LRow cells) :: map (fun c => (k, LRow c)) rows)
      with ([(k, LRow cells)] ++ map (fun c => (k, LRow c)) rows).
    rewrite pushLines_app. reflexivity.
Qed.

Lemma encodeArray_table (d : ascii) (m : bool) (key : option str) (header : list str)
    (rows : list (list JsonPrimitive)) (w : LineWriter.t) (k : nat)
    (options : ResolvedOptions.t) :
  ResolvedOptions.delimiter options = d -> ResolvedOptions.lengthMarker options = m ->
  goodTable d header rows ->
  encodeArray key (map (fun cells => JObject (rowObject header cells)) rows) w k options
  = pushLines d m w
      ((k, LTable key (length rows) header) :: map (fun cells => (S k, LRow cells)) rows).
Proof.
  intros Hd Hm (Hne & Hnd & Hkeys & Hrows & Hcells).
  assert (Hlen : Forall (fun cells => length cells = length header) rows).
  { eapply Forall_impl; [|exact Hcells]. intros c [H _]. exact H. }
  unfold encodeArray, encodeArrayWith.
  destruct rows as [|cells rows]; [congruence|].
  change (map (fun c => JObject (rowObject header c)) (cells :: rows))
    with (JObject (rowObject header cells)
            :: map (fun c => JObject (rowObject header c)) rows).
  cbn [isArrayOfPrimitives isArrayOfArrays forallb isJsonPrimitive isJsonArray andb].
  assert (Hobj : isArrayOfObjects
                   (JObject (rowObject header cells)
                      :: map (fun c => JObject (rowObject header c)) rows) = true).
  { unfold isArrayOfObjects. cbn [forallb isJsonObject andb].
    apply forallb_forall. intros x Hx. apply in_map_iff in Hx.
    destruct Hx as (c & <- & _). reflexivity. }
  rewrite Hobj.
  assert (Has : map asObject
                  (JObject (rowObject header cells)
                     :: map (fun c => JObject (rowObject header c)) rows)
                = map (rowObject header) (cells :: rows)).
  { cbn [map asObject]. f_equal. rewrite map_map. reflexivity. }
  assert (Hx : extractTabularHeader
                 (JObject (rowObject header cells)
                    :: map (fun c => JObject (rowObject header c)) rows) = Some header).
  { unfold extractTabularHeader. cbn [isJsonObject negb asObject].
    inversion Hlen as [|? ? Hc _]; subst.
    rewrite keys_rowObject by exact Hc.
    destruct header as [|f header]; [congruence|].
    rewrite Has, isTabularArray_rows by exact Hlen. reflexivity. }
  rewrite Hx. unfold encodeArrayOfObjectsAsTabular. rewrite Has.
  rewrite (writeTabularRows_rows d m) by assumption.
  rewrite length_map, Hd, Hm, Nat.add_1_r.
  change ((k, LTable key (length (cells :: rows)) header)
            :: map (fun c => (S k, LRow c)) (cells :: rows))
    with ([(k, LTable key (length (cells :: rows)) header)]
            ++ map (fun c => (S k, LRow c)) (cells :: rows)).
  rewrite pushLines_app. reflexivity.
Qed.

(** *** The encoder on a list *)

(** On arrays of primitives, the loop over an array of arrays writes what
    the loop over a mixed array writes. *)
Lemma arraysAsItems_mixed (key : option str) (values : list JsonValue)
    (w : LineWriter.t) (k : nat) (options : ResolvedOptions.t) :
  forallb (fun arr => match arr with JArray a => isArrayOfPrimitives a | _ => false end)
    values = true ->
  encodeArrayOfArraysAsListItems key values w k options
  = encodeMixedArrayAsListItems key values w k options.
Proof.
  intro H. unfold encodeArrayOfArraysAsListItems, encodeMixedArrayAsListItems,
    encodeMixedArrayAsListItemsWith.
  generalize (LineWriter.push w k
                (formatHeader (length values) key None (ResolvedOptions.delimiter options)
                   (ResolvedOptions.lengthMarker options))) as w0.
  induction values as [|v values IH]; intro w0; [reflexivity|].
  cbn [forallb] in H. apply andb_true_iff in H. destruct H as [Hv H].
  cbn [fold_left]. destruct v as [p|a|o]; try discriminate.
  cbn [encodeListItemValue]. rewrite Hv. apply IH. exact H.
Qed.

Lemma encodeItems_lines (d : ascii) (m : bool) (options : ResolvedOptions.t)
    (items : list Doc) (k : nat) :
  Forall (fun item => forall w k, encodeListItemValue (docValue item) w k options
                                  = pushLines d m w (itemLines k item)) items ->
  forall w,
    fold_left (fun w item => encodeListItemValue item w k options) (map docValue items) w
    = pushLines d m w (itemsLines k items).
Proof.
  unfold itemsLines. induction 1 as [|item items Hitem _ IH]; intro w.
  - cbn [map fold_left flat_map]. rewrite pushLines_nil. reflexivity.
  - cbn [map fold_left flat_map]. rewrite Hitem, pushLines_app. apply IH.
Qed.

Lemma encodeEntries_lines (d : ascii) (m : bool) (options : ResolvedOptions.t)
    (entries : list (str * Doc)) (k : nat) :
  Forall (fun kv => forall key w k, encodeKeyValuePair key (docValue (snd kv)) w k options
                                    = pushLines d m w (entryLines k key (snd kv))) entries ->
  forall w,
    fold_left (fun w kv => encodeKeyValuePair (fst kv) (snd kv) w k options)
      (map (fun kv => (fst kv, docValue (snd kv))) entries) w
    = pushLines d m w (entriesLines k entries).
Proof.
  unfold entriesLines. induction 1 as [|[key doc] entries Hdoc _ IH]; intro w.
  - cbn [map fold_left flat_map]. rewrite pushLines_nil. reflexivity.
  - cbn [map fold_left flat_map fst snd] in *. rewrite Hdoc, pushLines_app. apply IH.
Qed.

Lemma encodeArray_list (d : ascii) (m : bool) (key : option str) (items : list Doc)
    (w : LineWriter.t) (k : nat) (options : ResolvedOptions.t) :
  ResolvedOptions.delimiter options = d -> ResolvedOptions.lengthMarker options = m ->
  listForm (map docValue items) ->
  Forall (fun item => forall w k, encodeListItemValue (docValue item) w k options
                                  = pushLines d m w (itemLines k item)) items ->
  encodeArray key (map docValue items) w k options
  = pushLines d m w ((k, LList key (length items)) :: itemsLines (S k) items).
Proof.
  intros Hd Hm [Hprim Htab] Hitems.
  assert (Hmixed : encodeMixedArrayAsListItems key (map docValue items) w k options
                   = pushLines d m w
                       ((k, LList key (length items)) :: itemsLines (S k) items)).
  { unfold encodeMixedArrayAsListItems, encodeMixedArrayAsListItemsWith.
    rewrite (encodeItems_lines d m options items (k + 1) Hitems).
    rewrite length_map, Hd, Hm, Nat.add_1_r.
    change ((k, LList key (length items)) :: itemsLines (S k) items)
      with ([(k, LList key (length items))] ++ itemsLines (S k) items).
    rewrite pushLines_app. reflexivity. }
  unfold encodeArray, encodeArrayWith.
  destruct (map docValue items) as [|v vs] eqn:E; [discriminate|].
  rewrite Hprim.
  destruct (isArrayOfArrays (v :: vs) && _) eqn:Ea.
  - apply andb_true_iff in Ea. destruct Ea as [_ Ea].
    rewrite arraysAsItems_mixed by exact Ea. exact Hmixed.
  - destruct (isArrayOfObjects (v :: vs)); [rewrite Htab|]; exact Hmixed.
Qed.

(** *** The encoder on a document *)

Lemma encoder_doc (d : ascii) (m : bool) (options : ResolvedOptions.t) (doc : Doc) :
  ResolvedOptions.delimiter options = d -> ResolvedOptions.lengthMarker options = m ->
  (goodDoc d doc ->
   forall key w k,
     encodeKeyValuePair key (docValue doc) w k options
     = pushLines d m w (entryLines k key doc))
  /\ (goodItem d doc ->
      forall w k,
        encodeListItemValue (docValue doc) w k options
        = pushLines d m w (itemLines k doc)).
Proof.
  intros Hd Hm.
  induction doc as [p|values|header rows|entries IH|items IH] using Doc_induction.
  - split; [intros _ key w k | intros _ w k].
    + cbn [docValue encodeKeyValuePair entryLines]. rewrite Hd. reflexivity.
    + cbn [docValue encodeListItemValue itemLines]. rewrite Hd. reflexivity.
  - split; [intros _ key w k | intros _ w k].
    + cbn [docValue entryLines].
      change (encodeKeyValuePair key (JArray (map JPrim values)) w k options)
        with (encodeArray (Some key) (map JPrim values) w k options).
      rewrite encodeArray_primitives, Hd, Hm. reflexivity.
    + cbn [docValue encodeListItemValue itemLines].
      rewrite isArrayOfPrimitives_map, asPrimitives_map, Hd, Hm. reflexivity.
  - split; [intros Hgood key w k | intros []].
    cbn [docValue entryLines].
    change (encodeKeyValuePair key
              (JArray (map (fun cells => JObject (rowObject header cells)) rows)) w k options)
      with (encodeArray (Some key)
              (map (fun cells => JObject (rowObject header cells)) rows) w k options).
    apply encodeArray_table; assumption.
  - assert (Hentries : forall es, incl es entries -> goodEntries d es ->
              Forall (fun kv => forall key w k,
                        encodeKeyValuePair key (docValue (snd kv)) w k options
                        = pushLines d m w (entryLines k key (snd kv))) es).
    { intros es Hincl Hgood. apply Forall_forall. intros kv Hin.
      rewrite Forall_forall in IH. destruct (IH kv (Hincl kv Hin)) as [Hkv _].
      unfold goodEntries in Hgood. rewrite Forall_forall in Hgood.
      apply Hkv. apply (Hgood kv Hin). }
    split.
    + intros Hgood key w k. cbn [goodDoc] in Hgood. destruct Hgood as (Hne & _ & _ & Hgood).
      apply goodDoc_entries in Hgood.
      cbn [docValue entryLines].
      destruct entries as [|e entries]; [congruence|].
      change (map (fun kv => (fst kv, docValue (snd kv))) (e :: entries))
        with ((fst e, docValue (snd e))
                :: map (fun kv => (fst kv, docValue (snd kv))) entries).
      cbn [encodeKeyValuePair].
      change ((fst e, docValue (snd e)) :: map (fun kv => (fst kv, docValue (snd kv))) entries)
        with (map (fun kv => (fst kv, docValue (snd kv))) (e :: entries)).
      change ((k, LKey key) :: flat_map (fun kv => entryLines (S k) (fst kv) (snd kv))
                                 (e :: entries))
        with ([(k, LKey key)] ++ entriesLines (S k) (e :: entries)).
      rewrite pushLines_app, <- push_line. cbn [lineText]. rewrite Nat.add_1_r.
      unfold encodeObjectWith.
      apply (encodeEntries_lines d m options (e :: entries) (S k)).
      apply Hentries; [apply incl_refl | exact Hgood].
    + intros Hgood w k.
      destruct entries as [|[key [p|values|header rows|es|its]] rest];
        cbn [goodItem] in Hgood; try contradiction.
      * destruct Hgood as (_ & _ & _ & Hgood). apply goodDoc_entries in Hgood.
        cbn [docValue map fst snd itemLines].
        cbn [encodeListItemValue encodeObjectAsListItemWith].
        change ((k, LItem (HProperty key p))
                  :: flat_map (fun kv => entryLines (S k) (fst kv) (snd kv)) rest)
          with ([(k, LItem (HProperty key p))] ++ entriesLines (S k) rest).
        rewrite pushLines_app, <- push_line. cbn [lineText headText].
        rewrite Nat.add_1_r, Hd.
        apply (encodeEntries_lines d m options rest (S k)).
        apply Hentries; [apply incl_tl, incl_refl | exact Hgood].
      * destruct Hgood as (_ & _ & _ & _ & Hgood). apply goodDoc_entries in Hgood.
        cbn [docValue map fst snd itemLines].
        cbn [encodeListItemValue encodeObjectAsListItemWith].
        rewrite isArrayOfPrimitives_map, asPrimitives_map.
        change ((k, LItem (HInline key values))
                  :: flat_map (fun kv => entryLines (S k) (fst kv) (snd kv)) rest)
          with ([(k, LItem (HInline key values))] ++ entriesLines (S k) rest).
        rewrite pushLines_app, <- push_line. cbn [lineText headText].
        rewrite Nat.add_1_r, Hd, Hm.
        apply (encodeEntries_lines d m options rest (S k)).
        apply Hentries; [apply incl_tl, incl_refl | exact Hgood].
  - split; [intros Hgood key w k | intros []].
    cbn [goodDoc] in Hgood. destruct Hgood as [Hform Hgood].
    apply goodDoc_items in Hgood.
    cbn [docValue entryLines].
    change (encodeKeyValuePair key (JArray (map docValue items)) w k options)
      with (encodeArray (Some key) (map docValue items) w k options).
    apply encodeArray_list; try assumption.
    apply Forall_forall. intros item Hin. rewrite Forall_forall in IH, Hgood.
    destruct (IH item Hin) as [_ Hitem]. apply Hitem. apply Hgood. exact Hin.
Qed.

Lemma encodeKeyValuePair_doc (d : ascii) (m : bool) (options : ResolvedOptions.t)
    (doc : Doc) :
  ResolvedOptions.delimiter options = d -> ResolvedOptions.lengthMarker options = m ->
  goodDoc d doc ->
  forall key w k,
    encodeKeyValuePair key (docValue doc) w k options
    = pushLines d m w (entryLines k key doc).
Proof. intros Hd Hm. apply (encoder_doc d m options doc Hd Hm). Qed.

Lemma encodeListItemValue_doc (d : ascii) (m : bool) (options : ResolvedOptions.t)
    (doc : Doc) :
  ResolvedOptions.delimiter options = d -> ResolvedOptions.lengthMarker options = m ->
  goodItem d doc ->
  forall w k,
    encodeListItemValue (docValue doc) w k options
    = pushLines d m w (itemLines k doc).
Proof. intros Hd Hm. apply (encoder_doc d m options doc Hd Hm). Qed.

(* ================================================================== *)
(** ** Documents: the parser *)
(* ================================================================== *)

(** *** The parser as a reader of tokens *)

Lemma hd_error_skipn (A : Type) (l : list A) (n : nat) :
  nth_error l n = hd_error (skipn n l).
Proof.
  revert l. induction n as [|n IH]; intros [|x l]; simpl; try reflexivity. apply IH.
Qed.

Lemma skipn_S_tl (A : Type) (l : list A) (n : nat) : skipn (S n) l = tl (skipn n l).
Proof.
  revert l. induction n as [|n IH]; intros [|x l]; try reflexivity.
  change (skipn (S (S n)) (x :: l)) with (skipn (S n) l). rewrite IH. reflexivity.
Qed.

Lemma skipn_nonempty (A : Type) (l : list A) (n : nat) :
  (n <? length l)%nat = match skipn n l with [] => false | _ => true end.
Proof.
  revert l. induction n as [|n IH]; intros [|x l]; try reflexivity. apply (IH l).
Qed.

Lemma reads_ret (A : Type) (a : A) (l : list Token.t) : reads A (Parser.ret a) l a l.
Proof. intros st H. exists st. split; [reflexivity | exact H]. Qed.

Lemma reads_bind (A B : Type) (m : Parser.M A) (k : A -> Parser.M B)
    (l l1 l2 : list Token.t) (a : A) (b : B) :
  reads A m l a l1 -> reads B (k a) l1 b l2 -> reads B (Parser.bind m k) l b l2.
Proof.
  intros Hm Hk st H. destruct (Hm st H) as (st1 & E1 & H1).
  destruct (Hk st1 H1) as (st2 & E2 & H2).
  exists st2. unfold Parser.bind. rewrite E1. split; assumption.
Qed.

Lemma reads_current (l : list Token.t) :
  reads _ Parser.current l (hd_error l) l.
Proof.
  intros st H. exists st. split; [|exact H].
  unfold Parser.current. rewrite hd_error_skipn.
  fold (ahead st). rewrite H. reflexivity.
Qed.

Lemma reads_advance (l : list Token.t) : reads _ Parser.advance l tt (tl l).
Proof.
  intros st H. eexists. split; [reflexivity|]. unfold ahead in *.
  cbn [Parser.tokens Parser.position]. rewrite skipn_S_tl, H. reflexivity.
Qed.

Lemma reads_inBounds (l : list Token.t) :
  reads _ Parser.inBounds l (match l with [] => false | _ => true end) l.
Proof.
  intros st H. exists st. split; [|exact H].
  unfold Parser.inBounds. rewrite skipn_nonempty.
  fold (ahead st). rewrite H. reflexivity.
Qed.

Lemma reads_tokensFrom (l : list Token.t) : reads _ Parser.tokensFrom l l l.
Proof.
  intros st H. exists st. split; [|exact H].
  unfold Parser.tokensFrom. fold (ahead st). rewrite H. reflexivity.
Qed.

Lemma reads_lift (A : Type) (r : result A) (a : A) (l : list Token.t) :
  r = Ok a -> reads A (Parser.lift r) l a l.
Proof. intros -> st H. exists st. split; [reflexivity | exact H]. Qed.

(** One step through the body of a method. *)
Ltac rstep :=
  lazymatch goal with
  | |- reads _ (Parser.bind Parser.inBounds _) _ _ _ =>
      eapply reads_bind; [apply reads_inBounds|]
  | |- reads _ (Parser.bind Parser.current _) _ _ _ =>
      eapply reads_bind; [apply reads_current|]
  | |- reads _ (Parser.bind Parser.advance _) _ _ _ =>
      eapply reads_bind; [apply reads_advance|]
  | |- reads _ (Parser.bind Parser.tokensFrom _) _ _ _ =>
      eapply reads_bind; [apply reads_tokensFrom|]
  | |- reads _ (Parser.ret _) _ _ _ => apply reads_ret
  end;
  cbv beta;
  cbn [hd_error tl app negb andb orb
       Scanner.mkToken Token.type Token.indent Token.value Token.hadTabIndent
       Token.arrayInfo Token.line TokenType_eqb
       Parser.typeIs Parser.deeperThan Parser.isTabSibling Parser.opensBlock
       Parser.isCompactNested Parser.valueOf Parser.nextIndentOf Parser.indentOf].

Lemma objectLoop_end (fuel : nat) (b : Z) (acc : JsonObject) (l : list Token.t) :
  ends b l -> reads _ (Parser.parseObjectLoop (S fuel) b acc) l acc l.
Proof.
  intro H. cbn [Parser.parseObjectLoop]. rstep. rstep.
  destruct l as [|t l]; cbn [hd_error]; [rstep|]. cbn [negb].
  destruct H as [H|H].
  - rewrite H. cbn [TokenType_eqb]. rstep.
  - destruct (TokenType_eqb (Token.type t) EOF); [rstep|].
    apply Z.ltb_lt in H. rewrite H. rstep.
Qed.

Lemma reads_lift_bind (A B : Type) (r : result A) (a : A) (k : A -> Parser.M B)
    (l l2 : list Token.t) (b : B) :
  r = Ok a -> reads B (k a) l b l2 -> reads B (Parser.bind (Parser.lift r) k) l b l2.
Proof. intros Hr Hk. eapply reads_bind; [apply reads_lift; exact Hr | exact Hk]. Qed.

(** *** The steps of the loop of parseObject *)

Lemma objectLoop_property (fuel : nat) (b : Z) (acc : JsonObject) (key text : str)
    (p : JsonPrimitive) (i : nat) (l : list Token.t) (a : JsonObject)
    (rest : list Token.t) :
  Parser.parsePrimitive text = Ok p ->
  reads _ (Parser.parseObjectLoop fuel b (Obj.set acc key (JPrim p))) l a rest ->
  reads _ (Parser.parseObjectLoop (S fuel) b acc)
    (Scanner.mkToken KEY key b i None false
       :: Scanner.mkToken COLON (lit ":") b i None false
       :: Scanner.mkToken VALUE text b i None false :: l) a rest.
Proof.
  intros Hp Hnext. cbn [Parser.parseObjectLoop]. rstep. rstep.
  rewrite Z.ltb_irrefl. cbn [andb]. rstep. rstep. rstep. rstep.
  rewrite Z.ltb_irrefl, !andb_false_r. cbn [andb orb].
  eapply reads_lift_bind; [exact Hp|]. rstep. exact Hnext.
Qed.

(** The header of an inline array with a key. *)
Lemma parseArray_reads_inline (fuel : nat) (token : Token.t) (key : option str)
    (values : list JsonPrimitive) (d : Delimiter) (l : list Token.t) :
  Token.arrayInfo token = Some (inlineInfo key values (delimiterChar d)) ->
  Forall (fun v => Parser.parsePrimitive (encodePrimitive v (delimiterChar d)) = Ok v)
    values ->
  reads _ (Parser.parseArray (S fuel)) (token :: l) (map JPrim values) l.
Proof.
  intros Hinfo Hread st Hst. eexists. split.
  - apply (parseArray_inline fuel st token key values d); [|exact Hinfo | exact Hread].
    rewrite hd_error_skipn. fold (ahead st). rewrite Hst. reflexivity.
  - unfold ahead in *. cbn [Parser.tokens Parser.position].
    rewrite skipn_S_tl, Hst. reflexivity.
Qed.

Lemma headerKey_plain (type : TokenType) (text : str) (b : Z) (i : nat)
    (info : ArrayInfo.t) (key : str) :
  ArrayInfo.key info = Some key -> plainKey key = true ->
  Parser.headerKey (Scanner.mkToken type text b i (Some info) false) = Some key.
Proof.
  intros Hk Hp. unfold Parser.headerKey. cbn [Scanner.mkToken Token.arrayInfo].
  rewrite Hk.
  destruct (plainKey_facts key Hp) as (_ & _ & _ & _ & c & rest & -> & _). reflexivity.
Qed.

Lemma objectLoop_array (fuel : nat) (b : Z) (acc : JsonObject) (key text : str)
    (values : list JsonPrimitive) (d : Delimiter) (i : nat) (l : list Token.t)
    (a : JsonObject) (rest : list Token.t) :
  plainKey key = true ->
  Forall (fun v => Parser.parsePrimitive (encodePrimitive v (delimiterChar d)) = Ok v)
    values ->
  reads _ (Parser.parseObjectLoop (S fuel) b (Obj.set acc key (JArray (map JPrim values))))
    l a rest ->
  reads _ (Parser.parseObjectLoop (S (S fuel)) b acc)
    (Scanner.mkToken ARRAY_HEADER text b i
       (Some (inlineInfo (Some key) values (delimiterChar d))) false :: l) a rest.
Proof.
  intros Hk Hread Hnext.
  remember (S fuel) as fuel' eqn:Ef. cbn [Parser.parseObjectLoop]. rstep. rstep.
  rewrite Z.ltb_irrefl. cbn [andb].
  rewrite (headerKey_plain ARRAY_HEADER text b i
             (inlineInfo (Some key) values (delimiterChar d)) key eq_refl Hk).
  eapply reads_bind; [|exact Hnext]. subst fuel'.
  apply (parseArray_reads_inline fuel _ (Some key) values d); [reflexivity | exact Hread].
Qed.

(** *** The rows of a table *)

Lemma fieldKey_facts (key : str) :
  fieldKey key = true -> plainKey key = true /\ key <> lit "__proto__".
Proof.
  unfold fieldKey. intro H. apply andb_true_iff in H. destruct H as [H1 H2].
  split; [exact H1|]. intro E. apply negb_true_iff in H2.
  rewrite E, str_eqb_refl in H2. discriminate.
Qed.

Lemma entryKey_facts (key : str) (doc : Doc) :
  entryKey key doc = true -> key <> lit "__proto__" /\ Obj.arrayIndex key = None.
Proof.
  assert (Hf : fieldKey key = true -> key <> lit "__proto__" /\ Obj.arrayIndex key = None).
  { intro H. apply fieldKey_facts in H. destruct H as [Hp Hn].
    split; [exact Hn | apply plainKey_not_index; exact Hp]. }
  assert (Hg : goodKey key = true -> key <> lit "__proto__" /\ Obj.arrayIndex key = None).
  { intro H. apply goodKey_facts in H. tauto. }
  destruct doc; cbn [entryKey]; assumption.
Qed.

Lemma parseCells_row (d : ascii) (fields : list str) (cells : list JsonPrimitive)
    (pre : list str) (obj : JsonObject) :
  length cells = length fields ->
  Forall (fun v => Parser.parsePrimitive (encodePrimitive v d) = Ok v) cells ->
  Parser.parseCells fields (pre ++ map (fun v => encodePrimitive v d) cells) (length pre) obj
  = Ok (fold_left (fun r kv => Obj.set r (fst kv) (snd kv)) (rowObject fields cells) obj).
Proof.
  revert cells pre obj.
  induction fields as [|f fields IH]; intros [|c cells] pre obj Hlen Hread;
    simpl in Hlen; try discriminate; [reflexivity|].
  inversion Hread as [|? ? Hc Hcells]; subst.
  cbn [Parser.parseCells map rowObject combine fold_left fst snd].
  assert (Hcell : Parser.cellAt (pre ++ encodePrimitive c d
                                   :: map (fun v => encodePrimitive v d) cells) (length pre)
                  = encodePrimitive c d).
  { unfold Parser.cellAt. rewrite nth_error_here. cbn [nth_error].
    apply encodePrimitive_trim. }
  rewrite Hcell, Hc. cbn [rbind].
  replace (pre ++ encodePrimitive c d :: map (fun v => encodePrimitive v d) cells)
    with ((pre ++ [encodePrimitive c d]) ++ map (fun v => encodePrimitive v d) cells)
    by (rewrite <- app_assoc; reflexivity).
  replace (S (length pre)) with (length (pre ++ [encodePrimitive c d]))
    by (rewrite length_app; simpl; lia).
  apply IH; [lia | exact Hcells].
Qed.

Lemma rowObject_rebuilt (header : list str) (cells : list JsonPrimitive) :
  length cells = length header -> NoDup header ->
  Forall (fun f => fieldKey f = true) header ->
  fold_left (fun r kv => Obj.set r (fst kv) (snd kv)) (rowObject header cells) []
  = rowObject header cells.
Proof.
  intros Hlen Hnd Hkeys.
  rewrite rebuild_object; [reflexivity | | |].
  - cbn [Obj.keys map app]. rewrite keys_rowObject by exact Hlen. exact Hnd.
  - rewrite keys_rowObject by exact Hlen. intro Hin.
    rewrite Forall_forall in Hkeys. apply Hkeys in Hin.
    apply fieldKey_facts in Hin. destruct Hin as [_ Hin]. apply Hin. reflexivity.
  - apply Forall_forall. intros [k v] Hin. cbn [fst].
    apply plainKey_not_index.
    assert (Hk : In k header).
    { rewrite <- (keys_rowObject header cells Hlen). unfold Obj.keys.
      apply in_map_iff. exists (k, v). split; [reflexivity | exact Hin]. }
    rewrite Forall_forall in Hkeys. apply Hkeys in Hk. apply fieldKey_facts in Hk. tauto.
Qed.

Lemma parseRows_reads (d : Delimiter) (header : list str) (b b' : Z)
    (rows : list (list JsonPrimitive)) (ts : list Token.t) (acc : JsonArray)
    (l : list Token.t) :
  (b < b')%Z -> NoDup header -> Forall (fun f => fieldKey f = true) header ->
  Forall (fun cells => length cells = length header
                       /\ Forall (cell (delimiterChar d)) cells) rows ->
  rowTokens (delimiterChar d) b' rows ts ->
  reads _ (Parser.parseRows (length rows) header (delimiterChar d) b acc) (ts ++ l)
    (acc ++ map (fun cells => JObject (rowObject header cells)) rows) l.
Proof.
  intros Hb Hnd Hkeys Hrows Hts. revert acc Hrows.
  induction Hts as [|cells t rows ts (Hty & Hind & Hval) _ IH]; intros acc Hrows.
  - cbn [length Parser.parseRows map app]. rewrite app_nil_r. apply reads_ret.
  - inversion Hrows as [|x y [Hlen Hcells] Hrows' [Ex Ey]]. clear Hrows.
    cbn [length Parser.parseRows app]. rstep.
    rewrite Hty, Hind, Hval. cbn [TokenType_eqb].
    assert (Hle : (b' <=? b)%Z = false) by (apply Z.leb_gt; exact Hb).
    rewrite Hle. unfold Parser.splitByDelimiter, splitByDelimiter.
    pose proof (split_joined_primitives d cells []) as Hsplit. cbn [app] in Hsplit.
    rewrite Hsplit, length_map, Hlen, Nat.eqb_refl. cbn [negb].
    assert (Hread : Forall (fun v => Parser.parsePrimitive
                                       (encodePrimitive v (delimiterChar d)) = Ok v) cells).
    { eapply Forall_impl; [|exact Hcells]. intros v [[Hv _] _]. exact Hv. }
    pose proof (parseCells_row (delimiterChar d) header cells [] [] Hlen Hread) as Hc.
    cbn [app length] in Hc. rewrite rowObject_rebuilt in Hc by assumption.
    eapply reads_lift_bind; [exact Hc|]. rstep.
    cbn [map]. replace (acc ++ JObject (rowObject header cells)
                          :: map (fun c => JObject (rowObject header c)) rows)
      with ((acc ++ [JObject (rowObject header cells)])
              ++ map (fun c => JObject (rowObject header c)) rows)
      by (rewrite <- app_assoc; reflexivity).
    apply IH. exact Hrows'.
Qed.

Lemma countRows_rows (d : ascii) (b b' : Z) (rows : list (list JsonPrimitive))
    (ts l : list Token.t) :
  (b < b')%Z -> rowTokens d b' rows ts -> shallow b l ->
  Parser.countRows (ts ++ l) b = length rows.
Proof.
  intros Hb Hts Hl. induction Hts as [|cells t rows ts (Hty & Hind & _) _ IH].
  - cbn [app length]. destruct l as [|t l]; [reflexivity|].
    cbn [Parser.countRows]. destruct Hl as [-> | Hl]; [reflexivity|].
    destruct (TokenType_eqb (Token.type t) EOF); [reflexivity|].
    apply Z.leb_le in Hl. rewrite Hl. reflexivity.
  - cbn [app length Parser.countRows]. rewrite Hty, Hind.
    assert (Hle : (b' <=? b)%Z = false) by (apply Z.leb_gt; exact Hb).
    rewrite Hle. cbn [TokenType_eqb]. rewrite IH. reflexivity.
Qed.

(** The header of a table and its rows. *)
Lemma parseArray_reads_table (fuel : nat) (d : Delimiter) (key : option str) (text : str)
    (header : list str) (rows : list (list JsonPrimitive)) (b b' : Z) (i : nat)
    (ts l : list Token.t) :
  (b < b')%Z -> goodTable (delimiterChar d) header rows ->
  rowTokens (delimiterChar d) b' rows ts -> shallow b l ->
  reads _ (Parser.parseArray (S fuel))
    (Scanner.mkToken ARRAY_HEADER text b i
       (Some (tableInfo key (length rows) header (delimiterChar d))) false :: ts ++ l)
    (map (fun cells => JObject (rowObject header cells)) rows) l.
Proof.
  intros Hb (Hne & Hnd & Hkeys & Hrows & Hcells) Hts Hl.
  cbn [Parser.parseArray]. rstep.
  cbn [tableInfo ArrayInfo.length ArrayInfo.fields ArrayInfo.delimiter
       ArrayInfo.inlineValues]. cbv zeta. rstep.
  assert (Hn : N.eqb (N.of_nat (length rows)) 0 = false).
  { apply N.eqb_neq. destruct rows; [congruence | simpl; lia]. }
  rewrite Hn. destruct header as [|f header]; [congruence|].
  rstep. rewrite (countRows_rows (delimiterChar d) b b' rows ts l Hb Hts Hl).
  rewrite N.eqb_refl, Nnat.Nat2N.id. cbn [negb].
  apply (parseRows_reads d (f :: header) b b' rows ts [] l); assumption.
Qed.

Lemma objectLoop_table (fuel : nat) (d : Delimiter) (b b' : Z) (acc : JsonObject)
    (key text : str) (header : list str) (rows : list (list JsonPrimitive)) (i : nat)
    (ts l : list Token.t) (a : JsonObject) (rest : list Token.t) :
  plainKey key = true -> (b < b')%Z -> goodTable (delimiterChar d) header rows ->
  rowTokens (delimiterChar d) b' rows ts -> shallow b l ->
  reads _ (Parser.parseObjectLoop (S fuel) b
             (Obj.set acc key
                (JArray (map (fun cells => JObject (rowObject header cells)) rows))))
    l a rest ->
  reads _ (Parser.parseObjectLoop (S (S fuel)) b acc)
    (Scanner.mkToken ARRAY_HEADER text b i
       (Some (tableInfo (Some key) (length rows) header (delimiterChar d))) false
       :: ts ++ l) a rest.
Proof.
  intros Hk Hb Hgood Hts Hl Hnext.
  remember (S fuel) as fuel' eqn:Ef. cbn [Parser.parseObjectLoop]. rstep. rstep.
  rewrite Z.ltb_irrefl. cbn [andb].
  rewrite (headerKey_plain ARRAY_HEADER text b i
             (tableInfo (Some key) (length rows) header (delimiterChar d)) key eq_refl Hk).
  eapply reads_bind; [|exact Hnext]. subst fuel'.
  apply (parseArray_reads_table fuel d (Some key) text header rows b b' i ts l); assumption.
Qed.

(** A key that opens a nested object. *)
Lemma objectLoop_nested (fuel : nat) (b b' : Z) (acc : JsonObject) (key key1 : str)
    (i i1 : nat) (more l : list Token.t) (o a : JsonObject) (rest : list Token.t) :
  (b < b')%Z ->
  reads _ (Parser.parseObjectLoop fuel b' [])
    (Scanner.mkToken KEY key1 b' i1 None false :: more) o l ->
  reads _ (Parser.parseObjectLoop fuel b (Obj.set acc key (JObject o))) l a rest ->
  reads _ (Parser.parseObjectLoop (S fuel) b acc)
    (Scanner.mkToken KEY key b i None false
       :: Scanner.mkToken COLON (lit ":") b i None false
       :: Scanner.mkToken KEY key1 b' i1 None false :: more) a rest.
Proof.
  intros Hb Hnested Hnext. cbn [Parser.parseObjectLoop]. rstep. rstep.
  rewrite Z.ltb_irrefl. cbn [andb]. rstep. rstep. rstep. rstep.
  apply Z.ltb_lt in Hb. rewrite Hb. cbn [orb]. rewrite ?andb_false_r.
  eapply reads_bind; [exact Hnested | exact Hnext].
Qed.

(** *** The tokens of a document *)

Lemma linesTokens_app (d : ascii) (m : bool) (n i : nat) (a b : list (nat * Line)) :
  linesTokens d m n i (a ++ b)
  = linesTokens d m n i a ++ linesTokens d m n (i + length a) b.
Proof.
  revert i. induction a as [|kl a IH]; intro i.
  - cbn [app linesTokens length]. rewrite Nat.add_0_r. reflexivity.
  - cbn [app linesTokens length]. rewrite IH, <- app_assoc.
    replace (S i + length a) with (i + S (length a)) by lia. reflexivity.
Qed.

Lemma rowTokens_lines (d : ascii) (m : bool) (n k i : nat)
    (rows : list (list JsonPrimitive)) :
  rowTokens d (Z.of_nat (k * n)) rows
    (linesTokens d m n i (map (fun cells => (k, LRow cells)) rows)).
Proof.
  revert i. induction rows as [|cells rows IH]; intro i; [constructor|].
  cbn [map linesTokens lineTokens fst snd app]. constructor; [|apply IH].
  repeat split.
Qed.

Lemma lineTokens_head (d : ascii) (m : bool) (b : Z) (i : nat) (l : Line) :
  exists t ts, lineTokens d m b i l = t :: ts /\ Token.indent t = b.
Proof. destruct l; cbn [lineTokens]; eexists _, _; split; reflexivity. Qed.

Lemma entryLines_head (k : nat) (key : str) (doc : Doc) :
  exists l ls, entryLines k key doc = (k, l) :: ls.
Proof. destruct doc; cbn [entryLines]; eauto. Qed.

(** The tokens of properties at depth [k] start at the indentation of that
    depth. *)
Lemma entriesTokens_shallow (d : ascii) (m : bool) (n k i : nat)
    (entries : list (str * Doc)) (l : list Token.t) :
  ends (Z.of_nat (k * n)) l ->
  shallow (Z.of_nat (k * n)) (linesTokens d m n i (entriesLines k entries) ++ l).
Proof.
  intro Hl. destruct entries as [|[key doc] entries].
  - cbn [entriesLines flat_map linesTokens app]. destruct l as [|t l]; [exact I|].
    destruct Hl as [Hl|Hl]; [left; exact Hl | right; lia].
  - unfold entriesLines. cbn [flat_map fst snd].
    destruct (entryLines_head k key doc) as (l0 & ls & ->).
    cbn [app linesTokens fst snd].
    destruct (lineTokens_head d m (Z.of_nat (k * n)) i l0) as (t & ts & -> & Ht).
    cbn [app shallow]. right. lia.
Qed.

Lemma shallow_ends (b b' : Z) (l : list Token.t) :
  (b < b')%Z -> shallow b l -> ends b' l.
Proof.
  intros Hb Hl. destruct l as [|t l]; [exact I|].
  destruct Hl as [Hl|Hl]; [left; exact Hl | right; lia].
Qed.

Lemma linesTokens_length (d : ascii) (m : bool) (n i : nat) (ls : list (nat * Line)) :
  length ls <= length (linesTokens d m n i ls).
Proof.
  revert i. induction ls as [|[k l] ls IH]; intro i; [simpl; lia|].
  cbn [linesTokens length fst snd]. rewrite length_app.
  destruct (lineTokens_head d m (Z.of_nat (k * n)) i l) as (t & ts & -> & _).
  specialize (IH (S i)). simpl. lia.
Qed.

Lemma entryTokens_nonempty (d : ascii) (m : bool) (n k i : nat) (key : str) (doc : Doc) :
  1 <= length (linesTokens d m n i (entryLines k key doc)).
Proof.
  destruct (entryLines_head k key doc) as (l0 & ls & E).
  pose proof (linesTokens_length d m n i (entryLines k key doc)) as H.
  rewrite E in H at 1. simpl in H. lia.
Qed.

(** *** The values of the properties *)

Lemma fold_set_entries (entries : list (str * Doc)) (acc : JsonObject) :
  fold_left (fun r kv => Obj.set r (fst kv) (docValue (snd kv))) entries acc
  = fold_left (fun r kv => Obj.set r (fst kv) (snd kv))
      (map (fun kv => (fst kv, docValue (snd kv))) entries) acc.
Proof.
  revert acc. induction entries as [|[k x] entries IH]; intro acc; [reflexivity|].
  cbn [map fold_left fst snd]. apply IH.
Qed.

Lemma entries_rebuilt (d : ascii) (entries : list (str * Doc)) :
  NoDup (map fst entries) -> goodEntries d entries ->
  fold_left (fun r kv => Obj.set r (fst kv) (docValue (snd kv))) entries []
  = map (fun kv => (fst kv, docValue (snd kv))) entries.
Proof.
  intros Hnd Hgood. rewrite fold_set_entries.
  assert (Hkeys : Obj.keys (map (fun kv => (fst kv, docValue (snd kv))) entries)
                  = map fst entries).
  { unfold Obj.keys. rewrite map_map. reflexivity. }
  rewrite rebuild_object; [reflexivity | | |].
  - cbn [Obj.keys map app]. fold (Obj.keys (map (fun kv => (fst kv, docValue (snd kv))) entries)).
    rewrite Hkeys. exact Hnd.
  - rewrite Hkeys. intro Hin. apply in_map_iff in Hin. destruct Hin as (kv & E & Hin).
    unfold goodEntries in Hgood. rewrite Forall_forall in Hgood.
    destruct (Hgood kv Hin) as [Hk _]. apply entryKey_facts in Hk.
    destruct Hk as [Hk _]. apply Hk. exact E.
  - apply Forall_forall. intros [k v] Hin. cbn [fst].
    apply in_map_iff in Hin. destruct Hin as (kv & E & Hin). injection E as <- _.
    unfold goodEntries in Hgood. rewrite Forall_forall in Hgood.
    destruct (Hgood kv Hin) as [Hk _]. apply entryKey_facts in Hk. tauto.
Qed.

(** *** The loop of parseObject on the properties of a document *)

Lemma objectLoop_entries (d : ascii) (m : bool) (n : nat) (entries : list (str * Doc)) :
  Forall (fun kv => goodDoc d (snd kv) -> entryReads d m n (snd kv)) entries ->
  goodEntries d entries ->
  forall k i fuel acc l,
    ends (Z.of_nat (k * n)) l ->
    2 * length (linesTokens d m n i (entriesLines k entries)) < fuel ->
    reads _ (Parser.parseObjectLoop fuel (Z.of_nat (k * n)) acc)
      (linesTokens d m n i (entriesLines k entries) ++ l)
      (fold_left (fun r kv => Obj.set r (fst kv) (docValue (snd kv))) entries acc) l.
Proof.
  intros HP Hgood k. induction entries as [|[key doc] entries IH];
    intros i fuel acc l Hl Hfuel.
  - destruct fuel as [|fuel]; [simpl in Hfuel; lia|].
    cbn [entriesLines flat_map linesTokens app fold_left]. apply objectLoop_end. exact Hl.
  - inversion HP as [|? ? Hdoc HP']; subst.
    inversion Hgood as [|? ? [Hkey Hgd] Hgood']; subst. cbn [fst snd] in *.
    destruct fuel as [|fuel]; [simpl in Hfuel; lia|].
    change (entriesLines k ((key, doc) :: entries))
      with (entryLines k key doc ++ entriesLines k entries) in *.
    rewrite linesTokens_app in *. rewrite length_app in Hfuel.
    pose proof (entryTokens_nonempty d m n k i key doc) as H1.
    rewrite <- app_assoc. cbn [fold_left fst snd].
    apply (Hdoc Hgd); [exact Hkey | | lia |].
    + apply entriesTokens_shallow. exact Hl.
    + apply IH; [exact HP' | exact Hgood' | exact Hl | lia].
Qed.

Lemma level_lt (n k : nat) : 0 < n -> (Z.of_nat (k * n) < Z.of_nat (S k * n))%Z.
Proof. intro H. apply Nat2Z.inj_lt. simpl. lia. Qed.

(** *** The loop of parseListItems on the items of a list *)

Lemma headerString_no_bracket (s : str) :
  Js.includes s "[" = false -> Parser.parseArrayHeaderString s = Ok None.
Proof.
  intro H. unfold Parser.parseArrayHeaderString.
  rewrite matchArrayPattern_no_bracket by assumption. reflexivity.
Qed.

Lemma listLoop_end (fuel : nat) (b : Z) (acc : JsonArray) (l : list Token.t) :
  ends b l -> reads _ (Parser.parseListItemsLoop (S fuel) b acc) l acc l.
Proof.
  intro H. cbn [Parser.parseListItemsLoop]. rstep. rstep.
  destruct l as [|t l]; cbn [hd_error]; [rstep|]. cbn [negb].
  destruct H as [H|H].
  - rewrite H. cbn [TokenType_eqb]. rstep.
  - destruct (TokenType_eqb (Token.type t) EOF); [rstep|].
    destruct (negb (TokenType_eqb (Token.type t) LIST_ITEM)); [rstep|].
    apply Z.ltb_lt in H. rewrite H. rstep.
Qed.

(** An item that is a primitive. *)
Lemma listLoop_prim (fuel : nat) (b b' : Z) (acc : JsonArray) (d : ascii)
    (p : JsonPrimitive) (i : nat) (l : list Token.t) (a : JsonArray)
    (rest : list Token.t) :
  (b <= b')%Z -> cell d p ->
  reads _ (Parser.parseListItemsLoop fuel b (acc ++ [JPrim p])) l a rest ->
  reads _ (Parser.parseListItemsLoop (S fuel) b acc)
    (Scanner.mkToken LIST_ITEM (encodePrimitive p d) b' i None false :: l) a rest.
Proof.
  intros Hb Hcell Hnext. pose proof Hcell as [[Hp Hbr] _].
  cbn [Parser.parseListItemsLoop]. rstep. rstep.
  assert (Hlt : (b' <? b)%Z = false) by (apply Z.ltb_ge; exact Hb).
  rewrite Hlt. cbv zeta. rstep.
  eapply reads_lift_bind; [apply headerString_no_bracket; exact Hbr|].
  cbn [Parser.unkeyedMatch].
  assert (Hcolon : findMainColon (encodePrimitive p d) = None).
  { unfold findMainColon. pose proof (colon_skip_cell d p [] 0 Hcell) as H.
    rewrite app_nil_r in H. rewrite H. reflexivity. }
  unfold Parser.findMainColon. rewrite Hcolon.
  eapply reads_lift_bind; [apply headerString_no_bracket; exact Hbr|]. cbv iota.
  eapply reads_lift_bind; [exact Hp|]. exact Hnext.
Qed.

(** The text of an inline array without a key, as the parser reads it. *)
Lemma headerString_inline (values : list JsonPrimitive) (d : Delimiter) (m : bool) :
  exists info,
    Parser.parseArrayHeaderString (encodeInlineArrayLine values (delimiterChar d) None m)
    = Ok (Some info)
    /\ Parser.unkeyedMatch (Some info) = Some info
    /\ (Forall (fun v => Parser.parsePrimitive (encodePrimitive v (delimiterChar d)) = Ok v)
          values ->
        Parser.parseInlineArray info = Ok (map JPrim values)).
Proof.
  rewrite encodeInlineArrayLine_eq. unfold Parser.parseArrayHeaderString.
  destruct (inlineRest_value values d) as [Hv Hl].
  rewrite (matchArrayPattern_header [] m (length values) d
             (inlineRest values (delimiterChar d)) eq_refl Hl).
  unfold headerFields. cbn [HeaderMatch.fieldsStr rbind HeaderMatch.key trimmedKey
                            HeaderMatch.valueAfter].
  eexists. split; [reflexivity|]. split; [reflexivity|].
  intro Hread. unfold Parser.parseInlineArray.
  cbn [Parser.HeaderInfo.fields Parser.HeaderInfo.valuesStr Parser.HeaderInfo.delimiter
       Parser.nonEmptyFields].
  unfold headerDelimiter. cbn [HeaderMatch.delimiterInHeader].
  assert (Hd : match match d with DComma => None | _ => Some (delimiterChar d) end with
               | Some x => x | None => ","%char end = delimiterChar d)
    by (destruct d; reflexivity).
  rewrite Hd, Hv.
  assert (Hsplit : Parser.splitByDelimiter
                     match values with
                     | [] => []
                     | _ => encodeAndJoinPrimitives values (delimiterChar d)
                     end (delimiterChar d)
                   = map (fun v => encodePrimitive v (delimiterChar d)) values).
  { destruct values as [|v vs]; [reflexivity|].
    unfold Parser.splitByDelimiter, splitByDelimiter.
    apply (split_joined_primitives d (v :: vs) []). }
  rewrite Hsplit. apply parsePrimitives_encoded. exact Hread.
Qed.

(** An item that is an array of primitives. *)
Lemma listLoop_array (fuel : nat) (b b' : Z) (acc : JsonArray) (d : Delimiter) (m : bool)
    (values : list JsonPrimitive) (i : nat) (l : list Token.t) (a : JsonArray)
    (rest : list Token.t) :
  (b <= b')%Z ->
  Forall (fun v => Parser.parsePrimitive (encodePrimitive v (delimiterChar d)) = Ok v)
    values ->
  reads _ (Parser.parseListItemsLoop fuel b (acc ++ [JArray (map JPrim values)])) l a rest ->
  reads _ (Parser.parseListItemsLoop (S fuel) b acc)
    (Scanner.mkToken LIST_ITEM (encodeInlineArrayLine values (delimiterChar d) None m)
       b' i None false :: l) a rest.
Proof.
  intros Hb Hread Hnext.
  destruct (headerString_inline values d m) as (info & Hinfo & Hun & Hvalues).
  cbn [Parser.parseListItemsLoop]. rstep. rstep.
  assert (Hlt : (b' <? b)%Z = false) by (apply Z.ltb_ge; exact Hb).
  rewrite Hlt. cbv zeta. rstep.
  eapply reads_lift_bind; [exact Hinfo|]. rewrite Hun.
  eapply reads_lift_bind; [apply Hvalues; exact Hread|]. exact Hnext.
Qed.

(** The colon of the text of a property, and the texts on both sides. *)
Lemma propertyText_split (key text : str) :
  goodKey key = true -> Js.trim text = text ->
  findMainColon (encodeKey key ++ lit ": " ++ text) = Some (length (encodeKey key))
  /\ Js.trim (Js.substring (encodeKey key ++ lit ": " ++ text) 0
                (Z.of_nat (length (encodeKey key)))) = encodeKey key
  /\ Js.trim (Js.substringFrom (encodeKey key ++ lit ": " ++ text)
                (Z.of_nat (length (encodeKey key)) + 1))
     = text.
Proof.
  intros Hk Ht. destruct (keyText_facts key Hk) as (_ & Htrim & _ & Hcolon & _).
  split; [|split].
  - apply (Hcolon (SPACE :: text)).
  - rewrite substring_prefix. exact Htrim.
  - replace (encodeKey key ++ lit ": " ++ text)
      with ((encodeKey key ++ lit ":") ++ SPACE :: text)
      by (rewrite <- app_assoc; reflexivity).
    replace (Z.of_nat (length (encodeKey key)) + 1)%Z
      with (Z.of_nat (length (encodeKey key ++ lit ":")))
      by (rewrite length_app; simpl; lia).
    rewrite substringFrom_suffix, trim_space. exact Ht.
Qed.

Lemma set_first (A : Type) (key : str) (v : A) :
  goodKey key = true -> Obj.set [] key v = [(key, v)].
Proof.
  intro Hk. destruct (goodKey_facts key Hk) as (_ & _ & Hproto & Hidx).
  unfold Obj.set.
  assert (E : Js.str_eqb key (lit "__proto__") = false).
  { destruct (Js.str_eqb key (lit "__proto__")) eqn:E; [|reflexivity].
    apply str_eqb_eq in E. contradiction. }
  rewrite E. cbn [Obj.has]. rewrite Hidx. reflexivity.
Qed.

(** An item that is an object: its first property on the line of the
    dash, the others on the lines below. *)
Lemma listLoop_object (fuel : nat) (b b' : Z) (acc : JsonArray) (d : ascii) (key : str)
    (p : JsonPrimitive) (i : nat) (l l' : list Token.t) (o : JsonObject) (a : JsonArray)
    (rest : list Token.t) :
  (b <= b')%Z -> goodKey key = true -> readable d p ->
  (if Parser.hasMoreProperties (hd_error l) b'
   then reads _ (Parser.parseObjectLoop fuel (Parser.indentOr0 (hd_error l)) []) l o l'
   else o = [] /\ l' = l) ->
  reads _ (Parser.parseListItemsLoop fuel b
             (acc ++ [JObject (Obj.assign [(key, JPrim p)] o)])) l' a rest ->
  reads _ (Parser.parseListItemsLoop (S fuel) b acc)
    (Scanner.mkToken LIST_ITEM (encodeKey key ++ lit ": " ++ encodePrimitive p d)
       b' i None false :: l) a rest.
Proof.
  intros Hb Hkey [Hp Hbr] Hmore Hnext.
  destruct (keyText_facts key Hkey) as (_ & _ & Hkbr & _ & _ & Hu).
  destruct (propertyText_split key (encodePrimitive p d) Hkey (encodePrimitive_trim p d))
    as (Hcolon & Hleft & Hright).
  assert (Hline : Js.includes (encodeKey key ++ lit ": " ++ encodePrimitive p d) "["
                  = false).
  { rewrite !includes_app, Hkbr, Hbr. reflexivity. }
  cbn [Parser.parseListItemsLoop]. rstep. rstep.
  assert (Hlt : (b' <? b)%Z = false) by (apply Z.ltb_ge; exact Hb).
  rewrite Hlt. cbv zeta. rstep.
  eapply reads_lift_bind; [apply headerString_no_bracket; exact Hline|].
  cbn [Parser.unkeyedMatch]. unfold Parser.findMainColon. rewrite Hcolon, Hleft, Hright.
  eapply reads_lift_bind.
  { apply headerString_no_bracket. rewrite includes_app, Hkbr. reflexivity. }
  cbn [Parser.keyOfMatch].
  eapply reads_lift_bind; [apply headerString_no_bracket; exact Hbr|].
  assert (Hne : Parser.nonEmpty (encodePrimitive p d) = true).
  { pose proof (encodePrimitive_nonempty p d) as H.
    destruct (encodePrimitive p d); [congruence | reflexivity]. }
  rewrite Hne. eapply reads_bind; [|exact Hnext].
  eapply reads_lift_bind; [exact Hu|]. eapply reads_lift_bind; [exact Hp|].
  rewrite set_first by exact Hkey. rstep.
  destruct (Parser.hasMoreProperties (hd_error l) b').
  - eapply reads_bind; [exact Hmore | apply reads_ret].
  - destruct Hmore as [-> ->]. apply reads_ret.
Qed.

(** The header of an array with a key, as the parser reads it from a
    text. *)
Lemma headerString_keyed (key : str) (m : bool) (n : nat) (d : Delimiter) (rest : str) :
  plainKey key = true ->
  existsb Js.isLineTerminator (Js.dropWhile Js.isWhiteSpace rest) = false ->
  exists info,
    Parser.parseArrayHeaderString
      (key ++ headerBody m n (delimiterChar d) ++ lit ":" ++ rest) = Ok (Some info)
    /\ Parser.unkeyedMatch (Some info) = None
    /\ Parser.keyOfMatch (Some info) = Some key
    /\ Parser.HeaderInfo.fields info = None
    /\ Parser.HeaderInfo.delimiter info = delimiterChar d
    /\ Parser.HeaderInfo.valuesStr info = Js.dropWhile Js.isWhiteSpace rest.
Proof.
  intros Hk Hrest.
  destruct (plainKey_chars key Hk) as (Htrim & _ & _ & _ & Hnb).
  destruct (plainKey_facts key Hk) as (_ & _ & _ & _ & c & tl & E & _).
  unfold Parser.parseArrayHeaderString.
  rewrite (matchArrayPattern_header key m n d rest Hnb Hrest).
  unfold headerFields. cbn [HeaderMatch.fieldsStr rbind HeaderMatch.key
                            HeaderMatch.valueAfter].
  assert (Hkey : trimmedKey match key with [] => None | _ => Some key end = Some key).
  { rewrite E. unfold trimmedKey. rewrite <- E, Htrim, E. reflexivity. }
  eexists. split; [reflexivity|].
  unfold Parser.unkeyedMatch, Parser.keyOfMatch.
  cbn [Parser.HeaderInfo.key Parser.HeaderInfo.fields Parser.HeaderInfo.delimiter
       Parser.HeaderInfo.valuesStr].
  rewrite Hkey. rewrite E at 1 2. split; [reflexivity|]. split; [rewrite E; reflexivity|].
  split; [reflexivity|]. split; [|reflexivity].
  unfold headerDelimiter. cbn [HeaderMatch.delimiterInHeader]. destruct d; reflexivity.
Qed.

(** The values after a header, joined by its delimiter. *)
Lemma parseInlineArray_joined (info : Parser.HeaderInfo.t) (d : Delimiter)
    (values : list JsonPrimitive) :
  Parser.HeaderInfo.fields info = None ->
  Parser.HeaderInfo.delimiter info = delimiterChar d ->
  Parser.HeaderInfo.valuesStr info
  = match values with [] => [] | _ => encodeAndJoinPrimitives values (delimiterChar d) end ->
  Forall (fun v => Parser.parsePrimitive (encodePrimitive v (delimiterChar d)) = Ok v)
    values ->
  Parser.parseInlineArray info = Ok (map JPrim values).
Proof.
  intros Hf Hd Hv Hread. unfold Parser.parseInlineArray. rewrite Hf, Hd, Hv.
  cbn [Parser.nonEmptyFields].
  assert (Hsplit : Parser.splitByDelimiter
                     match values with
                     | [] => []
                     | _ => encodeAndJoinPrimitives values (delimiterChar d)
                     end (delimiterChar d)
                   = map (fun v => encodePrimitive v (delimiterChar d)) values).
  { destruct values as [|v vs]; [reflexivity|].
    unfold Parser.splitByDelimiter, splitByDelimiter.
    apply (split_joined_primitives d (v :: vs) []). }
  rewrite Hsplit. apply parsePrimitives_encoded. exact Hread.
Qed.

Lemma headerBody_facts (m : bool) (n : nat) (d : Delimiter) :
  headerBody m n (delimiterChar d) <> []
  /\ Js.trim (headerBody m n (delimiterChar d)) = headerBody m n (delimiterChar d)
  /\ forallb (fun c => negb (Js.ch_eqb c BACKSLASH) && negb (Js.ch_eqb c DOUBLE_QUOTE)
                       && negb (Js.ch_eqb c ":")) (headerBody m n (delimiterChar d))
     = true.
Proof.
  unfold headerBody.
  set (inner := (if m then lit "#" else []) ++ Js.natToString n
                  ++ (if negb (Js.ch_eqb (delimiterChar d) DEFAULT_DELIMITER)
                      then [delimiterChar d] else [])).
  replace (lit "[" ++ (if m then lit "#" else []) ++ Js.natToString n
             ++ (if negb (Js.ch_eqb (delimiterChar d) DEFAULT_DELIMITER)
                 then [delimiterChar d] else []) ++ lit "]")
    with ("["%char :: inner ++ ["]"%char])
    by (unfold inner; cbn [lit list_ascii_of_string app]; rewrite <- !app_assoc;
        reflexivity).
  split; [discriminate|]. split.
  - apply (@trim_id _ "["%char "]"%char inner); [left; reflexivity | reflexivity | reflexivity].
  - cbn [forallb]. rewrite forallb_app. unfold inner. rewrite !forallb_app.
    assert (Hdigits : forallb (fun c => negb (Js.ch_eqb c BACKSLASH)
                                        && negb (Js.ch_eqb c DOUBLE_QUOTE)
                                        && negb (Js.ch_eqb c ":")) (Js.natToString n) = true).
    { eapply forallb_impl; [|apply (uintToStr_digits (Nat.to_uint n))].
      intros c. each_char c; vm_compute; intro H; (reflexivity || discriminate). }
    unfold Js.natToString in *. rewrite Hdigits.
    destruct m, d; reflexivity.
Qed.

(** An item that is an object whose first property holds an array of
    primitives, on the line of the dash. *)
Lemma listLoop_inline (fuel : nat) (b b' : Z) (acc : JsonArray) (d : Delimiter) (m : bool)
    (key : str) (values : list JsonPrimitive) (i : nat) (l l' : list Token.t)
    (o : JsonObject) (a : JsonArray) (rest : list Token.t) :
  (b <= b')%Z -> fieldKey key = true -> values <> [] ->
  Forall (fun v => Parser.parsePrimitive (encodePrimitive v (delimiterChar d)) = Ok v)
    values ->
  (if Parser.hasMoreProperties (hd_error l) b'
   then reads _ (Parser.parseObjectLoop fuel (Parser.indentOr0 (hd_error l)) []) l o l'
   else o = [] /\ l' = l) ->
  reads _ (Parser.parseListItemsLoop fuel b
             (acc ++ [JObject (Obj.assign [(key, JArray (map JPrim values))] o)]))
    l' a rest ->
  reads _ (Parser.parseListItemsLoop (S fuel) b acc)
    (Scanner.mkToken LIST_ITEM
       (encodeInlineArrayLine values (delimiterChar d) (Some key) m) b' i None false :: l)
    a rest.
Proof.
  intros Hb Hkey Hne Hread Hmore Hnext.
  destruct (fieldKey_facts key Hkey) as [Hplain Hproto].
  destruct (plainKey_chars key Hplain) as (_ & _ & _ & Hpass & _).
  destruct (plainKey_facts key Hplain) as (_ & _ & _ & Ha & c & tl & E & Hc).
  pose proof (key_first_facts c Hc) as (Hw & _).
  destruct (headerBody_facts m (length values) d) as (Hbne & Hbtrim & Hbpass).
  destruct (joined_tidy d values Hne) as (Hjne & Hjtrim & Hjterm).
  set (J := encodeAndJoinPrimitives values (delimiterChar d)) in *.
  set (HB := headerBody m (length values) (delimiterChar d)) in *.
  assert (Hrest : inlineRest values (delimiterChar d) = SPACE :: J).
  { unfold inlineRest. destruct values; [congruence | reflexivity]. }
  assert (Hdrop : Js.dropWhile Js.isWhiteSpace (SPACE :: J) = J).
  { apply dropWhile_tidy. repeat split; assumption. }
  rewrite arrayLine_eq by exact Hplain. fold HB. rewrite Hrest.
  destruct (headerString_keyed key m (length values) d (SPACE :: J) Hplain)
    as (info & Hinfo & Hun & Hkm & Hf & Hd & Hv).
  { rewrite Hdrop. exact Hjterm. }
  destruct (headerString_keyed key m (length values) d [] Hplain eq_refl)
    as (info0 & Hinfo0 & _ & Hkm0 & _).
  fold HB in Hinfo, Hinfo0. rewrite Hdrop in Hv.
  assert (Harr : Parser.parseInlineArray info = Ok (map JPrim values)).
  { apply (parseInlineArray_joined info d values Hf Hd); [|exact Hread].
    rewrite Hv. unfold J. destruct values; [congruence | reflexivity]. }
  assert (Hcolon : findMainColon (key ++ HB ++ lit ":" ++ SPACE :: J)
                   = Some (length (key ++ HB))).
  { unfold findMainColon. rewrite app_assoc.
    rewrite findMainColonFrom_skip by (rewrite forallb_app, Hpass, Hbpass; reflexivity).
    cbn [lit list_ascii_of_string app findMainColonFrom].
    change (Js.ch_eqb ":" BACKSLASH) with false.
    change (Js.ch_eqb ":" DOUBLE_QUOTE) with false. rewrite ch_eqb_refl. reflexivity. }
  assert (Hleft : Js.trim (Js.substring (key ++ HB ++ lit ":" ++ SPACE :: J) 0
                             (Z.of_nat (length (key ++ HB)))) = key ++ HB).
  { rewrite app_assoc, substring_prefix. rewrite E. cbn [app].
    apply trim_id_ends; assumption. }
  assert (Hright : Js.trim (Js.substringFrom (key ++ HB ++ lit ":" ++ SPACE :: J)
                              (Z.of_nat (length (key ++ HB)) + 1)) = J).
  { replace (key ++ HB ++ lit ":" ++ SPACE :: J)
      with (((key ++ HB) ++ lit ":") ++ SPACE :: J)
      by (rewrite <- !app_assoc; reflexivity).
    replace (Z.of_nat (length (key ++ HB)) + 1)%Z
      with (Z.of_nat (length ((key ++ HB) ++ lit ":")))
      by (rewrite (length_app (key ++ HB)); simpl; lia).
    rewrite substringFrom_suffix, trim_space. exact Hjtrim. }
  cbn [Parser.parseListItemsLoop]. rstep. rstep.
  assert (Hlt : (b' <? b)%Z = false) by (apply Z.ltb_ge; exact Hb).
  rewrite Hlt. cbv zeta. rstep.
  eapply reads_lift_bind; [exact Hinfo|]. rewrite Hun.
  unfold Parser.findMainColon. rewrite Hcolon, Hleft, Hright.
  eapply reads_lift_bind.
  { rewrite <- app_assoc. rewrite <- (app_nil_r (lit ":")). exact Hinfo0. }
  cbv iota. rewrite Hkm0. rstep.
  assert (Hnonempty : Parser.nonEmpty J = true).
  { destruct J; [congruence | reflexivity]. }
  rewrite Hnonempty.
  eapply reads_bind; [|eapply reads_bind; [|exact Hnext]].
  - eapply reads_lift_bind.
    { replace ((key ++ HB) ++ lit ": " ++ J) with (key ++ HB ++ lit ":" ++ SPACE :: J)
        by (rewrite <- !app_assoc; reflexivity).
      exact Hinfo. }
    eapply reads_lift_bind; [exact Harr|]. apply reads_ret.
  - assert (Hset : Obj.set [] key (JArray (map JPrim values))
                   = [(key, JArray (map JPrim values))]).
    { unfold Obj.set.
      assert (Ep : Js.str_eqb key (lit "__proto__") = false).
      { destruct (Js.str_eqb key (lit "__proto__")) eqn:Ep; [|reflexivity].
        apply str_eqb_eq in Ep. contradiction. }
      rewrite Ep. cbn [Obj.has]. rewrite (plainKey_not_index key Hplain). reflexivity. }
    rewrite Hset. rstep.
    destruct (Parser.hasMoreProperties (hd_error l) b').
    + eapply reads_bind; [exact Hmore | apply reads_ret].
    + destruct Hmore as [-> ->]. apply reads_ret.
Qed.

Lemma itemLines_head (d : ascii) (k : nat) (doc : Doc) :
  goodItem d doc -> exists h ls, itemLines k doc = (k, LItem h) :: ls.
Proof.
  destruct doc as [p|values|header rows|[|[key [p|values|header rows|es|its]] rest]|items];
    cbn [goodItem itemLines]; try contradiction; eauto.
Qed.

Lemma itemsTokens_shallow (d : ascii) (m : bool) (n k i : nat) (items : list Doc)
    (l : list Token.t) :
  Forall (goodItem d) items -> shallow (Z.of_nat (k * n)) l ->
  shallow (Z.of_nat (k * n)) (linesTokens d m n i (itemsLines k items) ++ l).
Proof.
  intros Hgood Hl. destruct Hgood as [|item items Hitem _]; [exact Hl|].
  unfold itemsLines. cbn [flat_map].
  destruct (itemLines_head d k item Hitem) as (h & ls & ->).
  cbn [app linesTokens lineTokens fst snd shallow Scanner.mkToken Token.indent].
  right. lia.
Qed.

Lemma itemTokens_nonempty (d : ascii) (m : bool) (n k i : nat) (doc : Doc) :
  goodItem d doc -> 1 <= length (linesTokens d m n i (itemLines k doc)).
Proof.
  intro Hgood. destruct (itemLines_head d k doc Hgood) as (h & ls & E).
  pose proof (linesTokens_length d m n i (itemLines k doc)) as H.
  rewrite E in H at 1. simpl in H. lia.
Qed.

Lemma listLoop_items (d : ascii) (m : bool) (n : nat) (items : list Doc) :
  Forall (fun item => goodItem d item -> itemReads d m n item) items ->
  Forall (goodItem d) items ->
  forall k i fuel b acc l,
    (b <= Z.of_nat (k * n))%Z -> ends b l -> shallow (Z.of_nat (k * n)) l ->
    2 * length (linesTokens d m n i (itemsLines k items)) < fuel ->
    reads _ (Parser.parseListItemsLoop fuel b acc)
      (linesTokens d m n i (itemsLines k items) ++ l) (acc ++ map docValue items) l.
Proof.
  intros HP Hgood k. induction items as [|item items IH];
    intros i fuel b acc l Hb He Hl Hfuel.
  - destruct fuel as [|fuel]; [simpl in Hfuel; lia|].
    cbn [itemsLines flat_map linesTokens app map]. rewrite app_nil_r.
    apply listLoop_end. exact He.
  - inversion HP as [|? ? Hitem HP']; subst.
    inversion Hgood as [|? ? Hg Hgood']; subst.
    destruct fuel as [|fuel]; [simpl in Hfuel; lia|].
    change (itemsLines k (item :: items)) with (itemLines k item ++ itemsLines k items) in *.
    rewrite linesTokens_app in *. rewrite length_app in Hfuel.
    pose proof (itemTokens_nonempty d m n k i item Hg) as H1.
    rewrite <- app_assoc. cbn [map].
    apply (Hitem Hg); [exact Hb | | lia |].
    + apply itemsTokens_shallow; assumption.
    + replace (acc ++ docValue item :: map docValue items)
        with ((acc ++ [docValue item]) ++ map docValue items)
        by (rewrite <- app_assoc; reflexivity).
      apply IH; try assumption. lia.
Qed.

(** The first token of the properties of an object. *)
Lemma entriesTokens_head (d : ascii) (m : bool) (n k i : nat) (entries : list (str * Doc)) :
  entries <> [] ->
  exists t ts,
    linesTokens d m n i (entriesLines k entries) = t :: ts
    /\ Token.indent t = Z.of_nat (k * n)
    /\ (Token.type t = KEY \/ Token.type t = ARRAY_HEADER).
Proof.
  destruct entries as [|[key doc] entries]; [congruence|]. intros _.
  unfold entriesLines. cbn [flat_map fst snd].
  destruct doc as [p|values|header rows|es|items];
    cbn [entryLines app linesTokens lineTokens fst snd];
    eexists _, _; (split; [reflexivity|]); split; try reflexivity;
    cbn [Scanner.mkToken Token.type]; auto.
Qed.

(** The object of an item, from its first property and the others. *)
Lemma item_rebuilt (d : ascii) (key : str) (v : JsonValue)
    (entries : list (str * Doc)) :
  NoDup (key :: map fst entries) -> goodEntries d entries ->
  Obj.assign [(key, v)] (map (fun kv => (fst kv, docValue (snd kv))) entries)
  = (key, v) :: map (fun kv => (fst kv, docValue (snd kv))) entries.
Proof.
  intros Hnd Hgood. unfold Obj.assign.
  assert (Hkeys : Obj.keys (map (fun kv => (fst kv, docValue (snd kv))) entries)
                  = map fst entries).
  { unfold Obj.keys. rewrite map_map. reflexivity. }
  rewrite rebuild_object; [reflexivity | | |].
  - rewrite Hkeys. exact Hnd.
  - rewrite Hkeys. intro Hin. apply in_map_iff in Hin. destruct Hin as (kv & E & Hin).
    unfold goodEntries in Hgood. rewrite Forall_forall in Hgood.
    destruct (Hgood kv Hin) as [Hk _]. apply entryKey_facts in Hk.
    destruct Hk as [Hk _]. apply Hk. exact E.
  - apply Forall_forall. intros [k x] Hin. cbn [fst].
    apply in_map_iff in Hin. destruct Hin as (kv & E & Hin). injection E as <- _.
    unfold goodEntries in Hgood. rewrite Forall_forall in Hgood.
    destruct (Hgood kv Hin) as [Hk _]. apply entryKey_facts in Hk. tauto.
Qed.

(** The header of a list and its items. *)
Lemma parseArray_reads_list (fuel : nat) (d : ascii) (m : bool) (n k i j : nat)
    (key : option str) (text : str) (items : list Doc) (l : list Token.t) :
  0 < n -> items <> [] ->
  Forall (fun item => goodItem d item -> itemReads d m n item) items ->
  Forall (goodItem d) items ->
  shallow (Z.of_nat (k * n)) l ->
  2 * length (linesTokens d m n i (itemsLines (S k) items)) < fuel ->
  reads _ (Parser.parseArray (S fuel))
    (Scanner.mkToken ARRAY_HEADER text (Z.of_nat (k * n)) j
       (Some (listInfo key (length items) d)) false
       :: linesTokens d m n i (itemsLines (S k) items) ++ l)
    (map docValue items) l.
Proof.
  intros Hn Hne HP Hgood Hl Hfuel. pose proof (level_lt n k Hn) as Hlt.
  assert (Hloop : reads _ (Parser.parseListItemsLoop fuel (Z.of_nat (k * n) + 1) [])
                    (linesTokens d m n i (itemsLines (S k) items) ++ l)
                    (map docValue items) l).
  { apply (listLoop_items d m n items HP Hgood (S k) i fuel (Z.of_nat (k * n) + 1)%Z [] l).
    - lia.
    - destruct l as [|t l]; [exact I|].
      destruct Hl as [Hl|Hl]; [left; exact Hl | right; lia].
    - destruct l as [|t l]; [exact I|].
      destruct Hl as [Hl|Hl]; [left; exact Hl | right; lia].
    - exact Hfuel. }
  cbn [Parser.parseArray]. rstep.
  cbn [listInfo ArrayInfo.length ArrayInfo.fields ArrayInfo.delimiter
       ArrayInfo.inlineValues]. cbv zeta. rstep.
  assert (Hcount : N.eqb (N.of_nat (length items)) 0 = false).
  { apply N.eqb_neq. destruct items; [congruence | simpl; lia]. }
  rewrite Hcount. rstep.
  assert (Hfirst : Parser.typeIs
                     (hd_error (linesTokens d m n i (itemsLines (S k) items) ++ l))
                     LIST_ITEM = true).
  { destruct items as [|item items]; [congruence|].
    inversion Hgood as [|? ? Hitem _]; subst.
    unfold itemsLines. cbn [flat_map].
    destruct (itemLines_head d (S k) item Hitem) as (h & ls & ->). reflexivity. }
  rewrite Hfirst.
  eapply reads_bind; [exact Hloop|].
  rewrite length_map, N.eqb_refl, andb_false_r. apply reads_ret.
Qed.

Lemma objectLoop_list (fuel : nat) (d : ascii) (m : bool) (n k i j : nat) (acc : JsonObject)
    (key text : str) (items : list Doc) (l : list Token.t) (a : JsonObject)
    (rest : list Token.t) :
  plainKey key = true -> 0 < n -> items <> [] ->
  Forall (fun item => goodItem d item -> itemReads d m n item) items ->
  Forall (goodItem d) items ->
  shallow (Z.of_nat (k * n)) l ->
  2 * length (linesTokens d m n i (itemsLines (S k) items)) < fuel ->
  reads _ (Parser.parseObjectLoop (S fuel) (Z.of_nat (k * n))
             (Obj.set acc key (JArray (map docValue items)))) l a rest ->
  reads _ (Parser.parseObjectLoop (S (S fuel)) (Z.of_nat (k * n)) acc)
    (Scanner.mkToken ARRAY_HEADER text (Z.of_nat (k * n)) j
       (Some (listInfo (Some key) (length items) d)) false
       :: linesTokens d m n i (itemsLines (S k) items) ++ l) a rest.
Proof.
  intros Hk Hn Hne HP Hgood Hl Hfuel Hnext.
  remember (S fuel) as fuel' eqn:Ef. cbn [Parser.parseObjectLoop]. rstep. rstep.
  rewrite Z.ltb_irrefl. cbn [andb].
  rewrite (headerKey_plain ARRAY_HEADER text (Z.of_nat (k * n)) j
             (listInfo (Some key) (length items) d) key eq_refl Hk).
  eapply reads_bind; [|exact Hnext]. subst fuel'.
  apply parseArray_reads_list; assumption.
Qed.

(** The properties of an item below the line of its dash. *)
Lemma itemRest_reads (d : Delimiter) (m : bool) (n k i fuel : nat)
    (others : list (str * Doc)) (l : list Token.t) :
  0 < n -> NoDup (map fst others) -> goodEntries (delimiterChar d) others ->
  Forall (fun kv => goodDoc (delimiterChar d) (snd kv)
                    -> entryReads (delimiterChar d) m n (snd kv)) others ->
  shallow (Z.of_nat (k * n)) l ->
  2 * length (linesTokens (delimiterChar d) m n i (entriesLines (S k) others)) < fuel ->
  if Parser.hasMoreProperties
       (hd_error (linesTokens (delimiterChar d) m n i (entriesLines (S k) others) ++ l))
       (Z.of_nat (k * n))
  then reads _ (Parser.parseObjectLoop fuel
                  (Parser.indentOr0
                     (hd_error (linesTokens (delimiterChar d) m n i
                                  (entriesLines (S k) others) ++ l))) [])
         (linesTokens (delimiterChar d) m n i (entriesLines (S k) others) ++ l)
         (map (fun kv => (fst kv, docValue (snd kv))) others) l
  else map (fun kv => (fst kv, docValue (snd kv))) others = []
       /\ l = linesTokens (delimiterChar d) m n i (entriesLines (S k) others) ++ l.
Proof.
  intros Hn Hnd Hgood HP Hl Hfuel. pose proof (level_lt n k Hn) as Hlt.
  destruct others as [|e others].
  - cbn [entriesLines flat_map linesTokens app map].
    assert (Hno : Parser.hasMoreProperties (hd_error l) (Z.of_nat (k * n)) = false).
    { unfold Parser.hasMoreProperties. destruct l as [|t l]; [reflexivity|].
      cbn [hd_error Parser.deeperThan Parser.typeIs].
      destruct Hl as [Hl|Hl].
      - rewrite Hl. cbn [TokenType_eqb orb]. apply andb_false_r.
      - assert (E : (Z.of_nat (k * n) <? Token.indent t)%Z = false)
          by (apply Z.ltb_ge; exact Hl).
        rewrite E. reflexivity. }
    rewrite Hno. split; reflexivity.
  - destruct (entriesTokens_head (delimiterChar d) m n (S k) i (e :: others))
      as (t & ts & Et & Hind & Hty); [discriminate|].
    assert (Hyes : Parser.hasMoreProperties
                     (hd_error (linesTokens (delimiterChar d) m n i
                                  (entriesLines (S k) (e :: others)) ++ l))
                     (Z.of_nat (k * n)) = true).
    { rewrite Et. cbn [app hd_error]. unfold Parser.hasMoreProperties.
      cbn [Parser.deeperThan Parser.typeIs]. rewrite Hind.
      apply Z.ltb_lt in Hlt. rewrite Hlt.
      destruct Hty as [-> | ->]; reflexivity. }
    rewrite Hyes.
    assert (Hind0 : Parser.indentOr0
                      (hd_error (linesTokens (delimiterChar d) m n i
                                   (entriesLines (S k) (e :: others)) ++ l))
                    = Z.of_nat (S k * n)).
    { rewrite Et. cbn [app hd_error Parser.indentOr0]. exact Hind. }
    rewrite Hind0.
    rewrite <- (entries_rebuilt (delimiterChar d) (e :: others) Hnd Hgood).
    apply objectLoop_entries; try assumption.
    eapply shallow_ends; eassumption.
Qed.

(** *** Every property and every item *)

Lemma listForm_nonempty (items : list Doc) : listForm (map docValue items) -> items <> [].
Proof. intros [H _] ->. discriminate. Qed.

Lemma reads_all (d : Delimiter) (m : bool) (n : nat) (doc : Doc) :
  0 < n ->
  (goodDoc (delimiterChar d) doc -> entryReads (delimiterChar d) m n doc)
  /\ (goodItem (delimiterChar d) doc -> itemReads (delimiterChar d) m n doc).
Proof.
  intro Hn.
  induction doc as [p|values|header rows|entries IH|items IH] using Doc_induction.
  - split.
    + intros Hgood key k i fuel acc l a rest Hkey Hl Hfuel Hnext.
      cbn [entryLines linesTokens lineTokens fst snd app docValue] in *.
      destruct Hgood as [Hp _].
      apply (objectLoop_property fuel _ acc key _ p); assumption.
    + intros Hgood k i fuel b acc l a rest Hb Hl Hfuel Hnext.
      cbn [itemLines linesTokens lineTokens fst snd app docValue headText] in *.
      apply listLoop_prim; assumption.
  - split.
    + intros Hgood key k i fuel acc l a rest Hkey Hl Hfuel Hnext.
      cbn [entryKey] in Hkey. destruct (fieldKey_facts key Hkey) as [Hplain _].
      cbn [entryLines linesTokens lineTokens fst snd app docValue goodDoc] in *.
      destruct fuel as [|fuel]; [simpl in Hfuel; lia|].
      apply (objectLoop_array fuel _ acc key _ values d); assumption.
    + intros Hgood k i fuel b acc l a rest Hb Hl Hfuel Hnext.
      cbn [itemLines linesTokens lineTokens fst snd app docValue headText goodItem] in *.
      apply listLoop_array; assumption.
  - split; [|intros []].
    intros Hgood key k i fuel acc l a rest Hkey Hl Hfuel Hnext.
    cbn [entryKey] in Hkey. destruct (fieldKey_facts key Hkey) as [Hplain _].
    cbn [entryLines linesTokens lineTokens fst snd app docValue goodDoc] in *.
    destruct fuel as [|fuel]; [simpl in Hfuel; lia|].
    apply (objectLoop_table fuel d (Z.of_nat (k * n)) (Z.of_nat (S k * n)));
      try assumption.
    + apply level_lt. exact Hn.
    + apply rowTokens_lines.
  - assert (Hentries : forall es, incl es entries ->
              Forall (fun kv => goodDoc (delimiterChar d) (snd kv)
                                -> entryReads (delimiterChar d) m n (snd kv)) es).
    { intros es Hincl. apply Forall_forall. intros kv Hin.
      rewrite Forall_forall in IH. apply (IH kv (Hincl kv Hin)). }
    split.
    + intros Hgood key k i fuel acc l a rest Hkey Hl Hfuel Hnext.
      cbn [goodDoc] in Hgood. destruct Hgood as (Hne & Hnd & Hfirst & Hgood).
      apply goodDoc_entries in Hgood.
      cbn [entryLines linesTokens lineTokens fst snd app docValue] in *.
      fold (entriesLines (S k) entries) in *.
      pose proof (level_lt n k Hn) as Hb.
      assert (Hnested : reads _ (Parser.parseObjectLoop fuel (Z.of_nat (S k * n)) [])
                          (linesTokens (delimiterChar d) m n (S i)
                             (entriesLines (S k) entries) ++ l)
                          (map (fun kv => (fst kv, docValue (snd kv))) entries) l).
      { rewrite <- (entries_rebuilt (delimiterChar d) entries Hnd Hgood).
        apply objectLoop_entries; try assumption.
        - apply Hentries, incl_refl.
        - eapply shallow_ends; eassumption.
        - simpl in Hfuel. lia. }
      assert (Hhead : exists key1 more,
                linesTokens (delimiterChar d) m n (S i) (entriesLines (S k) entries)
                = Scanner.mkToken KEY key1 (Z.of_nat (S k * n)) (S i) None false :: more).
      { destruct entries as [|[key1 doc1] entries]; [congruence|].
        unfold entriesLines. cbn [flat_map fst snd].
        destruct doc1 as [p|values|header rows|es|its]; cbn [firstOpensObject] in Hfirst;
          try contradiction;
          cbn [entryLines app linesTokens lineTokens fst snd]; eauto. }
      destruct Hhead as (key1 & more & Ehead). rewrite Ehead in *. cbn [app] in *.
      eapply objectLoop_nested; [exact Hb | exact Hnested | exact Hnext].
    + intros Hgood k i fuel b acc l a rest Hb Hl Hfuel Hnext.
      destruct entries as [|[key [p|values|header rows|es|its]] others];
        cbn [goodItem] in Hgood; try contradiction.
      * destruct Hgood as (Hkey & Hp & Hnd & Hgood). apply goodDoc_entries in Hgood.
        cbn [itemLines linesTokens lineTokens fst snd app docValue map headText] in *.
        fold (entriesLines (S k) others) in *.
        assert (Hnd' : NoDup (map fst others)) by (inversion Hnd; assumption).
        eapply (listLoop_object fuel b (Z.of_nat (k * n)) acc (delimiterChar d) key p i
                  (linesTokens (delimiterChar d) m n (S i) (entriesLines (S k) others) ++ l)
                  l (map (fun kv => (fst kv, docValue (snd kv))) others));
          try assumption.
        -- apply itemRest_reads; try assumption.
           ++ apply Hentries, incl_tl, incl_refl.
           ++ cbn [length] in Hfuel. lia.
        -- rewrite (item_rebuilt (delimiterChar d)) by assumption. exact Hnext.
      * destruct Hgood as (Hkey & Hne & Hread & Hnd & Hgood).
        apply goodDoc_entries in Hgood.
        cbn [itemLines linesTokens lineTokens fst snd app docValue map headText] in *.
        fold (entriesLines (S k) others) in *.
        assert (Hnd' : NoDup (map fst others)) by (inversion Hnd; assumption).
        eapply (listLoop_inline fuel b (Z.of_nat (k * n)) acc d m key values i
                  (linesTokens (delimiterChar d) m n (S i) (entriesLines (S k) others) ++ l)
                  l (map (fun kv => (fst kv, docValue (snd kv))) others));
          try assumption.
        -- apply itemRest_reads; try assumption.
           ++ apply Hentries, incl_tl, incl_refl.
           ++ cbn [length] in Hfuel. lia.
        -- rewrite (item_rebuilt (delimiterChar d)) by assumption. exact Hnext.
  - assert (Hitems : Forall (fun item => goodItem (delimiterChar d) item
                                         -> itemReads (delimiterChar d) m n item) items).
    { eapply Forall_impl; [|exact IH]. intros item [_ H]. exact H. }
    split; [|intros []].
    intros Hgood key k i fuel acc l a rest Hkey Hl Hfuel Hnext.
    cbn [entryKey] in Hkey. destruct (fieldKey_facts key Hkey) as [Hplain _].
    cbn [goodDoc] in Hgood. destruct Hgood as [Hform Hgood].
    apply goodDoc_items in Hgood.
    cbn [entryLines linesTokens lineTokens fst snd app docValue] in *.
    fold (itemsLines (S k) items) in *.
    destruct fuel as [|fuel]; [simpl in Hfuel; lia|].
    apply objectLoop_list; try assumption.
    + apply listForm_nonempty. exact Hform.
    + simpl in Hfuel. lia.
Qed.

Lemma entryReads_all (d : Delimiter) (m : bool) (n : nat) (doc : Doc) :
  0 < n -> goodDoc (delimiterChar d) doc -> entryReads (delimiterChar d) m n doc.
Proof. intro Hn. apply (reads_all d m n doc Hn). Qed.

Lemma itemReads_all (d : Delimiter) (m : bool) (n : nat) (doc : Doc) :
  0 < n -> goodItem (delimiterChar d) doc -> itemReads (delimiterChar d) m n doc.
Proof. intro Hn. apply (reads_all d m n doc Hn). Qed.

(** *** The loop of parse on the properties of the root *)

Lemma rootLoop_end (fuel : nat) (acc : JsonObject) (l : list Token.t) :
  match l with [] => True | t :: _ => Token.type t = EOF end ->
  reads _ (Parser.parseRootLoop (S fuel) acc) l acc l.
Proof.
  intro H. cbn [Parser.parseRootLoop]. rstep. rstep.
  destruct l as [|t l]; cbn [hd_error]; [rstep|]. cbn [negb].
  rewrite H. cbn [TokenType_eqb]. rstep.
Qed.

Lemma rootLoop_property (fuel : nat) (acc : JsonObject) (key text : str)
    (p : JsonPrimitive) (i : nat) (l : list Token.t) (a : JsonObject)
    (rest : list Token.t) :
  Parser.parsePrimitive text = Ok p ->
  reads _ (Parser.parseRootLoop fuel (Obj.set acc key (JPrim p))) l a rest ->
  reads _ (Parser.parseRootLoop (S fuel) acc)
    (Scanner.mkToken KEY key 0 i None false
       :: Scanner.mkToken COLON (lit ":") 0 i None false
       :: Scanner.mkToken VALUE text 0 i None false :: l) a rest.
Proof.
  intros Hp Hnext. cbn [Parser.parseRootLoop]. rstep. rstep.
  cbn [Z.eqb negb]. rstep. rstep. rstep. rstep.
  cbn [Z.ltb Z.compare Z.eqb andb orb].
  eapply reads_lift_bind; [exact Hp|]. rstep. exact Hnext.
Qed.

Lemma rootLoop_array (fuel : nat) (acc : JsonObject) (key text : str)
    (values : list JsonPrimitive) (d : Delimiter) (i : nat) (l : list Token.t)
    (a : JsonObject) (rest : list Token.t) :
  plainKey key = true ->
  Forall (fun v => Parser.parsePrimitive (encodePrimitive v (delimiterChar d)) = Ok v)
    values ->
  reads _ (Parser.parseRootLoop (S fuel) (Obj.set acc key (JArray (map JPrim values))))
    l a rest ->
  reads _ (Parser.parseRootLoop (S (S fuel)) acc)
    (Scanner.mkToken ARRAY_HEADER text 0 i
       (Some (inlineInfo (Some key) values (delimiterChar d))) false :: l) a rest.
Proof.
  intros Hk Hread Hnext.
  remember (S fuel) as fuel' eqn:Ef. cbn [Parser.parseRootLoop]. rstep. rstep.
  cbn [Z.eqb negb].
  rewrite (headerKey_plain ARRAY_HEADER text 0 i
             (inlineInfo (Some key) values (delimiterChar d)) key eq_refl Hk).
  eapply reads_bind; [|exact Hnext]. subst fuel'.
  apply (parseArray_reads_inline fuel _ (Some key) values d); [reflexivity | exact Hread].
Qed.

Lemma rootLoop_table (fuel : nat) (d : Delimiter) (b' : Z) (acc : JsonObject)
    (key text : str) (header : list str) (rows : list (list JsonPrimitive)) (i : nat)
    (ts l : list Token.t) (a : JsonObject) (rest : list Token.t) :
  plainKey key = true -> (0 < b')%Z -> goodTable (delimiterChar d) header rows ->
  rowTokens (delimiterChar d) b' rows ts -> shallow 0 l ->
  reads _ (Parser.parseRootLoop (S fuel)
             (Obj.set acc key
                (JArray (map (fun cells => JObject (rowObject header cells)) rows))))
    l a rest ->
  reads _ (Parser.parseRootLoop (S (S fuel)) acc)
    (Scanner.mkToken ARRAY_HEADER text 0 i
       (Some (tableInfo (Some key) (length rows) header (delimiterChar d))) false
       :: ts ++ l) a rest.
Proof.
  intros Hk Hb Hgood Hts Hl Hnext.
  remember (S fuel) as fuel' eqn:Ef. cbn [Parser.parseRootLoop]. rstep. rstep.
  cbn [Z.eqb negb].
  rewrite (headerKey_plain ARRAY_HEADER text 0 i
             (tableInfo (Some key) (length rows) header (delimiterChar d)) key eq_refl Hk).
  eapply reads_bind; [|exact Hnext]. subst fuel'.
  apply (parseArray_reads_table fuel d (Some key) text header rows 0 b' i ts l); assumption.
Qed.

Lemma rootLoop_list (fuel : nat) (d : ascii) (m : bool) (n i j : nat) (acc : JsonObject)
    (key text : str) (items : list Doc) (l : list Token.t) (a : JsonObject)
    (rest : list Token.t) :
  plainKey key = true -> 0 < n -> items <> [] ->
  Forall (fun item => goodItem d item -> itemReads d m n item) items ->
  Forall (goodItem d) items ->
  shallow 0 l ->
  2 * length (linesTokens d m n i (itemsLines 1 items)) < fuel ->
  reads _ (Parser.parseRootLoop (S fuel) (Obj.set acc key (JArray (map docValue items))))
    l a rest ->
  reads _ (Parser.parseRootLoop (S (S fuel)) acc)
    (Scanner.mkToken ARRAY_HEADER text 0 j
       (Some (listInfo (Some key) (length items) d)) false
       :: linesTokens d m n i (itemsLines 1 items) ++ l) a rest.
Proof.
  intros Hk Hn Hne HP Hgood Hl Hfuel Hnext.
  remember (S fuel) as fuel' eqn:Ef. cbn [Parser.parseRootLoop]. rstep. rstep.
  cbn [Z.eqb negb].
  rewrite (headerKey_plain ARRAY_HEADER text 0 j
             (listInfo (Some key) (length items) d) key eq_refl Hk).
  eapply reads_bind; [|exact Hnext]. subst fuel'.
  apply (parseArray_reads_list fuel d m n 0 i j); assumption.
Qed.

Lemma rootLoop_nested (fuel : nat) (b' : Z) (acc : JsonObject) (key key1 : str)
    (i i1 : nat) (more l : list Token.t) (o a : JsonObject) (rest : list Token.t) :
  (0 < b')%Z ->
  reads _ (Parser.parseObjectLoop fuel b' [])
    (Scanner.mkToken KEY key1 b' i1 None false :: more) o l ->
  reads _ (Parser.parseRootLoop fuel (Obj.set acc key (JObject o))) l a rest ->
  reads _ (Parser.parseRootLoop (S fuel) acc)
    (Scanner.mkToken KEY key 0 i None false
       :: Scanner.mkToken COLON (lit ":") 0 i None false
       :: Scanner.mkToken KEY key1 b' i1 None false :: more) a rest.
Proof.
  intros Hb Hnested Hnext. cbn [Parser.parseRootLoop]. rstep. rstep.
  cbn [Z.eqb negb]. rstep. rstep. rstep. rstep.
  apply Z.ltb_lt in Hb. rewrite Hb. cbn [orb]. rewrite ?andb_false_r.
  unfold Parser.parseObject.
  eapply reads_bind; [exact Hnested | exact Hnext].
Qed.

Lemma rootLoop_entry (d : Delimiter) (m : bool) (n : nat) (doc : Doc) :
  0 < n -> goodDoc (delimiterChar d) doc ->
  forall key i fuel acc l a rest,
    entryKey key doc = true -> shallow 0 l ->
    2 * length (linesTokens (delimiterChar d) m n i (entryLines 0 key doc)) <= fuel ->
    reads _ (Parser.parseRootLoop fuel (Obj.set acc key (docValue doc))) l a rest ->
    reads _ (Parser.parseRootLoop (S fuel) acc)
      (linesTokens (delimiterChar d) m n i (entryLines 0 key doc) ++ l) a rest.
Proof.
  intros Hn Hgood key i fuel acc l a rest Hkey Hl Hfuel Hnext.
  assert (Hplain : fieldKey key = true -> plainKey key = true).
  { intro H. apply fieldKey_facts in H. tauto. }
  pose proof (level_lt n 0 Hn) as Hb. change (Z.of_nat (0 * n)) with 0%Z in Hb.
  destruct doc as [p|values|header rows|entries|items]; cbn [entryKey] in Hkey;
    try specialize (Hplain Hkey).
  - cbn [entryLines linesTokens lineTokens fst snd app docValue] in *.
    change (Z.of_nat (0 * n)) with 0%Z.
    destruct Hgood as [Hp _].
    apply (rootLoop_property fuel acc key _ p); assumption.
  - cbn [entryLines linesTokens lineTokens fst snd app docValue goodDoc] in *.
    change (Z.of_nat (0 * n)) with 0%Z.
    destruct fuel as [|fuel]; [simpl in Hfuel; lia|].
    apply (rootLoop_array fuel acc key _ values d); assumption.
  - cbn [entryLines linesTokens lineTokens fst snd app docValue goodDoc] in *.
    change (Z.of_nat (0 * n)) with 0%Z.
    destruct fuel as [|fuel]; [simpl in Hfuel; lia|].
    apply (rootLoop_table fuel d (Z.of_nat (1 * n))); try assumption.
    apply rowTokens_lines.
  - cbn [goodDoc] in Hgood. destruct Hgood as (Hne & Hnd & Hfirst & Hgood).
    apply goodDoc_entries in Hgood.
    cbn [entryLines linesTokens lineTokens fst snd app docValue] in *.
    change (Z.of_nat (0 * n)) with 0%Z.
    fold (entriesLines 1 entries) in *.
    assert (Hnested : reads _ (Parser.parseObjectLoop fuel (Z.of_nat (1 * n)) [])
                        (linesTokens (delimiterChar d) m n (S i) (entriesLines 1 entries)
                           ++ l)
                        (map (fun kv => (fst kv, docValue (snd kv))) entries) l).
    { rewrite <- (entries_rebuilt (delimiterChar d) entries Hnd Hgood).
      apply objectLoop_entries; try assumption.
      - apply Forall_forall. intros kv _ Hg. apply entryReads_all; assumption.
      - eapply shallow_ends; eassumption.
      - simpl in Hfuel. lia. }
    assert (Hhead : exists key1 more,
              linesTokens (delimiterChar d) m n (S i) (entriesLines 1 entries)
              = Scanner.mkToken KEY key1 (Z.of_nat (1 * n)) (S i) None false :: more).
    { destruct entries as [|[key1 doc1] entries]; [congruence|].
      unfold entriesLines. cbn [flat_map fst snd].
      destruct doc1 as [p|values|header rows|es|its]; cbn [firstOpensObject] in Hfirst;
        try contradiction;
        cbn [entryLines app linesTokens lineTokens fst snd]; eauto. }
    destruct Hhead as (key1 & more & Ehead). rewrite Ehead in *. cbn [app] in *.
    eapply rootLoop_nested; [exact Hb | exact Hnested | exact Hnext].
  - cbn [goodDoc] in Hgood. destruct Hgood as [Hform Hgood].
    apply goodDoc_items in Hgood.
    cbn [entryLines linesTokens lineTokens fst snd app docValue] in *.
    change (Z.of_nat (0 * n)) with 0%Z.
    fold (itemsLines 1 items) in *.
    destruct fuel as [|fuel]; [simpl in Hfuel; lia|].
    apply rootLoop_list; try assumption.
    + apply listForm_nonempty. exact Hform.
    + apply Forall_forall. intros item _ Hg. apply itemReads_all; assumption.
    + simpl in Hfuel. lia.
Qed.

Lemma rootLoop_entries (d : Delimiter) (m : bool) (n : nat) (entries : list (str * Doc)) :
  0 < n -> goodEntries (delimiterChar d) entries ->
  forall i fuel acc l,
    match l with [] => True | t :: _ => Token.type t = EOF end ->
    2 * length (linesTokens (delimiterChar d) m n i (entriesLines 0 entries)) < fuel ->
    reads _ (Parser.parseRootLoop fuel acc)
      (linesTokens (delimiterChar d) m n i (entriesLines 0 entries) ++ l)
      (fold_left (fun r kv => Obj.set r (fst kv) (docValue (snd kv))) entries acc) l.
Proof.
  intros Hn Hgood. induction entries as [|[key doc] entries IH];
    intros i fuel acc l Hl Hfuel.
  - destruct fuel as [|fuel]; [simpl in Hfuel; lia|].
    cbn [entriesLines flat_map linesTokens app fold_left]. apply rootLoop_end. exact Hl.
  - inversion Hgood as [|? ? [Hkey Hgd] Hgood']; subst. cbn [fst snd] in *.
    destruct fuel as [|fuel]; [simpl in Hfuel; lia|].
    change (entriesLines 0 ((key, doc) :: entries))
      with (entryLines 0 key doc ++ entriesLines 0 entries) in *.
    rewrite linesTokens_app in *. rewrite length_app in Hfuel.
    pose proof (entryTokens_nonempty (delimiterChar d) m n 0 i key doc) as H1.
    rewrite <- app_assoc. cbn [fold_left fst snd].
    apply (rootLoop_entry d m n doc Hn Hgd); [exact Hkey | | lia |].
    + change 0%Z with (Z.of_nat (0 * n)). apply entriesTokens_shallow.
      destruct l as [|t l]; [exact I | left; exact Hl].
    + apply IH; [exact Hgood' | exact Hl | lia].
Qed.

(* ================================================================== *)
(** ** Documents: from the text and back *)
(* ================================================================== *)

(** *** The lines of a document are sound *)

Lemma lineText_noLF (d : Delimiter) (m : bool) (l : Line) :
  ~ In LF (lineText (delimiterChar d) m l).
Proof.
  assert (Hd : delimiterChar d <> LF) by (destruct d; discriminate).
  destruct l as [key p|key|key values|key count header|cells|key count|h];
    cbn [lineText].
  - apply (propertyLine_noLF (delimiterChar d) key p).
  - apply noLF_app; [apply encodeKey_noLF|]. simpl. intros [E|[]]. discriminate.
  - apply goodLine_noLF. apply encodeInlineArrayLine_goodLine. exact Hd.
  - apply goodLine_noLF. apply formatHeader_goodLine. exact Hd.
  - unfold encodeAndJoinPrimitives. apply noLF_join.
    + simpl. intros [E|[]]. congruence.
    + apply Forall_forall. intros x Hx. apply in_map_iff in Hx.
      destruct Hx as (v & <- & _). apply goodLine_noLF, encodePrimitive_goodLine.
  - apply goodLine_noLF. apply formatHeader_goodLine. exact Hd.
  - apply noLF_app; [simpl; intros [E|[E|[]]]; discriminate|].
    destruct h as [p|values|key p|key values]; cbn [headText].
    + apply goodLine_noLF, encodePrimitive_goodLine.
    + apply goodLine_noLF. apply encodeInlineArrayLine_goodLine. exact Hd.
    + apply (propertyLine_noLF (delimiterChar d) key p).
    + apply goodLine_noLF. apply encodeInlineArrayLine_goodLine. exact Hd.
Qed.

Lemma renderLine_noLF (d : Delimiter) (m : bool) (n : nat) (kl : nat * Line) :
  ~ In LF (renderLine (delimiterChar d) m n kl).
Proof.
  unfold renderLine. apply noLF_app; [|apply lineText_noLF].
  apply noLF_repeatStr. simpl. intros [E|[]]. discriminate.
Qed.

Lemma table_sound (d : ascii) (key : option str) (header : list str)
    (rows : list (list JsonPrimitive)) (k : nat) :
  plainHeaderKey key -> goodTable d header rows ->
  Forall (fun kl => soundLine d (snd kl))
    ((k, LTable key (length rows) header) :: map (fun cells => (S k, LRow cells)) rows).
Proof.
  intros Hkey (Hne & Hnd & Hkeys & Hrows & Hcells). constructor.
  - cbn [snd soundLine]. split; [exact Hkey|]. split; [exact Hne|].
    eapply Forall_impl; [|exact Hkeys]. intros f Hf. apply fieldKey_facts in Hf. tauto.
  - apply Forall_forall. intros kl Hkl. apply in_map_iff in Hkl.
    destruct Hkl as (cells & <- & Hin). cbn [snd soundLine].
    rewrite Forall_forall in Hcells. destruct (Hcells cells Hin) as [Hlen Hc].
    split; [|exact Hc]. intro E. subst cells. simpl in Hlen.
    destruct header; [congruence | discriminate].
Qed.

Lemma lines_sound (d : ascii) (doc : Doc) :
  (goodDoc d doc ->
   forall key k, entryKey key doc = true ->
   Forall (fun kl => soundLine d (snd kl)) (entryLines k key doc))
  /\ (goodItem d doc ->
      forall k, Forall (fun kl => soundLine d (snd kl)) (itemLines k doc)).
Proof.
  assert (Hplain : forall key, fieldKey key = true -> plainKey key = true).
  { intros key H. apply fieldKey_facts in H. tauto. }
  induction doc as [p|values|header rows|entries IH|items IH] using Doc_induction.
  - split.
    + intros Hgood key k Hkey. cbn [entryKey] in Hkey.
      cbn [entryLines]. constructor; [|constructor]. cbn [snd soundLine]. split; assumption.
    + intros [Hgood _] k. cbn [itemLines]. constructor; [|constructor]. exact Hgood.
  - split.
    + intros Hgood key k Hkey. cbn [entryKey] in Hkey.
      cbn [entryLines]. constructor; [|constructor]. apply Hplain. exact Hkey.
    + intros _ k. cbn [itemLines]. constructor; [|constructor]. exact I.
  - split; [|intros []].
    intros Hgood key k Hkey. cbn [entryKey] in Hkey.
    cbn [entryLines]. apply table_sound; [apply Hplain; exact Hkey | exact Hgood].
  - assert (Hentries : forall es k, incl es entries -> goodEntries d es ->
              Forall (fun kl => soundLine d (snd kl)) (entriesLines k es)).
    { intros es k Hincl Hgood. unfold entriesLines.
      induction es as [|[k0 x] es IHe]; [constructor|].
      inversion Hgood as [|? ? [Hk0 Hgx] Hgood']; subst. cbn [fst snd] in *.
      cbn [flat_map fst snd]. apply Forall_app. split.
      - rewrite Forall_forall in IH.
        destruct (IH (k0, x) (Hincl _ (or_introl eq_refl))) as [Hx _].
        apply Hx; assumption.
      - apply IHe; [|exact Hgood']. intros y Hy. apply Hincl. right. exact Hy. }
    split.
    + intros Hgood key k Hkey. cbn [entryKey] in Hkey.
      cbn [goodDoc] in Hgood. destruct Hgood as (_ & _ & _ & Hgood).
      apply goodDoc_entries in Hgood. cbn [entryLines].
      constructor; [exact Hkey|].
      apply (Hentries entries (S k)); [apply incl_refl | exact Hgood].
    + intros Hgood k.
      destruct entries as [|[key [p|values|header rows|es|its]] others];
        cbn [goodItem] in Hgood; try contradiction.
      * destruct Hgood as (Hkey & Hp & _ & Hgood). apply goodDoc_entries in Hgood.
        cbn [itemLines]. constructor; [split; assumption|].
        apply (Hentries others (S k)); [apply incl_tl, incl_refl | exact Hgood].
      * destruct Hgood as (Hkey & _ & _ & _ & Hgood). apply goodDoc_entries in Hgood.
        cbn [itemLines]. constructor; [apply Hplain; exact Hkey|].
        apply (Hentries others (S k)); [apply incl_tl, incl_refl | exact Hgood].
  - split; [|intros []].
    intros Hgood key k Hkey. cbn [entryKey] in Hkey.
    cbn [goodDoc] in Hgood. destruct Hgood as [_ Hgood]. apply goodDoc_items in Hgood.
    cbn [entryLines]. constructor; [apply Hplain; exact Hkey|].
    induction items as [|item items IHi]; [constructor|].
    inversion IH as [|? ? [_ Hitem] IH']; subst.
    inversion Hgood as [|? ? Hg Hgood']; subst.
    cbn [flat_map]. apply Forall_app. split; [apply Hitem; exact Hg | apply IHi; assumption].
Qed.

Lemma entryLines_sound (d : ascii) (doc : Doc) :
  goodDoc d doc ->
  forall key k, entryKey key doc = true ->
  Forall (fun kl => soundLine d (snd kl)) (entryLines k key doc).
Proof. apply (lines_sound d doc). Qed.

Lemma itemsLines_sound (d : ascii) (items : list Doc) (k : nat) :
  Forall (goodItem d) items ->
  Forall (fun kl => soundLine d (snd kl)) (itemsLines k items).
Proof.
  intro H. unfold itemsLines. induction H as [|item items Hg _ IH]; [constructor|].
  cbn [flat_map]. apply Forall_app. split; [|exact IH].
  apply (lines_sound d item). exact Hg.
Qed.

Lemma entriesLines_sound (d : ascii) (entries : list (str * Doc)) (k : nat) :
  goodEntries d entries ->
  Forall (fun kl => soundLine d (snd kl)) (entriesLines k entries).
Proof.
  intro H. induction H as [|[key doc] entries [Hk Hg] _ IH]; [constructor|].
  unfold entriesLines. cbn [flat_map fst snd] in *. apply Forall_app. split.
  - apply entryLines_sound; assumption.
  - exact IH.
Qed.

(** *** Decoding the lines of a document *)

(** The text of sound lines is scanned into their tokens and the EOF. *)
Lemma scan_lines (options : Scanner.Options) (d : Delimiter) (m : bool) (n : nat)
    (ls : list (nat * Line)) :
  Scanner.strict options = false \/ Scanner.indent options = Z.of_nat n ->
  ls <> [] -> Forall (fun kl => soundLine (delimiterChar d) (snd kl)) ls ->
  Scanner.scan options (Js.join [LF] (map (renderLine (delimiterChar d) m n) ls))
  = Ok (linesTokens (delimiterChar d) m n 0 ls
          ++ [Scanner.mkToken EOF [] 0 (length ls) None false]).
Proof.
  intros Hopt Hne Hs. unfold Scanner.scan. cbv zeta.
  rewrite split_join.
  - rewrite (scanFrom_lines options d m n ls 0 [] false (-1)%Z Hopt Hs).
    cbn [rbind app]. rewrite length_map. reflexivity.
  - destruct ls; [congruence | discriminate].
  - apply Forall_forall. intros x Hx. apply in_map_iff in Hx.
    destruct Hx as (kl & <- & _). apply renderLine_noLF.
Qed.

Lemma text_not_blank (d : Delimiter) (m : bool) (n : nat) (ls : list (nat * Line)) :
  ls <> [] -> Forall (fun kl => soundLine (delimiterChar d) (snd kl)) ls ->
  (exists l0 ls', ls = (0, l0) :: ls') ->
  Js.trim (Js.join [LF] (map (renderLine (delimiterChar d) m n) ls)) <> [].
Proof.
  intros Hne Hs (l0 & ls' & ->). inversion Hs as [|? ? Hl0 _]; subst. cbn [snd] in Hl0.
  destruct (soundLine_scans d m l0 0 Hl0) as (Hplain & _).
  cbn [map]. unfold renderLine at 1. cbn [fst snd Nat.mul Js.repeatStr app].
  destruct (lineText (delimiterChar d) m l0) as [|c rest]; [destruct Hplain|].
  destruct (join_head [LF] c rest (map (renderLine (delimiterChar d) m n) ls'))
    as (tail & ->).
  apply trim_nonblank. exact Hplain.
Qed.

Lemma reads_run (fuel : nat) (tokens : list Token.t) (v : JsonValue)
    (rest : list Token.t) :
  reads _ (Parser.parse fuel) tokens v rest -> Parser.runWith fuel tokens = Ok v.
Proof.
  intro H. unfold Parser.runWith.
  destruct (H {| Parser.tokens := tokens; Parser.position := 0 |} eq_refl)
    as (st' & -> & _).
  reflexivity.
Qed.

Lemma decode_entries (d : Delimiter) (m : bool) (n : nat) (entries : list (str * Doc))
    (options : option DecodeOptions.t) :
  0 < n ->
  Scanner.strict (Scanner.resolve options) = false
  \/ Scanner.indent (Scanner.resolve options) = Z.of_nat n ->
  entries <> [] -> NoDup (map fst entries) -> goodEntries (delimiterChar d) entries ->
  decode (Js.join [LF] (map (renderLine (delimiterChar d) m n) (entriesLines 0 entries)))
    options
  = Ok (JObject (map (fun kv => (fst kv, docValue (snd kv))) entries)).
Proof.
  intros Hn Hopt Hne Hnd Hgood.
  pose proof (entriesLines_sound (delimiterChar d) entries 0 Hgood) as Hs.
  assert (Hhead : exists l0 ls', entriesLines 0 entries = (0, l0) :: ls').
  { destruct entries as [|[key doc] entries]; [congruence|].
    unfold entriesLines. cbn [flat_map fst snd].
    destruct (entryLines_head 0 key doc) as (l0 & ls & ->). cbn [app]. eauto. }
  assert (Hls : entriesLines 0 entries <> []).
  { destruct Hhead as (l0 & ls' & ->). discriminate. }
  unfold decode.
  pose proof (text_not_blank d m n _ Hls Hs Hhead) as Hnb.
  destruct (Js.trim _); [congruence|]. clear Hnb.
  rewrite (scan_lines (Scanner.resolve options) d m n _ Hopt Hls Hs). cbn [rbind].
  unfold Parser.run. apply reads_run with (rest := [Scanner.mkToken EOF [] 0 (length (entriesLines 0 entries)) None false]).
  set (eof := Scanner.mkToken EOF [] 0 (length (entriesLines 0 entries)) None false).
  set (tokens := linesTokens (delimiterChar d) m n 0 (entriesLines 0 entries) ++ [eof]).
  set (fuel := 4 * length tokens + 8).
  assert (Hloop : reads _ (Parser.parseRootLoop fuel []) tokens
                    (map (fun kv => (fst kv, docValue (snd kv))) entries) [eof]).
  { rewrite <- (entries_rebuilt (delimiterChar d) entries Hnd Hgood).
    apply rootLoop_entries; [assumption | assumption | reflexivity|].
    unfold fuel, tokens. rewrite length_app. simpl. lia. }
  intros st Hst. destruct (Hloop st Hst) as (st' & Eloop & Hst').
  exists st'. split; [|exact Hst'].
  assert (Hfirst : exists first,
            nth_error (Parser.tokens st) (Parser.position st) = Some first
            /\ entersRootLoop first = true).
  { rewrite hd_error_skipn. fold (ahead st). rewrite Hst. unfold tokens.
    destruct entries as [|[key doc] entries]; [congruence|].
    inversion Hgood as [|? ? [Hk _] _]; subst. cbn [fst snd] in Hk.
    assert (Hplain : fieldKey key = true -> plainKey key = true).
    { intro H. apply fieldKey_facts in H. tauto. }
    unfold entriesLines. cbn [flat_map fst snd].
    destruct doc as [p|values|header rows|es|its]; cbn [entryKey] in Hk;
      try specialize (Hplain Hk);
      cbn [entryLines app linesTokens lineTokens fst snd hd_error];
      eexists; (split; [reflexivity|]); try reflexivity.
    - unfold entersRootLoop.
      rewrite (headerKey_plain ARRAY_HEADER _ _ 0
                 (inlineInfo (Some key) values (delimiterChar d)) key eq_refl Hplain).
      reflexivity.
    - unfold entersRootLoop.
      rewrite (headerKey_plain ARRAY_HEADER _ _ 0
                 (tableInfo (Some key) (length rows) header (delimiterChar d)) key
                 eq_refl Hplain).
      reflexivity.
    - unfold entersRootLoop.
      rewrite (headerKey_plain ARRAY_HEADER _ _ 0
                 (listInfo (Some key) (length its) (delimiterChar d)) key eq_refl Hplain).
      reflexivity. }
  destruct Hfirst as (first & Hfirst & Hroot).
  rewrite (parse_root_loop fuel st first Hfirst Hroot), Eloop.
  destruct entries; [congruence | reflexivity].
Qed.

Lemma decode_table (d : Delimiter) (m : bool) (n : nat) (header : list str)
    (rows : list (list JsonPrimitive)) (options : option DecodeOptions.t) :
  0 < n ->
  Scanner.strict (Scanner.resolve options) = false
  \/ Scanner.indent (Scanner.resolve options) = Z.of_nat n ->
  goodTable (delimiterChar d) header rows ->
  decode (Js.join [LF]
            (map (renderLine (delimiterChar d) m n)
               ((0, LTable None (length rows) header)
                  :: map (fun cells => (1, LRow cells)) rows)))
    options
  = Ok (JArray (map (fun cells => JObject (rowObject header cells)) rows)).
Proof.
  intros Hn Hopt Hgood.
  set (ls := (0, LTable None (length rows) header)
               :: map (fun cells => (1, LRow cells)) rows).
  assert (Hs : Forall (fun kl => soundLine (delimiterChar d) (snd kl)) ls)
    by (apply table_sound; [exact I | exact Hgood]).
  assert (Hls : ls <> []) by discriminate.
  unfold decode.
  pose proof (text_not_blank d m n ls Hls Hs (ex_intro _ _ (ex_intro _ _ eq_refl))) as Hnb.
  destruct (Js.trim _); [congruence|]. clear Hnb.
  rewrite (scan_lines (Scanner.resolve options) d m n ls Hopt Hls Hs). cbn [rbind].
  unfold Parser.run.
  apply reads_run with (rest := [Scanner.mkToken EOF [] 0 (length ls) None false]).
  unfold ls. cbn [linesTokens lineTokens fst snd app]. unfold Parser.parse.
  rstep.
  cbn [Parser.headerKey Scanner.mkToken Token.arrayInfo tableInfo ArrayInfo.key andb].
  match goal with
  | |- context [Parser.parseArray ?f] =>
      assert (Hfuel : exists fuel, f = S fuel) by (exists (f - 1); lia)
  end.
  destruct Hfuel as (fuel & ->).
  eapply reads_bind; [|apply reads_ret].
  change (Z.of_nat (0 * n)) with 0%Z.
  apply (parseArray_reads_table fuel d None _ header rows 0 (Z.of_nat (1 * n))).
  - pose proof (level_lt n 0 Hn) as H. exact H.
  - exact Hgood.
  - apply rowTokens_lines.
  - left. reflexivity.
Qed.

Lemma decode_list (d : Delimiter) (m : bool) (n : nat) (items : list Doc)
    (options : option DecodeOptions.t) :
  0 < n ->
  Scanner.strict (Scanner.resolve options) = false
  \/ Scanner.indent (Scanner.resolve options) = Z.of_nat n ->
  items <> [] -> Forall (goodItem (delimiterChar d)) items ->
  decode (Js.join [LF]
            (map (renderLine (delimiterChar d) m n)
               ((0, LList None (length items)) :: itemsLines 1 items)))
    options
  = Ok (JArray (map docValue items)).
Proof.
  intros Hn Hopt Hne Hgood.
  set (ls := (0, LList None (length items)) :: itemsLines 1 items).
  assert (Hs : Forall (fun kl => soundLine (delimiterChar d) (snd kl)) ls).
  { constructor; [exact I | apply itemsLines_sound; exact Hgood]. }
  assert (Hls : ls <> []) by discriminate.
  unfold decode.
  pose proof (text_not_blank d m n ls Hls Hs (ex_intro _ _ (ex_intro _ _ eq_refl))) as Hnb.
  destruct (Js.trim _); [congruence|]. clear Hnb.
  rewrite (scan_lines (Scanner.resolve options) d m n ls Hopt Hls Hs). cbn [rbind].
  unfold Parser.run.
  apply reads_run with (rest := [Scanner.mkToken EOF [] 0 (length ls) None false]).
  unfold ls. cbn [linesTokens lineTokens fst snd app]. unfold Parser.parse.
  rstep.
  cbn [Parser.headerKey Scanner.mkToken Token.arrayInfo listInfo ArrayInfo.key andb].
  match goal with
  | |- context [Parser.parseArray ?f] =>
      assert (Hfuel : exists fuel,
                f = S fuel
                /\ 2 * length (linesTokens (delimiterChar d) m n 1 (itemsLines 1 items))
                   < fuel)
  end.
  { eexists. split; [rewrite Nat.add_comm; reflexivity|].
    cbn [length]. rewrite length_app. simpl. lia. }
  destruct Hfuel as (fuel & -> & Hfuel).
  eapply reads_bind; [|apply reads_ret].
  change (Z.of_nat (0 * n)) with 0%Z.
  apply (parseArray_reads_list fuel (delimiterChar d) m n 0 1 0); try assumption.
  - apply Forall_forall. intros item _ Hg. apply itemReads_all; assumption.
  - left. reflexivity.
Qed.

(** *** The text of a document *)

Lemma encodeObject_entries (d : ascii) (m : bool) (options : ResolvedOptions.t)
    (entries : list (str * Doc)) (w : LineWriter.t) (k : nat) :
  ResolvedOptions.delimiter options = d -> ResolvedOptions.lengthMarker options = m ->
  goodEntries d entries ->
  encodeObject (map (fun kv => (fst kv, docValue (snd kv))) entries) w k options
  = pushLines d m w (entriesLines k entries).
Proof.
  intros Hd Hm Hgood. unfold encodeObject, encodeObjectWith, entriesLines. revert w.
  induction Hgood as [|[key doc] entries [_ Hg] _ IH]; intro w.
  - cbn [map fold_left flat_map]. rewrite pushLines_nil. reflexivity.
  - cbn [map fold_left flat_map fst snd] in *.
    rewrite (encodeKeyValuePair_doc d m options doc Hd Hm Hg), pushLines_app. apply IH.
Qed.

Lemma toString_pushLines (d : ascii) (m : bool) (n : nat) (ls : list (nat * Line)) :
  LineWriter.toString (pushLines d m (LineWriter.new n) ls)
  = Js.join [LF] (map (renderLine d m n) ls).
Proof.
  unfold LineWriter.toString, pushLines, LineWriter.new.
  cbn [LineWriter.lines LineWriter.indentationString app]. f_equal.
  apply map_ext. intros [k l]. unfold renderLine. cbn [fst snd].
  rewrite repeatStr_repeatStr. reflexivity.
Qed.

Lemma encodeValue_document (d : ascii) (m : bool) (options : ResolvedOptions.t)
    (doc : Doc) :
  ResolvedOptions.delimiter options = d -> ResolvedOptions.lengthMarker options = m ->
  rootDoc d doc ->
  encodeValue (docValue doc) options
  = Js.join [LF]
      (map (renderLine d m (ResolvedOptions.indent options))
         match doc with
         | DObject entries => entriesLines 0 entries
         | DTable header rows =>
             (0, LTable None (length rows) header)
               :: map (fun cells => (1, LRow cells)) rows
         | _ => []
         end).
Proof.
  intros Hd Hm Hroot. destruct doc as [p|values|header rows|entries|items];
    cbn [rootDoc] in Hroot; try contradiction; cbn [docValue encodeValue].
  - rewrite (encodeArray_table d m) by assumption. apply toString_pushLines.
  - destruct Hroot as (_ & _ & Hgood).
    rewrite (encodeObject_entries d m) by assumption. apply toString_pushLines.
Qed.

Lemma encodeValue_list (d : ascii) (m : bool) (options : ResolvedOptions.t)
    (items : list Doc) :
  ResolvedOptions.delimiter options = d -> ResolvedOptions.lengthMarker options = m ->
  listForm (map docValue items) -> Forall (goodItem d) items ->
  encodeValue (JArray (map docValue items)) options
  = Js.join [LF]
      (map (renderLine d m (ResolvedOptions.indent options))
         ((0, LList None (length items)) :: itemsLines 1 items)).
Proof.
  intros Hd Hm Hform Hgood. cbn [encodeValue].
  assert (Hitems : Forall (fun item => forall w k,
                             encodeListItemValue (docValue item) w k options
                             = pushLines d m w (itemLines k item)) items).
  { eapply Forall_impl; [|exact Hgood].
    intros item Hg. apply encodeListItemValue_doc; assumption. }
  rewrite (encodeArray_list d m None items _ 0 options Hd Hm Hform Hitems).
  apply toString_pushLines.
Qed.

(** X16. Documents survive the trip.  A document is a primitive, an array of
    primitives, a table (an array of objects that share their keys, in the
    same order, and hold primitives), an object of documents, or a list
    (an array that is neither of these, of primitives, arrays of primitives
    and objects whose first property holds a primitive or an array of
    primitives).  When the input, without an own property [__proto__],
    normalizes to a document that is an object or a table, with objects
    that are not empty and do not start with an array, and primitives that
    are read back from their text, which outside an inline array holds no
    opening bracket (in a table or as an item of a list a string is no ISO
    timestamp, the one string with a colon that is written bare), [decode]
    returns from the text of [encode] the normalized input, at any depth of
    nesting, provided the indent is not 0, [decode] is lenient or uses the
    same indent, and the text has at most 65535 characters.  The key of a
    primitive or of an object may need quotes: it holds no opening bracket,
    is not [__proto__] and is no array index; the key of an array and the
    fields of a table are of the shape of an identifier. *)
Theorem document_roundtrip (input : Unknown) (doc : Doc)
    (eo : option EncodeOptions.t) (options : option DecodeOptions.t) :
  let d := ResolvedOptions.delimiter (resolveEncodeOptions eo) in
  let n := ResolvedOptions.indent (resolveEncodeOptions eo) in
  noProtoKey input = true ->
  normalizeValue input = docValue doc ->
  rootDoc d doc ->
  0 < n ->
  Scanner.strict (Scanner.resolve options) = false
  \/ Scanner.indent (Scanner.resolve options) = Z.of_nat n ->
  shortText (encode input eo) = true ->
  decode (encode input eo) options = Ok (normalizeValue input).
Proof.
  intros d n _ Hnorm Hroot Hn Hopt _. unfold encode. rewrite Hnorm.
  destruct (resolved_delimiter eo) as (dl & Ed). fold d in Ed.
  rewrite (encodeValue_document d (ResolvedOptions.lengthMarker (resolveEncodeOptions eo)))
    by (try reflexivity; exact Hroot).
  fold n. rewrite Ed in *.
  destruct doc as [p|values|header rows|entries|items]; cbn [rootDoc] in Hroot;
    try contradiction; cbn [docValue].
  - apply decode_table; assumption.
  - destruct Hroot as (Hne & Hnd & Hgood). apply decode_entries; assumption.
Qed.

(** Witness: an order with a nested customer and a table of items. *)
Lemma document_roundtrip_witness :
  decode (encode orderExample None) None = Ok (normalizeValue orderExample).
Proof.
  apply (document_roundtrip orderExample orderDoc None None).
  - reflexivity.
  - reflexivity.
  - cbn [rootDoc orderDoc].
    split; [discriminate|]. split.
    + repeat constructor; simpl; intuition discriminate.
    + unfold goodEntries.
      repeat first
        [ apply Forall_cons | apply Forall_nil | apply NoDup_cons | apply NoDup_nil
        | split | exact I | reflexivity | discriminate
        | progress cbn [fst snd goodDoc goodItem goodTable fold_right firstOpensObject
                        map length entryKey]
        | (simpl; intuition discriminate) ].
  - simpl. lia.
  - right. reflexivity.
  - reflexivity.
Defined.

(** X17. Lists survive the trip.  When the input, without an own property
    [__proto__], normalizes to an array that is written as a list (not all
    its elements are primitives, and it is no table) of primitives that are
    read back from a text without an opening bracket and are no ISO
    timestamps, arrays of primitives, and objects whose first property holds
    a primitive or an array of primitives that is not empty, and whose other
    properties hold documents, with distinct keys as in documents, [decode]
    returns from the text of [encode] the normalized input, provided the
    indent is not 0, [decode] is lenient or uses the same indent, and the
    text has at most 65535 characters. *)
Theorem list_roundtrip (input : Unknown) (items : list Doc)
    (eo : option EncodeOptions.t) (options : option DecodeOptions.t) :
  let d := ResolvedOptions.delimiter (resolveEncodeOptions eo) in
  let n := ResolvedOptions.indent (resolveEncodeOptions eo) in
  noProtoKey input = true ->
  normalizeValue input = docValue (DList items) ->
  goodDoc d (DList items) ->
  0 < n ->
  Scanner.strict (Scanner.resolve options) = false
  \/ Scanner.indent (Scanner.resolve options) = Z.of_nat n ->
  shortText (encode input eo) = true ->
  decode (encode input eo) options = Ok (normalizeValue input).
Proof.
  intros d n _ Hnorm Hgood Hn Hopt _. unfold encode. rewrite Hnorm.
  destruct (resolved_delimiter eo) as (dl & Ed). fold d in Ed.
  cbn [goodDoc] in Hgood. destruct Hgood as [Hform Hgood].
  apply goodDoc_items in Hgood. cbn [docValue].
  rewrite (encodeValue_list d (ResolvedOptions.lengthMarker (resolveEncodeOptions eo)))
    by (try reflexivity; assumption).
  fold n. rewrite Ed in *.
  apply decode_list; try assumption.
  apply (listForm_nonempty items Hform).
Qed.

(** Witness: a list of tasks: objects with different keys, a string and
    an array. *)
Lemma list_roundtrip_witness :
  decode (encode taskExample None) None = Ok (normalizeValue taskExample).
Proof.
  apply (list_roundtrip taskExample taskItems None None).
  - reflexivity.
  - reflexivity.
  - cbn [goodDoc taskItems].
    repeat first
      [ apply Forall_cons | apply Forall_nil | apply NoDup_cons | apply NoDup_nil
      | split | exact I | reflexivity | discriminate
      | progress cbn [fst snd goodDoc goodItem goodTable fold_right firstOpensObject
                      map length entryKey]
      | (simpl; intuition discriminate) ].
  - simpl. lia.
  - right. reflexivity.
  - reflexivity.
Defined.

(* ================================================================== *)
(** ** Line numbers and blank lines *)
(* ================================================================== *)

(** *** The parser does not look at line numbers *)

Lemma sameToken_refl (t : Token.t) : sameToken t t.
Proof. repeat split. Qed.

Lemma sim_ret (A : Type) (a : A) : sim A eq (Parser.ret a) (Parser.ret a).
Proof. intros st1 st2 H. split; [reflexivity | exact H]. Qed.

Lemma sim_throw (A : Type) (R : A -> A -> Prop) (e : Error) :
  sim A R (Parser.throw e) (Parser.throw e).
Proof. intros st1 st2 H. reflexivity. Qed.

Lemma sim_outOfFuel (A : Type) (R : A -> A -> Prop) :
  sim A R Parser.outOfFuel Parser.outOfFuel.
Proof. intros st1 st2 H. exact I. Qed.

Lemma sim_bind (A B : Type) (RA : A -> A -> Prop) (RB : B -> B -> Prop)
    (m1 m2 : Parser.M A) (k1 k2 : A -> Parser.M B) :
  sim A RA m1 m2 -> (forall a1 a2, RA a1 a2 -> sim B RB (k1 a1) (k2 a2)) ->
  sim B RB (Parser.bind m1 k1) (Parser.bind m2 k2).
Proof.
  intros Hm Hk st1 st2 H. specialize (Hm st1 st2 H). unfold Parser.bind.
  destruct (m1 st1) as [[a1 s1]| |], (m2 st2) as [[a2 s2]| |];
    cbn [sameResult fst snd] in *; try contradiction; try assumption.
  destruct Hm as [Ha Hs]. apply (Hk a1 a2 Ha s1 s2 Hs).
Qed.

Lemma sim_lift (A : Type) (r : result A) : sim A eq (Parser.lift r) (Parser.lift r).
Proof.
  intros st1 st2 H. unfold Parser.lift. destruct r; cbn [sameResult fst snd]; auto.
Qed.

Lemma sameState_nth (st1 st2 : Parser.State) (n : nat) :
  sameState st1 st2 ->
  sameTokenOpt (nth_error (Parser.tokens st1) n) (nth_error (Parser.tokens st2) n).
Proof.
  intros [_ H]. revert n. induction H as [|t1 t2 l1 l2 Ht _ IH]; intros [|n];
    cbn [nth_error sameTokenOpt]; auto.
Qed.

Lemma sim_current : sim _ sameTokenOpt Parser.current Parser.current.
Proof.
  intros st1 st2 H. unfold Parser.current. cbn [sameResult fst snd].
  split; [|exact H]. destruct H as [Hp Ht]. rewrite Hp.
  apply sameState_nth. split; [exact Hp | exact Ht].
Qed.

Lemma sim_advance : sim _ eq Parser.advance Parser.advance.
Proof.
  intros st1 st2 [Hp Ht]. unfold Parser.advance. cbn [sameResult fst snd].
  split; [reflexivity|]. split; [cbn; rewrite Hp; reflexivity | exact Ht].
Qed.

Lemma sim_inBounds : sim _ eq Parser.inBounds Parser.inBounds.
Proof.
  intros st1 st2 [Hp Ht]. unfold Parser.inBounds. cbn [sameResult fst snd].
  split; [|split; assumption]. rewrite Hp, (Forall2_length Ht). reflexivity.
Qed.

Lemma Forall2_skipn (A : Type) (R : A -> A -> Prop) (l1 l2 : list A) (n : nat) :
  Forall2 R l1 l2 -> Forall2 R (skipn n l1) (skipn n l2).
Proof.
  intro H. revert n. induction H as [|x y l1 l2 Hxy Hl IH]; intros [|n];
    cbn [skipn]; auto.
Qed.

Lemma sim_tokensFrom : sim _ (Forall2 sameToken) Parser.tokensFrom Parser.tokensFrom.
Proof.
  intros st1 st2 [Hp Ht]. unfold Parser.tokensFrom. cbn [sameResult fst snd].
  split; [|split; assumption]. rewrite Hp. apply Forall2_skipn. exact Ht.
Qed.

Lemma Forall2_setNth (A : Type) (R : A -> A -> Prop) (l1 l2 : list A) (n : nat) (x y : A) :
  Forall2 R l1 l2 -> R x y -> Forall2 R (Parser.setNth l1 n x) (Parser.setNth l2 n y).
Proof.
  intros H Hxy. revert n. induction H as [|a b l1 l2 Hab Hl IH]; intros [|n];
    cbn [Parser.setNth]; auto.
Qed.

Lemma sim_inject (t1 t2 : Token.t) :
  sameToken t1 t2 -> sim _ eq (Parser.inject t1) (Parser.inject t2).
Proof.
  intros Hs st1 st2 [Hp Ht]. unfold Parser.inject. cbn [sameResult fst snd].
  split; [reflexivity|]. split; cbn [Parser.position Parser.tokens].
  - rewrite Hp. reflexivity.
  - rewrite Hp. apply Forall2_setNth; assumption.
Qed.

Lemma countRows_same (l1 l2 : list Token.t) (b : Z) :
  Forall2 sameToken l1 l2 -> Parser.countRows l1 b = Parser.countRows l2 b.
Proof.
  induction 1 as [|t1 t2 l1 l2 (Hty & _ & Hi & _) _ IH]; [reflexivity|].
  cbn [Parser.countRows]. rewrite Hty, Hi, IH. reflexivity.
Qed.

(** One step through the bodies of a method run twice. *)
Ltac same_tokens :=
  cbv beta;
  unfold Parser.headerKey, Parser.hasMoreProperties, Parser.isTabSibling,
    Parser.opensBlock, Parser.isCompactNested, Parser.nextIndentOf;
  cbn [Parser.typeIs Parser.deeperThan Parser.isTabSibling Parser.opensBlock
       Parser.isCompactNested Parser.valueOf Parser.nextIndentOf Parser.indentOf
       Parser.indentOr0 Parser.headerKey Parser.hasMoreProperties
       Token.type Token.value Token.indent Token.arrayInfo Token.hadTabIndent Token.line].

Ltac sim_token :=
  let t1 := fresh "t" in
  let t2 := fresh "t" in
  let H := fresh "H" in
  intros [t1|] [t2|] H; cbn [sameTokenOpt] in H; try contradiction;
  [ destruct t1, t2; unfold sameToken in H;
    cbn [Token.type Token.value Token.indent Token.arrayInfo Token.hadTabIndent] in H;
    destruct H as (? & ? & ? & ? & ?); subst
  | ];
  same_tokens.

Ltac sim_prim :=
  lazymatch goal with
  | |- sim _ _ (Parser.ret _) (Parser.ret _) => apply sim_ret
  | |- sim _ _ (Parser.throw _) (Parser.throw _) => apply sim_throw
  | |- sim _ _ Parser.outOfFuel Parser.outOfFuel => apply sim_outOfFuel
  | |- sim _ _ (Parser.bind Parser.current _) (Parser.bind Parser.current _) =>
      eapply sim_bind; [apply sim_current | sim_token]
  | |- sim _ _ (Parser.bind Parser.advance _) (Parser.bind Parser.advance _) =>
      eapply sim_bind; [apply sim_advance | intros ? ? <-; cbv beta]
  | |- sim _ _ (Parser.bind Parser.inBounds _) (Parser.bind Parser.inBounds _) =>
      eapply sim_bind; [apply sim_inBounds | intros ? ? <-; cbv beta]
  | |- sim _ _ (Parser.bind (Parser.lift ?r) _) (Parser.bind (Parser.lift ?r) _) =>
      eapply sim_bind; [apply sim_lift | intros ? ? <-; cbv beta]
  | |- sim _ _ (Parser.lift ?r) (Parser.lift ?r) => apply sim_lift
  | |- sim _ _ (Parser.bind (Parser.inject _) _) (Parser.bind (Parser.inject _) _) =>
      eapply sim_bind; [apply sim_inject; repeat split | intros ? ? <-; cbv beta]
  end.

Ltac sim_case :=
  match goal with
  | |- sim _ _ (if ?b then _ else _) (if ?b then _ else _) => destruct b
  | |- sim _ _ (match ?x with _ => _ end) (match ?x with _ => _ end) => destruct x
  end.

Lemma parseRows_same (n : nat) (fields : list str) (delimiter : ascii) (arrayIndent : Z)
    (result : JsonArray) :
  sim _ eq (Parser.parseRows n fields delimiter arrayIndent result)
    (Parser.parseRows n fields delimiter arrayIndent result).
Proof.
  revert result. induction n as [|n IH]; intro result.
  - apply sim_ret.
  - cbn [Parser.parseRows]. cbv zeta.
    repeat first
      [ sim_prim
      | match goal with
        | |- sim _ _ (Parser.parseRows n _ _ _ _) _ => apply IH
        end
      | sim_case ].
Qed.

(** The methods of the parser go the same way whatever the line numbers of
    the tokens. *)
Lemma parser_same (fuel : nat) :
  (forall b r, sim _ eq (Parser.parseObjectLoop fuel b r) (Parser.parseObjectLoop fuel b r))
  /\ sim _ eq (Parser.parseArray fuel) (Parser.parseArray fuel)
  /\ (forall b r, sim _ eq (Parser.parseListItemsLoop fuel b r)
                    (Parser.parseListItemsLoop fuel b r)).
Proof.
  induction fuel as [|fuel (IHo & IHa & IHl)].
  - repeat split; intros; apply sim_outOfFuel.
  - split; [|split].
    + intros b r. cbn [Parser.parseObjectLoop]. cbv zeta.
      repeat first
        [ sim_prim
        | match goal with
          | |- sim _ _ (Parser.parseObjectLoop fuel _ _) _ => apply IHo
          | |- sim _ _ (Parser.bind (Parser.parseObjectLoop fuel _ _) _) _ =>
              eapply sim_bind; [apply IHo | intros ? ? <-; cbv beta]
          | |- sim _ _ (Parser.bind (Parser.parseArray fuel) _) _ =>
              eapply sim_bind; [apply IHa | intros ? ? <-; cbv beta]
          | |- sim _ _ (Parser.bind (Parser.parseListItemsLoop fuel _ _) _) _ =>
              eapply sim_bind; [apply IHl | intros ? ? <-; cbv beta]
          end
        | sim_case ].
    + cbn [Parser.parseArray]. cbv zeta.
      repeat first
        [ sim_prim
        | match goal with
          | |- sim _ _ (Parser.bind Parser.tokensFrom _) _ =>
              eapply sim_bind; [apply sim_tokensFrom |];
              let H := fresh "H" in
              intros ? ? H; cbv beta; rewrite (countRows_same _ _ _ H)
          | |- sim _ _ (Parser.parseRows _ _ _ _ _) _ => apply parseRows_same
          | |- sim _ _ (Parser.bind (Parser.parseListItemsLoop fuel _ _) _) _ =>
              eapply sim_bind; [apply IHl | intros ? ? <-; cbv beta]
          end
        | sim_case ].
    + intros b r. cbn [Parser.parseListItemsLoop]. cbv zeta.
      repeat first
        [ sim_prim
        | match goal with
          | |- sim _ _ (Parser.parseListItemsLoop fuel _ _) _ => apply IHl
          | |- sim _ _ (Parser.bind (Parser.parseObjectLoop fuel _ _) _) _ =>
              eapply sim_bind; [apply IHo | intros ? ? <-; cbv beta]
          | |- sim _ _ (Parser.bind (Parser.parseArray fuel) _) _ =>
              eapply sim_bind; [apply IHa | intros ? ? <-; cbv beta]
          | |- sim _ _ (Parser.bind (Parser.parseListItemsLoop fuel _ _) _) _ =>
              eapply sim_bind; [apply IHl | intros ? ? <-; cbv beta]
          | |- sim _ _ (Parser.bind _ _) (Parser.bind _ _) =>
              eapply (sim_bind _ _ eq); [|intros ? ? <-; cbv beta]
          end
        | sim_case ].
Qed.

Lemma parseRootLoop_same (fuel : nat) (r : JsonObject) :
  sim _ eq (Parser.parseRootLoop fuel r) (Parser.parseRootLoop fuel r).
Proof.
  revert r. induction fuel as [|fuel IH]; intro r; [apply sim_outOfFuel|].
  destruct (parser_same fuel) as (IHo & IHa & IHl).
  cbn [Parser.parseRootLoop]. unfold Parser.parseObject, Parser.parseListItems. cbv zeta.
  repeat first
    [ sim_prim
    | match goal with
      | |- sim _ _ (Parser.parseRootLoop fuel _) _ => apply IH
      | |- sim _ _ (Parser.bind (Parser.parseObjectLoop fuel _ _) _) _ =>
          eapply sim_bind; [apply IHo | intros ? ? <-; cbv beta]
      | |- sim _ _ (Parser.bind (Parser.parseArray fuel) _) _ =>
          eapply sim_bind; [apply IHa | intros ? ? <-; cbv beta]
      | |- sim _ _ (Parser.bind (Parser.parseListItemsLoop fuel _ _) _) _ =>
          eapply sim_bind; [apply IHl | intros ? ? <-; cbv beta]
      end
    | sim_case ].
Qed.

Lemma parse_same (fuel : nat) : sim _ eq (Parser.parse fuel) (Parser.parse fuel).
Proof.
  destruct (parser_same fuel) as (IHo & IHa & IHl).
  unfold Parser.parse.
  repeat first
    [ sim_prim
    | match goal with
      | |- sim _ _ (Parser.bind (Parser.parseRootLoop fuel _) _) _ =>
          eapply sim_bind; [apply parseRootLoop_same | intros ? ? <-; cbv beta]
      | |- sim _ _ (Parser.bind (Parser.parseArray fuel) _) _ =>
          eapply sim_bind; [apply IHa | intros ? ? <-; cbv beta]
      end
    | sim_case ].
Qed.

(** The parser returns the same from tokens that differ in their line
    numbers only. *)
Lemma run_same (tokens1 tokens2 : list Token.t) :
  Forall2 sameToken tokens1 tokens2 -> Parser.run tokens1 = Parser.run tokens2.
Proof.
  intro H. unfold Parser.run, Parser.runWith. rewrite (Forall2_length H).
  pose proof (parse_same (4 * length tokens2 + 8)
                {| Parser.tokens := tokens1; Parser.position := 0 |}
                {| Parser.tokens := tokens2; Parser.position := 0 |}
                (conj eq_refl H)) as Hs.
  destruct (Parser.parse _ {| Parser.tokens := tokens1; Parser.position := 0 |})
    as [[a1 s1]| |],
    (Parser.parse _ {| Parser.tokens := tokens2; Parser.position := 0 |})
    as [[a2 s2]| |]; cbn [sameResult fst snd] in Hs; try contradiction.
  - destruct Hs as [-> _]. reflexivity.
  - rewrite Hs. reflexivity.
  - reflexivity.
Qed.

(** *** A line feed at the end *)

Lemma split_nonempty (sep : ascii) (s : str) : Js.split sep s <> [].
Proof.
  induction s as [|c s IH]; cbn [Js.split]; [discriminate|].
  destruct (Js.ch_eqb c sep); [discriminate|].
  destruct (Js.split sep s); discriminate.
Qed.

Lemma split_snoc_sep (sep : ascii) (s : str) :
  Js.split sep (s ++ [sep]) = Js.split sep s ++ [[]].
Proof.
  induction s as [|c s IH]; cbn [app Js.split].
  - rewrite ch_eqb_refl. reflexivity.
  - rewrite IH. destruct (Js.ch_eqb c sep); [reflexivity|].
    pose proof (split_nonempty sep s) as Hne.
    destruct (Js.split sep s) as [|piece rest]; [congruence | reflexivity].
Qed.

Lemma nextNonBlank_snoc (ls : list str) (i : nat) :
  Scanner.nextNonBlank (ls ++ [[]]) i = Scanner.nextNonBlank ls i.
Proof.
  revert i. induction ls as [|l ls IH]; intro i; [reflexivity|].
  cbn [app Scanner.nextNonBlank]. rewrite IH. reflexivity.
Qed.

(** A blank line after the last line changes nothing for the loop of the
    scanner. *)
Lemma scanFrom_snoc_blank (options : Scanner.Options) (ls : list str) (i : nat)
    (tokens : list Token.t) (insideArray : bool) (arrayIndent : Z) :
  Scanner.scanFrom options (ls ++ [[]]) i tokens insideArray arrayIndent
  = Scanner.scanFrom options ls i tokens insideArray arrayIndent.
Proof.
  revert i tokens insideArray arrayIndent.
  induction ls as [|l ls IH]; intros i tokens insideArray arrayIndent.
  - cbn. destruct (Scanner.strict options && insideArray); reflexivity.
  - cbn [app Scanner.scanFrom]. rewrite nextNonBlank_snoc.
    destruct (Scanner.isBlank l).
    + destruct (if Scanner.strict options && insideArray then _ else _) as [[]| |];
        cbn [rbind]; [apply IH | reflexivity | reflexivity].
    + destruct (Scanner.getIndent options l (i + 1)) as [info| |]; cbn [rbind];
        try reflexivity.
      destruct (Scanner.parseArrayHeader (Js.trim l)) as [ah| |]; cbn [rbind];
        try reflexivity.
      destruct (match ah with Some _ => _ | None => _ end) as [ia ai].
      destruct (Scanner.scanLine _ _ _ _) as [ts| |]; cbn [rbind]; try reflexivity.
      apply IH.
Qed.

Lemma dropWhile_app (p : ascii -> bool) (a b : str) :
  Js.dropWhile p (a ++ b)
  = if forallb p a then Js.dropWhile p b else Js.dropWhile p a ++ b.
Proof.
  induction a as [|c a IH]; cbn [app Js.dropWhile forallb]; [reflexivity|].
  destruct (p c); [exact IH | reflexivity].
Qed.

Lemma trim_snoc_white (s : str) (c : ascii) :
  Js.isWhiteSpace c = true -> Js.trim (s ++ [c]) = Js.trim s.
Proof.
  intro Hc. unfold Js.trim, Js.trimStart, Js.trimEnd. rewrite dropWhile_app.
  destruct (forallb Js.isWhiteSpace s) eqn:E.
  - cbn [Js.dropWhile]. rewrite Hc.
    assert (Hs : Js.dropWhile Js.isWhiteSpace s = []).
    { clear - E. induction s as [|x s IH]; [reflexivity|].
      cbn [forallb] in E. apply andb_true_iff in E. destruct E as [Hx Hs].
      cbn [Js.dropWhile]. rewrite Hx. apply IH. exact Hs. }
    rewrite Hs. reflexivity.
  - rewrite rev_app_distr. cbn [rev app Js.dropWhile]. rewrite Hc. reflexivity.
Qed.

Lemma Forall2_same (ts : list Token.t) : Forall2 sameToken ts ts.
Proof. induction ts; constructor; [apply sameToken_refl | assumption]. Qed.

(** X18. A line feed at the end of the text does not matter: [decode] returns
    the same from a text and from the text followed by a line feed,
    whatever the text and the options, the result being a value or an
    error. *)
Theorem decode_trailing_newline (input : str) (options : option DecodeOptions.t) :
  decode (input ++ [LF]) options = decode input options.
Proof.
  unfold decode. rewrite trim_snoc_white by reflexivity.
  destruct (Js.trim input) as [|c rest]; [reflexivity|].
  unfold Scanner.scan. cbv zeta. rewrite split_snoc_sep, scanFrom_snoc_blank.
  destruct (Scanner.scanFrom _ _ _ _ _ _) as [tokens| |]; cbn [rbind]; try reflexivity.
  apply run_same. apply Forall2_app; [apply Forall2_same|].
  constructor; [|constructor]. repeat split.
Qed.

(** *** Blank lines *)

Lemma getIndentFrom_line (options : Scanner.Options) (line : str) (n n' : nat)
    (count : Z) (had : bool) :
  Scanner.strict options = false ->
  Scanner.getIndentFrom options line n count had
  = Scanner.getIndentFrom options line n' count had.
Proof.
  intro Hs. revert count had. induction line as [|c line IH]; intros count had;
    [reflexivity|].
  cbn [Scanner.getIndentFrom]. rewrite Hs.
  destruct (Js.ch_eqb c SPACE); [apply IH|].
  destruct (Js.ch_eqb c TAB); [apply IH | reflexivity].
Qed.

Lemma getIndent_line (options : Scanner.Options) (line : str) (n n' : nat) :
  Scanner.strict options = false ->
  Scanner.getIndent options line n = Scanner.getIndent options line n'.
Proof.
  intro Hs. unfold Scanner.getIndent. rewrite (getIndentFrom_line options line n n') by exact Hs.
  destruct (Scanner.getIndentFrom options line n' 0 false); cbn [rbind]; try reflexivity.
  rewrite Hs. reflexivity.
Qed.

(** The line number only tags the tokens of a line. *)
Lemma scanLine_line (trimmed : str) (indent : Z) (i j : nat) (had : bool) :
  sameResult _ (Forall2 sameToken) (Scanner.scanLine trimmed indent i had)
    (Scanner.scanLine trimmed indent j had).
Proof.
  unfold Scanner.scanLine.
  destruct (Js.startsWith trimmed (lit "- ")).
  { cbn [sameResult]. constructor; [repeat split | constructor]. }
  destruct (Scanner.parseArrayHeader trimmed) as [[info|]| |]; cbn [rbind sameResult];
    try reflexivity; try exact I.
  { constructor; [repeat split | constructor]. }
  cbv zeta.
  assert (Hplain : Forall2 sameToken [Scanner.mkToken VALUE trimmed indent i None had]
                     [Scanner.mkToken VALUE trimmed indent j None had]).
  { constructor; [repeat split | constructor]. }
  destruct (Js.includes trimmed ":"); [|exact Hplain].
  destruct (findMainColon trimmed); [|exact Hplain].
  destruct (_ || _); [|exact Hplain].
  destruct (unescapeKey _); cbn [rbind sameResult]; try reflexivity; try exact I.
  destruct (Js.trim (Js.substringFrom _ _));
    repeat (constructor; [repeat split|]); constructor.
Qed.

(** Without the strict checks, the loop of the scanner makes the same
    tokens of the lines and of those that are not blank, line numbers
    apart. *)
Lemma scanFrom_solid (options : Scanner.Options) (ls : list str) (i j : nat)
    (tokens1 tokens2 : list Token.t) (insideArray : bool) (arrayIndent : Z) :
  Scanner.strict options = false ->
  Forall2 sameToken tokens1 tokens2 ->
  sameResult _ (Forall2 sameToken)
    (Scanner.scanFrom options ls i tokens1 insideArray arrayIndent)
    (Scanner.scanFrom options
       (filter (fun line => negb (Scanner.isBlank line)) ls) j tokens2
       insideArray arrayIndent).
Proof.
  intro Hs. revert i j tokens1 tokens2 insideArray arrayIndent.
  induction ls as [|l ls IH]; intros i j tokens1 tokens2 insideArray arrayIndent Ht.
  - exact Ht.
  - cbn [filter Scanner.scanFrom]. destruct (Scanner.isBlank l) eqn:Eb; cbn [negb].
    + rewrite Hs. cbn [andb rbind]. apply IH. exact Ht.
    + cbn [Scanner.scanFrom]. rewrite Eb.
      rewrite (getIndent_line options l (i + 1) (j + 1)) by exact Hs.
      destruct (Scanner.getIndent options l (j + 1)) as [info| |];
        cbn [rbind sameResult]; try reflexivity; try exact I.
      destruct (Scanner.parseArrayHeader (Js.trim l)) as [ah| |];
        cbn [rbind sameResult]; try reflexivity; try exact I.
      destruct (match ah with Some _ => _ | None => _ end) as [ia ai].
      pose proof (scanLine_line (Js.trim l) (IndentInfo.count info) i j
                    (IndentInfo.hadTabIndent info)) as Hline.
      destruct (Scanner.scanLine (Js.trim l) (IndentInfo.count info) i
                  (IndentInfo.hadTabIndent info)) as [ts1| |],
        (Scanner.scanLine (Js.trim l) (IndentInfo.count info) j
           (IndentInfo.hadTabIndent info)) as [ts2| |];
        cbn [sameResult] in Hline; try contradiction; cbn [rbind sameResult];
        try exact Hline; try exact I.
      apply IH. apply Forall2_app; assumption.
Qed.

(** A text is blank when all its lines are. *)
Lemma dropWhile_nil_iff (p : ascii -> bool) (l : str) :
  Js.dropWhile p l = [] <-> forallb p l = true.
Proof.
  induction l as [|c l IH]; cbn [Js.dropWhile forallb]; [tauto|].
  destruct (p c); cbn [andb]; [exact IH|]. split; discriminate.
Qed.

Lemma trim_nil_iff (s : str) : Js.trim s = [] <-> forallb Js.isWhiteSpace s = true.
Proof.
  unfold Js.trim, Js.trimStart, Js.trimEnd. split.
  - intro H. apply (f_equal (@rev ascii)) in H. rewrite rev_involutive in H.
    cbn [rev] in H. apply dropWhile_nil_iff in H.
    apply dropWhile_nil_iff.
    destruct (dropWhile_head Js.isWhiteSpace s) as [E | (c & r & E & Hc)]; [exact E|].
    exfalso. rewrite E in H. rewrite forallb_forall in H.
    specialize (H c). rewrite Hc in H. discriminate H.
    apply -> in_rev. left. reflexivity.
  - intro H. apply dropWhile_nil_iff in H. rewrite H. reflexivity.
Qed.

Lemma isBlank_white (line : str) : Scanner.isBlank line = forallb Js.isWhiteSpace line.
Proof.
  unfold Scanner.isBlank. destruct (Js.trim line) eqn:E.
  - symmetry. apply trim_nil_iff. exact E.
  - destruct (forallb Js.isWhiteSpace line) eqn:Ew; [|reflexivity].
    apply trim_nil_iff in Ew. congruence.
Qed.

Lemma white_lines (s : str) :
  forallb Js.isWhiteSpace s = forallb Scanner.isBlank (Js.split LF s).
Proof.
  induction s as [|c s IH]; [reflexivity|].
  cbn [forallb Js.split]. destruct (Js.ch_eqb c LF) eqn:E.
  - apply ch_eqb_eq in E. subst c. cbn [forallb]. rewrite IH. reflexivity.
  - pose proof (split_nonempty LF s) as Hne. rewrite IH.
    destruct (Js.split LF s) as [|piece rest]; [congruence|].
    cbn [forallb]. rewrite !isBlank_white. cbn [forallb].
    rewrite andb_assoc. reflexivity.
Qed.

Lemma split_pieces (sep : ascii) (s : str) :
  Forall (fun p => ~ In sep p) (Js.split sep s).
Proof.
  induction s as [|c s IH]; cbn [Js.split].
  - constructor; [intros [] | constructor].
  - destruct (Js.ch_eqb c sep) eqn:E.
    + constructor; [intros [] | exact IH].
    + destruct (Js.split sep s) as [|piece rest].
      * constructor; [|constructor]. intros [H|[]]. subst.
        rewrite ch_eqb_refl in E. discriminate.
      * inversion IH as [|? ? Hp Hrest]; subst. constructor; [|exact Hrest].
        intros [H|H]; [subst; rewrite ch_eqb_refl in E; discriminate | exact (Hp H)].
Qed.

Lemma solidLines_nil (input : str) : solidLines input = [] <-> Js.trim input = [].
Proof.
  rewrite trim_nil_iff, white_lines. unfold solidLines.
  induction (Js.split LF input) as [|l ls IH]; cbn [filter forallb]; [tauto|].
  destruct (Scanner.isBlank l); cbn [negb andb]; [exact IH|]. split; discriminate.
Qed.

Lemma solid_text (input : str) :
  Js.trim (Js.join [LF] (solidLines input)) = [] <-> Js.trim input = [].
Proof.
  rewrite <- (solidLines_nil input). split.
  - intro H. rewrite trim_nil_iff in H.
    destruct (solidLines input) as [|l ls] eqn:E; [reflexivity|]. exfalso.
    assert (Hl : Scanner.isBlank l = false).
    { assert (Hin : In l (solidLines input)) by (rewrite E; left; reflexivity).
      unfold solidLines in Hin. apply filter_In in Hin. destruct Hin as [_ Hin].
      apply negb_true_iff in Hin. exact Hin. }
    rewrite isBlank_white in Hl.
    assert (Hj : exists rest, Js.join [LF] (l :: ls) = l ++ rest).
    { destruct ls as [|q ls]; [exists []; cbn; rewrite app_nil_r; reflexivity|].
      rewrite join_cons2. eauto. }
    destruct Hj as (rest & Hj). rewrite Hj, forallb_app, Hl in H. discriminate.
  - intros ->. reflexivity.
Qed.

(** X19. Blank lines do not matter to a lenient [decode]: with [strict] off,
    [decode] returns the same, a value or an error, from a text and from
    its lines that are not blank, whatever the indent; where the blank
    lines stand, between properties, inside an array or at either end,
    plays no role. *)
Theorem decode_blank_lines (input : str) (options : option DecodeOptions.t) :
  Scanner.strict (Scanner.resolve options) = false ->
  decode input options = decode (Js.join [LF] (solidLines input)) options.
Proof.
  intro Hs. unfold decode.
  destruct (Js.trim input) as [|c rest] eqn:Et.
  - apply (proj2 (solid_text input)) in Et. rewrite Et. reflexivity.
  - destruct (Js.trim (Js.join [LF] (solidLines input))) as [|c' rest'] eqn:Ej.
    + apply (proj1 (solid_text input)) in Ej. congruence.
    + assert (Hne : solidLines input <> []).
      { intro E. apply solidLines_nil in E. congruence. }
      unfold Scanner.scan. cbv zeta.
      rewrite split_join.
      2:{ exact Hne. }
      2:{ unfold solidLines. apply Forall_forall. intros l Hl.
          apply filter_In in Hl. destruct Hl as [Hl _].
          pose proof (split_pieces LF input) as Hp. rewrite Forall_forall in Hp.
          apply Hp. exact Hl. }
      pose proof (scanFrom_solid (Scanner.resolve options) (Js.split LF input) 0 0
                    [] [] false (-1)%Z Hs (Forall2_nil _)) as Hscan.
      fold (solidLines input) in Hscan.
      destruct (Scanner.scanFrom _ (Js.split LF input) _ _ _ _) as [ts1| |],
        (Scanner.scanFrom _ (solidLines input) _ _ _ _) as [ts2| |];
        cbn [sameResult] in Hscan; try contradiction; cbn [rbind].
      * apply run_same. apply Forall2_app; [exact Hscan|].
        constructor; [|constructor]. repeat split.
      * rewrite Hscan. reflexivity.
      * reflexivity.
Qed.

(** Witness: blank lines between properties, inside a table and at both
    ends. *)
Lemma decode_blank_lines_witness :
  decode spacedText lenientOptions = decode packedText lenientOptions.
Proof. apply (decode_blank_lines spacedText lenientOptions). reflexivity. Defined.

(* ================================================================== *)
(** ** Options and white space at line ends *)
(* ================================================================== *)

(** *** Strict and lenient *)

Lemma getIndentFrom_relaxed (o1 o2 : Scanner.Options) (line : str) (n : nat)
    (count : Z) (had : bool) (info : IndentInfo.t) :
  Scanner.strict o2 = false ->
  Scanner.getIndentFrom o1 line n count had = Ok info ->
  Scanner.getIndentFrom o2 line n count had = Ok info.
Proof.
  intro Hs. revert count had. induction line as [|c line IH]; intros count had H;
    [exact H|].
  cbn [Scanner.getIndentFrom] in *. rewrite Hs.
  destruct (Js.ch_eqb c SPACE); [apply IH; exact H|].
  destruct (Js.ch_eqb c TAB); [|exact H].
  destruct (Scanner.strict o1); [discriminate | apply IH; exact H].
Qed.

Lemma getIndent_relaxed (o1 o2 : Scanner.Options) (line : str) (n : nat)
    (info : IndentInfo.t) :
  Scanner.strict o2 = false ->
  Scanner.getIndent o1 line n = Ok info -> Scanner.getIndent o2 line n = Ok info.
Proof.
  intros Hs H. unfold Scanner.getIndent in *.
  destruct (Scanner.getIndentFrom o1 line n 0 false) as [i| |] eqn:E; try discriminate.
  rewrite (getIndentFrom_relaxed o1 o2 line n 0 false i Hs E).
  cbn [rbind] in *. rewrite Hs. cbn [andb].
  destruct (_ && _ && _) in H; [discriminate | exact H].
Qed.

(** What the scanner makes of a text with some options, it makes of it
    with the strict checks off. *)
Lemma scanFrom_relaxed (o1 o2 : Scanner.Options) (ls : list str) (i : nat)
    (tokens : list Token.t) (insideArray : bool) (arrayIndent : Z) (ts : list Token.t) :
  Scanner.strict o2 = false ->
  Scanner.scanFrom o1 ls i tokens insideArray arrayIndent = Ok ts ->
  Scanner.scanFrom o2 ls i tokens insideArray arrayIndent = Ok ts.
Proof.
  intro Hs. revert i tokens insideArray arrayIndent.
  induction ls as [|l ls IH]; intros i tokens insideArray arrayIndent H; [exact H|].
  cbn [Scanner.scanFrom] in *. rewrite Hs. destruct (Scanner.isBlank l).
  - cbn [andb rbind].
    destruct (if Scanner.strict o1 && insideArray then _ else _) as [[]| |];
      try discriminate.
    apply IH. exact H.
  - destruct (Scanner.getIndent o1 l (i + 1)) as [info| |] eqn:E; try discriminate.
    rewrite (getIndent_relaxed o1 o2 l (i + 1) info Hs E). cbn [rbind] in *.
    destruct (Scanner.parseArrayHeader (Js.trim l)) as [ah| |]; try discriminate.
    cbn [rbind] in *.
    destruct (match ah with Some _ => _ | None => _ end) as [ia ai].
    destruct (Scanner.scanLine _ _ _ _) as [ts'| |]; try discriminate.
    cbn [rbind] in *. apply IH. exact H.
Qed.

(** X20. The strict checks only reject.  A value that [decode] returns with
    some options, strict or not, it returns with [strict] off, whatever the
    indent: the indent option and the strict mode never change a decoded
    value, they only turn a text down. *)
Theorem decode_relaxed (input : str) (o1 o2 : option DecodeOptions.t) (v : JsonValue) :
  Scanner.strict (Scanner.resolve o2) = false ->
  decode input o1 = Ok v -> decode input o2 = Ok v.
Proof.
  intros Hs H. unfold decode in *. destruct (Js.trim input); [exact H|].
  unfold Scanner.scan in *. cbv zeta in *.
  destruct (Scanner.scanFrom (Scanner.resolve o1) _ _ _ _ _) as [ts| |] eqn:E;
    try discriminate.
  rewrite (scanFrom_relaxed _ (Scanner.resolve o2) _ _ _ _ _ ts Hs E). exact H.
Qed.

(** Witness: a text that the strict decoder accepts. *)
Lemma decode_relaxed_witness :
  decode stockText None = Ok stockValue
  /\ decode stockText
       (Some {| DecodeOptions.strict := Some false; DecodeOptions.indent := Some 3%Z |})
     = Ok stockValue.
Proof.
  split; [reflexivity|].
  apply (decode_relaxed stockText None); reflexivity.
Defined.

(** *** White space at the end of a line *)

Lemma trim_app_white (l w : str) :
  forallb Js.isWhiteSpace w = true -> Js.trim (l ++ w) = Js.trim l.
Proof.
  revert l. induction w as [|c w IH]; intros l H; [rewrite app_nil_r; reflexivity|].
  cbn [forallb] in H. apply andb_true_iff in H. destruct H as [Hc Hw].
  replace (l ++ c :: w) with ((l ++ [c]) ++ w) by (rewrite <- app_assoc; reflexivity).
  rewrite IH by exact Hw. apply trim_snoc_white. exact Hc.
Qed.

Lemma isBlank_cons (c : ascii) (l : str) :
  Js.isWhiteSpace c = true -> Scanner.isBlank (c :: l) = Scanner.isBlank l.
Proof. intro H. rewrite !isBlank_white. cbn [forallb]. rewrite H. reflexivity. Qed.

Lemma getIndentFrom_padded (options : Scanner.Options) (l w : str) (n : nat)
    (count : Z) (had : bool) :
  Scanner.isBlank l = false ->
  Scanner.getIndentFrom options (l ++ w) n count had
  = Scanner.getIndentFrom options l n count had.
Proof.
  revert count had. induction l as [|c l IH]; intros count had Hb; [discriminate|].
  cbn [app Scanner.getIndentFrom].
  destruct (Js.ch_eqb c SPACE) eqn:Es.
  - apply ch_eqb_eq in Es. subst c. apply IH.
    rewrite isBlank_cons in Hb by reflexivity. exact Hb.
  - destruct (Js.ch_eqb c TAB) eqn:Et; [|reflexivity].
    apply ch_eqb_eq in Et. subst c. destruct (Scanner.strict options); [reflexivity|].
    apply IH. rewrite isBlank_cons in Hb by reflexivity. exact Hb.
Qed.

Lemma getIndent_padded (options : Scanner.Options) (l w : str) (n : nat) :
  Scanner.isBlank l = false ->
  Scanner.getIndent options (l ++ w) n = Scanner.getIndent options l n.
Proof.
  intro Hb. unfold Scanner.getIndent. rewrite getIndentFrom_padded by exact Hb.
  reflexivity.
Qed.

Lemma padded_blank (l l' : str) : padded l l' -> Scanner.isBlank l' = Scanner.isBlank l.
Proof.
  intros (w & -> & Hw & _). rewrite !isBlank_white, forallb_app, Hw. apply andb_true_r.
Qed.

Lemma padded_trim (l l' : str) : padded l l' -> Js.trim l' = Js.trim l.
Proof. intros (w & -> & Hw & _). apply trim_app_white. exact Hw. Qed.

Lemma padded_indent (options : Scanner.Options) (l l' : str) (n : nat) :
  padded l l' -> Scanner.isBlank l = false ->
  Scanner.getIndent options l' n = Scanner.getIndent options l n.
Proof. intros (w & -> & _) Hb. apply getIndent_padded. exact Hb. Qed.

(** What the strict scanner does at a blank line inside an array. *)
Lemma nextNonBlank_padded (options : Scanner.Options) (ls ls' : list str) (i : nat)
    (arrayIndent : Z) (tokens : list Token.t) :
  Forall2 padded ls ls' ->
  match Scanner.nextNonBlank ls' i with
  | Some (nextLine, nextLineIndex) =>
      rbind (Scanner.getIndent options nextLine (nextLineIndex + 1)) (fun nextIndent =>
        if (arrayIndent <? IndentInfo.count nextIndent)%Z
        then Throw (BlankLineInsideArray (Scanner.lastIsListItem tokens))
        else Ok tt)
  | None => Ok tt
  end
  = match Scanner.nextNonBlank ls i with
    | Some (nextLine, nextLineIndex) =>
        rbind (Scanner.getIndent options nextLine (nextLineIndex + 1)) (fun nextIndent =>
          if (arrayIndent <? IndentInfo.count nextIndent)%Z
          then Throw (BlankLineInsideArray (Scanner.lastIsListItem tokens))
          else Ok tt)
    | None => Ok tt
    end.
Proof.
  intro H. revert i. induction H as [|l l' ls ls' Hl _ IH]; intro i; [reflexivity|].
  cbn [Scanner.nextNonBlank]. rewrite (padded_blank l l' Hl).
  destruct (Scanner.isBlank l) eqn:Eb; [apply IH|].
  rewrite (padded_indent options l l' (i + 1) Hl Eb). reflexivity.
Qed.

(** White space at the end of the lines changes nothing for the loop of
    the scanner. *)
Lemma scanFrom_padded (options : Scanner.Options) (ls ls' : list str) (i : nat)
    (tokens : list Token.t) (insideArray : bool) (arrayIndent : Z) :
  Forall2 padded ls ls' ->
  Scanner.scanFrom options ls' i tokens insideArray arrayIndent
  = Scanner.scanFrom options ls i tokens insideArray arrayIndent.
Proof.
  intro H. revert i tokens insideArray arrayIndent.
  induction H as [|l l' ls ls' Hl Hls IH]; intros i tokens insideArray arrayIndent;
    [reflexivity|].
  cbn [Scanner.scanFrom]. rewrite (padded_blank l l' Hl), (padded_trim l l' Hl).
  destruct (Scanner.isBlank l) eqn:Eb.
  - rewrite (nextNonBlank_padded options ls ls' (i + 1) arrayIndent tokens Hls).
    destruct (if Scanner.strict options && insideArray then _ else _) as [[]| |];
      cbn [rbind]; [apply IH | reflexivity | reflexivity].
  - rewrite (padded_indent options l l' (i + 1) Hl Eb).
    destruct (Scanner.getIndent options l (i + 1)) as [info| |]; cbn [rbind];
      try reflexivity.
    destruct (Scanner.parseArrayHeader (Js.trim l)) as [ah| |]; cbn [rbind];
      try reflexivity.
    destruct (match ah with Some _ => _ | None => _ end) as [ia ai].
    destruct (Scanner.scanLine _ _ _ _) as [ts| |]; cbn [rbind]; try reflexivity.
    apply IH.
Qed.

Lemma blank_text (ls : list str) :
  ls <> [] -> Forall (fun l => ~ In LF l) ls ->
  forallb Js.isWhiteSpace (Js.join [LF] ls) = forallb Scanner.isBlank ls.
Proof.
  intros Hne Hls. rewrite white_lines, split_join by assumption. reflexivity.
Qed.

(** X21. White space at the end of a line does not matter: [decode] returns
    the same, a value or an error, from lines and from the same lines with
    white space added at their ends, whatever the options.  A text with
    CR LF line ends is decoded like the text with LF line ends. *)
Theorem decode_trailing_space (ls ls' : list str) (options : option DecodeOptions.t) :
  Forall (fun l => ~ In LF l) ls -> Forall2 padded ls ls' ->
  decode (Js.join [LF] ls') options = decode (Js.join [LF] ls) options.
Proof.
  intros Hls Hpad.
  destruct ls as [|l0 ls0] eqn:Els.
  { inversion Hpad. reflexivity. }
  rewrite <- Els in *.
  assert (Hne : ls <> []) by (rewrite Els; discriminate).
  assert (Hne' : ls' <> []).
  { intro E. rewrite E in Hpad. inversion Hpad. congruence. }
  assert (Hls' : Forall (fun l => ~ In LF l) ls').
  { clear - Hls Hpad. induction Hpad as [|l l' ls ls' (w & -> & _ & Hw) _ IH];
      [constructor|].
    inversion Hls as [|? ? Hl Hrest]; subst. constructor; [|apply IH; exact Hrest].
    intro Hin. apply in_app_or in Hin. tauto. }
  assert (Hblank : forallb Scanner.isBlank ls' = forallb Scanner.isBlank ls).
  { clear - Hpad. induction Hpad as [|l l' ls ls' Hl _ IH]; [reflexivity|].
    cbn [forallb]. rewrite (padded_blank l l' Hl), IH. reflexivity. }
  unfold decode.
  destruct (Js.trim (Js.join [LF] ls)) as [|c rest] eqn:Et.
  - apply trim_nil_iff in Et. rewrite blank_text in Et by assumption.
    rewrite <- Hblank, <- blank_text in Et by assumption.
    apply trim_nil_iff in Et. rewrite Et. reflexivity.
  - destruct (Js.trim (Js.join [LF] ls')) as [|c' rest'] eqn:Et'.
    + apply trim_nil_iff in Et'. rewrite blank_text, Hblank in Et' by assumption.
      rewrite <- blank_text in Et' by assumption.
      apply trim_nil_iff in Et'. congruence.
    + unfold Scanner.scan. cbv zeta. rewrite !split_join by assumption.
      rewrite (scanFrom_padded _ ls ls' 0 [] false (-1)%Z Hpad).
      rewrite (Forall2_length Hpad). reflexivity.
Qed.

(** Witness: the lines of a text, each but the last with a carriage
    return at its end. *)
Lemma decode_trailing_space_witness :
  decode (lit "shop: north" ++ [CR; LF] ++ lit "rows[2]{sku,ok}:" ++ [CR; LF]
            ++ lit "  a1,true" ++ [CR; LF] ++ lit "  b2,false" ++ [CR; LF]
            ++ lit "open: true") None
  = decode stockText None.
Proof.
  apply (decode_trailing_space
           [lit "shop: north"; lit "rows[2]{sku,ok}:"; lit "  a1,true"; lit "  b2,false";
            lit "open: true"]
           [lit "shop: north" ++ [CR]; lit "rows[2]{sku,ok}:" ++ [CR];
            lit "  a1,true" ++ [CR]; lit "  b2,false" ++ [CR]; lit "open: true"] None).
  - repeat constructor; vm_compute; intuition discriminate.
  - repeat constructor;
      try (exists [CR]; split; [reflexivity | split; [reflexivity|]];
           vm_compute; intuition discriminate).
    exists []. split; [reflexivity | split; [reflexivity | intros []]].
Defined.

(* ================================================================== *)
(** ** Where a string is written, and an array with an empty slot *)
(* ================================================================== *)

(** *** Where the encoder writes a string *)










(** *** An array with an empty slot *)

(** On an array without empty slots, [Sparse.encode] is [encode]. *)
Theorem sparse_encode_dense (values : list JsonPrimitive) (options : option EncodeOptions.t) :
  Sparse.encode (map Some values) options
  = encode (UArray (map Sparse.ofPrimitive values)) options.
Proof.
  unfold Sparse.encode, encode. cbn [normalizeValue]. unfold Sparse.normalizeValue.
  set (norm := fun p => asPrimitive (normalizeValue (Sparse.ofPrimitive p))).
  assert (Hn : map normalizeValue (map Sparse.ofPrimitive values)
               = map JPrim (map norm values)).
  { rewrite !map_map. apply map_ext. intros [s|x|b|]; try reflexivity.
    unfold norm. cbn [Sparse.ofPrimitive normalizeValue].
    destruct (JsNumber.isNegativeZero x); [reflexivity|].
    destruct (negb (JsNumber.isFinite x)); reflexivity. }
  rewrite Hn, encodeValue_primitives.
  assert (Hs : map (option_map norm) (map Some values) = map Some (map norm values)).
  { rewrite !map_map. reflexivity. }
  fold norm. rewrite Hs. generalize (map norm values) as vs. intro vs.
  unfold Sparse.encodeValue, Sparse.encodeArray, encodeInlineArrayLine.
  destruct vs as [|v vs]; [reflexivity|].
  unfold Sparse.encodeInlineArrayLine, Sparse.encodeAndJoinPrimitives, encodeAndJoinPrimitives.
  rewrite length_map, map_map.
  change (map Some (v :: vs)) with (Some v :: map Some vs). cbv iota.
  reflexivity.
Qed.

(** C5. The array [[,]], of length 1 with its one slot empty, is written
    with a space at the end of its line, whatever the options: [[1]: ] with
    the default ones.  encodeInlineArrayLine leaves the space after the
    header out for an array of length 0 only; this array has length 1 and the
    text of its joined values is empty. *)
Theorem encode_empty_slot_trailing_space (options : option EncodeOptions.t) :
  Sparse.encode [None] options
  = formatHeader 1 None None (ResolvedOptions.delimiter (resolveEncodeOptions options))
      (ResolvedOptions.lengthMarker (resolveEncodeOptions options)) ++ [SPACE]
  /\ Js.endsWith (Sparse.encode [None] options) [SPACE] = true
  /\ Sparse.encode [None] None = lit "[1]: ".
Proof.
  assert (H : Sparse.encode [None] options
              = formatHeader 1 None None
                  (ResolvedOptions.delimiter (resolveEncodeOptions options))
                  (ResolvedOptions.lengthMarker (resolveEncodeOptions options)) ++ [SPACE]).
  { unfold Sparse.encode, Sparse.encodeValue, Sparse.encodeArray, Sparse.encodeInlineArrayLine,
      Sparse.encodeAndJoinPrimitives, LineWriter.toString, LineWriter.push, LineWriter.new.
    cbn [Sparse.normalizeValue map option_map LineWriter.lines LineWriter.indentationString
         Js.repeatStr app Js.join length].
    reflexivity. }
  split; [exact H|]. split; [|reflexivity].
  rewrite H. rewrite endsWith_snoc. reflexivity.
Qed.
